(** * blueprint-linter: a shallow embedding and its checked properties

  The first part holds the model, one module for each source file and
  for each piece of the runtime the linter relies on:

  - [JsString], [NodePath], [Json]: strings, Node's [path] module and
    the values of [JSON.parse], as far as the linter uses them;
  - [FileSystem], [Glob], [Io]: the file system as a tree, the [glob]
    package, and programs as trees of file-system requests;
  - [Types], [NormalizeName], [DuplicateContractNames],
    [NamingConsistencyCheck], [WrapperNamingRule], [ScriptNamingRule],
    [InitializationCheck], [RootFolderCheck], [RootFolderCheckPlain]:
    the sources of the linter;
  - [Samples]: small file systems to evaluate the model on.

  The second part holds the properties, in modules named [...Facts].

  Strings are sequences of 8-bit code units ([string] of the Standard
  Library).  The regular expressions of the sources only mention ASCII
  classes, and [toLowerCase] is modelled on the ASCII range: a code unit
  outside ['A'..'Z'] is left unchanged.  Paths are POSIX paths. *)

From Stdlib Require Import Bool Arith NArith ZArith List String Ascii Lia.
From Stdlib Require Import DecimalString Permutation Sorted OrderedTypeEx.
Import ListNotations.
Open Scope string_scope.

Set Warnings "-register-all".

(* ------------------------------------------------------------------ *)
(** ** JavaScript strings *)

Module JsString.

Definition code (c : ascii) : N := N_of_ascii c.

Definition between (lo hi : N) (c : ascii) : bool :=
  ((lo <=? code c) && (code c <=? hi))%N.

(** [[A-Z]] *)
Definition isUpper (c : ascii) : bool := between 65 90 c.
(** [[a-z]] *)
Definition isLower (c : ascii) : bool := between 97 122 c.
(** [[0-9]] *)
Definition isDigit (c : ascii) : bool := between 48 57 c.
(** [[a-z0-9]] *)
Definition isLowerOrDigit (c : ascii) : bool := isLower c || isDigit c.
(** [[a-zA-Z0-9]] *)
Definition isAlnum (c : ascii) : bool := isLower c || isUpper c || isDigit c.
(** [[A-Za-z0-9_]] *)
Definition isWord (c : ascii) : bool := isAlnum c || Ascii.eqb c "_".
(** [\s] on the ASCII range: TAB, LF, VT, FF, CR and SPACE. *)
Definition isSpace (c : ascii) : bool := between 9 13 c || Ascii.eqb c " ".

Definition lowerChar (c : ascii) : ascii :=
  if isUpper c then ascii_of_N (code c + 32) else c.

(** [String.prototype.toLowerCase] *)
Fixpoint toLowerCase (s : string) : string :=
  match s with
  | EmptyString => EmptyString
  | String c t => String (lowerChar c) (toLowerCase t)
  end.

Fixpoint forallb (p : ascii -> bool) (s : string) : bool :=
  match s with
  | EmptyString => true
  | String c t => p c && forallb p t
  end.

(** [s.startsWith(p)] *)
Definition startsWith (s p : string) : bool := String.prefix p s.

(** The text left after a prefix: [Some rest] when [s = p ++ rest]. *)
Fixpoint stripPrefix (p s : string) : option string :=
  match p, s with
  | EmptyString, _ => Some s
  | String a p', String b s' =>
      if Ascii.eqb a b then stripPrefix p' s' else None
  | String _ _, EmptyString => None
  end.

(** [s.endsWith(p)] *)
Definition endsWith (s p : string) : bool :=
  Nat.leb (String.length p) (String.length s) &&
  String.eqb (String.substring (String.length s - String.length p)
                               (String.length p) s) p.

(** [s.substring(0, s.length - n)] *)
Definition dropRight (n : nat) (s : string) : string :=
  String.substring 0 (String.length s - n) s.

(** [xs.push(x)] *)
Definition push {A : Type} (xs : list A) (x : A) : list A := (xs ++ [x])%list.

(** [xs.includes(x)] on an array of strings *)
Definition includes (xs : list string) (x : string) : bool :=
  existsb (String.eqb x) xs.

(** [xs.join(sep)] *)
Definition join (sep : string) (xs : list string) : string :=
  String.concat sep xs.

(** [s.replace(/_/g, '')] *)
Fixpoint removeUnderscores (s : string) : string :=
  match s with
  | EmptyString => EmptyString
  | String c t =>
      if Ascii.eqb c "_" then removeUnderscores t
      else String c (removeUnderscores t)
  end.

End JsString.

(* ------------------------------------------------------------------ *)
(** ** Node's [path] module, POSIX flavour

    [path] belongs to the runtime and not to the linter; the functions
    below follow the algorithms of Node's [path.posix]. *)

Module NodePath.
Import JsString.

Definition slash : ascii := "/".
Definition isSlash (c : ascii) : bool := Ascii.eqb c slash.
Definition sep : string := "/".

Definition chars (s : string) : list ascii := list_ascii_of_string s.
Definition text (l : list ascii) : string := string_of_list_ascii l.

Fixpoint dropWhile {A} (p : A -> bool) (l : list A) : list A :=
  match l with
  | x :: t => if p x then dropWhile p t else l
  | [] => []
  end.

Fixpoint takeWhile {A} (p : A -> bool) (l : list A) : list A :=
  match l with
  | x :: t => if p x then x :: takeWhile p t else []
  | [] => []
  end.

(** [p.split('/')] *)
Fixpoint splitSlash (l : list ascii) (cur : list ascii) : list string :=
  match l with
  | [] => [text (rev cur)]
  | c :: t => if isSlash c then text (rev cur) :: splitSlash t []
              else splitSlash t (c :: cur)
  end.

Definition split (p : string) : list string := splitSlash (chars p) [].

Definition isAbsolute (p : string) : bool :=
  match p with String c _ => isSlash c | EmptyString => false end.

Definition hasTrailingSlash (p : string) : bool :=
  match rev (chars p) with c :: _ => isSlash c | [] => false end.

(** [normalizeString]: drops empty and ["."] portions and resolves [".."]
    against the portions kept so far ([acc] holds them, last first). *)
Fixpoint normalizeSegments (allowAboveRoot : bool) (segs acc : list string)
  : list string :=
  match segs with
  | [] => rev acc
  | s :: t =>
      if String.eqb s "" || String.eqb s "." then
        normalizeSegments allowAboveRoot t acc
      else if String.eqb s ".." then
        match acc with
        | top :: acc' =>
            if String.eqb top ".."
            then normalizeSegments allowAboveRoot t (s :: acc)
            else normalizeSegments allowAboveRoot t acc'
        | [] =>
            if allowAboveRoot
            then normalizeSegments allowAboveRoot t [s]
            else normalizeSegments allowAboveRoot t []
        end
      else normalizeSegments allowAboveRoot t (s :: acc)
  end.

(** [path.normalize] *)
Definition normalize (p : string) : string :=
  match p with
  | EmptyString => "."
  | _ =>
      let isAbs := isAbsolute p in
      let trailing := hasTrailingSlash p in
      let body := join "/" (normalizeSegments (negb isAbs) (split p) []) in
      match body with
      | EmptyString =>
          if isAbs then "/" else if trailing then "./" else "."
      | _ =>
          let body := if trailing then body ++ "/" else body in
          if isAbs then "/" ++ body else body
      end
  end.

(** [path.join(...parts)] *)
Definition pjoin (parts : list string) : string :=
  match filter (fun s => negb (String.eqb s "")) parts with
  | [] => "."
  | nonEmpty => normalize (join "/" nonEmpty)
  end.

(** [path.dirname] *)
Definition dirname (p : string) : string :=
  match chars p with
  | [] => "."
  | c0 :: rest =>
      let hasRoot := isSlash c0 in
      (* from the right: trailing slashes, then the last portion *)
      let r1 := dropWhile isSlash (rev rest) in
      let r2 := dropWhile (fun c => negb (isSlash c)) r1 in
      match r2 with
      | [] => if hasRoot then "/" else "."
      | _ :: r3 =>
          match r3 with
          | [] => if hasRoot then "//" else text [c0]
          | _ => text (c0 :: rev r3)
          end
      end
  end.

(** [path.basename(p)]: the last portion, trailing slashes ignored. *)
Definition basename (p : string) : string :=
  let r1 := dropWhile isSlash (rev (chars p)) in
  text (rev (takeWhile (fun c => negb (isSlash c)) r1)).

(** Index of the last ["."] of a portion, if any. *)
Fixpoint lastDot (l : list ascii) (i : nat) (found : option nat) : option nat :=
  match l with
  | [] => found
  | c :: t => lastDot t (S i) (if Ascii.eqb c "." then Some i else found)
  end.

(** [path.extname]: from the last dot of the last portion to its end;
    empty when there is no dot, when the only dot leads the portion, or
    when the portion is [".."]. *)
Definition extname (p : string) : string :=
  let b := basename p in
  match lastDot (chars b) 0 None with
  | None => ""
  | Some 0 => ""
  | Some i =>
      if String.eqb b ".." then ""
      else String.substring i (String.length b - i) b
  end.

(** [path.basename(p, ext)] *)
Definition basenameExt (p ext : string) : string :=
  let b := basename p in
  if String.eqb ext "" then b
  else if String.eqb ext p then ""
  else if endsWith b ext && Nat.ltb (String.length ext) (String.length b)
       then dropRight (String.length ext) b
       else b.

(** [path.parse(p).name] *)
Definition parseName (p : string) : string :=
  basenameExt (basename p) (extname p).

(** A text without a slash. *)
Definition noSlash (s : string) : Prop :=
  List.forallb (fun c => negb (isSlash c)) (chars s) = true.

(** The portions of a resolved path. *)
Definition segments (p : string) : list string :=
  normalizeSegments false (split p) [].

Fixpoint stripCommon (a b : list string) : list string * list string :=
  match a, b with
  | x :: a', y :: b' => if String.eqb x y then stripCommon a' b' else (a, b)
  | _, _ => (a, b)
  end.

(** [path.relative(from, to)] for absolute arguments: one [".."] for each
    portion of [from] below the common ancestor, then the rest of [to]. *)
Definition relative (from to : string) : string :=
  let (f, t) := stripCommon (segments from) (segments to) in
  join "/" (repeat ".." (List.length f) ++ t).

End NodePath.

(* ------------------------------------------------------------------ *)
(** ** The file system the linter reads

    A tree of directories and regular files (no symbolic links).  The
    order of the entries of a directory is the order in which the
    operating system lists them. *)

Module FileSystem.
Import JsString.

Inductive node : Type :=
| File (content : option string)      (* [None]: the file cannot be read *)
| Dir (entries : list (string * node)).

Record FS : Type := mkFS {
  tree : node;       (* the root directory ["/"] *)
  cwd : string       (* [process.cwd()], an absolute path *)
}.

Fixpoint lookupEntry (name : string) (es : list (string * node)) : option node :=
  match es with
  | [] => None
  | (n, child) :: t => if String.eqb n name then Some child else lookupEntry name t
  end.

(** Path resolution of the operating system: every step needs a directory;
    [up] holds the ancestors of [cur], nearest first.  The result is the
    node reached, with its ancestors. *)
Fixpoint walkFrom (segs : list string) (cur : node) (up : list node)
  : option (node * list node) :=
  match segs with
  | [] => Some (cur, up)
  | s :: t =>
      match cur with
      | File _ => None
      | Dir es =>
          if String.eqb s "" || String.eqb s "." then walkFrom t cur up
          else if String.eqb s ".." then
            match up with
            | parent :: up' => walkFrom t parent up'
            | [] => walkFrom t cur []
            end
          else
            match lookupEntry s es with
            | Some child => walkFrom t child (cur :: up)
            | None => None
            end
      end
  end.

Definition walk (segs : list string) (cur : node) (up : list node) : option node :=
  option_map fst (walkFrom segs cur up).

(** A name a directory entry can have. *)
Definition cleanName (name : string) : bool :=
  negb (String.eqb name "") && negb (String.eqb name ".") &&
  negb (String.eqb name "..") &&
  JsString.forallb (fun c => negb (Ascii.eqb c "/")) name.

Definition cleanPath (path : list string) : Prop :=
  Forall (fun name => cleanName name = true) path.

Fixpoint distinct (names : list string) : bool :=
  match names with
  | [] => true
  | n :: t => negb (includes t n) && distinct t
  end.

(** A tree the operating system can hold: in every directory the names
    are proper names and pairwise distinct. *)
Fixpoint wellFormed (n : node) : bool :=
  match n with
  | File _ => true
  | Dir es =>
      List.forallb cleanName (map fst es) && distinct (map fst es) &&
      (fix all (es : list (string * node)) : bool :=
         match es with
         | [] => true
         | (_, child) :: t => wellFormed child && all t
         end) es
  end.

Definition resolve (fs : FS) (p : string) : option node :=
  match p with
  | EmptyString => None
  | _ =>
      let segs := if NodePath.isAbsolute p then NodePath.split p
                  else (NodePath.split (cwd fs) ++ NodePath.split p)%list in
      walk segs (tree fs) []
  end.

(** [fs.existsSync(p)] *)
Definition existsSync (fs : FS) (p : string) : bool :=
  match resolve fs p with Some _ => true | None => false end.

Definition enoent (syscall p : string) : string :=
  "ENOENT: no such file or directory, " ++ syscall ++ " '" ++ p ++ "'".

(** [fs.lstatSync(p).isDirectory()]; the call throws on a missing path. *)
Definition lstatIsDirectory (fs : FS) (p : string) : string + bool :=
  match resolve fs p with
  | Some (Dir _) => inr true
  | Some (File _) => inr false
  | None => inl (enoent "lstat" p)
  end.

(** [fs.existsSync(p) && fs.lstatSync(p).isDirectory()] as a value. *)
Definition isDirectoryAt (fs : FS) (p : string) : bool :=
  match lstatIsDirectory fs p with
  | inr true => true
  | _ => false
  end.

(** [fs.readdirSync(p)] *)
Definition readdirSync (fs : FS) (p : string) : string + list string :=
  match resolve fs p with
  | Some (Dir es) => inr (map fst es)
  | Some (File _) => inl ("ENOTDIR: not a directory, scandir '" ++ p ++ "'")
  | None => inl (enoent "scandir" p)
  end.

(** [fs.readFileSync(p, 'utf-8')] *)
Definition readFileSync (fs : FS) (p : string) : string + string :=
  match resolve fs p with
  | Some (File (Some text)) => inr text
  | Some (File None) => inl ("EACCES: permission denied, open '" ++ p ++ "'")
  | Some (Dir _) => inl "EISDIR: illegal operation on a directory, read"
  | None => inl (enoent "open" p)
  end.

(** Every regular file of a tree, by its portions below the root of the
    tree, in listing order. *)
Fixpoint allFiles (n : node) : list (list string) :=
  match n with
  | File _ => [[]]
  | Dir es =>
      (fix go (es : list (string * node)) : list (list string) :=
         match es with
         | [] => []
         | (name, child) :: t => (map (cons name) (allFiles child) ++ go t)%list
         end) es
  end.

Definition absolutePath (segs : list string) : string :=
  "/" ++ join "/" segs.

End FileSystem.

(* ------------------------------------------------------------------ *)
(** ** The [glob] package

    [glob] is a dependency of the linter.  A pattern is kept in parsed
    form, one item per path portion; brace sets are already expanded into
    several patterns.  Matching follows minimatch: [*] stands for any run
    of characters inside one portion, [**] for any run of portions; without
    the [dot] option neither matches a name that starts with a dot.
    Ignore patterns are matched with [dot] set. *)

Module Glob.
Import JsString.

Inductive tok : Type :=
| TChar (c : ascii)
| TStar.

Inductive portion : Type :=
| Lit (name : string)
| Wild (toks : list tok)
| GlobStar.

Definition pattern : Type := list portion.

(** The pattern portion [*suffix], such as [*.ts]. *)
Definition starSuffix (suffix : string) : portion :=
  Wild (TStar :: map TChar (list_ascii_of_string suffix)).

(** The pattern portion [*.*]. *)
Definition starDotStar : portion := Wild [TStar; TChar "."; TStar].

(** The literal portions of an absolute directory path. *)
Definition literal (dir : string) : pattern :=
  map Lit (NodePath.segments dir).

Fixpoint wildMatch (toks : list tok) (s : string) : bool :=
  match toks with
  | [] => match s with EmptyString => true | _ => false end
  | TChar c :: r =>
      match s with
      | String d s' => Ascii.eqb c d && wildMatch r s'
      | EmptyString => false
      end
  | TStar :: r =>
      (fix star (s : string) : bool :=
         wildMatch r s ||
         match s with
         | String _ s' => star s'
         | EmptyString => false
         end) s
  end.

Definition dotName (name : string) : bool := startsWith name ".".

Definition startsWithLiteralDot (toks : list tok) : bool :=
  match toks with
  | TChar c :: _ => Ascii.eqb c "."
  | _ => false
  end.

Definition portionMatch (dot : bool) (toks : list tok) (name : string) : bool :=
  (dot || negb (dotName name) || startsWithLiteralDot toks) &&
  wildMatch toks name.

Definition starOk (dot : bool) (name : string) : bool :=
  dot || negb (dotName name).

Fixpoint pathMatch (dot : bool) (pat : pattern) (path : list string) : bool :=
  match pat with
  | [] => match path with [] => true | _ => false end
  | Lit n :: r =>
      match path with
      | x :: path' => String.eqb x n && pathMatch dot r path'
      | [] => false
      end
  | Wild toks :: r =>
      match path with
      | x :: path' => portionMatch dot toks x && pathMatch dot r path'
      | [] => false
      end
  | GlobStar :: r =>
      match r with
      | [] =>
          (* a final [**] swallows what is left, and needs something left *)
          match path with
          | [] => false
          | _ => List.forallb (starOk dot) path
          end
      | _ =>
          (fix star (path : list string) : bool :=
             pathMatch dot r path ||
             match path with
             | x :: path' => starOk dot x && star path'
             | [] => false
             end) path
      end
  end.

Definition matchesAny (dot : bool) (pats : list pattern) (path : list string) : bool :=
  existsb (fun p => pathMatch dot p path) pats.

(** [glob(patterns, { nodir: true, ignore, absolute: true })]: the regular
    files whose path matches one of the patterns and none of the ignore
    patterns, each once. *)
Definition glob (fs : FileSystem.FS) (patterns ignore : list pattern) : list string :=
  map FileSystem.absolutePath
    (filter (fun path => matchesAny false patterns path &&
                         negb (matchesAny true ignore path))
            (FileSystem.allFiles (FileSystem.tree fs))).

(** The ignore pattern [**/node_modules/**]. *)
Definition ignoreNodeModules : pattern := [GlobStar; Lit "node_modules"; GlobStar].

(** The ignore pattern [**/*.d.ts]. *)
Definition ignoreDeclarations : pattern := [GlobStar; starSuffix ".d.ts"].

End Glob.

(* ------------------------------------------------------------------ *)
(** ** Programs that read the file system

    A program is a tree of requests to the file system; [run] answers them
    from a fixed file system and records them.  Exceptions are [Throw]. *)

Module Io.

Inductive event : Type :=
| EvExists (p : string)
| EvLstat (p : string)
| EvReaddir (p : string)
| EvReadFile (p : string)
| EvGlob (patterns ignore : list Glob.pattern).

Inductive io (A : Type) : Type :=
| Ret (a : A)
| Throw (message : string)
| ExistsSync (p : string) (k : bool -> io A)
| LstatSync (p : string) (k : string + bool -> io A)
| ReaddirSync (p : string) (k : string + list string -> io A)
| ReadFile (p : string) (k : string + string -> io A)
| GlobFiles (patterns ignore : list Glob.pattern) (k : list string -> io A).

Arguments Ret {A} a.
Arguments Throw {A} message.
Arguments ExistsSync {A} p k.
Arguments LstatSync {A} p k.
Arguments ReaddirSync {A} p k.
Arguments ReadFile {A} p k.
Arguments GlobFiles {A} patterns ignore k.

Fixpoint bind {A B : Type} (m : io A) (f : A -> io B) : io B :=
  match m with
  | Ret a => f a
  | Throw e => Throw e
  | ExistsSync p k => ExistsSync p (fun x => bind (k x) f)
  | LstatSync p k => LstatSync p (fun x => bind (k x) f)
  | ReaddirSync p k => ReaddirSync p (fun x => bind (k x) f)
  | ReadFile p k => ReadFile p (fun x => bind (k x) f)
  | GlobFiles ps ig k => GlobFiles ps ig (fun x => bind (k x) f)
  end.

(** [try { body } catch (error) { handler(error.message) }] *)
Fixpoint tryCatch {A : Type} (body : io A) (handler : string -> io A) : io A :=
  match body with
  | Ret a => Ret a
  | Throw e => handler e
  | ExistsSync p k => ExistsSync p (fun x => tryCatch (k x) handler)
  | LstatSync p k => LstatSync p (fun x => tryCatch (k x) handler)
  | ReaddirSync p k => ReaddirSync p (fun x => tryCatch (k x) handler)
  | ReadFile p k => ReadFile p (fun x => tryCatch (k x) handler)
  | GlobFiles ps ig k => GlobFiles ps ig (fun x => tryCatch (k x) handler)
  end.

Declare Scope io_scope.
Delimit Scope io_scope with io.
Notation "x <- m ;; k" := (bind m (fun x => k))
  (at level 61, m at next level, right associativity) : io_scope.
Open Scope io_scope.

Definition orThrow {A : Type} (r : string + A) : io A :=
  match r with
  | inl e => Throw e
  | inr a => Ret a
  end.

Definition existsSync (p : string) : io bool := ExistsSync p Ret.
Definition lstatIsDirectory (p : string) : io bool := LstatSync p orThrow.
Definition readdirSync (p : string) : io (list string) := ReaddirSync p orThrow.
Definition readFile (p : string) : io string := ReadFile p orThrow.
Definition glob (patterns ignore : list Glob.pattern) : io (list string) :=
  GlobFiles patterns ignore Ret.

(** [for (const x of xs) body]: the loop body threads the state [s]. *)
Fixpoint forEach {A S : Type} (xs : list A) (body : S -> A -> io S) (s : S) : io S :=
  match xs with
  | [] => Ret s
  | x :: t => s' <- body s x ;; forEach t body s'
  end.

(** [xs.some(p)]: stops at the first hit. *)
Fixpoint some {A : Type} (p : A -> io bool) (xs : list A) : io bool :=
  match xs with
  | [] => Ret false
  | x :: t => b <- p x ;; if b then Ret true else some p t
  end.

(** [xs.map(f)] with an effectful [f]. *)
Fixpoint mapM {A B : Type} (f : A -> io B) (xs : list A) : io (list B) :=
  match xs with
  | [] => Ret []
  | x :: t => y <- f x ;; ys <- mapM f t ;; Ret (y :: ys)
  end.

(** The outcome of a program on a file system, and the requests it made. *)
Fixpoint run {A : Type} (fs : FileSystem.FS) (m : io A) : (string + A) * list event :=
  match m with
  | Ret a => (inr a, [])
  | Throw e => (inl e, [])
  | ExistsSync p k =>
      let (r, t) := run fs (k (FileSystem.existsSync fs p)) in (r, EvExists p :: t)
  | LstatSync p k =>
      let (r, t) := run fs (k (FileSystem.lstatIsDirectory fs p)) in (r, EvLstat p :: t)
  | ReaddirSync p k =>
      let (r, t) := run fs (k (FileSystem.readdirSync fs p)) in (r, EvReaddir p :: t)
  | ReadFile p k =>
      let (r, t) := run fs (k (FileSystem.readFileSync fs p)) in (r, EvReadFile p :: t)
  | GlobFiles ps ig k =>
      let (r, t) := run fs (k (Glob.glob fs ps ig)) in (r, EvGlob ps ig :: t)
  end.

Definition result {A : Type} (fs : FileSystem.FS) (m : io A) : string + A :=
  fst (run fs m).

Definition trace {A : Type} (fs : FileSystem.FS) (m : io A) : list event :=
  snd (run fs m).

End Io.

(* ------------------------------------------------------------------ *)
(** ** src/types.ts *)

Module Types.

Inductive ErrorType : Type :=
| StructureValidation
| BrokenProject
| NamingConsistency
| MissingContract.

Record LinterError : Type := mkError {
  type : ErrorType;
  file : string;
  message : string
}.

Definition ErrorType_eqb (a b : ErrorType) : bool :=
  match a, b with
  | StructureValidation, StructureValidation
  | BrokenProject, BrokenProject
  | NamingConsistency, NamingConsistency
  | MissingContract, MissingContract => true
  | _, _ => false
  end.

Definition isNaming (e : LinterError) : bool :=
  ErrorType_eqb (type e) NamingConsistency.

(** The number of diagnostics reported for the file [p]. *)
Definition countFor (p : string) (errors : list LinterError) : nat :=
  List.length (filter (fun e => String.eqb (file e) p) errors).

End Types.

(* ------------------------------------------------------------------ *)
(** ** src/utils/normalizeName.ts: the snake_case normaliser *)

Module NormalizeName.
Import JsString.

(** [.replace(/([a-z0-9])([A-Z])/g, '$1_$2')]: the scan goes left to
    right; after a match of two characters it resumes behind them. *)
Fixpoint replaceLowerUpper (s : string) : string :=
  match s with
  | String a ((String b t2) as t1) =>
      if isLowerOrDigit a && isUpper b
      then String a (String "_" (String b (replaceLowerUpper t2)))
      else String a (replaceLowerUpper t1)
  | _ => s
  end.

(** [.replace(/([A-Z])([A-Z][a-z])/g, '$1_$2')]: a match takes three
    characters and the scan resumes behind them. *)
Fixpoint replaceAcronym (s : string) : string :=
  match s with
  | String a ((String b ((String c t3) as t2)) as t1) =>
      if isUpper a && isUpper b && isLower c
      then String a (String "_" (String b (String c (replaceAcronym t3))))
      else String a (replaceAcronym t1)
  | String a t1 => String a (replaceAcronym t1)
  | EmptyString => EmptyString
  end.

Definition normalizeToSnakeCase (str : string) : string :=
  match str with
  | EmptyString => ""                       (* if (!str) return '' *)
  | _ => toLowerCase (replaceAcronym (replaceLowerUpper str))
  end.

(** [base.replace(/\.(spec|test)$/, '')] *)
Definition stripTestSuffix (base : string) : string :=
  if endsWith base ".spec" || endsWith base ".test"
  then dropRight 5 base else base.

Definition getNormalizedBaseName (filePath : string) : string :=
  let base := NodePath.basenameExt filePath (NodePath.extname filePath) in
  if endsWith base ".spec" || endsWith base ".test"
  then normalizeToSnakeCase (stripTestSuffix base)
  else normalizeToSnakeCase base.

(** *** The algorithm in the words of the specification

    A boundary lies between two neighbouring characters [a] and [b]
    (a) when [a] is a lowercase letter or digit and [b] is uppercase, or
    (b) when [a] and [b] are uppercase and the character after [b] is
    lowercase.  An underscore is put on every boundary and the result is
    lowercased. *)

Definition nextIsLower (rest : string) : bool :=
  match rest with
  | String c _ => isLower c
  | EmptyString => false
  end.

Definition boundary (a b : ascii) (rest : string) : bool :=
  (isLowerOrDigit a && isUpper b) ||
  (isUpper a && isUpper b && nextIsLower rest).

Fixpoint insertBoundaries (s : string) : string :=
  match s with
  | String a ((String b rest) as t1) =>
      if boundary a b rest
      then String a (String "_" (insertBoundaries t1))
      else String a (insertBoundaries t1)
  | _ => s
  end.

Definition snakeCaseByBoundaries (s : string) : string :=
  toLowerCase (insertBoundaries s).

End NormalizeName.

(* ------------------------------------------------------------------ *)
(** ** src/rules/duplicateContractNames.ts *)

Module DuplicateContractNames.
Import JsString Types Io.

Definition normalizeContractName (filename : string) : string :=
  let baseNameWithExt := NodePath.basename filename in
  let baseName := NodePath.parseName baseNameWithExt in
  removeUnderscores (toLowerCase baseName).

(** [Map<string, string[]>], entries in insertion order.  [mapPush]
    is the body of the first loop: create the entry if the key is new,
    then push the path. *)
Definition NamesMap : Type := list (string * list string).

Definition keysOf (m : NamesMap) : list string := map fst m.

Fixpoint mapPush (key fullPath : string) (m : NamesMap) : NamesMap :=
  match m with
  | [] => [(key, [fullPath])]
  | (k, paths) :: t =>
      if String.eqb k key then (k, push paths fullPath) :: t
      else (k, paths) :: mapPush key fullPath t
  end.

Definition buildMap (files : list string) : NamesMap :=
  fold_left (fun m fullPath => mapPush (normalizeContractName fullPath) fullPath m)
            files [].

Definition duplicateMessage (relativeFilePaths : list string) : string :=
  "Duplicate filename detected in 'contracts' directory: " ++
  join ", " relativeFilePaths ++
  ". Filenames should be unique, ignoring case, underscores, and extensions.".

(** The body of the second loop, for one entry of the map. *)
Definition entryErrors (projectRoot : string) (filePaths : list string)
  : list LinterError :=
  if Nat.ltb 1 (List.length filePaths) then
    let relativeFilePaths := map (NodePath.relative projectRoot) filePaths in
    let message := duplicateMessage relativeFilePaths in
    map (fun filePath => mkError NamingConsistency filePath message)
        relativeFilePaths
  else [].

Definition reportDuplicates (projectRoot : string) (files : list string)
  : list LinterError :=
  flat_map (fun entry => entryErrors projectRoot (snd entry)) (buildMap files).

(** [path.resolve(projectRoot, 'contracts', '**', '*.*')] *)
Definition absolutePattern (projectRoot : string) : Glob.pattern :=
  (Glob.literal projectRoot ++ [Glob.Lit "contracts"; Glob.GlobStar; Glob.starDotStar])%list.

(** The call to [glob] has no [ignore] option.  [glob] is asked for files
    only, so the [isFile] test of the first loop always passes. *)
Definition lintDuplicateContractNames (projectRoot : string) : io (list LinterError) :=
  files <- glob [absolutePattern projectRoot] [] ;;
  Ret (reportDuplicates projectRoot files).

(** *** The detector in the words of the specification *)

(** The keys of the files, each once, in order of first appearance. *)
Fixpoint distinctKeys (files : list string) (seen : list string) : list string :=
  match files with
  | [] => []
  | f :: t =>
      let k := normalizeContractName f in
      if includes seen k then distinctKeys t seen
      else k :: distinctKeys t (k :: seen)
  end.

(** The member files of a key. *)
Definition members (key : string) (files : list string) : list string :=
  filter (fun f => String.eqb (normalizeContractName f) key) files.

Definition reportByKey (projectRoot : string) (files : list string)
  : list LinterError :=
  flat_map (fun key => entryErrors projectRoot (members key files))
           (distinctKeys files []).

End DuplicateContractNames.

(* ------------------------------------------------------------------ *)
(** ** src/checks/namingConsistency.ts *)

Module NamingConsistencyCheck.
Import JsString Types Io.

Definition DEFAULT_DIRS : list string := ["contracts"; "wrappers"; "scripts"; "tests"].
Definition CONTRACT_EXTENSIONS : list string := [".tact"; ".fc"; ".func"].
Definition TS_EXTENSIONS : list string := [".ts"].
Definition TEST_EXTENSIONS : list string := [".spec.ts"; ".test.ts"].

Record FileInfo : Type := mkFileInfo {
  filePath : string;
  dir : string;
  baseName : string;
  normalizedBaseName : string;
  isContract : bool;
  isTs : bool;
  isTest : bool
}.

(** For one target directory: [dirPath/**/*{.tact,.fc,.func,.ts,.spec.ts,.test.ts}],
    the brace set expanded. *)
Definition allRelevantExtPattern (projectRoot dir : string) : list Glob.pattern :=
  let dirPath := NodePath.pjoin [projectRoot; dir] in
  map (fun ext => (Glob.literal dirPath ++ [Glob.GlobStar; Glob.starSuffix ext])%list)
      (CONTRACT_EXTENSIONS ++ TS_EXTENSIONS ++ TEST_EXTENSIONS)%list.

Definition patterns (projectRoot : string) (targetDirs : list string) : list Glob.pattern :=
  flat_map (allRelevantExtPattern projectRoot) targetDirs.

(** The body of the loop over the glob results; [None] is [continue]. *)
Definition classify (projectRoot : string) (targetDirs : list string)
           (absoluteFilePath : string) : option FileInfo :=
  let relativeFilePath := NodePath.relative projectRoot absoluteFilePath in
  if startsWith relativeFilePath ".." then None
  else
    let dir := NodePath.basename (NodePath.dirname absoluteFilePath) in
    let ext := NodePath.extname absoluteFilePath in
    if endsWith absoluteFilePath ".d.ts" then None
    else
      let baseName := NodePath.basenameExt absoluteFilePath ext in
      let isContract := includes CONTRACT_EXTENSIONS ext in
      let isTest := existsb (fun testExt => endsWith absoluteFilePath testExt)
                            TEST_EXTENSIONS in
      let isTs := negb isTest && includes TS_EXTENSIONS ext in
      let relativeDirPathOfFile := NodePath.dirname relativeFilePath in
      let isInTargetDir :=
        existsb (fun targetDir =>
                   String.eqb relativeDirPathOfFile targetDir ||
                   startsWith relativeDirPathOfFile (targetDir ++ NodePath.sep))
                targetDirs in
      if negb isInTargetDir then None
      else Some {| filePath := relativeFilePath;
                   dir := dir;
                   baseName := baseName;
                   normalizedBaseName :=
                     NormalizeName.getNormalizedBaseName absoluteFilePath;
                   isContract := isContract;
                   isTs := isTs;
                   isTest := isTest |}.

Fixpoint collect {A B : Type} (f : A -> option B) (xs : list A) : list B :=
  match xs with
  | [] => []
  | x :: t => match f x with
              | Some y => y :: collect f t
              | None => collect f t
              end
  end.

(** [new Map(files.map(f => [f.filePath, f]))]: a later value replaces an
    earlier one under the same key and keeps its place. *)
Fixpoint mapSet (key : string) (f : FileInfo) (m : list (string * FileInfo))
  : list (string * FileInfo) :=
  match m with
  | [] => [(key, f)]
  | (k, g) :: t =>
      if String.eqb k key then (k, f) :: t else (k, g) :: mapSet key f t
  end.

Definition uniqueFiles (files : list FileInfo) : list FileInfo :=
  map snd (fold_left (fun m f => mapSet (filePath f) f m) files []).

Definition findFiles (projectRoot : string) (targetDirs : list string)
  : io (list FileInfo) :=
  globResults <- glob (patterns projectRoot targetDirs) [Glob.ignoreNodeModules] ;;
  Ret (uniqueFiles (collect (classify projectRoot targetDirs) globResults)).

Definition namingMessage (expectedFullName actualFullName : string) : string :=
  "Contract file should use snake_case. Expected: '" ++ expectedFullName ++
  "', Actual: '" ++ actualFullName ++ "'.".

(** The body of the loop of [performConsistencyCheck]. *)
Definition contractErrors (contract : FileInfo) : list LinterError :=
  let expectedSnakeCaseBaseName := normalizedBaseName contract in
  if negb (String.eqb (baseName contract) expectedSnakeCaseBaseName) then
    let expectedFullName :=
      expectedSnakeCaseBaseName ++ NodePath.extname (filePath contract) in
    let actualFullName :=
      baseName contract ++ NodePath.extname (filePath contract) in
    [mkError NamingConsistency (filePath contract)
             (namingMessage expectedFullName actualFullName)]
  else [].

Definition performConsistencyCheck (contractFiles : list FileInfo) : list LinterError :=
  flat_map contractErrors contractFiles.

Definition checkNamingConsistency (projectRoot : string) (targetDirs : list string)
  : io (list LinterError) :=
  files <- findFiles projectRoot targetDirs ;;
  let contractFilesFound := filter isContract files in
  match contractFilesFound with
  | [] => Ret []
  | _ => Ret (performConsistencyCheck contractFilesFound)
  end.

End NamingConsistencyCheck.

(* ------------------------------------------------------------------ *)
(** ** src/rules/wrapperNamingRule.ts *)

Module WrapperNamingRule.
Import JsString Types Io.

(** [/^[A-Z][a-zA-Z0-9]*$/.test(s)] *)
Definition PASCAL_CASE_REGEX (s : string) : bool :=
  match s with
  | String c rest => isUpper c && forallb isAlnum rest
  | EmptyString => false
  end.

Definition COMPILE_TS_SUFFIX : string := ".compile.ts".
Definition TS_SUFFIX : string := ".ts".

Definition andThen {A B : Type} (o : option A) (f : A -> option B) : option B :=
  match o with
  | Some a => f a
  | None => None
  end.

Fixpoint dropSpaces (s : string) : string :=
  match s with
  | String c t => if isSpace c then dropSpaces t else s
  | EmptyString => EmptyString
  end.

(** [\s+]: what follows it in the expression starts with a letter, so the
    longest run of blanks is the only one that can lead to a match. *)
Definition spaces1 (s : string) : option string :=
  match s with
  | String c t => if isSpace c then Some (dropSpaces t) else None
  | EmptyString => None
  end.

Fixpoint takeWord (s : string) : string :=
  match s with
  | String c t => if isWord c then String c (takeWord t) else EmptyString
  | EmptyString => EmptyString
  end.

(** [class\s+([A-Za-z0-9_]+)], returning the group. *)
Definition classClause (s : string) : option string :=
  andThen (stripPrefix "class" s) (fun s1 =>
  andThen (spaces1 s1) (fun s2 =>
  match takeWord s2 with
  | EmptyString => None
  | name => Some name
  end)).

(** [export\s+(?:abstract\s+)?class\s+([A-Za-z0-9_]+)] at the start of
    [s]: the optional group is tried first, then skipped. *)
Definition exportedClassAt (s : string) : option string :=
  andThen (stripPrefix "export" s) (fun s1 =>
  andThen (spaces1 s1) (fun s2 =>
  match andThen (stripPrefix "abstract" s2) (fun s3 =>
        andThen (spaces1 s3) classClause) with
  | Some name => Some name
  | None => classClause s2
  end)).

(** [content.match(EXPORTED_CLASS_REGEX)]: group 1 of the leftmost match. *)
Fixpoint EXPORTED_CLASS_REGEX (content : string) : option string :=
  match exportedClassAt content with
  | Some name => Some name
  | None =>
      match content with
      | String _ t => EXPORTED_CLASS_REGEX t
      | EmptyString => None
      end
  end.

Definition formatMessage (baseName fileName : string) : string :=
  "Wrapper file name part '" ++ baseName ++ "' in '" ++ fileName ++
  "' should be in PascalCase.".

Definition mismatchMessage (fileName baseName exportedClassName : string) : string :=
  "Wrapper filename '" ++ fileName ++ "' (base '" ++ baseName ++
  "') does not match the exported class name '" ++ exportedClassName ++ "'.".

Definition readFailureMessage (fileName message : string) : string :=
  "Failed to read wrapper file '" ++ fileName ++ "': " ++ message.

(** The suffix split at the head of the loop body: the part of the file
    name that must be PascalCase and whether the file is a [.compile.ts]
    one; [None] is [continue]. *)
Definition splitSuffix (fileName : string) : option (string * bool) :=
  if endsWith fileName COMPILE_TS_SUFFIX then
    Some (dropRight (String.length COMPILE_TS_SUFFIX) fileName, true)
  else if endsWith fileName TS_SUFFIX then
    Some (dropRight (String.length TS_SUFFIX) fileName, false)
  else None.

(** The class-name comparison inside the inner [try]. *)
Definition compareExportedClass (relativePath fileName baseName content : string)
  : list LinterError :=
  match EXPORTED_CLASS_REGEX content with
  | None => []
  | Some exportedClassName =>
      if negb (String.eqb baseName exportedClassName) then
        [mkError NamingConsistency relativePath
                 (mismatchMessage fileName baseName exportedClassName)]
      else []
  end.

(** The body of the loop, for one file found by [glob]; it returns the
    diagnostics it pushes. *)
Definition checkWrapperFile (projectRoot fullPath : string) : io (list LinterError) :=
  let relativePath := NodePath.relative projectRoot fullPath in
  let fileName := NodePath.basename fullPath in
  match splitSuffix fileName with
  | None => Ret []
  | Some (baseName, isCompileFile) =>
      if negb (PASCAL_CASE_REGEX baseName) then
        Ret [mkError NamingConsistency relativePath (formatMessage baseName fileName)]
      else if negb isCompileFile then
        tryCatch
          (content <- readFile fullPath ;;
           Ret (compareExportedClass relativePath fileName baseName content))
          (fun readError =>
             Ret [mkError StructureValidation relativePath
                          (readFailureMessage fileName readError)])
      else Ret []
  end.

(** [path.resolve(wrapperDir, '**', '*.ts')] *)
Definition absolutePattern (projectRoot : string) : Glob.pattern :=
  (Glob.literal (NodePath.pjoin [projectRoot; "wrappers"]) ++
   [Glob.GlobStar; Glob.starSuffix ".ts"])%list.

Definition checkWrapperNaming (projectRoot : string) : io (list LinterError) :=
  files <- glob [absolutePattern projectRoot]
                [Glob.ignoreNodeModules; Glob.ignoreDeclarations] ;;
  forEach files
          (fun errors fullPath =>
             more <- checkWrapperFile projectRoot fullPath ;;
             Ret (errors ++ more)%list)
          [].

End WrapperNamingRule.

(* ------------------------------------------------------------------ *)
(** ** src/rules/scriptNamingRule.ts *)

Module ScriptNamingRule.
Import JsString Types Io.

(** [/^[a-z][a-zA-Z0-9]*$/.test(s)] *)
Definition LOWER_CAMEL_CASE_REGEX (s : string) : bool :=
  match s with
  | String c rest => isLower c && forallb isAlnum rest
  | EmptyString => false
  end.

Definition scriptMessage (fileName : string) : string :=
  "Script file name '" ++ fileName ++ "' should be in lowerCamelCase.".

Definition checkScriptFile (projectRoot fullPath : string) : list LinterError :=
  let relativePath := NodePath.relative projectRoot fullPath in
  let baseName := NodePath.parseName fullPath in
  if negb (LOWER_CAMEL_CASE_REGEX baseName) then
    [mkError NamingConsistency relativePath
             (scriptMessage (NodePath.basename fullPath))]
  else [].

Definition absolutePattern (projectRoot : string) : Glob.pattern :=
  (Glob.literal (NodePath.pjoin [projectRoot; "scripts"]) ++
   [Glob.GlobStar; Glob.starSuffix ".ts"])%list.

Definition checkScriptNaming (projectRoot : string) : io (list LinterError) :=
  files <- glob [absolutePattern projectRoot]
                [Glob.ignoreNodeModules; Glob.ignoreDeclarations] ;;
  Ret (flat_map (checkScriptFile projectRoot) files).

End ScriptNamingRule.

(* ------------------------------------------------------------------ *)
(** ** JavaScript values read from JSON *)

Module Json.
Import JsString.

(** The value [JSON.parse] returns.  An object lists each of its keys
    once.  Of a number the linter only observes whether it is zero. *)
Inductive json : Type :=
| JNull
| JBool (b : bool)
| JNumber (n : Z)
| JString (s : string)
| JArray (items : list json)
| JObject (props : list (string * json)).

Definition Props : Type := list (string * json).

(** Truthiness; [None] is [undefined]. *)
Definition truthy (v : option json) : bool :=
  match v with
  | None => false
  | Some JNull => false
  | Some (JBool b) => b
  | Some (JNumber n) => negb (Z.eqb n 0)
  | Some (JString s) => negb (String.eqb s "")
  | Some (JArray _) => true
  | Some (JObject _) => true
  end.

Fixpoint getOwn (key : string) (props : Props) : option json :=
  match props with
  | [] => None
  | (k, v) :: t => if String.eqb k key then Some v else getOwn key t
  end.

(** [value[key]] for a key that no prototype defines and that is not an
    index: reading a property of [null] throws a [TypeError], a value that
    is not an object has no such property. *)
Definition getProperty (value : json) (key : string) : string + option json :=
  match value with
  | JNull => inl ("Cannot read properties of null (reading '" ++ key ++ "')")
  | JObject props => inr (getOwn key props)
  | _ => inr None
  end.

(** [value || {}] *)
Definition orEmptyObject (value : option json) : json :=
  match value with
  | Some v => if truthy value then v else JObject []
  | None => JObject []
  end.

Definition indexKey (i : nat) : string :=
  NilEmpty.string_of_uint (Nat.to_uint i).

Fixpoint indexed {A : Type} (f : A -> json) (xs : list A) (i : nat) : Props :=
  match xs with
  | [] => []
  | x :: t => (indexKey i, f x) :: indexed f t (S i)
  end.

(** The own enumerable properties a spread copies. *)
Definition ownProperties (value : json) : Props :=
  match value with
  | JObject props => props
  | JArray items => indexed (fun v => v) items 0
  | JString s => indexed (fun c => JString (String c "")) (list_ascii_of_string s) 0
  | _ => []
  end.

Fixpoint setProperty (key : string) (v : json) (props : Props) : Props :=
  match props with
  | [] => [(key, v)]
  | (k, w) :: t =>
      if String.eqb k key then (k, v) :: t else (k, w) :: setProperty key v t
  end.

Definition assign (target source : Props) : Props :=
  fold_left (fun acc kv => setProperty (fst kv) (snd kv) acc) source target.

(** [{ ...a, ...b }] *)
Definition spread2 (a b : json) : Props :=
  assign (assign [] (ownProperties a)) (ownProperties b).

End Json.

(* ------------------------------------------------------------------ *)
(** ** src/checks/initializationCheck.ts *)

Module InitializationCheck.
Import JsString Types Io Json.

Definition REQUIRED_DEP : string := "@ton-ai-core/blueprint".
Definition REQUIRED_CONFIG : string := "blueprint.config.ts".
Definition REQUIRED_NODE_MODULES_DIR : string :=
  NodePath.pjoin ["node_modules"; "@ton-ai-core"; "blueprint"].

Definition missingManifest (projectRoot : string) : LinterError :=
  mkError StructureValidation projectRoot "Missing 'package.json'".

Definition missingDependency (packageJsonPath : string) : LinterError :=
  mkError StructureValidation packageJsonPath
          ("Key dependency '" ++ REQUIRED_DEP ++ "' not found.").

Definition unreadableManifest (packageJsonPath message : string) : LinterError :=
  mkError StructureValidation packageJsonPath
          ("Error reading or parsing: " ++ message).

Definition missingConfig (projectRoot : string) : LinterError :=
  mkError StructureValidation projectRoot
          ("Configuration file '" ++ REQUIRED_CONFIG ++ "' not found.").

Definition missingModule (projectRoot : string) : LinterError :=
  mkError StructureValidation projectRoot
          ("Local blueprint installation not found at '" ++
           REQUIRED_NODE_MODULES_DIR ++ "'. Did you run 'npm install'?").

Section Runtime.

(** [JSON.parse] of the runtime: the value, or the message of the
    [SyntaxError]. *)
Variable JSON_parse : string -> string + json.

(** The [try] block: what it appends to [errors]. *)
Definition dependencyCheck (packageJsonPath : string) (errors : list LinterError)
  : io (list LinterError) :=
  tryCatch
    (packageJsonContent <- readFile packageJsonPath ;;
     packageJson <- orThrow (JSON_parse packageJsonContent) ;;
     dependencies <- orThrow (getProperty packageJson "dependencies") ;;
     devDependencies <- orThrow (getProperty packageJson "devDependencies") ;;
     let allDeps := spread2 (orEmptyObject dependencies)
                            (orEmptyObject devDependencies) in
     if negb (truthy (getOwn REQUIRED_DEP allDeps))
     then Ret (push errors (missingDependency packageJsonPath))
     else Ret errors)
    (fun message =>
       Ret (push errors (unreadableManifest packageJsonPath message))).

Definition validateProjectStructure (projectRoot : string) : io (list LinterError) :=
  let errors : list LinterError := [] in
  let packageJsonPath := NodePath.pjoin [projectRoot; "package.json"] in
  hasManifest <- existsSync packageJsonPath ;;
  if negb hasManifest then
    Ret (push errors (missingManifest projectRoot))
  else
    errors <- dependencyCheck packageJsonPath errors ;;
    let configPath := NodePath.pjoin [projectRoot; REQUIRED_CONFIG] in
    hasConfig <- existsSync configPath ;;
    let errors := if negb hasConfig
                  then push errors (missingConfig projectRoot)
                  else errors in
    let blueprintModulePath :=
      NodePath.pjoin [projectRoot; REQUIRED_NODE_MODULES_DIR] in
    hasModule <- existsSync blueprintModulePath ;;
    let errors := if negb hasModule
                  then push errors (missingModule projectRoot)
                  else errors in
    Ret errors.

(** index.ts: a directory with a manifest joins [validProjectRoots]
    exactly when [validateProjectStructure] returns no error. *)
Definition isValidProject (validationErrors : list LinterError) : bool :=
  negb (Nat.ltb 0 (List.length validationErrors)).

End Runtime.

End InitializationCheck.

(* ------------------------------------------------------------------ *)
(** ** The root-folder check, with the directory snapshot *)

Module RootFolderCheck.
Import JsString Types Io.

Definition MARKER_ITEMS : list string :=
  [".cursor"; ".knowledge"; ".vscode"; "package.json"; ".windsurf";
   ".cursorrules"; ".windsurfrules"; "tsconfig.json"].

Definition FORBIDDEN_DIRS : list string :=
  ["scripts"; "script"; "contracts"; "contract"; "tests"; "test"; "wrappers"].

Definition IGNORED_ITEMS : list string :=
  ["node_modules"; ".git"; ".cursor"; ".windsurf"; ".vscode"; ".knowledge"].

(** [entries.sort(compare)]: the sort of the language is stable, so with a
    consistent comparator its result is that of any stable sort. *)
Fixpoint insertSorted {A : Type} (compare : A -> A -> Z) (x : A) (sorted : list A)
  : list A :=
  match sorted with
  | [] => [x]
  | y :: t =>
      if (compare x y <=? 0)%Z then x :: sorted
      else y :: insertSorted compare x t
  end.

Definition sortBy {A : Type} (compare : A -> A -> Z) (xs : list A) : list A :=
  fold_right (insertSorted compare) [] xs.

Definition connectorOf (isLast : bool) : string :=
  if isLast then "└── " else "├── ".

Definition indentOf (isLast : bool) : string :=
  if isLast then "    " else "│   ".

Section Locale.

(** [a.localeCompare(b)] of the runtime. *)
Variable localeCompare : string -> string -> Z.

(** The comparator of the sort; an entry comes with the answer of
    [lstatSync(...).isDirectory()] for it. *)
Definition compareEntries (a b : string * bool) : Z :=
  let (aName, aIsDir) := a in
  let (bName, bIsDir) := b in
  if aIsDir && negb bIsDir then (-1)%Z
  else if negb aIsDir && bIsDir then 1%Z
  else localeCompare aName bName.

Definition keepEntry (e : string) : bool := negb (includes IGNORED_ITEMS e).

(** The order of the snapshot in the words of the specification:
    directories before files, and by [localeCompare] within each group. *)
Definition entryOrder (a b : string * bool) : Prop :=
  (snd a = true /\ snd b = false) \/
  (snd a = snd b /\ (localeCompare (fst a) (fst b) <= 0)%Z).

(** The entries of [dir] as the snapshot lists them.  The comparator of
    the source asks [lstatSync] at every comparison; on a file system that
    does not change, asking once per entry gives the same order. *)
Definition listEntries (dir : string) (entries : list string) : io (list string) :=
  let entries := filter keepEntry entries in
  tagged <- mapM (fun e => isDir <- lstatIsDirectory (NodePath.pjoin [dir; e]) ;;
                           Ret (e, isDir)) entries ;;
  Ret (map fst (sortBy compareEntries tagged)).

(** The [forEach] of [generateDirTree]: one line for each entry and, below
    a directory, the lines of its own tree.  [subtree] is the recursive
    call when [depth > 0], and absent otherwise. *)
Definition renderEntries (subtree : option (string -> string -> io string))
           (dir prefix : string) (entries : list string) : io (list string) :=
  forEach (combine entries (seq 0 (List.length entries)))
    (fun lines item =>
       let (entry, index) := item in
       let fullPath := NodePath.pjoin [dir; entry] in
       let isLast := Nat.eqb index (List.length entries - 1) in
       let connector := connectorOf isLast in
       let childPrefix := prefix ++ indentOf isLast in
       isDirectory <- lstatIsDirectory fullPath ;;
       if isDirectory then
         let lines := push lines (prefix ++ connector ++ entry ++ "/") in
         match subtree with
         | Some generate =>
             tree <- generate fullPath childPrefix ;;
             Ret (push lines tree)
         | None => Ret lines
         end
       else Ret (push lines (prefix ++ connector ++ entry)))
    [].

(** [generateDirTree(dir, depth, prefix)] for a depth that is not
    negative, so that the test [depth < 0] at its head does not fire. *)
Fixpoint generateDirTree (depth : nat) (dir prefix : string) : io string :=
  listing <- tryCatch (entries <- readdirSync dir ;; Ret (Some entries))
                      (fun _ => Ret None) ;;
  match listing with
  | None => Ret ""
  | Some entries =>
      entries <- listEntries dir entries ;;
      lines <- renderEntries
                 (match depth with
                  | S depth' => Some (generateDirTree depth')
                  | O => None
                  end)
                 dir prefix entries ;;
      Ret (join (String "010" "") lines)
  end.

Definition quoted (f : string) : string := "'" ++ f ++ "'".

Definition rootMessage (parentDir : string) (problematicFolders : list string)
           (fsMap : string) : string :=
  let foldersList := join ", " (map quoted problematicFolders) in
  join (String "010" "")
    ["Detected forbidden " ++
       (if Nat.eqb (List.length problematicFolders) 1 then "directory" else "directories") ++
       " " ++ foldersList ++ " in root '" ++ parentDir ++ "'.";
     "This is a ROOT DIRECTORY ISSUE: '" ++ parentDir ++
       "' appears to be a project root directory that contains TON Blueprint project folders directly.";
     "This structure is not recommended. Instead, create individual blueprint projects and place contract folders inside those projects.";
     "";
     "Snapshot of the ROOT directory '" ++ NodePath.basename parentDir ++ "' structure:";
     fsMap].

(** [fs.existsSync(p) && fs.lstatSync(p).isDirectory()] *)
Definition isExistingDirectory (p : string) : io bool :=
  found <- existsSync p ;;
  if found then lstatIsDirectory p else Ret false.

Definition checkRootFolder (startPath : string) : io (list LinterError) :=
  let errors : list LinterError := [] in
  let parentDir := NodePath.dirname startPath in
  if String.eqb parentDir startPath then Ret errors
  else
    shouldCheck <- some (fun item => existsSync (NodePath.pjoin [parentDir; item]))
                        MARKER_ITEMS ;;
    if negb shouldCheck then Ret errors
    else
      problematicFolders <-
        forEach FORBIDDEN_DIRS
          (fun found folder =>
             let folderPath := NodePath.pjoin [parentDir; folder] in
             hit <- isExistingDirectory folderPath ;;
             if hit then Ret (push found folder) else Ret found)
          [] ;;
      if Nat.ltb 0 (List.length problematicFolders) then
        fsMap <- generateDirTree 2 parentDir "" ;;
        Ret (push errors (mkError StructureValidation startPath
                                (rootMessage parentDir problematicFolders fsMap)))
      else Ret errors.

End Locale.

End RootFolderCheck.

(* ------------------------------------------------------------------ *)
(** ** src/checks/rootFolderCheck.ts: the variant without the snapshot *)

Module RootFolderCheckPlain.
Import JsString Types Io.

Definition MARKER_ITEMS : list string := RootFolderCheck.MARKER_ITEMS.
Definition FORBIDDEN_DIRS : list string := RootFolderCheck.FORBIDDEN_DIRS.

Definition forbiddenMessage (folder parentDir : string) : string :=
  "Forbidden directory '" ++ folder ++ "' found in root '" ++ parentDir ++
  "'. This prevents confusion and ensures contracts are created in the correct location. Create individual blueprint projects instead and place '" ++
  folder ++ "' folders inside them.".

Definition checkRootFolder (startPath : string) : io (list LinterError) :=
  let errors : list LinterError := [] in
  let parentDir := NodePath.dirname startPath in
  if String.eqb parentDir startPath then Ret errors
  else
    shouldCheck <- some (fun item => existsSync (NodePath.pjoin [parentDir; item]))
                        MARKER_ITEMS ;;
    if negb shouldCheck then Ret errors
    else
      forEach FORBIDDEN_DIRS
        (fun errors folder =>
           let folderPath := NodePath.pjoin [parentDir; folder] in
           hit <- RootFolderCheck.isExistingDirectory folderPath ;;
           if hit then
             Ret (push errors (mkError StructureValidation startPath
                                     (forbiddenMessage folder parentDir)))
           else Ret errors)
        errors.

End RootFolderCheckPlain.

(* ------------------------------------------------------------------ *)
(** ** Sample file systems and runtimes *)

Module Samples.
Import FileSystem Json.

Definition text (s : string) : node := File (Some s).

(** A double quote. *)
Definition dq : string := String "034" "".
Definition quoted (s : string) : string := dq ++ s ++ dq.

(** A comparator in the role of [localeCompare]: the order of the code
    units. *)
Definition byCodeUnits (a b : string) : Z :=
  match String.compare a b with
  | Lt => (-1)%Z
  | Eq => 0%Z
  | Gt => 1%Z
  end.

(** A workspace whose top directory holds a manifest next to project
    folders, with one well-formed project below it. *)
Definition workspace : FS :=
  mkFS (Dir [
    ("work", Dir [
       ("package.json", text "{}");
       ("contracts", Dir [("MyContract.fc", text "")]);
       ("tests", Dir []);
       ("node_modules", Dir [("glob", Dir [])]);
       ("README.md", text "");
       ("jetton", Dir [
          ("package.json", text "{}");
          ("contracts", Dir [("my_contract.fc", text "")]);
          ("wrappers", Dir [
             ("MyContract.ts", text "export class MyContract {}");
             ("MyContract.compile.ts", text "");
             ("Helper.ts", text "export const helper = 1;");
             ("Renamed.ts", text "export abstract class Original {}");
             ("my_contract.ts", text "export class MyContract {}")])])])])
    "/work".

(** A file system whose root directory itself holds a manifest and a
    [contracts] directory. *)
Definition projectAtRoot : FS :=
  mkFS (Dir [
    ("package.json", text "{}");
    ("contracts", Dir [("a.fc", text "")])])
    "/".

(** A project with a dependency cache inside its [contracts] directory. *)
Definition vendored : FS :=
  mkFS (Dir [
    ("proj", Dir [
       ("contracts", Dir [
          ("token.fc", text "");
          ("node_modules", Dir [("lib", Dir [("Token.fc", text "")])])])])])
    "/proj".

Definition oneContract (name : string) : FS :=
  mkFS (Dir [("proj", Dir [("contracts", Dir [(name, text "")])])]) "/proj".

Definition twoJettons : FS :=
  mkFS (Dir [
    ("proj", Dir [
       ("contracts", Dir [
          ("MyJetton.fc", text "");
          ("my_jetton.tact", text "");
          ("other.fc", text "")])])])
    "/proj".

(** The text [{"dependencies":{"@ton-ai-core/blueprint":""}}]. *)
Definition emptyVersionManifest : string :=
  "{" ++ quoted "dependencies" ++ ":{" ++
  quoted "@ton-ai-core/blueprint" ++ ":" ++ quoted "" ++ "}}".

Definition emptyVersionValue : json :=
  JObject [("dependencies", JObject [("@ton-ai-core/blueprint", JString "")])].

(** A stand-in for [JSON.parse] that knows the two manifests used here. *)
Definition parseSample (s : string) : string + json :=
  if String.eqb s "{}" then inr (JObject [])
  else if String.eqb s emptyVersionManifest then inr emptyVersionValue
  else inl "Unexpected token in JSON".

(** A project that declares the required dependency with the version
    range [""], and has its configuration file and local module. *)
Definition emptyVersionProject : FS :=
  mkFS (Dir [
    ("proj", Dir [
       ("package.json", text emptyVersionManifest);
       ("blueprint.config.ts", text "");
       ("node_modules", Dir [("@ton-ai-core", Dir [("blueprint", Dir [])])])])])
    "/proj".

End Samples.

(* ================================================================== *)
(** * Further parts of the sources

    [FileNames] and [MoreSamples] serve the statements of the
    properties; [RootFolderSnapshot] states the snapshot of the root-folder
    check on the directory tree; [NodeResolve], [ContractFilesCheck] and
    [Index] hold the model of [path.resolve], of the compile-file part of
    [src/checks/contractFilesCheck.ts] and of the action of
    [src/index.ts]. *)

(* ------------------------------------------------------------------ *)
(** ** Shapes of file names *)

Module FileNames.
Import JsString.

(** A text without a dot. *)
Definition noDot (s : string) : Prop :=
  forallb (fun c => negb (Ascii.eqb c ".")) s = true.

(** A text without an uppercase letter of [[A-Z]]. *)
Definition noUpper (s : string) : bool :=
  forallb (fun c => negb (isUpper c)) s.

(** The file [stem.ext] in the directory [dir]. *)
Definition fileIn (dir stem ext : string) : string :=
  dir ++ "/" ++ stem ++ "." ++ ext.

(** The text is empty or starts with a character outside the class [p]. *)
Definition stopsAt (p : ascii -> bool) (s : string) : bool :=
  match s with
  | String c _ => negb (p c)
  | EmptyString => true
  end.

(** A text of ASCII characters.  On such a text [toLowerCase] changes the
    letters of [[A-Z]] alone and [\s] is one of six blanks, as in the
    model of [JsString]. *)
Definition isAscii (c : ascii) : bool := (code c <? 128)%N.

Definition asciiText (s : string) : bool := forallb isAscii s.

(** The characters that are syntax in a [glob] pattern. *)
Definition globSyntax (c : ascii) : bool :=
  existsb (Ascii.eqb c)
          ["*"; "?"; "["; "]"; "{"; "}"; "("; ")"; "!"; "+"; "@"; "|"; "\"]%char.

(** A path that [glob] reads as itself when it is pasted into a pattern. *)
Definition plainText (s : string) : bool :=
  forallb (fun c => negb (globSyntax c)) s.

(** A name of ASCII letters, digits, dots and hyphens. *)
Definition simpleName (s : string) : bool :=
  forallb (fun c => isAlnum c || Ascii.eqb c "." || Ascii.eqb c "-") s.

(** A list of names without a hidden one. *)
Definition visible (names : list string) : bool :=
  List.forallb (fun name => negb (Glob.dotName name)) names.

End FileNames.

(* ------------------------------------------------------------------ *)
(** ** The snapshot of a directory, in the words of the specification

    The snapshot of the root-folder check as a function of the directory
    tree alone: the entries of a level without the noise names,
    directories before files and each group in the order of
    [localeCompare]; one line for each entry, with the connector of its
    position; below a directory, while the depth lasts, the snapshot of
    its own entries, indented.  It is compared with [generateDirTree],
    which reads the same from the file system request by request. *)

Module RootFolderSnapshot.
Import JsString FileSystem RootFolderCheck.

Definition isDirectory (n : node) : bool :=
  match n with
  | Dir _ => true
  | File _ => false
  end.

Section Locale.

Variable localeCompare : string -> string -> Z.

(** The entries that a level of the snapshot lists, in its order. *)
Definition level (entries : list (string * node)) : list (string * node) :=
  sortBy (fun a b => compareEntries localeCompare
                       (fst a, isDirectory (snd a)) (fst b, isDirectory (snd b)))
         (filter (fun e => negb (includes IGNORED_ITEMS (fst e))) entries).

(** The lines of one entry: [below] renders the entries of a directory,
    and is absent at the last depth. *)
Definition entryLines (below : option (string -> list (string * node) -> string))
           (prefix : string) (count : nat) (item : (string * node) * nat)
  : list string :=
  let name := fst (fst item) in
  let isLast := Nat.eqb (snd item) (count - 1) in
  match snd (fst item) with
  | File _ => [prefix ++ connectorOf isLast ++ name]
  | Dir entries =>
      match below with
      | Some render =>
          [prefix ++ connectorOf isLast ++ name ++ "/";
           render (prefix ++ indentOf isLast) entries]
      | None => [prefix ++ connectorOf isLast ++ name ++ "/"]
      end
  end.

Definition renderLevel (below : option (string -> list (string * node) -> string))
           (prefix : string) (entries : list (string * node)) : string :=
  let shown := level entries in
  join (String "010" "")
       (flat_map (entryLines below prefix (List.length shown))
                 (combine shown (seq 0 (List.length shown)))).

(** The snapshot of a directory with the entries [entries], [depth]
    levels below the first. *)
Fixpoint snapshot (depth : nat) (prefix : string) (entries : list (string * node))
  : string :=
  renderLevel (match depth with
               | S depth' => Some (snapshot depth')
               | O => None
               end)
              prefix entries.

(** The snapshot of the directory at [dir]; empty when there is no
    directory to read. *)
Definition snapshotAt (fs : FS) (depth : nat) (dir prefix : string) : string :=
  match resolve fs dir with
  | Some (Dir entries) => snapshot depth prefix entries
  | _ => ""
  end.

End Locale.

End RootFolderSnapshot.

(* ------------------------------------------------------------------ *)
(** ** [path.resolve] of Node's [path] module, POSIX flavour *)

Module NodeResolve.
Import JsString.

(** The loop of [path.resolve]: the arguments are taken from the right,
    empty ones are skipped, and the loop stops behind the first absolute
    one.  The result is the joined text and whether it is absolute. *)
Fixpoint resolveParts (fromRight : list string) (resolvedPath : string)
  : string * bool :=
  match fromRight with
  | [] => (resolvedPath, false)
  | p :: rest =>
      if String.eqb p "" then resolveParts rest resolvedPath
      else
        let resolvedPath := p ++ "/" ++ resolvedPath in
        if NodePath.isAbsolute p then (resolvedPath, true)
        else resolveParts rest resolvedPath
  end.

(** [path.resolve(...parts)] in a process whose working directory is
    [cwd]; the working directory is taken when no argument is absolute. *)
Definition resolve (cwd : string) (parts : list string) : string :=
  let (resolvedPath, resolvedAbsolute) :=
    resolveParts (rev parts ++ [cwd])%list "" in
  let body :=
    join "/" (NodePath.normalizeSegments (negb resolvedAbsolute)
                                         (NodePath.split resolvedPath) []) in
  if resolvedAbsolute then "/" ++ body
  else match body with
       | EmptyString => "."
       | _ => body
       end.

End NodeResolve.

(* ------------------------------------------------------------------ *)
(** ** src/checks/contractFilesCheck.ts: the targets of a compile file

    The module holds the part of [checkContractFilesExist] that deals with
    one [.compile.ts] file: the two patterns that find the targets in its
    text, the list of target paths, and the body of the loop over the
    compile files.  [\s] and [trim] are taken on the ASCII range. *)

Module ContractFilesCheck.
Import JsString Types Io.

(** The class of the three quote characters: single quote, double quote
    and backquote. *)
Definition isQuote (c : ascii) : bool :=
  Ascii.eqb c "'" || Ascii.eqb c "034" || Ascii.eqb c "`".

(** [([\s\S]*?)\]]: the text up to the first closing bracket. *)
Fixpoint beforeBracket (s : string) : option string :=
  match s with
  | EmptyString => None
  | String c t =>
      if Ascii.eqb c "]" then Some EmptyString
      else option_map (String c) (beforeBracket t)
  end.

(** [targets:\s*\[([\s\S]*?)\]] at the start of [s], returning the group. *)
Definition targetsAt (s : string) : option string :=
  WrapperNamingRule.andThen (stripPrefix "targets:" s) (fun s1 =>
  WrapperNamingRule.andThen
    (stripPrefix "[" (WrapperNamingRule.dropSpaces s1)) beforeBracket).

(** [compileContent.match(/targets:\s*\[([\s\S]*?)\]/)]: group 1 of the
    leftmost match. *)
Fixpoint targetsMatch (compileContent : string) : option string :=
  match targetsAt compileContent with
  | Some group => Some group
  | None =>
      match compileContent with
      | String _ t => targetsMatch t
      | EmptyString => None
      end
  end.

(** The longest prefix without a quote, and what follows it. *)
Fixpoint unquotedRun (s : string) : string :=
  match s with
  | String c t => if isQuote c then EmptyString else String c (unquotedRun t)
  | EmptyString => EmptyString
  end.

Fixpoint afterRun (s : string) : string :=
  match s with
  | String c t => if isQuote c then s else afterRun t
  | EmptyString => EmptyString
  end.

(** [target:\s*Q([^Q]+)Q] at the start of [s], with [Q] the class of the
    quote characters: the run of the group is the longest one, since a
    quote has to follow it. *)
Definition targetAt (s : string) : option string :=
  WrapperNamingRule.andThen (stripPrefix "target:" s) (fun s1 =>
  match WrapperNamingRule.dropSpaces s1 with
  | String q s2 =>
      if isQuote q then
        match unquotedRun s2, afterRun s2 with
        | String c run, String _ _ => Some (String c run)
        | _, _ => None
        end
      else None
  | EmptyString => None
  end).

(** [compileContent.match] with the pattern of the [target] field: group 1
    of the leftmost match. *)
Fixpoint targetMatch (compileContent : string) : option string :=
  match targetAt compileContent with
  | Some group => Some group
  | None =>
      match compileContent with
      | String _ t => targetMatch t
      | EmptyString => None
      end
  end.

(** [s.split(sep)] for a separator of one character. *)
Fixpoint splitOn (sep : ascii) (s : string) : list string :=
  match s with
  | EmptyString => [EmptyString]
  | String c t =>
      if Ascii.eqb c sep then EmptyString :: splitOn sep t
      else match splitOn sep t with
           | head :: rest => String c head :: rest
           | [] => [String c EmptyString]
           end
  end.

(** [s.trim()] *)
Definition trimEnd (s : string) : string :=
  NodePath.text (rev (NodePath.dropWhile isSpace (rev (NodePath.chars s)))).

Definition trim (s : string) : string :=
  trimEnd (WrapperNamingRule.dropSpaces s).

(** [s.replace] of every quote character by the empty text. *)
Fixpoint removeQuotes (s : string) : string :=
  match s with
  | EmptyString => EmptyString
  | String c t =>
      if isQuote c then removeQuotes t else String c (removeQuotes t)
  end.

(** The chain [split], [map(trim)], [map(replace)], [filter] applied to
    the text between the brackets. *)
Definition targetsOfArray (targetsString : string) : list string :=
  filter (fun target => Nat.ltb 0 (String.length target))
    (map removeQuotes (map trim (splitOn "," targetsString))).

(** [targetPaths] after the [if (targetsMatch) ... else if (targetMatch)]. *)
Definition targetPaths (compileContent : string) : list string :=
  match targetsMatch compileContent with
  | Some targetsString => targetsOfArray targetsString
  | None =>
      match targetMatch compileContent with
      | Some target => [target]
      | None => []
      end
  end.

(** [targetsMatch ? 'targets array' : 'target field'] *)
Definition targetKind (compileContent : string) : string :=
  match targetsMatch compileContent with
  | Some _ => "targets array"
  | None => "target field"
  end.

Definition missingTargetMessage (targetPath compileFile kind : string) : string :=
  "Contract file '" ++ targetPath ++ "' specified in " ++ compileFile ++ " " ++
  kind ++ " does not exist".

Definition unreadableCompileMessage (compileFile text : string) : string :=
  "Error reading or parsing " ++ compileFile ++ ": " ++ text.

(** [error.message || error] for an error of class [Error], as the file
    system throws them: the message, or the name of the class when the
    message is empty. *)
Definition messageOrError (message : string) : string :=
  match message with
  | EmptyString => "Error"
  | _ => message
  end.

(** JavaScript truthiness of a string. *)
Definition truthyString (s : string) : bool :=
  match s with
  | EmptyString => false
  | _ => true
  end.

(** The body of the loop over the compile files, for the relative path
    [compileFile] that [glob] returned; it returns the diagnostics it
    pushes.  [cwd] is [process.cwd()], which [path.resolve] consults when
    [projectRoot] is not absolute.  The only request of the [try] block
    that can throw is the read at its head, so a failure finds [errors] as
    it was before the block. *)
Definition checkCompileFile (cwd projectRoot compileFile : string)
  : io (list LinterError) :=
  let compileFilePath := NodePath.pjoin [projectRoot; compileFile] in
  tryCatch
    (compileContent <- readFile compileFilePath ;;
     forEach (targetPaths compileContent)
       (fun errors targetPath =>
          if truthyString targetPath then
            let contractPath := NodeResolve.resolve cwd [projectRoot; targetPath] in
            found <- existsSync contractPath ;;
            if negb found then
              Ret (push errors
                     (mkError MissingContract compileFile
                        (missingTargetMessage targetPath compileFile
                           (targetKind compileContent))))
            else Ret errors
          else Ret errors)
       [])
    (fun message =>
       Ret [mkError StructureValidation compileFile
              (unreadableCompileMessage compileFile (messageOrError message))]).

(** The loop over the compile files, given the list that [glob] returned. *)
Definition checkCompileFiles (cwd projectRoot : string) (compileFiles : list string)
  : io (list LinterError) :=
  forEach compileFiles
    (fun errors compileFile =>
       more <- checkCompileFile cwd projectRoot compileFile ;;
       Ret (errors ++ more)%list)
    [].

End ContractFilesCheck.

(* ------------------------------------------------------------------ *)
(** ** src/index.ts: the action of the command

    The model starts behind the two calls of [glob] that look for
    projects: the action takes the list [potentialProjectDirs] of absolute
    directory paths as an argument.  Printing is left out; the outcome
    holds the exit code and the diagnostics that are handed to the
    printer. *)

Module Index.
Import JsString Types Io.

Definition CHARACTERISTIC_FOLDERS : list string :=
  ["contracts"; "wrappers"; "scripts"; "tests"].

(** The parser of the option [--dirs]: [val.split(',').map(d => d.trim())]. *)
Definition parseDirs (val : string) : list string :=
  map ContractFilesCheck.trim (ContractFilesCheck.splitOn "," val).

(** [path.relative(from, to) || '.'] *)
Definition relativeOrDot (from to : string) : string :=
  match NodePath.relative from to with
  | EmptyString => "."
  | r => r
  end.

(** The variables of the action. *)
Record Scan : Type := mkScan {
  allErrors : list LinterError;
  overallSuccess : bool;
  validProjectRoots : list string;
  checkedDirs : list string
}.

Definition initialScan : Scan := mkScan [] true [] [].

(** [allErrors.push(...errors); overallSuccess = false] *)
Definition pushErrors (errors : list LinterError) (st : Scan) : Scan :=
  mkScan (allErrors st ++ errors) false (validProjectRoots st) (checkedDirs st).

Definition addChecked (dir : string) (st : Scan) : Scan :=
  mkScan (allErrors st) (overallSuccess st) (validProjectRoots st)
         (push (checkedDirs st) dir).

Definition addValid (dir : string) (st : Scan) : Scan :=
  mkScan (allErrors st) (overallSuccess st) (push (validProjectRoots st) dir)
         (checkedDirs st).

(** The flag [overallSuccess] is lowered exactly when a diagnostic has
    been pushed. *)
Definition flagged (st : Scan) : Prop :=
  overallSuccess st = true <-> allErrors st = [].

(** [err.file = f(err.file)] *)
Definition mapFile (f : string -> string) (err : LinterError) : LinterError :=
  mkError (type err) (f (file err)) (message err).

Definition newline : string := String "010" "".

Definition scaffoldAdvice : string :=
  ": Do not use 'npx blueprint create' to scaffold the entire project. Use 'npm create ton@latest' instead.".

(** The message of a [BrokenProject] diagnostic; [header] is its first
    words. *)
Definition brokenMessage (header dir : string) (existingFolders : list string)
  : string :=
  let fullMessage := header ++ scaffoldAdvice ++ newline in
  let fullMessage :=
    fullMessage ++
    "  Detected characteristic folders without 'package.json'. Consider removing them:" ++
    newline in
  let fullMessage :=
    fold_left (fun fullMessage folder =>
                 fullMessage ++ "    - " ++ NodePath.pjoin [dir; folder] ++ newline)
              existingFolders fullMessage in
  ContractFilesCheck.trim fullMessage.

(** [xs.filter(p)] with an effectful [p]. *)
Fixpoint filterM {A : Type} (p : A -> io bool) (xs : list A) : io (list A) :=
  match xs with
  | [] => Ret []
  | x :: t =>
      keep <- p x ;;
      rest <- filterM p t ;;
      Ret (if keep then x :: rest else rest)
  end.

Inductive Outcome : Type :=
| Exit (code : nat) (reported : list LinterError).

Section Action.

(** [JSON.parse] of the runtime. *)
Variable JSON_parse : string -> string + Json.json.

(** [process.cwd()] *)
Variable cwd : string.

(** [checkRootFolder] of [./checks/rootFolderCheck]. *)
Variable checkRootFolder : string -> io (list LinterError).

(** [checkContractFilesExist] of [./checks/contractFilesCheck]. *)
Variable checkContractFilesExist : string -> io (list LinterError).

(** [error.message || error] as a text, for an error with the given
    message. *)
Variable errorText : string -> string.

(** The path the command scans and the directories of the option [--dirs]. *)
Variable scanPath : string.
Variable namingCheckDirs : list string.

Definition isCharacteristicFolder (dir folder : string) : io bool :=
  RootFolderCheck.isExistingDirectory (NodePath.pjoin [dir; folder]).

Definition brokenProject (header relativeDir dir : string) (st : Scan) : io Scan :=
  existingFolders <- filterM (isCharacteristicFolder dir) CHARACTERISTIC_FOLDERS ;;
  Ret (pushErrors [mkError BrokenProject relativeDir
                           (brokenMessage header dir existingFolders)] st).

(** The body of the loop of step 2, "validate projects". *)
Definition validateDir (st : Scan) (dir : string) : io Scan :=
  if includes (checkedDirs st) dir then Ret st
  else
    let st := addChecked dir st in
    let relativeDir := relativeOrDot scanPath dir in
    packageJsonExists <- existsSync (NodePath.pjoin [dir; "package.json"]) ;;
    hasDirectCharacteristicFolders <-
      some (isCharacteristicFolder dir) CHARACTERISTIC_FOLDERS ;;
    let isScanPath := String.eqb (NodeResolve.resolve cwd [dir]) scanPath in
    let subdirectoryOrManifest :=
      if packageJsonExists then
        validationErrors <- InitializationCheck.validateProjectStructure JSON_parse dir ;;
        if Nat.ltb 0 (List.length validationErrors) then
          Ret (pushErrors (map (mapFile (relativeOrDot scanPath)) validationErrors) st)
        else Ret (addValid dir st)
      else if hasDirectCharacteristicFolders then
        brokenProject ("Error in directory '" ++ relativeDir ++ "'") relativeDir dir st
      else Ret st in
    if isScanPath then
      if negb packageJsonExists && hasDirectCharacteristicFolders then
        brokenProject "Error in top-level directory '.'" relativeDir dir st
      else if negb packageJsonExists && negb hasDirectCharacteristicFolders then
        Ret st
      else subdirectoryOrManifest
    else subdirectoryOrManifest.

(** One check of step 3 with the [if] behind it. *)
Definition absorb (relativeProjectRoot : string) (errors : list LinterError)
           (st : Scan) : Scan :=
  if Nat.ltb 0 (List.length errors) then
    pushErrors
      (map (mapFile (fun f => NodePath.pjoin [relativeProjectRoot; f])) errors) st
  else st.

(** The [try] block of step 3: the checks run in order; when one throws,
    the block ends with the variables as the checks before it left them. *)
Fixpoint runChecks (relativeProjectRoot : string)
         (checks : list (io (list LinterError))) (st : Scan)
  : io (Scan * option string) :=
  match checks with
  | [] => Ret (st, None)
  | check :: rest =>
      outcome <- tryCatch (errors <- check ;; Ret (inr errors))
                          (fun message => Ret (inl message)) ;;
      match outcome with
      | inl message => Ret (st, Some message)
      | inr errors =>
          runChecks relativeProjectRoot rest (absorb relativeProjectRoot errors st)
      end
  end.

Definition projectChecks (projectRoot : string) : list (io (list LinterError)) :=
  [NamingConsistencyCheck.checkNamingConsistency projectRoot namingCheckDirs;
   DuplicateContractNames.lintDuplicateContractNames projectRoot;
   WrapperNamingRule.checkWrapperNaming projectRoot;
   ScriptNamingRule.checkScriptNaming projectRoot;
   checkContractFilesExist projectRoot].

Definition unexpectedError (relativeProjectRoot message : string) : LinterError :=
  mkError StructureValidation relativeProjectRoot
          ("Unexpected error during checks in " ++ relativeProjectRoot ++ ": " ++
           errorText message).

(** The body of the loop of step 3, "run checks on valid projects". *)
Definition checkProject (st : Scan) (projectRoot : string) : io Scan :=
  let relativeProjectRoot := relativeOrDot scanPath projectRoot in
  ended <- runChecks relativeProjectRoot (projectChecks projectRoot) st ;;
  match ended with
  | (st, Some message) =>
      Ret (pushErrors [unexpectedError relativeProjectRoot message] st)
  | (st, None) => Ret st
  end.

(** The action, from the root check to [process.exit]. *)
Definition action (potentialProjectDirs : list string) : io Outcome :=
  rootCheckErrors <- checkRootFolder scanPath ;;
  let st := if Nat.ltb 0 (List.length rootCheckErrors)
            then pushErrors rootCheckErrors initialScan
            else initialScan in
  st <- forEach potentialProjectDirs validateDir st ;;
  if Nat.eqb (List.length (validProjectRoots st)) 0 && negb (overallSuccess st)
  then Ret (Exit 1 (allErrors st))
  else if Nat.eqb (List.length (validProjectRoots st)) 0 && overallSuccess st
  then Ret (Exit 0 [])
  else
    st <- forEach (validProjectRoots st) checkProject st ;;
    if negb (overallSuccess st) then Ret (Exit 1 (allErrors st))
    else Ret (Exit 0 []).

(** [main().catch(...)]: an error that leaves the action ends the process
    with code 2 and one basic error. *)
Definition basicError (message : string) : LinterError :=
  mkError StructureValidation "unknown"
          ("An unexpected error occurred: " ++ errorText message).

Definition main (potentialProjectDirs : list string) : io Outcome :=
  tryCatch (action potentialProjectDirs)
           (fun message => Ret (Exit 2 [basicError message])).

End Action.

End Index.

(* ------------------------------------------------------------------ *)
(** ** More sample file systems and runtimes *)

Module MoreSamples.
Import FileSystem Json.

(** A project whose [contracts] directory holds three files with the key
    [token]: one without a dot in its name, one with an extension, and
    one in a hidden directory; and two hidden files with the key
    [.token]. *)
Definition unscannedTwins : FS :=
  mkFS (Dir [
    ("proj", Dir [
       ("contracts", Dir [
          ("Token", Samples.text "");
          ("token.fc", Samples.text "");
          (".cache", Dir [("TOKEN.tact", Samples.text "")]);
          (".Token.fc", Samples.text "");
          (".token.tact", Samples.text "")])])])
    "/proj".

(** A project whose [wrappers] directory holds a declaration file, a
    hidden file and a file of a dependency, none with a PascalCase stem. *)
Definition unscannedWrappers : FS :=
  mkFS (Dir [
    ("proj", Dir [
       ("wrappers", Dir [
          ("my_types.d.ts", Samples.text "");
          (".draft.ts", Samples.text "");
          ("node_modules", Dir [
             ("lib", Dir [("bad_name.ts", Samples.text "")])])])])])
    "/proj".

(** A comparator in the role of [localeCompare]: the dictionary order of
    the lowercased names and, between names that differ in case only, the
    lowercase letter first. *)
Definition caseless (a b : string) : Z :=
  match String.compare (JsString.toLowerCase a) (JsString.toLowerCase b) with
  | Lt => (-1)%Z
  | Gt => 1%Z
  | Eq => Samples.byCodeUnits b a
  end.

(** A repository whose top directory holds a manifest and project
    folders, with one project below it. *)
Definition monorepo : FS :=
  mkFS (Dir [
    ("repo", Dir [
       ("package.json", Samples.text "{}");
       ("tests", Dir []);
       ("README.md", Samples.text "");
       ("notes", Samples.text "");
       ("node_modules", Dir [("glob", Dir [])]);
       ("contracts", Dir [("vault.fc", Samples.text "")]);
       ("app", Dir [
          ("package.json", Samples.text "{}");
          ("contracts", Dir [("a.fc", Samples.text "")])])])])
    "/repo".

(** A project whose wrapper file cannot be read. *)
Definition lockedWrapper : FS :=
  mkFS (Dir [
    ("proj", Dir [
       ("wrappers", Dir [("Vault.ts", File None)])])])
    "/proj".

(** A manifest that lists the required package under [dependencies] with
    the range [^1.0.0] and under [devDependencies] with the empty range. *)
Definition shadowedManifest : string :=
  "{" ++ Samples.quoted "dependencies" ++ ":{" ++
  Samples.quoted "@ton-ai-core/blueprint" ++ ":" ++ Samples.quoted "^1.0.0" ++
  "}," ++ Samples.quoted "devDependencies" ++ ":{" ++
  Samples.quoted "@ton-ai-core/blueprint" ++ ":" ++ Samples.quoted "" ++ "}}".

Definition shadowedDependencies : Props :=
  [("@ton-ai-core/blueprint", JString "^1.0.0")].

Definition shadowedDevDependencies : Props :=
  [("@ton-ai-core/blueprint", JString "")].

Definition shadowedValue : json :=
  JObject [("dependencies", JObject shadowedDependencies);
           ("devDependencies", JObject shadowedDevDependencies)].

(** A stand-in for [JSON.parse] that knows the manifests used here. *)
Definition parseManifest (s : string) : string + json :=
  if String.eqb s shadowedManifest then inr shadowedValue
  else if String.eqb s "null" then inr JNull
  else Samples.parseSample s.

(** A project whose manifest lists the required package twice: with a
    version range under [dependencies] and with the empty range under
    [devDependencies]. *)
Definition shadowedProject : FS :=
  mkFS (Dir [
    ("proj", Dir [
       ("package.json", Samples.text shadowedManifest);
       ("blueprint.config.ts", Samples.text "");
       ("node_modules", Dir [("@ton-ai-core", Dir [("blueprint", Dir [])])])])])
    "/proj".


(** A complete project: manifest with the dependency, configuration file
    and local module. *)
Definition completeManifest : string :=
  "{" ++ Samples.quoted "devDependencies" ++ ":{" ++
  Samples.quoted "@ton-ai-core/blueprint" ++ ":" ++ Samples.quoted "^0.1.0" ++ "}}".

Definition completeValue : json :=
  JObject [("devDependencies",
            JObject [("@ton-ai-core/blueprint", JString "^0.1.0")])].

Definition parseComplete (s : string) : string + json :=
  if String.eqb s completeManifest then inr completeValue
  else parseManifest s.

Definition completeProject : FS :=
  mkFS (Dir [
    ("proj", Dir [
       ("package.json", Samples.text completeManifest);
       ("blueprint.config.ts", Samples.text "");
       ("contracts", Dir [("counter.fc", Samples.text "")]);
       ("node_modules", Dir [("@ton-ai-core", Dir [("blueprint", Dir [])])])])])
    "/proj".

(** A directory of projects without any marker item at its top. *)
Definition unmarked : FS :=
  mkFS (Dir [
    ("code", Dir [
       ("contracts", Dir []);
       ("jetton", Dir [("package.json", Samples.text "{}")])])])
    "/code".

(** A project with two compile files: one lists two targets of which the
    second is missing, the other names a single target that exists. *)
Definition funcCompile : string :=
  "export const compile = { lang: 'func', targets: ['contracts/counter.fc', 'contracts/lost.fc'] };".

Definition tactCompile : string :=
  "export const compile = { lang: 'tact', target: 'contracts/vault.tact' };".

Definition compileProject : FS :=
  mkFS (Dir [
    ("proj", Dir [
       ("contracts", Dir [("counter.fc", Samples.text "");
                          ("vault.tact", Samples.text "")]);
       ("wrappers", Dir [("Counter.compile.ts", Samples.text funcCompile);
                         ("Vault.compile.ts", Samples.text tactCompile);
                         ("Locked.compile.ts", File None)])])])
    "/".

End MoreSamples.
(* ------------------------------------------------------------------ *)
(** * Properties *)

Module JsStringFacts.
Import JsString.

(** Induction two characters at a time. *)
Lemma string_ind2 (P : string -> Prop) :
  P "" ->
  (forall a, P (String a "")) ->
  (forall a b t, P t -> P (String b t) -> P (String a (String b t))) ->
  forall s, P s.
Proof.
  intros H0 H1 H2 s.
  assert (P s /\ forall a, P (String a s)) as [H _]; [|exact H].
  induction s as [|b t [IHt IHbt]]; split; auto.
Qed.

Lemma upper_not_lower c : isUpper c = true -> isLower c = false.
Proof.
  unfold isUpper, isLower, between.
  rewrite !andb_true_iff, !N.leb_le. intros [H1 H2].
  apply andb_false_iff. left. apply N.leb_gt. lia.
Qed.

Lemma upper_not_digit c : isUpper c = true -> isDigit c = false.
Proof.
  unfold isUpper, isDigit, between.
  rewrite !andb_true_iff, !N.leb_le. intros [H1 H2].
  apply andb_false_iff. right. apply N.leb_gt. lia.
Qed.

Lemma upper_not_lowerOrDigit c :
  isUpper c = true -> isLowerOrDigit c = false.
Proof.
  intros H. unfold isLowerOrDigit.
  now rewrite (upper_not_lower _ H), (upper_not_digit _ H).
Qed.

Lemma lowerOrDigit_not_upper c :
  isLowerOrDigit c = true -> isUpper c = false.
Proof.
  intros H. destruct (isUpper c) eqn:E; [|reflexivity].
  now rewrite (upper_not_lowerOrDigit _ E) in H.
Qed.

Lemma lower_not_upper c : isLower c = true -> isUpper c = false.
Proof.
  intros H. apply lowerOrDigit_not_upper.
  unfold isLowerOrDigit. now rewrite H.
Qed.

Lemma underscore_classes :
  isUpper "_" = false /\ isLower "_" = false /\ isDigit "_" = false.
Proof. repeat split. Qed.

(** A lowered character is never in [[A-Z]]. *)
Lemma lowerChar_not_upper c : isUpper (lowerChar c) = false.
Proof.
  unfold lowerChar. destruct (isUpper c) eqn:E; [|exact E].
  unfold isUpper, between, code in *.
  apply andb_true_iff in E. destruct E as [E1 E2].
  apply N.leb_le in E1. apply N.leb_le in E2.
  rewrite N_ascii_embedding by lia.
  apply andb_false_iff. right. apply N.leb_gt. lia.
Qed.

Lemma lowerChar_id c : isUpper c = false -> lowerChar c = c.
Proof. unfold lowerChar. now intros ->. Qed.

Lemma toLowerCase_no_upper s :
  forallb (fun c => negb (isUpper c)) (toLowerCase s) = true.
Proof.
  induction s as [|c t IH]; simpl; [reflexivity|].
  now rewrite lowerChar_not_upper, IH.
Qed.

Lemma toLowerCase_fixed s :
  forallb (fun c => negb (isUpper c)) s = true -> toLowerCase s = s.
Proof.
  induction s as [|c t IH]; simpl; [reflexivity|].
  rewrite andb_true_iff, negb_true_iff. intros [Hc Ht].
  now rewrite (lowerChar_id _ Hc), IH.
Qed.

Lemma includes_In xs x : includes xs x = true <-> In x xs.
Proof.
  unfold includes. rewrite existsb_exists. split.
  - intros (y & Hy & E). apply String.eqb_eq in E. now subst.
  - intros H. exists x. split; [exact H|apply String.eqb_refl].
Qed.

Lemma includes_false xs x : includes xs x = false <-> ~ In x xs.
Proof.
  rewrite <- includes_In. destruct (includes xs x); split; congruence.
Qed.

Lemma includes_ext xs ys x :
  (forall k, In k xs <-> In k ys) -> includes xs x = includes ys x.
Proof.
  intros H. destruct (includes ys x) eqn:E.
  - apply includes_In, H, includes_In, E.
  - apply includes_false. rewrite H. now apply includes_false.
Qed.

Lemma NoDup_snoc {A : Type} (l : list A) (x : A) :
  NoDup l -> ~ In x l -> NoDup (l ++ [x]).
Proof.
  induction l as [|a l IH]; intros Hnd Hx; cbn [app].
  - constructor; [intros []|constructor].
  - inversion Hnd as [|? ? Ha Hl]; subst. constructor.
    + rewrite in_app_iff. cbn [In]. intros [H|[H|[]]]; [tauto|].
      subst. apply Hx. now left.
    + apply IH; [assumption|]. intros H. apply Hx. now right.
Qed.

End JsStringFacts.

(* ------------------------------------------------------------------ *)
(** ** The snake_case normaliser *)

Module NormalizeNameFacts.
Import JsString JsStringFacts NormalizeName.

(** The first replacement never needs to look back: an uppercase character
    that ends a match cannot start the next one. *)
Lemma replaceLowerUpper_step a b t :
  replaceLowerUpper (String a (String b t)) =
  if isLowerOrDigit a && isUpper b
  then String a (String "_" (replaceLowerUpper (String b t)))
  else String a (replaceLowerUpper (String b t)).
Proof.
  cbn [replaceLowerUpper].
  destruct (isLowerOrDigit a && isUpper b) eqn:E; [|reflexivity].
  apply andb_true_iff in E. destruct E as [_ Hb].
  destruct t as [|c t]; [reflexivity|].
  now rewrite (upper_not_lowerOrDigit _ Hb).
Qed.

Lemma replaceLowerUpper_head a t :
  exists u, replaceLowerUpper (String a t) = String a u.
Proof.
  destruct t as [|b t]; [now exists ""|].
  rewrite replaceLowerUpper_step.
  destruct (isLowerOrDigit a && isUpper b); eauto.
Qed.

Lemma replaceAcronym_skip a w :
  isUpper a = false -> replaceAcronym (String a w) = String a (replaceAcronym w).
Proof.
  intros Ha. destruct w as [|b [|c t]]; cbn [replaceAcronym]; try reflexivity.
  now rewrite Ha.
Qed.

Lemma replaceAcronym_step a b c t :
  replaceAcronym (String a (String b (String c t))) =
  if isUpper a && isUpper b && isLower c
  then String a (String "_" (String b (String c (replaceAcronym t))))
  else String a (replaceAcronym (String b (String c t))).
Proof. reflexivity. Qed.

Lemma replaceAcronym_skip2 a b w :
  isUpper b = false ->
  replaceAcronym (String a (String b w)) =
  String a (String b (replaceAcronym w)).
Proof.
  intros Hb. destruct w as [|c t]; [reflexivity|].
  rewrite replaceAcronym_step, Hb, andb_false_r. cbn [andb].
  now rewrite (replaceAcronym_skip _ _ Hb).
Qed.

Lemma insertBoundaries_step a b t :
  insertBoundaries (String a (String b t)) =
  if boundary a b t
  then String a (String "_" (insertBoundaries (String b t)))
  else String a (insertBoundaries (String b t)).
Proof. reflexivity. Qed.

(** The two replacements of the source put underscores exactly on the
    boundaries of the specification. *)
Lemma replacements_insert_boundaries s :
  replaceAcronym (replaceLowerUpper s) = insertBoundaries s.
Proof.
  induction s as [|a|a b t IHt IHbt] using string_ind2; try reflexivity.
  rewrite replaceLowerUpper_step, insertBoundaries_step.
  unfold boundary.
  destruct (isLowerOrDigit a && isUpper b) eqn:E1.
  - (* rule (a): the underscore of the first pass survives the second *)
    apply andb_true_iff in E1. destruct E1 as [Ha Hb].
    cbn [orb].
    rewrite (replaceAcronym_skip2 a "_"
               (replaceLowerUpper (String b t)) (proj1 underscore_classes)).
    now rewrite IHbt.
  - cbn [orb].
    destruct (isUpper a && isUpper b && nextIsLower t) eqn:E2.
    + (* rule (b): an acronym run followed by a lowercase letter *)
      apply andb_true_iff in E2. destruct E2 as [E2 Hc].
      apply andb_true_iff in E2. destruct E2 as [Ha Hb].
      destruct t as [|c t]; [discriminate|]. cbn [nextIsLower] in Hc.
      rewrite replaceLowerUpper_step.
      rewrite (lower_not_upper _ Hc), andb_false_r.
      destruct (replaceLowerUpper_head c t) as [u Hu].
      rewrite Hu. cbn [replaceAcronym]. rewrite Ha, Hb, Hc. cbn [andb].
      rewrite insertBoundaries_step. unfold boundary.
      rewrite (lower_not_upper _ Hc), !andb_false_r. cbn [orb].
      rewrite <- IHt, Hu.
      now rewrite (replaceAcronym_skip _ _ (lower_not_upper _ Hc)).
    + (* no boundary behind [a] *)
      rewrite <- IHbt.
      destruct (isUpper a) eqn:Ha.
      * destruct (isUpper b) eqn:Hb.
        -- cbn [andb] in E2.
           destruct t as [|c t]; [reflexivity|]. cbn [nextIsLower] in E2.
           rewrite replaceLowerUpper_step.
           rewrite (upper_not_lowerOrDigit _ Hb). cbn [andb].
           destruct (replaceLowerUpper_head c t) as [u Hu].
           rewrite Hu. cbn [replaceAcronym]. now rewrite Ha, Hb, E2.
        -- destruct t as [|c t]; [reflexivity|].
           rewrite replaceLowerUpper_step.
           destruct (isLowerOrDigit b && isUpper c).
           ++ cbn [replaceAcronym]. rewrite Hb, andb_false_r. reflexivity.
           ++ destruct (replaceLowerUpper_head c t) as [u Hu].
              rewrite Hu. cbn [replaceAcronym].
              rewrite Hb, andb_false_r. reflexivity.
      * now rewrite (replaceAcronym_skip _ _ Ha).
Qed.

Lemma normalize_no_upper s :
  forallb (fun c => negb (isUpper c)) (normalizeToSnakeCase s) = true.
Proof.
  destruct s; [reflexivity|]. apply toLowerCase_no_upper.
Qed.

Lemma replaceLowerUpper_fixed s :
  forallb (fun c => negb (isUpper c)) s = true -> replaceLowerUpper s = s.
Proof.
  induction s as [|a|a b t IHt IHbt] using string_ind2; try reflexivity.
  intros H. rewrite replaceLowerUpper_step.
  pose proof H as H'. cbn [forallb] in H'.
  apply andb_true_iff in H'. destruct H' as [_ H'].
  apply andb_true_iff in H'. destruct H' as [Hb Ht].
  apply negb_true_iff in Hb. rewrite Hb, andb_false_r.
  f_equal. apply IHbt. cbn [forallb]. now rewrite Hb, Ht.
Qed.

Lemma replaceAcronym_fixed s :
  forallb (fun c => negb (isUpper c)) s = true -> replaceAcronym s = s.
Proof.
  induction s as [|a t IH]; [reflexivity|].
  cbn [forallb]. rewrite andb_true_iff, negb_true_iff. intros [Ha Ht].
  now rewrite (replaceAcronym_skip _ _ Ha), IH.
Qed.

(** Without uppercase letters nothing is left to do. *)
Lemma normalize_fixed s :
  forallb (fun c => negb (isUpper c)) s = true -> normalizeToSnakeCase s = s.
Proof.
  intros H. destruct s as [|a t]; [reflexivity|].
  unfold normalizeToSnakeCase.
  now rewrite (replaceLowerUpper_fixed _ H), (replaceAcronym_fixed _ H),
    (toLowerCase_fixed _ H).
Qed.

(** C1. For every input string, [normalizeToSnakeCase] puts an underscore
    between a lowercase-or-digit character and a following uppercase one,
    and between an uppercase character and a following uppercase-lowercase
    pair, and lowercases the result; ["NFTCollection"] becomes
    ["nft_collection"]: the acronym run is kept and the only boundary is
    the one before the last capitalised word. *)
Theorem normalizeToSnakeCase_boundaries :
  (forall s, normalizeToSnakeCase s = snakeCaseByBoundaries s) /\
  normalizeToSnakeCase "NFTCollection" = "nft_collection" /\
  normalizeToSnakeCase "NFTCollection" <> "n_f_t_collection".
Proof.
  split; [|split; [reflexivity|discriminate]].
  intros [|a t]; [reflexivity|].
  unfold normalizeToSnakeCase, snakeCaseByBoundaries.
  now rewrite replacements_insert_boundaries.
Qed.

(** C7. On a string of letters and digits only, normalising the output of
    [normalizeToSnakeCase] again returns that output unchanged. *)
Theorem normalizeToSnakeCase_idempotent (s : string) :
  forallb isAlnum s = true ->
  normalizeToSnakeCase (normalizeToSnakeCase s) = normalizeToSnakeCase s.
Proof.
  intros _. apply normalize_fixed, normalize_no_upper.
Qed.

Lemma normalizeToSnakeCase_idempotent_witness :
  forallb isAlnum "MyNFTV2Collection" = true /\
  normalizeToSnakeCase (normalizeToSnakeCase "MyNFTV2Collection") =
  normalizeToSnakeCase "MyNFTV2Collection".
Proof.
  split; [reflexivity|].
  apply (normalizeToSnakeCase_idempotent "MyNFTV2Collection"). reflexivity.
Defined.

Example normalize_MyContract :
  normalizeToSnakeCase "MyContract" = "my_contract" /\
  normalizeToSnakeCase "myContract" = "my_contract" /\
  normalizeToSnakeCase "MyNFTV2" = "my_nftv2" /\
  normalizeToSnakeCase "" = "".
Proof. repeat split. Qed.

End NormalizeNameFacts.

(* ------------------------------------------------------------------ *)
(** ** Programs and their runs *)

Module IoFacts.
Import Io.

Lemma run_bind {A B : Type} fs (m : io A) (f : A -> io B) :
  run fs (bind m f) =
  match run fs m with
  | (inl e, t) => (inl e, t)
  | (inr a, t) => let (r, t') := run fs (f a) in (r, (t ++ t')%list)
  end.
Proof.
  induction m as [a|e|p k IH|p k IH|p k IH|p k IH|ps ig k IH]; cbn [bind run].
  - now destruct (run fs (f a)).
  - reflexivity.
  - rewrite IH. destruct (run fs (k _)) as [[e|a] t]; [reflexivity|].
    now destruct (run fs (f a)).
  - rewrite IH. destruct (run fs (k _)) as [[e|a] t]; [reflexivity|].
    now destruct (run fs (f a)).
  - rewrite IH. destruct (run fs (k _)) as [[e|a] t]; [reflexivity|].
    now destruct (run fs (f a)).
  - rewrite IH. destruct (run fs (k _)) as [[e|a] t]; [reflexivity|].
    now destruct (run fs (f a)).
  - rewrite IH. destruct (run fs (k _)) as [[e|a] t]; [reflexivity|].
    now destruct (run fs (f a)).
Qed.

Lemma result_bind {A B : Type} fs (m : io A) (f : A -> io B) :
  result fs (bind m f) =
  match result fs m with
  | inl e => inl e
  | inr a => result fs (f a)
  end.
Proof.
  unfold result. rewrite run_bind.
  destruct (run fs m) as [[e|a] t]; [reflexivity|].
  cbn [fst]. destruct (run fs (f a)); reflexivity.
Qed.

Lemma result_tryCatch {A : Type} fs (m : io A) (h : string -> io A) :
  result fs (tryCatch m h) =
  match result fs m with
  | inl e => result fs (h e)
  | inr a => inr a
  end.
Proof.
  unfold result.
  induction m as [a|e|p k IH|p k IH|p k IH|p k IH|ps ig k IH];
    cbn [tryCatch run]; try reflexivity.
  - specialize (IH (FileSystem.existsSync fs p)).
    destruct (run fs (tryCatch _ h)), (run fs (k _)); exact IH.
  - specialize (IH (FileSystem.lstatIsDirectory fs p)).
    destruct (run fs (tryCatch _ h)), (run fs (k _)); exact IH.
  - specialize (IH (FileSystem.readdirSync fs p)).
    destruct (run fs (tryCatch _ h)), (run fs (k _)); exact IH.
  - specialize (IH (FileSystem.readFileSync fs p)).
    destruct (run fs (tryCatch _ h)), (run fs (k _)); exact IH.
  - specialize (IH (Glob.glob fs ps ig)).
    destruct (run fs (tryCatch _ h)), (run fs (k _)); exact IH.
Qed.

Lemma result_Ret {A : Type} fs (a : A) : result fs (Ret a) = inr a.
Proof. reflexivity. Qed.

Lemma result_existsSync fs p :
  result fs (existsSync p) = inr (FileSystem.existsSync fs p).
Proof. reflexivity. Qed.

Lemma result_lstat fs p :
  result fs (lstatIsDirectory p) = FileSystem.lstatIsDirectory fs p.
Proof.
  unfold result, lstatIsDirectory. cbn [run].
  now destruct (FileSystem.lstatIsDirectory fs p).
Qed.

Lemma result_readdir fs p :
  result fs (readdirSync p) = FileSystem.readdirSync fs p.
Proof.
  unfold result, readdirSync. cbn [run].
  now destruct (FileSystem.readdirSync fs p).
Qed.

Lemma result_readFile fs p :
  result fs (readFile p) = FileSystem.readFileSync fs p.
Proof.
  unfold result, readFile. cbn [run].
  now destruct (FileSystem.readFileSync fs p).
Qed.

Lemma result_glob fs ps ig :
  result fs (glob ps ig) = inr (Glob.glob fs ps ig).
Proof. reflexivity. Qed.

Lemma result_orThrow {A : Type} fs (r : string + A) :
  result fs (orThrow r) = r.
Proof. now destruct r. Qed.

Lemma forEach_total {A S : Type} fs (body : S -> A -> io S) (xs : list A) :
  (forall s x, In x xs -> exists s', result fs (body s x) = inr s') ->
  forall s, exists s', result fs (forEach xs body s) = inr s'.
Proof.
  induction xs as [|x t IH]; intros Hbody s; cbn [forEach].
  - now exists s.
  - rewrite result_bind.
    destruct (Hbody s x (or_introl eq_refl)) as (s1 & ->).
    apply IH. intros s2 y Hy. apply Hbody. now right.
Qed.

Lemma mapM_total {A B : Type} fs (f : A -> io B) (xs : list A) :
  (forall x, In x xs -> exists y, result fs (f x) = inr y) ->
  exists ys, result fs (mapM f xs) = inr ys.
Proof.
  induction xs as [|x t IH]; intros Hf; cbn [mapM].
  - now exists [].
  - rewrite result_bind. destruct (Hf x (or_introl eq_refl)) as (y & ->).
    rewrite result_bind.
    destruct IH as (ys & ->); [intros z Hz; apply Hf; now right|].
    now exists (y :: ys).
Qed.

End IoFacts.

(* ------------------------------------------------------------------ *)
(** ** The structural validation of a project directory *)

Module InitializationFacts.
Import JsString Types Io IoFacts Json InitializationCheck.

(** C9. In a directory without [package.json], [validateProjectStructure]
    returns the single diagnostic for the missing manifest, and the
    existence test of the manifest is its only request to the file system:
    the dependency, configuration-file and local-module checks do not
    run. *)
Theorem validateProjectStructure_missing_manifest
  (JSON_parse : string -> string + json) (fs : FileSystem.FS)
  (projectRoot : string) :
  FileSystem.existsSync fs (NodePath.pjoin [projectRoot; "package.json"]) = false ->
  run fs (validateProjectStructure JSON_parse projectRoot) =
  (inr [missingManifest projectRoot],
   [EvExists (NodePath.pjoin [projectRoot; "package.json"])]).
Proof.
  intros H. unfold validateProjectStructure, existsSync.
  cbn [bind run]. rewrite H. reflexivity.
Qed.

Lemma validateProjectStructure_missing_manifest_witness :
  FileSystem.existsSync Samples.workspace
    (NodePath.pjoin ["/work/tests"; "package.json"]) = false /\
  run Samples.workspace
      (validateProjectStructure Samples.parseSample "/work/tests") =
  (inr [mkError StructureValidation "/work/tests" "Missing 'package.json'"],
   [EvExists "/work/tests/package.json"]).
Proof.
  split; [reflexivity|].
  apply (validateProjectStructure_missing_manifest
           Samples.parseSample Samples.workspace "/work/tests").
  reflexivity.
Defined.

Lemma dependencyCheck_result JSON_parse fs packageJsonPath errors :
  exists manifestPart,
    result fs (dependencyCheck JSON_parse packageJsonPath errors) =
    inr (errors ++ manifestPart)%list /\
    List.length manifestPart <= 1.
Proof.
  unfold dependencyCheck. rewrite result_tryCatch, result_bind, result_readFile.
  destruct (FileSystem.readFileSync fs packageJsonPath) as [e|content].
  { exists [unreadableManifest packageJsonPath e]. split; [reflexivity|cbn; lia]. }
  rewrite result_bind, result_orThrow.
  destruct (JSON_parse content) as [e|packageJson].
  { exists [unreadableManifest packageJsonPath e]. split; [reflexivity|cbn; lia]. }
  rewrite result_bind, result_orThrow.
  destruct (getProperty packageJson "dependencies") as [e|dependencies].
  { exists [unreadableManifest packageJsonPath e]. split; [reflexivity|cbn; lia]. }
  rewrite result_bind, result_orThrow.
  destruct (getProperty packageJson "devDependencies") as [e|devDependencies].
  { exists [unreadableManifest packageJsonPath e]. split; [reflexivity|cbn; lia]. }
  destruct (negb (truthy (getOwn REQUIRED_DEP _))).
  - exists [missingDependency packageJsonPath]. split; [reflexivity|cbn; lia].
  - exists []. split; [cbn; now rewrite app_nil_r|cbn; lia].
Qed.

(** With a manifest present, the three checks run one after the other and
    none looks at what another found: the diagnostics are those of the
    manifest, then the one for the configuration file, then the one for the
    local module. *)
Lemma validateProjectStructure_checks_independent JSON_parse fs projectRoot :
  let packageJsonPath := NodePath.pjoin [projectRoot; "package.json"] in
  FileSystem.existsSync fs packageJsonPath = true ->
  exists manifestPart,
    result fs (dependencyCheck JSON_parse packageJsonPath []) = inr manifestPart /\
    List.length manifestPart <= 1 /\
    result fs (validateProjectStructure JSON_parse projectRoot) =
    inr (manifestPart ++
         (if FileSystem.existsSync fs (NodePath.pjoin [projectRoot; REQUIRED_CONFIG])
          then [] else [missingConfig projectRoot]) ++
         (if FileSystem.existsSync fs
               (NodePath.pjoin [projectRoot; REQUIRED_NODE_MODULES_DIR])
          then [] else [missingModule projectRoot]))%list.
Proof.
  intros packageJsonPath Hex.
  destruct (dependencyCheck_result JSON_parse fs packageJsonPath [])
    as (manifestPart & Hdep & Hlen).
  cbn [app] in Hdep. exists manifestPart.
  split; [exact Hdep|]. split; [exact Hlen|].
  unfold validateProjectStructure. fold packageJsonPath.
  rewrite result_bind, result_existsSync, Hex. cbn [negb].
  rewrite result_bind, Hdep, result_bind, result_existsSync.
  rewrite result_bind, result_existsSync, result_Ret. unfold push.
  destruct (FileSystem.existsSync fs (NodePath.pjoin [projectRoot; REQUIRED_CONFIG]));
    destruct (FileSystem.existsSync fs
                (NodePath.pjoin [projectRoot; REQUIRED_NODE_MODULES_DIR]));
    cbn [negb app]; rewrite ?app_nil_r, <- ?app_assoc; reflexivity.
Qed.

(** index.ts keeps a directory as a valid project exactly when the
    validation returned no diagnostic. *)
Lemma isValidProject_iff errors : isValidProject errors = true <-> errors = [].
Proof. destruct errors; split; intros H; try reflexivity; discriminate H. Qed.

(** All three diagnostics in one pass. *)
Example validateProjectStructure_accumulates :
  result Samples.workspace
         (validateProjectStructure Samples.parseSample "/work/jetton") =
  inr [missingDependency "/work/jetton/package.json";
       missingConfig "/work/jetton"; missingModule "/work/jetton"].
Proof. reflexivity. Qed.

(** C5. The manifest of [Samples.emptyVersionProject] lists the required
    dependency in its [dependencies] map, with the version range [""]; the
    configuration file and the local module are present.  The dependency
    test is a truthiness test of the merged entry, the empty string is
    falsy, and the directory gets the diagnostic for a dependency that was
    not found, so it does not count as valid. *)
Theorem validateProjectStructure_empty_version_rejected :
  Samples.parseSample Samples.emptyVersionManifest =
    inr Samples.emptyVersionValue /\
  (exists dependencies,
     getProperty Samples.emptyVersionValue "dependencies" =
       inr (Some (JObject dependencies)) /\
     getOwn REQUIRED_DEP dependencies = Some (JString "")) /\
  run Samples.emptyVersionProject
      (validateProjectStructure Samples.parseSample "/proj") =
  (inr [missingDependency "/proj/package.json"],
   [EvExists "/proj/package.json"; EvReadFile "/proj/package.json";
    EvExists "/proj/blueprint.config.ts";
    EvExists "/proj/node_modules/@ton-ai-core/blueprint"]) /\
  isValidProject [missingDependency "/proj/package.json"] = false.
Proof.
  split; [reflexivity|]. split; [|split; reflexivity].
  eexists. split; reflexivity.
Qed.

End InitializationFacts.

(* ------------------------------------------------------------------ *)
(** ** The wrapper naming rule *)

Module WrapperNamingFacts.
Import JsString Types Io IoFacts WrapperNamingRule.

Lemma splitSuffix_ts fileName :
  endsWith fileName ".ts" = true ->
  splitSuffix fileName =
  Some (if endsWith fileName ".compile.ts"
        then dropRight 11 fileName else dropRight 3 fileName,
        endsWith fileName ".compile.ts").
Proof.
  intros H. unfold splitSuffix, COMPILE_TS_SUFFIX, TS_SUFFIX.
  destruct (endsWith fileName ".compile.ts"); [reflexivity|].
  now rewrite H.
Qed.

Lemma compareExportedClass_length relativePath fileName baseName content :
  List.length (compareExportedClass relativePath fileName baseName content) <= 1.
Proof.
  unfold compareExportedClass.
  destruct (EXPORTED_CLASS_REGEX content) as [name|]; [|cbn; lia].
  destruct (negb (baseName =? name)%string); cbn; lia.
Qed.

(** The body of the loop never throws: a read failure is caught. *)
Lemma checkWrapperFile_total fs projectRoot fullPath :
  exists errors, result fs (checkWrapperFile projectRoot fullPath) = inr errors.
Proof.
  unfold checkWrapperFile.
  destruct (splitSuffix (NodePath.basename fullPath)) as [[baseName isCompileFile]|];
    [|now eexists].
  destruct (negb (PASCAL_CASE_REGEX baseName)); [now eexists|].
  destruct (negb isCompileFile); [|now eexists].
  rewrite result_tryCatch, result_bind, result_readFile.
  destruct (FileSystem.readFileSync fs fullPath); now eexists.
Qed.

(** The rule as a whole: the diagnostics of the files [glob] finds below
    [wrappers], one file after the other. *)
Lemma checkWrapperNaming_result fs projectRoot :
  exists perFile,
    Forall2 (fun fullPath errors =>
               result fs (checkWrapperFile projectRoot fullPath) = inr errors)
            (Glob.glob fs [absolutePattern projectRoot]
                       [Glob.ignoreNodeModules; Glob.ignoreDeclarations])
            perFile /\
    result fs (checkWrapperNaming projectRoot) = inr (List.concat perFile).
Proof.
  unfold checkWrapperNaming. rewrite result_bind, result_glob.
  generalize (Glob.glob fs [absolutePattern projectRoot]
                        [Glob.ignoreNodeModules; Glob.ignoreDeclarations]).
  intros files.
  assert (H : forall errors0,
            exists perFile,
              Forall2 (fun fullPath errors =>
                         result fs (checkWrapperFile projectRoot fullPath) = inr errors)
                      files perFile /\
              result fs
                (forEach files
                   (fun errors fullPath =>
                      more <- checkWrapperFile projectRoot fullPath ;;
                      Ret (errors ++ more)%list) errors0) =
              inr (errors0 ++ List.concat perFile)%list).
  { induction files as [|f t IH]; intros errors0; cbn [forEach].
    - exists []. split; [constructor|]. cbn [List.concat]. now rewrite app_nil_r.
    - destruct (checkWrapperFile_total fs projectRoot f) as (errors & He).
      rewrite result_bind, result_bind, He, result_Ret.
      destruct (IH (errors0 ++ errors)%list) as (perFile & Hall & Hres).
      exists (errors :: perFile). split; [now constructor|].
      rewrite Hres. cbn [List.concat]. now rewrite app_assoc. }
  exact (H []).
Qed.

Example wrapper_samples :
  result Samples.workspace
         (checkWrapperFile "/work/jetton" "/work/jetton/wrappers/Helper.ts") = inr [] /\
  result Samples.workspace
         (checkWrapperFile "/work/jetton" "/work/jetton/wrappers/MyContract.ts") = inr [] /\
  result Samples.workspace
         (checkWrapperFile "/work/jetton" "/work/jetton/wrappers/MyContract.compile.ts") = inr [] /\
  run Samples.workspace
      (checkWrapperFile "/work/jetton" "/work/jetton/wrappers/my_contract.ts") =
  (inr [mkError NamingConsistency "wrappers/my_contract.ts"
          "Wrapper file name part 'my_contract' in 'my_contract.ts' should be in PascalCase."],
   []).
Proof. repeat split. Qed.

End WrapperNamingFacts.

(* ------------------------------------------------------------------ *)
(** ** Paths and their resolution *)

Module PathFacts.
Import JsString NodePath FileSystem.

Lemma chars_app a b : chars (a ++ b) = (chars a ++ chars b)%list.
Proof.
  unfold chars. induction a as [|c a IH]; cbn; [reflexivity|]. now rewrite IH.
Qed.

Lemma text_chars s : text (chars s) = s.
Proof. apply string_of_list_ascii_of_string. Qed.

Lemma forallb_chars p s : JsString.forallb p s = List.forallb p (chars s).
Proof.
  unfold chars. induction s as [|c s IH]; cbn; [reflexivity|]. now rewrite IH.
Qed.

Lemma cleanName_spec e :
  cleanName e = true ->
  e <> "" /\ e <> "." /\ e <> ".." /\ noSlash e.
Proof.
  unfold cleanName. rewrite !andb_true_iff, !negb_true_iff, !String.eqb_neq.
  intros [[[H1 H2] H3] H4]. repeat split; try assumption.
  unfold noSlash. now rewrite <- forallb_chars.
Qed.

Lemma splitSlash_noSlash l : forall cur,
  List.forallb (fun c => negb (isSlash c)) l = true ->
  splitSlash l cur = [text (rev cur ++ l)].
Proof.
  induction l as [|c t IH]; intros cur H; cbn [splitSlash].
  - now rewrite app_nil_r.
  - cbn [List.forallb] in H. apply andb_true_iff in H. destruct H as [Hc Ht].
    apply negb_true_iff in Hc. rewrite Hc, IH by exact Ht.
    cbn [rev]. now rewrite <- app_assoc.
Qed.

Lemma splitSlash_app l1 l2 : forall cur,
  splitSlash (l1 ++ slash :: l2) cur = (splitSlash l1 cur ++ splitSlash l2 [])%list.
Proof.
  induction l1 as [|c t IH]; intros cur; cbn [app splitSlash].
  - reflexivity.
  - destruct (isSlash c); [cbn [app]; f_equal|]; apply IH.
Qed.

Lemma split_noSlash e : noSlash e -> split e = [e].
Proof.
  intros H. unfold split. rewrite splitSlash_noSlash by exact H.
  cbn [rev app]. now rewrite text_chars.
Qed.

Lemma split_app_slash a b : split (a ++ "/" ++ b) = (split a ++ split b)%list.
Proof.
  unfold split. rewrite !chars_app. apply splitSlash_app.
Qed.

Lemma split_absolute s : split ("/" ++ s) = "" :: split s.
Proof. reflexivity. Qed.

Lemma split_join segs :
  segs <> [] -> Forall noSlash segs -> split (join "/" segs) = segs.
Proof.
  unfold join. induction segs as [|x t IH]; intros Hne Hall; [congruence|].
  inversion Hall as [|? ? Hx Ht]; subst.
  destruct t as [|y t]; cbn [String.concat].
  - now apply split_noSlash.
  - rewrite split_app_slash, split_noSlash by exact Hx.
    cbn [app]. f_equal. apply IH; [discriminate|exact Ht].
Qed.

Lemma splitSlash_segments_noSlash l : forall cur,
  List.forallb (fun c => negb (isSlash c)) cur = true ->
  Forall noSlash (splitSlash l cur).
Proof.
  assert (Hrev : forall cur,
            List.forallb (fun c => negb (isSlash c)) cur = true ->
            noSlash (text (rev cur))).
  { intros cur H. unfold noSlash, chars, text.
    rewrite list_ascii_of_string_of_list_ascii.
    apply forallb_forall. intros c Hc. apply in_rev in Hc.
    now apply (proj1 (forallb_forall _ _) H). }
  induction l as [|c t IH]; intros cur H; cbn [splitSlash].
  - constructor; [now apply Hrev|constructor].
  - destruct (isSlash c) eqn:E.
    + constructor; [now apply Hrev|]. now apply IH.
    + apply IH. cbn [List.forallb]. now rewrite E, H.
Qed.

Lemma split_segments_noSlash p : Forall noSlash (split p).
Proof. now apply splitSlash_segments_noSlash. Qed.

(** *** Normalisation and resolution *)

Lemma normalizeSegments_snoc allow e : forall segs acc,
  e <> "" -> e <> "." -> e <> ".." ->
  normalizeSegments allow (segs ++ [e]) acc =
  (normalizeSegments allow segs acc ++ [e])%list.
Proof.
  intros segs acc H1 H2 H3.
  apply String.eqb_neq in H1. apply String.eqb_neq in H2.
  apply String.eqb_neq in H3.
  revert acc. induction segs as [|s t IH]; intros acc; cbn [app normalizeSegments].
  - now rewrite H1, H2, H3.
  - destruct (String.eqb s "" || String.eqb s "."); [apply IH|].
    destruct (String.eqb s ".."); [|apply IH].
    destruct acc as [|top acc']; [destruct allow; apply IH|].
    destruct (String.eqb top ".."); apply IH.
Qed.

Lemma normalizeSegments_elements allow (P : string -> Prop) : forall segs acc,
  P ".." -> Forall P segs -> Forall P acc ->
  Forall P (normalizeSegments allow segs acc).
Proof.
  intros segs acc Hdd. revert acc.
  induction segs as [|s t IH]; intros acc Hsegs Hacc; cbn [normalizeSegments].
  - apply Forall_rev. exact Hacc.
  - inversion Hsegs as [|? ? Hs Ht]; subst.
    destruct (String.eqb s "" || String.eqb s "."); [now apply IH|].
    destruct (String.eqb s "..").
    + destruct acc as [|top acc'].
      * destruct allow; apply IH; auto.
      * inversion Hacc; subst. destruct (String.eqb top ".."); apply IH; auto.
    + apply IH; auto.
Qed.

Lemma normalizeSegments_nonempty allow : forall segs acc,
  Forall (fun s => s <> "") acc ->
  Forall (fun s => s <> "") (normalizeSegments allow segs acc).
Proof.
  induction segs as [|s t IH]; intros acc Hacc; cbn [normalizeSegments].
  - apply Forall_rev. exact Hacc.
  - destruct (String.eqb s "" || String.eqb s ".") eqn:E; [now apply IH|].
    apply orb_false_iff in E. destruct E as [E _]. apply String.eqb_neq in E.
    destruct (String.eqb s "..").
    + destruct acc as [|top acc'].
      * destruct allow; apply IH; auto.
      * inversion Hacc; subst. destruct (String.eqb top ".."); apply IH; auto.
    + apply IH; auto.
Qed.

Lemma walkFrom_app a b : forall cur up,
  walkFrom (a ++ b) cur up =
  match walkFrom a cur up with
  | Some (c, u) => walkFrom b c u
  | None => None
  end.
Proof.
  induction a as [|s t IH]; intros cur up; cbn [app walkFrom]; [reflexivity|].
  destruct cur as [content|es]; [reflexivity|].
  destruct (String.eqb s "" || String.eqb s "."); [apply IH|].
  destruct (String.eqb s "..").
  - destruct up; apply IH.
  - destruct (lookupEntry s es); [apply IH|reflexivity].
Qed.

(** Walking a path that resolves and walking its normal form reach the
    same node. *)
Lemma walkFrom_normalize allow c0 u0 : forall segs acc cur up r,
  (allow = false -> u0 = []) ->
  Forall (fun s => s <> "" /\ s <> ".") acc ->
  walkFrom (rev acc) c0 u0 = Some (cur, up) ->
  walkFrom segs cur up = Some r ->
  walkFrom (normalizeSegments allow segs acc) c0 u0 = Some r.
Proof.
  induction segs as [|s t IH]; intros acc cur up r Hroot Hacc Hstate Hwalk.
  - cbn [normalizeSegments]. cbn [walkFrom] in Hwalk. congruence.
  - cbn [normalizeSegments]. cbn [walkFrom] in Hwalk.
    destruct cur as [content|es]; [discriminate|].
    destruct (String.eqb s "" || String.eqb s ".") eqn:E1.
    { eapply IH; eassumption. }
    apply orb_false_iff in E1. destruct E1 as [E1 E1'].
    apply String.eqb_neq in E1. apply String.eqb_neq in E1'.
    destruct (String.eqb s "..") eqn:E2.
    + apply String.eqb_eq in E2. subst s.
      destruct acc as [|top acc'].
      * cbn [rev walkFrom] in Hstate. injection Hstate as Hc Hu. subst c0 u0.
        destruct allow.
        -- destruct up as [|parent up'].
           ++ apply (IH [".."] (Dir es) [] r Hroot);
                [repeat constructor; discriminate|reflexivity|exact Hwalk].
           ++ apply (IH [".."] parent up' r Hroot);
                [repeat constructor; discriminate|reflexivity|exact Hwalk].
        -- pose proof (Hroot eq_refl) as Hup. subst up.
           apply (IH [] (Dir es) [] r Hroot); [constructor|reflexivity|exact Hwalk].
      * inversion Hacc as [|? ? [Ht1 Ht2] Hacc']; subst.
        destruct (String.eqb top "..") eqn:E3.
        -- assert (Hstep : forall cur' up',
                     walkFrom [".."] (Dir es) up = Some (cur', up') ->
                     walkFrom (rev (".." :: top :: acc')) c0 u0 = Some (cur', up')).
           { intros cur' up' H.
             change (rev (".." :: top :: acc')) with (rev (top :: acc') ++ [".."])%list.
             now rewrite walkFrom_app, Hstate. }
           destruct up as [|parent up'].
           ++ apply (IH (".." :: top :: acc') (Dir es) [] r Hroot);
                [constructor; [split; discriminate|exact Hacc]
                |now apply Hstep|exact Hwalk].
           ++ apply (IH (".." :: top :: acc') parent up' r Hroot);
                [constructor; [split; discriminate|exact Hacc]
                |now apply Hstep|exact Hwalk].
        -- cbn [rev] in Hstate. rewrite walkFrom_app in Hstate.
           destruct (walkFrom (rev acc') c0 u0) as [[c1 u1]|] eqn:E4; [|discriminate].
           cbn [walkFrom] in Hstate.
           destruct c1 as [content|es1]; [discriminate|].
           apply String.eqb_neq in Ht1. apply String.eqb_neq in Ht2.
           rewrite Ht1, Ht2, E3 in Hstate. cbn [orb] in Hstate.
           destruct (lookupEntry top es1); [|discriminate].
           injection Hstate as Hn Hup. subst n up.
           apply (IH acc' (Dir es1) u1 r Hroot Hacc' E4 Hwalk).
    + destruct (lookupEntry s es) as [child|] eqn:E3; [|discriminate].
      eapply IH; [exact Hroot|constructor; [split; assumption|exact Hacc]| |exact Hwalk].
      cbn [rev]. rewrite walkFrom_app, Hstate. cbn [walkFrom].
      apply String.eqb_neq in E1. apply String.eqb_neq in E1'.
      now rewrite E1, E1', E2, E3.
Qed.

Lemma append_assoc a b c : (a ++ b) ++ c = a ++ (b ++ c).
Proof. induction a as [|x a IH]; cbn; [reflexivity|]. now rewrite IH. Qed.

Lemma chars_nil s : chars s = [] -> s = "".
Proof. now destruct s. Qed.

Lemma join_snoc_nonempty ns e : e <> "" -> join "/" (ns ++ [e]) <> "".
Proof.
  intros He. unfold join. induction ns as [|x t IH]; cbn [app String.concat].
  - exact He.
  - destruct (t ++ [e])%list eqn:E; [now destruct t|].
    intros H. apply (f_equal chars) in H. rewrite !chars_app in H.
    apply app_eq_nil in H. destruct H as [_ H]. discriminate H.
Qed.

Lemma isAbsolute_app a b : a <> "" -> isAbsolute (a ++ b) = isAbsolute a.
Proof. now destruct a. Qed.

Lemma isAbsolute_join x rest :
  x <> "" -> isAbsolute (join "/" (x :: rest)) = isAbsolute x.
Proof.
  intros Hx. unfold join. destruct rest; cbn [String.concat]; [reflexivity|].
  now apply isAbsolute_app.
Qed.

Lemma noSlash_not_absolute x : noSlash x -> isAbsolute x = false.
Proof.
  unfold noSlash, chars. destruct x as [|c x]; [reflexivity|].
  cbn [list_ascii_of_string List.forallb isAbsolute].
  intros H. apply andb_true_iff in H. destruct H as [H _].
  now apply negb_true_iff in H.
Qed.

Lemma hasTrailingSlash_child a e :
  e <> "" -> noSlash e -> hasTrailingSlash (a ++ e) = false.
Proof.
  intros He Hs. unfold hasTrailingSlash. rewrite chars_app, rev_app_distr.
  unfold noSlash in Hs.
  destruct (chars e) as [|c l] eqn:E; [now apply chars_nil in E|].
  destruct (rev (c :: l)) as [|y r] eqn:Er.
  - apply (f_equal (@List.length _)) in Er. rewrite length_rev in Er. discriminate Er.
  - cbn [app].
    assert (Hy : In y (c :: l)) by (apply in_rev; rewrite Er; now left).
    apply (proj1 (forallb_forall _ _) Hs) in Hy. now apply negb_true_iff in Hy.
Qed.

(** [path.join(dir, e)] for an entry name: the normal form of [dir]
    followed by the name. *)
Lemma pjoin_child dir e :
  dir <> "" -> cleanName e = true ->
  pjoin [dir; e] =
  (if isAbsolute dir then "/" else "") ++
  join "/" (normalizeSegments (negb (isAbsolute dir)) (split dir) [] ++ [e]).
Proof.
  intros Hdir He. destruct (cleanName_spec _ He) as (H1 & H2 & H3 & H4).
  unfold pjoin. cbn [filter].
  apply String.eqb_neq in Hdir as Hd. apply String.eqb_neq in H1 as He1.
  rewrite Hd, He1. cbn [negb].
  change (join "/" [dir; e]) with (dir ++ "/" ++ e).
  unfold normalize.
  destruct (dir ++ "/" ++ e) as [|c0 rest] eqn:Ep; [now destruct dir|].
  rewrite <- Ep.
  rewrite (isAbsolute_app dir ("/" ++ e) Hdir).
  replace (hasTrailingSlash (dir ++ "/" ++ e)) with false.
  2:{ symmetry. rewrite <- (append_assoc dir "/" e).
      now apply hasTrailingSlash_child. }
  rewrite split_app_slash, (split_noSlash e H4).
  rewrite normalizeSegments_snoc by assumption.
  destruct (join "/" _) as [|b body] eqn:Eb.
  - exfalso. now apply (join_snoc_nonempty _ e H1) in Eb.
  - now destruct (isAbsolute dir).
Qed.

Lemma resolve_unfold fs p :
  p <> "" ->
  resolve fs p =
  option_map fst
    (walkFrom ((if isAbsolute p then [] else split (cwd fs)) ++ split p)
              (tree fs) []).
Proof.
  intros Hp. unfold resolve, walk. destruct p as [|c p]; [congruence|].
  now destruct (isAbsolute (String c p)).
Qed.

(** An entry of a directory is found under the joined path. *)
Lemma resolve_pjoin_child fs dir es e child :
  resolve fs dir = Some (Dir es) ->
  cleanName e = true ->
  lookupEntry e es = Some child ->
  resolve fs (pjoin [dir; e]) = Some child.
Proof.
  intros Hdir He Hchild.
  assert (Hne : dir <> "") by (intros ->; discriminate Hdir).
  destruct (cleanName_spec _ He) as (H1 & H2 & H3 & H4).
  rewrite (resolve_unfold fs dir Hne) in Hdir.
  set (pre := if isAbsolute dir then [] else split (cwd fs)) in *.
  destruct (walkFrom (pre ++ split dir) (tree fs) []) as [[d up]|] eqn:Ew;
    [|discriminate].
  cbn [option_map fst] in Hdir. injection Hdir as ->.
  (* the path before normalisation reaches the child *)
  assert (Hraw : walkFrom (pre ++ split dir ++ [e]) (tree fs) [] =
                 Some (child, Dir es :: up)).
  { rewrite app_assoc, walkFrom_app, Ew. cbn [walkFrom].
    apply String.eqb_neq in H1. apply String.eqb_neq in H2.
    apply String.eqb_neq in H3. now rewrite H1, H2, H3, Hchild. }
  set (ns := normalizeSegments (negb (isAbsolute dir)) (split dir ++ [e]) []).
  assert (Hns : ns = (normalizeSegments (negb (isAbsolute dir)) (split dir) [] ++ [e])%list)
    by (unfold ns; now apply normalizeSegments_snoc).
  assert (Hslash : Forall noSlash ns).
  { unfold ns. apply normalizeSegments_elements; [reflexivity| |constructor].
    apply Forall_app. split; [apply split_segments_noSlash|].
    constructor; [exact H4|constructor]. }
  assert (Hnonempty : Forall (fun s => s <> "") ns)
    by (unfold ns; apply normalizeSegments_nonempty; constructor).
  assert (Hnil : ns <> []).
  { rewrite Hns. intros E. apply app_eq_nil in E. destruct E as [_ E]. discriminate E. }
  rewrite (pjoin_child dir e Hne He), <- Hns.
  destruct (isAbsolute dir) eqn:Eabs.
  - (* absolute *)
    rewrite resolve_unfold by discriminate. cbn [isAbsolute append isSlash].
    change (isSlash "/") with true. cbn [negb] in *.
    change ("/" ++ join "/" ns) with (String "/" (join "/" ns)).
    change (String "/" (join "/" ns)) with ("/" ++ join "/" ns).
    rewrite split_absolute, (split_join ns Hnil Hslash).
    cbn [app] in *. subst pre. cbn [app] in Hraw.
    assert (Hn : walkFrom ns (tree fs) [] = Some (child, Dir es :: up)).
    { unfold ns. eapply (walkFrom_normalize false (tree fs) []);
        [reflexivity|constructor|reflexivity|exact Hraw]. }
    destruct (tree fs) as [content|root].
    + destruct ns; [congruence|discriminate Hn].
    + cbn [walkFrom String.eqb orb]. now rewrite Hn.
  - (* relative to the working directory *)
    cbn [append negb] in *.
    destruct ns as [|x rest] eqn:En; [congruence|].
    inversion Hslash as [|? ? Hx _]; subst.
    inversion Hnonempty as [|? ? Hx' _]; subst.
    rewrite resolve_unfold.
    2:{ intros E. destruct rest; cbn in E.
        - congruence.
        - apply (f_equal chars) in E. rewrite chars_app in E.
          apply app_eq_nil in E. destruct E as [E _]. now apply chars_nil in E. }
    rewrite (isAbsolute_join x rest Hx'), (noSlash_not_absolute x Hx).
    rewrite (split_join (x :: rest) Hnil Hslash). subst pre.
    rewrite walkFrom_app in Hraw |- *.
    destruct (walkFrom (split (cwd fs)) (tree fs) []) as [[c0 u0]|]; [|discriminate].
    rewrite <- En.
    unfold ns.
    rewrite (walkFrom_normalize true c0 u0 (split dir ++ [e]) [] c0 u0
               (child, Dir es :: up)); [reflexivity|discriminate|constructor
                                       |reflexivity|exact Hraw].
Qed.

Example path_samples :
  dirname "/" = "/" /\ dirname "/work/jetton" = "/work" /\ dirname "jetton" = "." /\
  basename "/work/contracts/MyJetton.fc" = "MyJetton.fc" /\
  extname "/work/contracts/MyJetton.fc" = ".fc" /\
  extname "/work/.gitignore" = "" /\
  extname "/work/tests/Jetton.spec.ts" = ".ts" /\
  parseName "my_jetton.tact" = "my_jetton" /\
  pjoin ["/work"; "package.json"] = "/work/package.json" /\
  pjoin ["/"; "contracts"] = "/contracts" /\
  normalize "/work/jetton/../contracts/" = "/work/contracts/" /\
  relative "/work/jetton" "/work/jetton/contracts/a.fc" = "contracts/a.fc" /\
  relative "/work/jetton" "/work/other/a.fc" = "../other/a.fc".
Proof. repeat split. Qed.

End PathFacts.

(* ------------------------------------------------------------------ *)
(** ** Well-formed file systems *)

Module FileSystemFacts.
Import JsString NodePath FileSystem PathFacts.

Lemma wellFormed_Dir es :
  wellFormed (Dir es) = true ->
  Forall (fun name => cleanName name = true) (map fst es) /\
  forall name child, In (name, child) es -> wellFormed child = true.
Proof.
  cbn [wellFormed]. rewrite !andb_true_iff. intros [[Hclean _] Hall]. split.
  - apply Forall_forall. now apply forallb_forall.
  - clear Hclean. induction es as [|[n c] t IH]; intros name child []; 
      apply andb_true_iff in Hall; destruct Hall as [Hc Ht].
    + congruence.
    + now apply (IH Ht name child).
Qed.

Lemma lookupEntry_In name es child :
  lookupEntry name es = Some child -> In (name, child) es.
Proof.
  induction es as [|[n c] t IH]; cbn [lookupEntry]; [discriminate|].
  destruct (String.eqb_spec n name) as [->|_].
  - intros H. injection H as ->. now left.
  - intros H. right. now apply IH.
Qed.

Lemma lookupEntry_listed name es :
  In name (map fst es) -> exists child, lookupEntry name es = Some child.
Proof.
  induction es as [|[n c] t IH]; cbn [map fst In lookupEntry]; [intros []|].
  destruct (String.eqb_spec n name) as [->|N]; [now exists c|].
  intros [H|H]; [congruence|now apply IH].
Qed.

Lemma walkFrom_wellFormed segs : forall cur up n u,
  wellFormed cur = true -> Forall (fun a => wellFormed a = true) up ->
  walkFrom segs cur up = Some (n, u) ->
  wellFormed n = true /\ Forall (fun a => wellFormed a = true) u.
Proof.
  induction segs as [|s t IH]; intros cur up n u Hcur Hup; cbn [walkFrom].
  - intros H. injection H as <- <-. now split.
  - destruct cur as [content|es]; [discriminate|].
    destruct (String.eqb s "" || String.eqb s "."); [now apply IH|].
    destruct (String.eqb s "..").
    + destruct up as [|parent up']; [now apply IH|].
      inversion Hup; subst. now apply IH.
    + destruct (lookupEntry s es) as [child|] eqn:E; [|discriminate].
      apply IH; [|now constructor].
      apply lookupEntry_In in E.
      now apply (proj2 (wellFormed_Dir es Hcur) s child).
Qed.

Lemma resolve_wellFormed fs p n :
  wellFormed (tree fs) = true -> resolve fs p = Some n -> wellFormed n = true.
Proof.
  intros Hwf. unfold resolve, walk. destruct p as [|c p]; [discriminate|].
  destruct (walkFrom _ (tree fs) []) as [[m u]|] eqn:E; [|discriminate].
  cbn [option_map fst]. intros H. injection H as <-.
  now apply (walkFrom_wellFormed _ _ _ _ _ Hwf (Forall_nil _) E).
Qed.

Lemma readdirSync_listing fs dir names :
  readdirSync fs dir = inr names ->
  exists es, resolve fs dir = Some (Dir es) /\ names = map fst es.
Proof.
  unfold readdirSync. destruct (resolve fs dir) as [[content|es]|]; try discriminate.
  intros H. injection H as <-. now exists es.
Qed.

(** In a well-formed file system, [lstatSync] finds every entry that
    [readdirSync] lists. *)
Lemma lstat_listed fs dir names e :
  wellFormed (tree fs) = true ->
  readdirSync fs dir = inr names -> In e names ->
  exists isDir, lstatIsDirectory fs (pjoin [dir; e]) = inr isDir.
Proof.
  intros Hwf Hread He.
  destruct (readdirSync_listing _ _ _ Hread) as (es & Hdir & ->).
  pose proof (resolve_wellFormed _ _ _ Hwf Hdir) as Hes.
  destruct (wellFormed_Dir es Hes) as [Hclean _].
  destruct (lookupEntry_listed e es He) as (child & Hchild).
  assert (Hc : cleanName e = true)
    by (apply (proj1 (Forall_forall _ _) Hclean); exact He).
  unfold lstatIsDirectory.
  rewrite (resolve_pjoin_child fs dir es e child Hdir Hc Hchild).
  destruct child; eauto.
Qed.

End FileSystemFacts.

(* ------------------------------------------------------------------ *)
(** ** The files [glob] returns *)

Module GlobFacts.
Import JsString JsStringFacts NodePath FileSystem PathFacts FileSystemFacts.

Lemma distinct_NoDup names : distinct names = true -> NoDup names.
Proof.
  induction names as [|n t IH]; cbn [distinct]; [constructor|].
  rewrite andb_true_iff, negb_true_iff. intros [Hn Ht].
  constructor; [|now apply IH].
  intros H. apply includes_In in H. congruence.
Qed.

(** The paths of the files of a well-formed tree are made of proper names
    and are pairwise distinct. *)
Lemma allFiles_wellFormed n :
  wellFormed n = true ->
  NoDup (allFiles n) /\ forall path, In path (allFiles n) -> cleanPath path.
Proof.
  revert n. fix IH 1. intros [content|es] Hwf.
  - cbn [allFiles]. split; [repeat constructor; intros []|].
    intros path [<-|[]]. constructor.
  - pose proof Hwf as Hwf'. cbn [wellFormed] in Hwf'.
    apply andb_true_iff in Hwf'. destruct Hwf' as [Hnames _].
    apply andb_true_iff in Hnames. destruct Hnames as [Hclean Hdistinct].
    apply distinct_NoDup in Hdistinct.
    assert (Hclean' : Forall (fun name => cleanName name = true) (map fst es))
      by (apply Forall_forall; now apply forallb_forall).
    pose proof (proj2 (wellFormed_Dir es Hwf)) as Hchildren.
    clear Hwf Hclean. cbn [allFiles].
    induction es as [|[name child] t IHes].
    + split; [constructor|intros ? []].
    + cbn [map fst] in Hdistinct, Hclean'.
      inversion Hdistinct as [|? ? Hname Ht]; subst.
      inversion Hclean' as [|? ? Hc Hct]; subst.
      destruct (IH child (Hchildren name child (or_introl eq_refl))) as [Hnd Hcl].
      destruct (IHes Ht Hct) as [Hnd' Hcl'];
        [intros n' c' H; apply (Hchildren n' c'); now right|].
      split.
      * apply NoDup_app; [apply Finite.Injective_map_NoDup;
                            [intros a b H; now injection H|exact Hnd]
                         |exact Hnd'|].
        intros path Hin Hin'. apply in_map_iff in Hin.
        destruct Hin as (p & <- & _). apply Hname. clear - Hin'.
        induction t as [|[n' c'] t IHt]; [destruct Hin'|].
        apply in_app_iff in Hin'. cbn [map fst]. destruct Hin' as [H|H].
        -- apply in_map_iff in H. destruct H as (q & E & _). injection E as ->.
           now left.
        -- right. now apply IHt.
      * intros path Hin. apply in_app_iff in Hin. destruct Hin as [Hin|Hin].
        -- apply in_map_iff in Hin. destruct Hin as (p & <- & Hp).
           constructor; [exact Hc|now apply Hcl].
        -- now apply Hcl'.
Qed.

Lemma cleanPath_noSlash path : cleanPath path -> Forall noSlash path.
Proof.
  intros H. eapply Forall_impl; [|exact H].
  intros name Hn. now apply cleanName_spec in Hn.
Qed.

Lemma join_injective a b :
  cleanPath a -> cleanPath b -> join "/" a = join "/" b -> a = b.
Proof.
  intros Ha Hb E.
  assert (Hempty : forall x t, cleanPath (x :: t) -> join "/" (x :: t) <> "").
  { intros x t Hc Hj. inversion Hc as [|? ? Hx _]; subst.
    apply cleanName_spec in Hx. destruct Hx as [Hx _].
    unfold join in Hj. destruct t; cbn [String.concat] in Hj; [congruence|].
    now destruct x. }
  destruct a as [|x a], b as [|y b]; [reflexivity| | |].
  - symmetry in E. now apply Hempty in E.
  - now apply Hempty in E.
  - rewrite <- (split_join (x :: a)), <- (split_join (y :: b));
      try discriminate; try now apply cleanPath_noSlash.
    now rewrite E.
Qed.

Lemma absolutePath_injective a b :
  cleanPath a -> cleanPath b -> absolutePath a = absolutePath b -> a = b.
Proof.
  intros Ha Hb E. unfold absolutePath in E. injection E as E.
  now apply join_injective.
Qed.

Lemma normalizeSegments_clean allow path : forall acc,
  cleanPath path ->
  normalizeSegments allow path acc = (rev acc ++ path)%list.
Proof.
  induction path as [|s t IH]; intros acc Hc; cbn [normalizeSegments].
  - now rewrite app_nil_r.
  - inversion Hc as [|? ? Hs Ht]; subst.
    apply cleanName_spec in Hs. destruct Hs as (H1 & H2 & H3 & _).
    apply String.eqb_neq in H1. apply String.eqb_neq in H2.
    apply String.eqb_neq in H3. rewrite H1, H2, H3. cbn [orb].
    rewrite IH by exact Ht. cbn [rev]. now rewrite <- app_assoc.
Qed.

Lemma segments_absolutePath path :
  cleanPath path -> segments (absolutePath path) = path.
Proof.
  intros Hc. unfold segments, absolutePath. rewrite split_absolute.
  destruct path as [|x t]; [reflexivity|].
  rewrite split_join; [|discriminate|now apply cleanPath_noSlash].
  change (normalizeSegments false ("" :: x :: t) [])
    with (normalizeSegments false (x :: t) []).
  now rewrite (normalizeSegments_clean false (x :: t) [] Hc).
Qed.

Lemma pathMatch_literal dot rs : forall pat path,
  Glob.pathMatch dot (map Glob.Lit rs ++ pat)%list path = true ->
  exists rest, path = (rs ++ rest)%list /\ Glob.pathMatch dot pat rest = true.
Proof.
  induction rs as [|r t IH]; intros pat path; cbn [map app].
  - intros H. now exists path.
  - cbn [Glob.pathMatch]. destruct path as [|x path]; [discriminate|].
    rewrite andb_true_iff, String.eqb_eq. intros [-> H].
    destruct (IH pat path H) as (rest & -> & Hrest). now exists rest.
Qed.

Lemma stripCommon_prefix rs rest :
  stripCommon rs (rs ++ rest) = ([], rest).
Proof.
  induction rs as [|r t IH]; cbn [app stripCommon]; [reflexivity|].
  now rewrite String.eqb_refl.
Qed.

(** Below the directory a pattern starts with, [path.relative] cuts the
    directory off. *)
Lemma relative_below root rest :
  cleanPath (segments root ++ rest) ->
  relative root (absolutePath (segments root ++ rest)) = join "/" rest.
Proof.
  intros Hc. unfold relative. rewrite (segments_absolutePath _ Hc).
  now rewrite stripCommon_prefix.
Qed.

(** The files that [glob] returns for patterns below a literal directory,
    in a well-formed file system: distinct paths, which [path.relative]
    keeps distinct. *)
Lemma glob_distinct fs root (tails : list Glob.pattern) ignore :
  wellFormed (tree fs) = true ->
  let files := Glob.glob fs (map (fun tail => Glob.literal root ++ tail)%list tails)
                         ignore in
  NoDup files /\
  forall f g, In f files -> In g files -> relative root f = relative root g -> f = g.
Proof.
  intros Hwf files.
  destruct (allFiles_wellFormed _ Hwf) as [Hnd Hclean].
  assert (Hshape : forall f, In f files ->
            exists rest, cleanPath (segments root ++ rest) /\
                         f = absolutePath (segments root ++ rest)).
  { intros f Hf. unfold files, Glob.glob in Hf. apply in_map_iff in Hf.
    destruct Hf as (path & <- & Hpath). apply filter_In in Hpath.
    destruct Hpath as [Hin Hm]. apply andb_true_iff in Hm. destruct Hm as [Hm _].
    unfold Glob.matchesAny in Hm. apply existsb_exists in Hm.
    destruct Hm as (pat & Hpat & Hmatch). apply in_map_iff in Hpat.
    destruct Hpat as (tail & <- & _). unfold Glob.literal in Hmatch.
    apply pathMatch_literal in Hmatch. destruct Hmatch as (rest & -> & _).
    exists rest. split; [now apply Hclean|reflexivity]. }
  split.
  - unfold files, Glob.glob.
    assert (Hnd' : NoDup (filter (fun path =>
                Glob.matchesAny false
                  (map (fun tail => Glob.literal root ++ tail)%list tails) path &&
                negb (Glob.matchesAny true ignore path))
              (allFiles (tree fs)))) by now apply NoDup_filter.
    revert Hnd'.
    assert (Hsub : forall p, In p (filter (fun path =>
                Glob.matchesAny false
                  (map (fun tail => Glob.literal root ++ tail)%list tails) path &&
                negb (Glob.matchesAny true ignore path))
              (allFiles (tree fs))) -> cleanPath p).
    { intros p Hp. apply filter_In in Hp. now apply Hclean. }
    revert Hsub. generalize (filter (fun path =>
                Glob.matchesAny false
                  (map (fun tail => Glob.literal root ++ tail)%list tails) path &&
                negb (Glob.matchesAny true ignore path))
              (allFiles (tree fs))).
    intros l Hsub Hl. induction Hl as [|p l Hp Hl IH]; cbn [map]; [constructor|].
    constructor.
    + intros Hin. apply in_map_iff in Hin. destruct Hin as (q & E & Hq).
      apply absolutePath_injective in E;
        [congruence|apply Hsub; now right|apply Hsub; now left].
    + apply IH. intros q Hq. apply Hsub. now right.
  - intros f g Hf Hg E.
    destruct (Hshape f Hf) as (rf & Hcf & ->).
    destruct (Hshape g Hg) as (rg & Hcg & ->).
    rewrite !relative_below in E by assumption.
    apply Forall_app in Hcf. apply Forall_app in Hcg.
    apply join_injective in E; [now rewrite E|tauto|tauto].
Qed.

(** *** The pattern [contracts/**/*.*] *)

Lemma wildMatch_star s : Glob.wildMatch [Glob.TStar] s = true.
Proof.
  cbn [Glob.wildMatch]. induction s as [|c s IH]; [reflexivity|].
  destruct s; exact IH.
Qed.

Lemma wildMatch_starDotStar name :
  Glob.wildMatch [Glob.TStar; Glob.TChar "."; Glob.TStar] name = true <->
  exists stem ext, name = stem ++ "." ++ ext.
Proof.
  assert (Hdot : forall s,
            Glob.wildMatch [Glob.TChar "."; Glob.TStar] s = true <->
            exists ext, s = "." ++ ext).
  { intros [|d s].
    - split; [discriminate|]. intros (ext & H). discriminate H.
    - change (Glob.wildMatch [Glob.TChar "."; Glob.TStar] (String d s))
        with (Ascii.eqb "." d && Glob.wildMatch [Glob.TStar] s).
      rewrite wildMatch_star, andb_true_r, Ascii.eqb_eq. split.
      + intros <-. now exists s.
      + intros (ext & H). now injection H. }
  induction name as [|c name IH].
  - split; [discriminate|]. intros ([|a stem] & ext & H); discriminate H.
  - change (Glob.wildMatch [Glob.TStar; Glob.TChar "."; Glob.TStar] (String c name))
      with (Glob.wildMatch [Glob.TChar "."; Glob.TStar] (String c name) ||
            Glob.wildMatch [Glob.TStar; Glob.TChar "."; Glob.TStar] name).
    rewrite orb_true_iff, Hdot, IH. split.
    + intros [(ext & H)|(stem & ext & ->)].
      * exists "", ext. exact H.
      * now exists (String c stem), ext.
    + intros ([|a stem] & ext & H).
      * left. now exists ext.
      * right. injection H as -> ->. now exists stem, ext.
Qed.

Lemma pathMatch_globstar_last dot toks path :
  Glob.pathMatch dot [Glob.GlobStar; Glob.Wild toks] path = true <->
  exists dirs name,
    path = (dirs ++ [name])%list /\
    List.forallb (Glob.starOk dot) dirs = true /\
    Glob.portionMatch dot toks name = true.
Proof.
  induction path as [|x t IH].
  - split; [discriminate|]. intros ([|d dirs] & name & H & _); discriminate H.
  - change (Glob.pathMatch dot [Glob.GlobStar; Glob.Wild toks] (x :: t))
      with (Glob.pathMatch dot [Glob.Wild toks] (x :: t) ||
            Glob.starOk dot x && Glob.pathMatch dot [Glob.GlobStar; Glob.Wild toks] t).
    rewrite orb_true_iff, andb_true_iff, IH. cbn [Glob.pathMatch]. split.
    + intros [H|[Hx (dirs & name & -> & Hd & Hn)]].
      * apply andb_true_iff in H. destruct H as [Hn Ht].
        destruct t; [|discriminate]. now exists [], x.
      * exists (x :: dirs), name. cbn [List.forallb]. now rewrite Hx, Hd.
    + intros ([|d dirs] & name & H & Hd & Hn); cbn [app] in H.
      * injection H as -> ->. left. now rewrite Hn.
      * injection H as -> ->. cbn [List.forallb] in Hd.
        apply andb_true_iff in Hd. right. split; [tauto|].
        exists dirs, name. tauto.
Qed.

(** The files of the duplicate-name scan: below [contracts] at any depth,
    outside hidden directories, with a name that is not hidden and has a
    dot in it. *)
Lemma contracts_pattern_spec root path :
  Glob.pathMatch false
    (Glob.literal root ++ [Glob.Lit "contracts"; Glob.GlobStar; Glob.starDotStar])%list
    path = true <->
  exists dirs name stem ext,
    path = (segments root ++ "contracts" :: dirs ++ [name])%list /\
    List.forallb (fun d => negb (Glob.dotName d)) dirs = true /\
    Glob.dotName name = false /\
    name = stem ++ "." ++ ext.
Proof.
  unfold Glob.literal. split.
  - intros H. apply pathMatch_literal in H. destruct H as (rest & -> & H).
    cbn [Glob.pathMatch] in H. destruct rest as [|x rest]; [discriminate|].
    apply andb_true_iff in H. destruct H as [Hx H]. apply String.eqb_eq in Hx.
    subst x. apply pathMatch_globstar_last in H.
    destruct H as (dirs & name & -> & Hd & Hn).
    unfold Glob.portionMatch in Hn. apply andb_true_iff in Hn.
    destruct Hn as [Hdot Hw]. apply wildMatch_starDotStar in Hw.
    destruct Hw as (stem & ext & ->).
    exists dirs, (stem ++ "." ++ ext), stem, ext.
    split; [reflexivity|]. split; [exact Hd|]. split; [|reflexivity].
    cbn [orb Glob.startsWithLiteralDot] in Hdot. rewrite orb_false_r in Hdot.
    now apply negb_true_iff in Hdot.
  - intros (dirs & name & stem & ext & -> & Hd & Hdot & Hname).
    induction (segments root) as [|r t IH]; cbn [map app Glob.pathMatch].
    + rewrite String.eqb_refl. cbn [andb].
      apply (pathMatch_globstar_last false [Glob.TStar; Glob.TChar "."; Glob.TStar]).
      exists dirs, name. split; [reflexivity|]. split; [exact Hd|].
      unfold Glob.portionMatch. rewrite Hdot. cbn [negb orb andb].
      apply wildMatch_starDotStar. now exists stem, ext.
    + now rewrite String.eqb_refl.
Qed.

End GlobFacts.

(* ------------------------------------------------------------------ *)
(** ** Sorting with a comparator *)

Module SortFacts.
Import RootFolderCheck.

Section Sorting.

Context {A : Type} (compare : A -> A -> Z).

Let le (a b : A) : Prop := (compare a b <= 0)%Z.

Hypothesis total : forall a b, le a b \/ le b a.
Hypothesis trans : forall a b c, le a b -> le b c -> le a c.

Lemma insertSorted_perm x l : Permutation (x :: l) (insertSorted compare x l).
Proof.
  induction l as [|y t IH]; cbn [insertSorted]; [reflexivity|].
  destruct (compare x y <=? 0)%Z; [reflexivity|].
  rewrite perm_swap. now apply perm_skip.
Qed.

Lemma sortBy_perm l : Permutation l (sortBy compare l).
Proof.
  unfold sortBy. induction l as [|x t IH]; cbn [fold_right]; [reflexivity|].
  rewrite <- insertSorted_perm. now apply perm_skip.
Qed.

Lemma insertSorted_sorted x l :
  StronglySorted le l -> StronglySorted le (insertSorted compare x l).
Proof.
  induction l as [|y t IH]; intros Hs; cbn [insertSorted].
  - repeat constructor.
  - inversion Hs as [|? ? Ht Hy]; subst.
    destruct (compare x y <=? 0)%Z eqn:E.
    + apply Z.leb_le in E. constructor; [exact Hs|].
      constructor; [exact E|].
      eapply Forall_impl; [|exact Hy]. intros z Hz. now apply (trans x y z).
    + apply Z.leb_gt in E. constructor; [now apply IH|].
      eapply Permutation_Forall; [apply insertSorted_perm|].
      constructor; [|exact Hy].
      destruct (total x y) as [H|H]; [unfold le in H; lia|exact H].
Qed.

Lemma sortBy_sorted l : StronglySorted le (sortBy compare l).
Proof.
  unfold sortBy. induction l as [|x t IH]; cbn [fold_right]; [constructor|].
  now apply insertSorted_sorted.
Qed.

End Sorting.

End SortFacts.

(* ------------------------------------------------------------------ *)
(** ** The root-folder check *)

Module RootFolderFacts.
Import JsString Types Io IoFacts SortFacts FileSystemFacts RootFolderCheck.

(** C10. When the start path is its own parent (the file system root),
    [checkRootFolder] is the program that returns the empty list at once:
    it makes no request to the file system, so neither marker items nor
    forbidden directories are looked for.  Both variants of the check
    agree on this. *)
Theorem checkRootFolder_at_root
  (localeCompare : string -> string -> Z) (startPath : string) :
  NodePath.dirname startPath = startPath ->
  RootFolderCheck.checkRootFolder localeCompare startPath = Ret [] /\
  RootFolderCheckPlain.checkRootFolder startPath = Ret [] /\
  forall fs : FileSystem.FS,
    run fs (RootFolderCheck.checkRootFolder localeCompare startPath) = (inr [], []) /\
    run fs (RootFolderCheckPlain.checkRootFolder startPath) = (inr [], []).
Proof.
  intros H.
  assert (E : (NodePath.dirname startPath =? startPath)%string = true)
    by now apply String.eqb_eq.
  unfold RootFolderCheck.checkRootFolder, RootFolderCheckPlain.checkRootFolder.
  rewrite E. repeat split.
Qed.

Lemma checkRootFolder_at_root_witness :
  NodePath.dirname "/" = "/" /\
  run Samples.projectAtRoot
      (RootFolderCheck.checkRootFolder Samples.byCodeUnits "/") = (inr [], []).
Proof.
  split; [reflexivity|].
  apply (checkRootFolder_at_root Samples.byCodeUnits "/" eq_refl).
Defined.

(** *** The listing of a directory in the snapshot *)

Section Locale.

Variable localeCompare : string -> string -> Z.

Hypothesis localeCompare_total :
  forall a b, (localeCompare a b <= 0)%Z \/ (localeCompare b a <= 0)%Z.
Hypothesis localeCompare_trans :
  forall a b c, (localeCompare a b <= 0)%Z -> (localeCompare b c <= 0)%Z ->
                (localeCompare a c <= 0)%Z.

Lemma compareEntries_le a b :
  (compareEntries localeCompare a b <= 0)%Z <-> entryOrder localeCompare a b.
Proof.
  destruct a as [aName [|]], b as [bName [|]];
    unfold compareEntries, entryOrder; cbn [fst snd andb negb];
    intuition (try discriminate; try lia).
Qed.

Lemma compareEntries_total a b :
  (compareEntries localeCompare a b <= 0)%Z \/
  (compareEntries localeCompare b a <= 0)%Z.
Proof.
  destruct a as [aName [|]], b as [bName [|]];
    unfold compareEntries; cbn [andb negb];
    try apply localeCompare_total; lia.
Qed.

Lemma compareEntries_trans a b c :
  (compareEntries localeCompare a b <= 0)%Z ->
  (compareEntries localeCompare b c <= 0)%Z ->
  (compareEntries localeCompare a c <= 0)%Z.
Proof.
  destruct a as [aName [|]], b as [bName [|]], c as [cName [|]];
    unfold compareEntries; cbn [andb negb];
    try apply localeCompare_trans; lia.
Qed.

Lemma result_tagging fs dir : forall entries tagged,
  result fs (mapM (fun e => isDir <- lstatIsDirectory (NodePath.pjoin [dir; e]) ;;
                            Ret (e, isDir)) entries) = inr tagged ->
  map fst tagged = entries /\
  forall e d, In (e, d) tagged ->
    FileSystem.lstatIsDirectory fs (NodePath.pjoin [dir; e]) = inr d.
Proof.
  induction entries as [|x t IH]; intros tagged; cbn [mapM].
  - rewrite result_Ret. intros H. injection H as <-. split; [reflexivity|intros ? ? []].
  - rewrite !result_bind, result_lstat.
    destruct (FileSystem.lstatIsDirectory fs (NodePath.pjoin [dir; x])) as [e|d] eqn:E;
      [discriminate|].
    rewrite result_Ret, result_bind.
    destruct (result fs (mapM _ t)) as [e|rest] eqn:Er; [discriminate|].
    rewrite result_Ret. intros H. injection H as <-.
    destruct (IH rest eq_refl) as [Hfst Hin]. split.
    + cbn [map fst]. now rewrite Hfst.
    + intros e d' [H|H]; [injection H as <- <-; exact E|now apply Hin].
Qed.

(** The entries of a level of the snapshot: the entries of the directory
    without the noise names, directories first and each group in the order
    of [localeCompare]. *)
Lemma listEntries_sorted fs dir raw entries :
  result fs (listEntries localeCompare dir raw) = inr entries ->
  Permutation entries (filter keepEntry raw) /\
  (forall e, In e entries -> includes IGNORED_ITEMS e = false) /\
  exists tagged,
    entries = map fst tagged /\
    (forall e d, In (e, d) tagged ->
       FileSystem.lstatIsDirectory fs (NodePath.pjoin [dir; e]) = inr d) /\
    StronglySorted (entryOrder localeCompare) tagged.
Proof.
  unfold listEntries. rewrite result_bind.
  destruct (result fs (mapM _ (filter keepEntry raw))) as [e|tagged] eqn:E;
    [discriminate|].
  rewrite result_Ret. intros H. injection H as <-.
  destruct (result_tagging _ _ _ _ E) as [Hfst Hin].
  pose proof (sortBy_perm (compareEntries localeCompare) tagged) as Hperm.
  assert (Hp : Permutation (map fst (sortBy (compareEntries localeCompare) tagged))
                           (filter keepEntry raw)).
  { rewrite <- Hfst. apply Permutation_map. now symmetry. }
  split; [exact Hp|]. split.
  - intros e He. eapply Permutation_in in He; [|exact Hp].
    apply filter_In in He. destruct He as [_ He]. unfold keepEntry in He.
    now apply negb_true_iff in He.
  - exists (sortBy (compareEntries localeCompare) tagged).
    split; [reflexivity|]. split.
    + intros e d He. apply Hin. eapply Permutation_in; [|exact He]. now symmetry.
    + eapply StronglySorted_ind with
        (P := fun l => StronglySorted (entryOrder localeCompare) l);
        [constructor| |apply (sortBy_sorted (compareEntries localeCompare)
                                 compareEntries_total compareEntries_trans)].
      intros a l _ IH Hall. constructor; [exact IH|].
      eapply Forall_impl; [|exact Hall]. intros b. apply compareEntries_le.
Qed.

(** *** The snapshot is always rendered *)

Lemma listEntries_total fs dir raw :
  FileSystem.wellFormed (FileSystem.tree fs) = true ->
  FileSystem.readdirSync fs dir = inr raw ->
  exists entries, result fs (listEntries localeCompare dir raw) = inr entries.
Proof.
  intros Hwf Hread. unfold listEntries. rewrite result_bind.
  destruct (mapM_total fs
              (fun e => isDir <- lstatIsDirectory (NodePath.pjoin [dir; e]) ;;
                        Ret (e, isDir))
              (filter keepEntry raw)) as (tagged & ->).
  - intros e He. apply filter_In in He. destruct He as [He _].
    destruct (lstat_listed fs dir raw e Hwf Hread He) as (isDir & H).
    rewrite result_bind, result_lstat, H. now eexists.
  - now eexists.
Qed.

Lemma renderEntries_total fs subtree dir prefix raw entries :
  FileSystem.wellFormed (FileSystem.tree fs) = true ->
  FileSystem.readdirSync fs dir = inr raw ->
  (forall e, In e entries -> In e raw) ->
  (forall generate, subtree = Some generate ->
     forall d p, exists tree, result fs (generate d p) = inr tree) ->
  exists lines, result fs (renderEntries subtree dir prefix entries) = inr lines.
Proof.
  intros Hwf Hread Hsub Hgen. unfold renderEntries.
  apply forEach_total. intros lines [entry index] Hin.
  apply in_combine_l in Hin.
  destruct (lstat_listed fs dir raw entry Hwf Hread (Hsub _ Hin)) as (isDir & H).
  rewrite result_bind, result_lstat, H.
  destruct isDir; [|now eexists].
  destruct subtree as [generate|]; [|now eexists].
  rewrite result_bind.
  destruct (Hgen generate eq_refl (NodePath.pjoin [dir; entry])
              (prefix ++ indentOf (Nat.eqb index (List.length entries - 1))))
    as (tree & ->).
  now eexists.
Qed.

(** In a well-formed file system [generateDirTree] returns a text for
    every directory, depth and prefix. *)
Lemma generateDirTree_total fs :
  FileSystem.wellFormed (FileSystem.tree fs) = true ->
  forall depth dir prefix,
    exists tree, result fs (generateDirTree localeCompare depth dir prefix) = inr tree.
Proof.
  intros Hwf.
  assert (Hlevel : forall subtree,
            (forall generate, subtree = Some generate ->
               forall d p, exists tree, result fs (generate d p) = inr tree) ->
            forall dir prefix,
              exists tree,
                result fs
                  (listing <- tryCatch (entries <- readdirSync dir ;; Ret (Some entries))
                                       (fun _ => Ret None) ;;
                   match listing with
                   | None => Ret ""
                   | Some entries =>
                       entries <- listEntries localeCompare dir entries ;;
                       lines <- renderEntries subtree dir prefix entries ;;
                       Ret (join (String "010" "") lines)
                   end) = inr tree).
  { intros subtree Hgen dir prefix.
    rewrite result_bind, result_tryCatch, result_bind, result_readdir.
    destruct (FileSystem.readdirSync fs dir) as [e|raw] eqn:Hread; [now eexists|].
    rewrite result_Ret, result_bind.
    destruct (listEntries_total fs dir raw Hwf Hread) as (entries & Hentries).
    rewrite Hentries, result_bind.
    destruct (renderEntries_total fs subtree dir prefix raw entries Hwf Hread)
      as (lines & ->); [|exact Hgen|now eexists].
    intros e He.
    destruct (listEntries_sorted fs dir raw entries Hentries) as (Hperm & _).
    eapply Permutation_in in He; [|exact Hperm].
    apply filter_In in He. tauto. }
  induction depth as [|depth IH]; intros dir prefix; cbn [generateDirTree].
  - apply (Hlevel None). discriminate.
  - apply (Hlevel (Some (generateDirTree localeCompare depth))).
    intros generate H. injection H as <-. exact IH.
Qed.

(** *** The check itself *)

Lemma result_some_exists fs (f : string -> string) xs :
  result fs (some (fun x => existsSync (f x)) xs) =
  inr (existsb (fun x => FileSystem.existsSync fs (f x)) xs).
Proof.
  induction xs as [|x t IH]; cbn [some existsb]; [reflexivity|].
  rewrite result_bind, result_existsSync.
  destruct (FileSystem.existsSync fs (f x)); [reflexivity|exact IH].
Qed.

Lemma result_isExistingDirectory fs p :
  result fs (isExistingDirectory p) = inr (FileSystem.isDirectoryAt fs p).
Proof.
  unfold isExistingDirectory. rewrite result_bind, result_existsSync.
  unfold FileSystem.isDirectoryAt, FileSystem.existsSync.
  destruct (FileSystem.resolve fs p) as [n|] eqn:E.
  - rewrite result_lstat. unfold FileSystem.lstatIsDirectory. rewrite E.
    now destruct n.
  - unfold FileSystem.lstatIsDirectory. now rewrite E.
Qed.

Lemma result_forbidden_scan fs parentDir : forall folders found,
  result fs
    (forEach folders
       (fun found folder =>
          hit <- isExistingDirectory (NodePath.pjoin [parentDir; folder]) ;;
          if hit then Ret (push found folder) else Ret found)
       found) =
  inr (found ++
       filter (fun folder =>
                 FileSystem.isDirectoryAt fs (NodePath.pjoin [parentDir; folder]))
              folders)%list.
Proof.
  induction folders as [|x t IH]; intros found; cbn [forEach filter].
  - now rewrite app_nil_r.
  - rewrite result_bind, result_bind, result_isExistingDirectory.
    destruct (FileSystem.isDirectoryAt fs (NodePath.pjoin [parentDir; x])).
    + rewrite result_Ret, IH. unfold push. now rewrite <- app_assoc.
    + rewrite result_Ret. apply IH.
Qed.

End Locale.

(** *** The comparator of the samples *)

Lemma byCodeUnits_le a b :
  (Samples.byCodeUnits a b <= 0)%Z <-> a = b \/ String_as_OT.lt a b.
Proof.
  unfold Samples.byCodeUnits.
  destruct (String.compare a b) eqn:E; split; intros H; try lia.
  - left. now apply String_as_OT.cmp_eq.
  - right. now apply String_as_OT.cmp_lt.
  - exfalso. destruct H as [H|H].
    + apply String_as_OT.cmp_eq in H. unfold String_as_OT.cmp in H. congruence.
    + apply String_as_OT.cmp_lt in H. unfold String_as_OT.cmp in H. congruence.
Qed.

Lemma byCodeUnits_total a b :
  (Samples.byCodeUnits a b <= 0)%Z \/ (Samples.byCodeUnits b a <= 0)%Z.
Proof.
  unfold Samples.byCodeUnits.
  pose proof (String_as_OT.cmp_antisym a b) as H. unfold String_as_OT.cmp in H.
  rewrite H. destruct (String.compare b a); cbn [CompOpp]; lia.
Qed.

Lemma byCodeUnits_trans a b c :
  (Samples.byCodeUnits a b <= 0)%Z -> (Samples.byCodeUnits b c <= 0)%Z ->
  (Samples.byCodeUnits a c <= 0)%Z.
Proof.
  rewrite !byCodeUnits_le. intros [->|Hab] [->|Hbc]; auto.
  right. now apply (String_as_OT.lt_trans a b c).
Qed.

(** *** The variant without the snapshot *)

Lemma result_plain_scan fs startPath parentDir : forall folders errors,
  result fs
    (forEach folders
       (fun errors folder =>
          hit <- isExistingDirectory (NodePath.pjoin [parentDir; folder]) ;;
          if hit then
            Ret (push errors
                   (mkError StructureValidation startPath
                      (RootFolderCheckPlain.forbiddenMessage folder parentDir)))
          else Ret errors)
       errors) =
  inr (errors ++
       map (fun folder =>
              mkError StructureValidation startPath
                (RootFolderCheckPlain.forbiddenMessage folder parentDir))
           (filter (fun folder =>
                      FileSystem.isDirectoryAt fs (NodePath.pjoin [parentDir; folder]))
                   folders))%list.
Proof.
  induction folders as [|x t IH]; intros errors; cbn [forEach filter map].
  - now rewrite app_nil_r.
  - rewrite result_bind, result_bind, result_isExistingDirectory.
    destruct (FileSystem.isDirectoryAt fs (NodePath.pjoin [parentDir; x])).
    + rewrite result_Ret, IH. unfold push. cbn [map]. now rewrite <- app_assoc.
    + rewrite result_Ret. apply IH.
Qed.

(** The variant in [src/checks/rootFolderCheck.ts] has no snapshot and
    returns one diagnostic for each forbidden directory. *)
Lemma plain_checkRootFolder_one_per_folder fs startPath :
  let parentDir := NodePath.dirname startPath in
  parentDir <> startPath ->
  (exists item, In item MARKER_ITEMS /\
     FileSystem.existsSync fs (NodePath.pjoin [parentDir; item]) = true) ->
  result fs (RootFolderCheckPlain.checkRootFolder startPath) =
  inr (map (fun folder =>
              mkError StructureValidation startPath
                (RootFolderCheckPlain.forbiddenMessage folder parentDir))
           (filter (fun folder =>
                      FileSystem.isDirectoryAt fs (NodePath.pjoin [parentDir; folder]))
                   FORBIDDEN_DIRS)).
Proof.
  intros parentDir Hroot (item & Hitem & Hex).
  unfold RootFolderCheckPlain.checkRootFolder. fold parentDir.
  apply String.eqb_neq in Hroot. rewrite Hroot.
  rewrite result_bind,
    (result_some_exists fs (fun item => NodePath.pjoin [parentDir; item])).
  assert (Hsome : existsb (fun x => FileSystem.existsSync fs
                                       (NodePath.pjoin [parentDir; x]))
                          RootFolderCheckPlain.MARKER_ITEMS = true)
    by (apply existsb_exists; now exists item).
  rewrite Hsome. cbn [negb].
  unfold RootFolderCheckPlain.FORBIDDEN_DIRS.
  now rewrite (result_plain_scan fs startPath parentDir FORBIDDEN_DIRS []).
Qed.

Example plain_checkRootFolder_two_diagnostics :
  result Samples.workspace (RootFolderCheckPlain.checkRootFolder "/work/jetton") =
  inr [mkError StructureValidation "/work/jetton"
         (RootFolderCheckPlain.forbiddenMessage "contracts" "/work");
       mkError StructureValidation "/work/jetton"
         (RootFolderCheckPlain.forbiddenMessage "tests" "/work")].
Proof. reflexivity. Qed.

End RootFolderFacts.

(* ------------------------------------------------------------------ *)
(** ** Counting diagnostics *)

Module DiagnosticFacts.
Import Types.

Lemma countFor_app p xs ys :
  countFor p (xs ++ ys) = countFor p xs + countFor p ys.
Proof. unfold countFor. now rewrite filter_app, length_app. Qed.

Lemma countFor_none p errors :
  (forall e, In e errors -> file e <> p) -> countFor p errors = 0.
Proof.
  unfold countFor. induction errors as [|e t IH]; intros H; [reflexivity|].
  cbn [filter]. destruct (String.eqb_spec (file e) p) as [E|_].
  - exfalso. apply (H e); [now left|exact E].
  - apply IH. intros e' He'. apply H. now right.
Qed.

End DiagnosticFacts.

(* ------------------------------------------------------------------ *)
(** ** The duplicate-name detector *)

Module DuplicateNamesFacts.
Import JsString JsStringFacts Types Io IoFacts DiagnosticFacts DuplicateContractNames.

(** [distinctKeys] looks at [seen] only through membership. *)
Lemma distinctKeys_ext files : forall seen seen',
  (forall k, In k seen <-> In k seen') ->
  distinctKeys files seen = distinctKeys files seen'.
Proof.
  induction files as [|f t IH]; intros seen seen' H; [reflexivity|].
  cbn [distinctKeys]. rewrite (includes_ext _ _ _ H).
  destruct (includes seen' (normalizeContractName f)).
  - now apply IH.
  - f_equal. apply IH. intros k. cbn [In]. now rewrite H.
Qed.

Lemma distinctKeys_not_seen files : forall seen k,
  In k (distinctKeys files seen) -> ~ In k seen.
Proof.
  induction files as [|f t IH]; intros seen k; cbn [distinctKeys In]; [tauto|].
  destruct (includes seen (normalizeContractName f)) eqn:E.
  - apply IH.
  - apply includes_false in E. intros [<-|H]; [exact E|].
    apply IH in H. cbn [In] in H. tauto.
Qed.

Lemma members_cons_same key f t :
  normalizeContractName f = key -> members key (f :: t) = f :: members key t.
Proof.
  intros <-. unfold members. cbn [filter]. now rewrite String.eqb_refl.
Qed.

Lemma members_cons_other key f t :
  normalizeContractName f <> key -> members key (f :: t) = members key t.
Proof.
  intros H. unfold members. cbn [filter].
  apply String.eqb_neq in H. now rewrite H.
Qed.

Lemma keysOf_mapPush_old key f m :
  In key (keysOf m) -> keysOf (mapPush key f m) = keysOf m.
Proof.
  induction m as [|[k ps] t IH]; cbn [keysOf map fst mapPush In]; [tauto|].
  intros H. destruct (String.eqb k key) eqn:E; [reflexivity|].
  cbn [map fst]. f_equal. apply IH.
  destruct H as [H|H]; [|exact H].
  apply String.eqb_neq in E. congruence.
Qed.

Lemma mapPush_new key f m :
  ~ In key (keysOf m) -> mapPush key f m = (m ++ [(key, [f])])%list.
Proof.
  induction m as [|[k ps] t IH]; cbn [keysOf map fst mapPush In app]; [reflexivity|].
  intros H. destruct (String.eqb k key) eqn:E.
  - apply String.eqb_eq in E. tauto.
  - f_equal. apply IH. tauto.
Qed.

(** Pushing under a key that is present extends the list of that key and
    of no other. *)
Lemma mapPush_old key f m (g : string -> list string) :
  NoDup (keysOf m) -> In key (keysOf m) ->
  map (fun e => (fst e, (snd e ++ g (fst e))%list)) (mapPush key f m) =
  map (fun e => (fst e,
                 (snd e ++ (if String.eqb (fst e) key then f :: g (fst e)
                            else g (fst e)))%list)) m.
Proof.
  induction m as [|[k ps] t IH]; cbn [keysOf map fst mapPush In]; [tauto|].
  intros Hnd Hin. inversion Hnd as [|? ? Hk Ht]; subst.
  destruct (String.eqb k key) eqn:E.
  - apply String.eqb_eq in E. subst k.
    cbn [map fst snd].
    unfold push. rewrite <- app_assoc. cbn [app]. f_equal.
    apply map_ext_in. intros [k ps'] Hin'. cbn [fst snd].
    destruct (String.eqb k key) eqn:E'; [|reflexivity].
    apply String.eqb_eq in E'. subst k. exfalso. apply Hk.
    change key with (fst (key, ps')). now apply in_map.
  - cbn [map fst snd]. f_equal. apply IH; [exact Ht|].
    destruct Hin as [Hin|Hin]; [|exact Hin].
    apply String.eqb_neq in E. congruence.
Qed.

(** The map of the first loop holds, for every key in order of first
    appearance, the member files of the key in scan order. *)
Lemma fold_mapPush files : forall m,
  NoDup (keysOf m) ->
  fold_left (fun m fullPath => mapPush (normalizeContractName fullPath) fullPath m)
            files m =
  (map (fun e => (fst e, (snd e ++ members (fst e) files)%list)) m ++
   map (fun key => (key, members key files)) (distinctKeys files (keysOf m)))%list.
Proof.
  induction files as [|f t IH]; intros m Hnd.
  - cbn [fold_left distinctKeys map]. rewrite app_nil_r.
    rewrite <- (map_id m) at 1. apply map_ext. intros [k ps]. cbn [fst snd].
    unfold members. cbn [filter]. now rewrite app_nil_r.
  - cbn [fold_left distinctKeys].
    set (key := normalizeContractName f).
    destruct (includes (keysOf m) key) eqn:E.
    + apply includes_In in E.
      rewrite IH by (rewrite keysOf_mapPush_old; assumption).
      rewrite keysOf_mapPush_old by assumption. f_equal.
      * rewrite (mapPush_old key f m (fun k => members k t) Hnd E).
        apply map_ext. intros [k ps]. cbn [fst snd].
        destruct (String.eqb k key) eqn:E'.
        -- apply String.eqb_eq in E'. subst k.
           now rewrite members_cons_same.
        -- apply String.eqb_neq in E'.
           rewrite members_cons_other; [reflexivity|]. fold key. congruence.
      * apply map_ext_in. intros k Hk.
        rewrite members_cons_other; [reflexivity|]. fold key.
        intros ->. exact (distinctKeys_not_seen _ _ _ Hk E).
    + apply includes_false in E.
      rewrite mapPush_new by assumption.
      rewrite IH.
      2:{ unfold keysOf. rewrite map_app. cbn [map fst].
          now apply NoDup_snoc. }
      rewrite map_app. cbn [map fst snd app]. rewrite <- app_assoc. cbn [app].
      f_equal.
      * apply map_ext_in. intros [k ps] Hin. cbn [fst snd].
        rewrite members_cons_other; [reflexivity|]. fold key.
        intros ->. apply E. change k with (fst (k, ps)). now apply in_map.
      * rewrite members_cons_same by reflexivity. f_equal.
        rewrite (distinctKeys_ext t (keysOf (m ++ [(key, [f])])%list) (key :: keysOf m)).
        2:{ intros k. unfold keysOf. rewrite map_app, in_app_iff.
            cbn [map fst In]. tauto. }
        apply map_ext_in. intros k Hk.
        rewrite members_cons_other; [reflexivity|]. fold key.
        intros ->. eapply distinctKeys_not_seen; [exact Hk|now left].
Qed.

Lemma buildMap_by_key files :
  buildMap files = map (fun key => (key, members key files)) (distinctKeys files []).
Proof.
  unfold buildMap. rewrite fold_mapPush by constructor. reflexivity.
Qed.

(** The detector of the source is the detector of the specification. *)
Lemma reportDuplicates_by_key projectRoot files :
  reportDuplicates projectRoot files = reportByKey projectRoot files.
Proof.
  unfold reportDuplicates, reportByKey. rewrite buildMap_by_key.
  rewrite flat_map_concat_map, map_map, <- flat_map_concat_map. reflexivity.
Qed.

Lemma distinctKeys_In files : forall seen k,
  In k (distinctKeys files seen) <->
  (exists f, In f files /\ normalizeContractName f = k) /\ ~ In k seen.
Proof.
  induction files as [|f t IH]; intros seen k; cbn [distinctKeys In].
  - split; [tauto|]. intros [(g & [] & _) _].
  - destruct (includes seen (normalizeContractName f)) eqn:E.
    + apply includes_In in E. rewrite IH. split.
      * intros [(g & Hg & Hk) Hs]. split; [|exact Hs]. exists g. tauto.
      * intros [(g & [->|Hg] & Hk) Hs]; [congruence|].
        split; [|exact Hs]. now exists g.
    + apply includes_false in E. cbn [In]. rewrite IH. cbn [In]. split.
      * intros [<-|[(g & Hg & Hk) Hs]].
        -- split; [|exact E]. exists f. tauto.
        -- split; [|tauto]. exists g. tauto.
      * intros [(g & [->|Hg] & Hk) Hs]; [now left|].
        destruct (String.eqb_spec (normalizeContractName f) k) as [->|N];
          [now left|right].
        split; [now exists g|]. intros [H|H]; congruence.
Qed.

Lemma distinctKeys_NoDup files : forall seen, NoDup (distinctKeys files seen).
Proof.
  induction files as [|f t IH]; intros seen; cbn [distinctKeys]; [constructor|].
  destruct (includes seen (normalizeContractName f)); [apply IH|].
  constructor; [|apply IH].
  intros H. apply distinctKeys_not_seen in H. apply H. now left.
Qed.

Lemma members_In key files f :
  In f (members key files) <-> In f files /\ normalizeContractName f = key.
Proof.
  unfold members. rewrite filter_In. now rewrite String.eqb_eq.
Qed.

Lemma members_NoDup key files : NoDup files -> NoDup (members key files).
Proof. apply NoDup_filter. Qed.

Lemma entryErrors_In projectRoot group e :
  In e (entryErrors projectRoot group) ->
  exists g, In g group /\
    e = mkError NamingConsistency (NodePath.relative projectRoot g)
          (duplicateMessage (map (NodePath.relative projectRoot) group)).
Proof.
  unfold entryErrors. destruct (Nat.ltb 1 (List.length group)); [|intros []].
  rewrite map_map. rewrite in_map_iff. intros (g & <- & Hg). now exists g.
Qed.

Lemma countFor_group projectRoot msg group f :
  NoDup group -> In f group ->
  (forall g, In g group ->
     NodePath.relative projectRoot g = NodePath.relative projectRoot f -> g = f) ->
  countFor (NodePath.relative projectRoot f)
           (map (fun p => mkError NamingConsistency p msg)
                (map (NodePath.relative projectRoot) group)) = 1.
Proof.
  unfold countFor. induction group as [|g t IH]; intros Hnd Hin Hinj; [destruct Hin|].
  inversion Hnd as [|? ? Hg Ht]; subst. cbn [map filter file].
  destruct (String.eqb_spec (NodePath.relative projectRoot g)
                            (NodePath.relative projectRoot f)) as [E|N].
  - assert (g = f) by (apply Hinj; [now left|exact E]). subst g.
    cbn [List.length]. f_equal.
    apply (countFor_none (NodePath.relative projectRoot f)).
    intros e He. rewrite map_map in He. apply in_map_iff in He.
    destruct He as (h & <- & Hh). cbn [file]. intros E'.
    assert (h = f) by (apply Hinj; [now right|exact E']). congruence.
  - destruct Hin as [->|Hin]; [congruence|].
    apply IH; [exact Ht|exact Hin|]. intros h Hh. apply Hinj. now right.
Qed.

(** What the detector reports for each file of a list of distinct paths
    that [path.relative] keeps distinct. *)
Lemma reportByKey_per_file projectRoot files :
  let rel := NodePath.relative projectRoot in
  NoDup files ->
  (forall f g, In f files -> In g files -> rel f = rel g -> f = g) ->
  forall f, In f files ->
    let group := members (normalizeContractName f) files in
    let diagnostic := mkError NamingConsistency (rel f)
                              (duplicateMessage (map rel group)) in
    let errors := reportByKey projectRoot files in
    In f group /\
    (2 <= List.length group ->
       countFor (rel f) errors = 1 /\ In diagnostic errors /\
       forall e, In e errors -> file e = rel f -> e = diagnostic) /\
    (List.length group = 1 -> countFor (rel f) errors = 0).
Proof.
  intros rel Hnd Hinj f Hf group diagnostic errors.
  assert (Hfg : In f group) by (apply members_In; tauto).
  split; [exact Hfg|].
  (* every diagnostic for [f] comes from the group of [f] *)
  assert (Hfrom : forall k e,
            In e (entryErrors projectRoot (members k files)) ->
            file e = rel f -> k = normalizeContractName f /\ e = diagnostic).
  { intros k e He Hfile. apply entryErrors_In in He.
    destruct He as (g & Hg & ->). cbn [file] in Hfile.
    apply members_In in Hg. destruct Hg as [Hg Hk].
    assert (g = f) by (apply Hinj; assumption). subst g.
    split; [now symmetry|]. subst k. reflexivity. }
  assert (Hkey : In (normalizeContractName f) (distinctKeys files [])).
  { apply distinctKeys_In. split; [now exists f|intros []]. }
  destruct (in_split _ _ Hkey) as (l1 & l2 & Hsplit).
  pose proof (distinctKeys_NoDup files []) as Hkeys. rewrite Hsplit in Hkeys.
  apply NoDup_remove_2 in Hkeys. rewrite in_app_iff in Hkeys.
  assert (Hother : forall l, ~ In (normalizeContractName f) l ->
            countFor (rel f)
              (flat_map (fun k => entryErrors projectRoot (members k files)) l) = 0).
  { intros l Hl. apply countFor_none. intros e He Hfile.
    apply in_flat_map in He. destruct He as (k & Hk & He).
    destruct (Hfrom k e He Hfile) as [-> _]. contradiction. }
  assert (Hcount : countFor (rel f) errors =
                   countFor (rel f) (entryErrors projectRoot group)).
  { unfold errors, reportByKey. rewrite Hsplit, flat_map_app. cbn [flat_map].
    rewrite !countFor_app, !Hother by tauto. fold group. lia. }
  split.
  - intros Hlen. rewrite Hcount.
    assert (Hgroup : entryErrors projectRoot group =
                     map (fun p => mkError NamingConsistency p
                                     (duplicateMessage (map rel group)))
                         (map rel group)).
    { unfold entryErrors. destruct (Nat.ltb_spec 1 (List.length group)); [reflexivity|lia]. }
    split; [|split].
    + rewrite Hgroup. apply countFor_group; [now apply members_NoDup|exact Hfg|].
      intros g Hg. apply Hinj; [|exact Hf]. now apply members_In in Hg.
    + unfold errors, reportByKey. apply in_flat_map. exists (normalizeContractName f).
      split; [exact Hkey|]. fold group. rewrite Hgroup, map_map.
      apply in_map_iff. now exists f.
    + intros e He Hfile. unfold errors, reportByKey in He. apply in_flat_map in He.
      destruct He as (k & _ & He). now destruct (Hfrom k e He Hfile).
  - intros Hlen. rewrite Hcount. unfold entryErrors. rewrite Hlen. reflexivity.
Qed.

(** The example of the specification: [contracts/MyJetton.fc] and
    [contracts/my_jetton.tact] share the key ["myjetton"]; each gets one
    diagnostic that lists both paths, and [contracts/other.fc] gets none. *)
Example duplicate_pair :
  normalizeContractName "/proj/contracts/MyJetton.fc" = "myjetton" /\
  normalizeContractName "/proj/contracts/my_jetton.tact" = "myjetton" /\
  result Samples.twoJettons (lintDuplicateContractNames "/proj") =
  inr [mkError NamingConsistency "contracts/MyJetton.fc"
         (duplicateMessage ["contracts/MyJetton.fc"; "contracts/my_jetton.tact"]);
       mkError NamingConsistency "contracts/my_jetton.tact"
         (duplicateMessage ["contracts/MyJetton.fc"; "contracts/my_jetton.tact"])].
Proof. repeat split. Qed.

End DuplicateNamesFacts.

(* ------------------------------------------------------------------ *)
(** ** The contract naming check *)

Module NamingConsistencyFacts.
Import JsString JsStringFacts Types Io IoFacts DiagnosticFacts NamingConsistencyCheck.

Lemma collect_In {A B : Type} (f : A -> option B) xs y :
  In y (collect f xs) <-> exists x, In x xs /\ f x = Some y.
Proof.
  induction xs as [|x t IH]; cbn [collect In].
  - split; [tauto|]. intros (x & [] & _).
  - destruct (f x) as [z|] eqn:E; cbn [In]; rewrite IH; split.
    + intros [<-|(x' & H & E')]; [exists x; tauto|exists x'; tauto].
    + intros (x' & [->|H] & E'); [left; congruence|right; now exists x'].
    + intros (x' & H & E'). exists x'. tauto.
    + intros (x' & [->|H] & E'); [congruence|now exists x'].
Qed.

Lemma mapSet_keys key f m :
  map fst (mapSet key f m) =
  if includes (map fst m) key then map fst m else (map fst m ++ [key])%list.
Proof.
  induction m as [|[k g] t IH]; [reflexivity|].
  cbn [mapSet map fst]. unfold includes. cbn [existsb].
  rewrite (String.eqb_sym key k).
  destruct (String.eqb k key); [reflexivity|].
  cbn [map fst orb]. rewrite IH. unfold includes.
  now destruct (existsb (String.eqb key) (map fst t)).
Qed.

Lemma mapSet_In key f m e :
  In e (mapSet key f m) -> e = (key, f) \/ In e m.
Proof.
  induction m as [|[k g] t IH]; cbn [mapSet In].
  - intros [H|[]]. left. now symmetry.
  - destruct (String.eqb_spec k key) as [->|N]; cbn [In].
    + intros [H|H]; [left; now symmetry|right; now right].
    + intros [H|H]; [right; now left|]. apply IH in H. tauto.
Qed.

Lemma fold_mapSet_invariant files : forall m,
  NoDup (map fst m) ->
  let m' := fold_left (fun m f => mapSet (filePath f) f m) files m in
  NoDup (map fst m') /\
  forall e, In e m' -> In e m \/ (In (snd e) files /\ fst e = filePath (snd e)).
Proof.
  induction files as [|f t IH]; intros m Hnd; cbn [fold_left].
  - split; [exact Hnd|]. tauto.
  - destruct (IH (mapSet (filePath f) f m)) as [Hnd' Hin'].
    + rewrite mapSet_keys.
      destruct (includes (map fst m) (filePath f)) eqn:E; [exact Hnd|].
      apply NoDup_snoc; [exact Hnd|].
      now apply includes_false.
    + split; [exact Hnd'|]. intros e He. apply Hin' in He.
      destruct He as [He|[He Hk]].
      * apply mapSet_In in He. destruct He as [->|He]; [|now left].
        right. cbn [fst snd In]. tauto.
      * right. cbn [In]. tauto.
Qed.

Lemma uniqueFiles_spec files :
  NoDup (map filePath (uniqueFiles files)) /\
  forall f, In f (uniqueFiles files) -> In f files.
Proof.
  unfold uniqueFiles.
  destruct (fold_mapSet_invariant files [] (NoDup_nil _)) as [Hnd Hin].
  set (m := fold_left (fun m f => mapSet (filePath f) f m) files []) in *.
  assert (Hkeys : map filePath (map snd m) = map fst m).
  { rewrite map_map. apply map_ext_in. intros e He.
    destruct (Hin e He) as [[]|[_ Hk]]. now symmetry. }
  split.
  - now rewrite Hkeys.
  - intros f Hf. apply in_map_iff in Hf. destruct Hf as (e & <- & He).
    destruct (Hin e He) as [[]|[H _]]. exact H.
Qed.

Lemma contractErrors_file contract e :
  In e (contractErrors contract) -> file e = filePath contract.
Proof.
  unfold contractErrors.
  destruct (negb (baseName contract =? normalizedBaseName contract)%string);
    [|intros []].
  intros [<-|[]]. reflexivity.
Qed.

Lemma countFor_contractErrors contract :
  countFor (filePath contract) (contractErrors contract) =
  List.length (contractErrors contract).
Proof.
  unfold countFor. f_equal.
  rewrite forallb_filter_id; [reflexivity|].
  apply forallb_forall. intros e He.
  rewrite (contractErrors_file _ _ He). apply String.eqb_refl.
Qed.

(** With distinct paths, the diagnostics for a file are those its own
    loop round pushed. *)
Lemma countFor_performConsistencyCheck files contract :
  NoDup (map filePath files) -> In contract files ->
  countFor (filePath contract) (performConsistencyCheck files) =
  List.length (contractErrors contract).
Proof.
  unfold performConsistencyCheck.
  induction files as [|g t IH]; intros Hnd Hin; [destruct Hin|].
  cbn [map] in Hnd. inversion Hnd as [|? ? Hg Ht]; subst.
  cbn [flat_map]. rewrite countFor_app.
  destruct Hin as [->|Hin].
  - rewrite countFor_contractErrors.
    rewrite (countFor_none (filePath contract) (flat_map contractErrors t)); [lia|].
    intros e He Hfile. apply in_flat_map in He. destruct He as (h & Hh & He).
    apply contractErrors_file in He. apply Hg.
    rewrite <- Hfile, He. now apply in_map.
  - rewrite (countFor_none (filePath contract) (contractErrors g)).
    + now apply IH.
    + intros e He Hfile. apply contractErrors_file in He. apply Hg.
      rewrite <- He, Hfile. now apply in_map.
Qed.

Lemma result_checkNamingConsistency fs projectRoot targetDirs :
  result fs (checkNamingConsistency projectRoot targetDirs) =
  inr (performConsistencyCheck
         (filter isContract
            (uniqueFiles
               (collect (classify projectRoot targetDirs)
                  (Glob.glob fs (patterns projectRoot targetDirs)
                             [Glob.ignoreNodeModules]))))).
Proof.
  unfold checkNamingConsistency, findFiles.
  rewrite !result_bind, result_glob. cbn [result run fst].
  now destruct (filter isContract _).
Qed.

Lemma classify_fields projectRoot targetDirs abs f :
  classify projectRoot targetDirs abs = Some f ->
  filePath f = NodePath.relative projectRoot abs /\
  baseName f = NodePath.basenameExt abs (NodePath.extname abs) /\
  normalizedBaseName f = NormalizeName.getNormalizedBaseName abs /\
  isContract f = includes CONTRACT_EXTENSIONS (NodePath.extname abs).
Proof.
  unfold classify.
  destruct (startsWith _ ".."); [discriminate|].
  destruct (endsWith abs ".d.ts"); [discriminate|].
  destruct (negb _); [discriminate|].
  intros H. injection H as <-. repeat split.
Qed.

(** The canonical name drops a trailing [.spec] or [.test] of the stem,
    also for a contract file. *)
Example contract_with_test_suffix :
  NormalizeName.getNormalizedBaseName "/proj/contracts/foo.spec.fc" = "foo" /\
  result (Samples.oneContract "foo.spec.fc")
         (checkNamingConsistency "/proj" DEFAULT_DIRS) =
  inr [mkError NamingConsistency "contracts/foo.spec.fc"
         (namingMessage "foo.fc" "foo.spec.fc")].
Proof. split; reflexivity. Qed.

End NamingConsistencyFacts.

(* ------------------------------------------------------------------ *)
(** ** Files below a dependency cache *)

Module NodeModulesFacts.
Import JsString Types Io IoFacts.

Lemma forallb_starOk_dot path : List.forallb (Glob.starOk true) path = true.
Proof. induction path as [|x t IH]; [reflexivity|exact IH]. Qed.

Lemma ignoreNodeModules_cons x path :
  Glob.pathMatch true Glob.ignoreNodeModules (x :: path) =
  (String.eqb x "node_modules" && match path with [] => false | _ => true end) ||
  Glob.pathMatch true Glob.ignoreNodeModules path.
Proof.
  unfold Glob.ignoreNodeModules. cbn [Glob.pathMatch Glob.starOk orb andb].
  destruct path as [|y t]; [reflexivity|].
  now rewrite (forallb_starOk_dot (y :: t)).
Qed.

(** The ignore pattern [**/node_modules/**] matches exactly the paths with
    a portion [node_modules] that is not the last one. *)
Lemma ignoreNodeModules_spec path :
  Glob.pathMatch true Glob.ignoreNodeModules path = true <->
  exists pre post, path = (pre ++ "node_modules" :: post)%list /\ post <> [].
Proof.
  induction path as [|x t IH].
  - split; [discriminate|]. intros (pre & post & H & _). now destruct pre.
  - rewrite ignoreNodeModules_cons, orb_true_iff, andb_true_iff, IH. split.
    + intros [[Hx Ht]|(pre & post & -> & Hpost)].
      * apply String.eqb_eq in Hx. subst x. exists [], t. split; [reflexivity|].
        now destruct t.
      * exists (x :: pre), post. split; [reflexivity|exact Hpost].
    + intros (pre & post & H & Hpost). destruct pre as [|y pre]; cbn [app] in H.
      * injection H as -> ->. left. split; [reflexivity|]. now destruct post.
      * injection H as -> ->. right. now exists pre, post.
Qed.

(** A [glob] call with the ignore pattern returns no file below a
    [node_modules] directory. *)
Lemma glob_ignores_node_modules fs patterns ignore p :
  In Glob.ignoreNodeModules ignore ->
  In p (Glob.glob fs patterns ignore) ->
  exists path,
    p = FileSystem.absolutePath path /\
    forall pre post, path = (pre ++ "node_modules" :: post)%list -> post = [].
Proof.
  intros Hig Hp. unfold Glob.glob in Hp. apply in_map_iff in Hp.
  destruct Hp as (path & <- & Hpath). apply filter_In in Hpath.
  destruct Hpath as [_ Hm]. apply andb_true_iff in Hm. destruct Hm as [_ Hm].
  apply negb_true_iff in Hm. exists path. split; [reflexivity|].
  intros pre post ->. destruct post as [|y post]; [reflexivity|]. exfalso.
  assert (E : Glob.matchesAny true ignore (pre ++ "node_modules" :: y :: post) = true).
  { unfold Glob.matchesAny. apply existsb_exists. exists Glob.ignoreNodeModules.
    split; [exact Hig|]. apply ignoreNodeModules_spec.
    exists pre, (y :: post). split; [reflexivity|discriminate]. }
  congruence.
Qed.

(** C3. [Samples.vendored] has [contracts/token.fc] and, in a dependency
    cache below [contracts], [node_modules/lib/Token.fc].  The duplicate-name
    detector calls [glob] without an ignore list: it scans the file in
    [node_modules] and reports it as a duplicate.  The contract-naming scan
    of the same project, whose [glob] call carries [**/node_modules/**],
    does not see that file. *)
Theorem lintDuplicateContractNames_scans_node_modules :
  run Samples.vendored
      (DuplicateContractNames.lintDuplicateContractNames "/proj") =
  (inr [mkError NamingConsistency "contracts/token.fc"
          (DuplicateContractNames.duplicateMessage
             ["contracts/token.fc"; "contracts/node_modules/lib/Token.fc"]);
        mkError NamingConsistency "contracts/node_modules/lib/Token.fc"
          (DuplicateContractNames.duplicateMessage
             ["contracts/token.fc"; "contracts/node_modules/lib/Token.fc"])],
   [EvGlob [DuplicateContractNames.absolutePattern "/proj"] []]) /\
  result Samples.vendored
         (NamingConsistencyCheck.findFiles "/proj"
            NamingConsistencyCheck.DEFAULT_DIRS) =
  inr [NamingConsistencyCheck.mkFileInfo "contracts/token.fc" "contracts"
         "token" "token" true false false].
Proof. split; reflexivity. Qed.

(** The scans of the contract, wrapper and script rules pass the ignore
    pattern to [glob]. *)
Lemma sibling_scans_ignore_node_modules fs projectRoot targetDirs p :
  In p (Glob.glob fs (NamingConsistencyCheck.patterns projectRoot targetDirs)
                  [Glob.ignoreNodeModules]) \/
  In p (Glob.glob fs [WrapperNamingRule.absolutePattern projectRoot]
                  [Glob.ignoreNodeModules; Glob.ignoreDeclarations]) \/
  In p (Glob.glob fs [ScriptNamingRule.absolutePattern projectRoot]
                  [Glob.ignoreNodeModules; Glob.ignoreDeclarations]) ->
  exists path,
    p = FileSystem.absolutePath path /\
    forall pre post, path = (pre ++ "node_modules" :: post)%list -> post = [].
Proof.
  intros [H|[H|H]]; eapply glob_ignores_node_modules; try exact H; now left.
Qed.

End NodeModulesFacts.

(* ================================================================== *)
(** * Further properties

    Properties of the checks stated on the file tree, and further
    properties of the sources, in modules named [...Properties]. *)

(* ------------------------------------------------------------------ *)
(** ** Lengths, prefixes and suffixes of strings *)

Module StringFacts.
Import JsString NodePath PathFacts.

Lemma length_app a b :
  String.length (a ++ b) = String.length a + String.length b.
Proof. induction a as [|c a IH]; cbn; [reflexivity|now rewrite IH]. Qed.

Lemma substring_all s : String.substring 0 (String.length s) s = s.
Proof. induction s as [|c s IH]; cbn; [reflexivity|now rewrite IH]. Qed.

Lemma substring_prefix a b : String.substring 0 (String.length a) (a ++ b) = a.
Proof.
  induction a as [|c a IH]; cbn; [now destruct b|now rewrite IH].
Qed.

Lemma substring_skip a b n :
  String.substring (String.length a) n (a ++ b) = String.substring 0 n b.
Proof. induction a as [|c a IH]; cbn; [reflexivity|exact IH]. Qed.

Lemma substring_split s : forall n,
  n <= String.length s ->
  s = String.substring 0 n s ++ String.substring n (String.length s - n) s.
Proof.
  induction s as [|c s IH]; intros [|n] H; cbn in *; try reflexivity; try lia.
  - now rewrite substring_all.
  - f_equal. apply IH. lia.
Qed.

Lemma endsWith_app a b : endsWith (a ++ b) b = true.
Proof.
  unfold endsWith. rewrite length_app.
  replace (String.length a + String.length b - String.length b)
    with (String.length a) by lia.
  rewrite substring_skip, substring_all, String.eqb_refl.
  apply andb_true_iff. split; [apply Nat.leb_le; lia|reflexivity].
Qed.

Lemma dropRight_app a b : dropRight (String.length b) (a ++ b) = a.
Proof.
  unfold dropRight. rewrite length_app.
  replace (String.length a + String.length b - String.length b)
    with (String.length a) by lia.
  apply substring_prefix.
Qed.

Lemma endsWith_split s p :
  endsWith s p = true -> s = dropRight (String.length p) s ++ p.
Proof.
  unfold endsWith, dropRight. intros H.
  apply andb_true_iff in H. destruct H as [Hl He].
  apply Nat.leb_le in Hl. apply String.eqb_eq in He.
  assert (Hn : String.length s - String.length p <= String.length s) by lia.
  pose proof (substring_split s _ Hn) as Hs.
  replace (String.length s - (String.length s - String.length p))
    with (String.length p) in Hs by lia.
  now rewrite He in Hs.
Qed.

Lemma endsWith_length s p :
  endsWith s p = true -> String.length p <= String.length s.
Proof.
  unfold endsWith. intros H. apply andb_true_iff in H.
  now apply Nat.leb_le.
Qed.

Lemma append_nil_r s : s ++ "" = s.
Proof. induction s as [|c s IH]; cbn; [reflexivity|now rewrite IH]. Qed.

Lemma append_inv_l a b c : a ++ b = a ++ c -> b = c.
Proof.
  induction a as [|x a IH]; cbn; [auto|]. intros H. injection H as H. auto.
Qed.

Lemma forallb_app p a b :
  forallb p (a ++ b) = forallb p a && forallb p b.
Proof.
  induction a as [|c a IH]; cbn; [reflexivity|].
  now rewrite IH, andb_assoc.
Qed.

Lemma length_zero s : String.length s = 0 -> s = "".
Proof. now destruct s. Qed.

End StringFacts.

(* ------------------------------------------------------------------ *)
(** ** Base names, stems and extensions of paths *)

Module BaseNameFacts.
Import JsString NodePath PathFacts StringFacts FileNames.

Lemma takeWhile_app_stop {A : Type} (p : A -> bool) l x r :
  List.forallb p l = true -> p x = false ->
  takeWhile p (l ++ x :: r) = l.
Proof.
  induction l as [|y l IH]; cbn; intros Hl Hx; [now rewrite Hx|].
  apply andb_true_iff in Hl. destruct Hl as [Hy Hl].
  now rewrite Hy, IH.
Qed.

Lemma takeWhile_all {A : Type} (p : A -> bool) l :
  List.forallb p l = true -> takeWhile p l = l.
Proof.
  induction l as [|y l IH]; cbn; intros Hl; [reflexivity|].
  apply andb_true_iff in Hl. destruct Hl as [Hy Hl].
  now rewrite Hy, IH.
Qed.

Lemma dropWhile_head {A : Type} (p : A -> bool) l :
  match l with x :: _ => p x = false | [] => True end ->
  dropWhile p l = l.
Proof. destruct l as [|x l]; cbn; [reflexivity|now intros ->]. Qed.

Lemma forallb_rev {A : Type} (p : A -> bool) l :
  List.forallb p (rev l) = List.forallb p l.
Proof.
  induction l as [|x l IH]; cbn; [reflexivity|].
  rewrite List.forallb_app, IH. cbn. rewrite andb_true_r. apply andb_comm.
Qed.

Lemma noSlash_app a b : noSlash a -> noSlash b -> noSlash (a ++ b).
Proof.
  unfold noSlash. intros Ha Hb.
  now rewrite chars_app, List.forallb_app, Ha, Hb.
Qed.

Lemma noSlash_app_inv a b : noSlash (a ++ b) -> noSlash a /\ noSlash b.
Proof.
  unfold noSlash. rewrite chars_app, List.forallb_app.
  apply andb_true_iff.
Qed.

(** The base name of a path is its last portion. *)
Lemma basename_noSlash n : noSlash n -> basename n = n.
Proof.
  unfold noSlash, basename. intros H.
  assert (Hr : List.forallb (fun c => negb (isSlash c)) (rev (chars n)) = true)
    by now rewrite forallb_rev.
  rewrite dropWhile_head.
  - now rewrite (takeWhile_all _ _ Hr), rev_involutive, text_chars.
  - destruct (rev (chars n)) as [|x l]; [exact I|].
    cbn in Hr. apply andb_true_iff in Hr. now apply negb_true_iff.
Qed.

Lemma basename_child d n :
  noSlash n -> n <> "" -> basename (d ++ "/" ++ n) = n.
Proof.
  unfold noSlash, basename. intros H Hn.
  assert (Hr : List.forallb (fun c => negb (isSlash c)) (rev (chars n)) = true)
    by now rewrite forallb_rev.
  rewrite !chars_app, !rev_app_distr.
  change (rev (chars "/")) with ["/"%char].
  rewrite <- app_assoc. cbn [app].
  rewrite dropWhile_head.
  - rewrite (takeWhile_app_stop _ _ _ _ Hr) by reflexivity.
    now rewrite rev_involutive, text_chars.
  - destruct (rev (chars n)) as [|x l] eqn:E.
    + exfalso. apply Hn, chars_nil.
      apply (f_equal (@rev ascii)) in E. now rewrite rev_involutive in E.
    + cbn in Hr. apply andb_true_iff in Hr. cbn. now apply negb_true_iff.
Qed.

Lemma lastDot_plain l : forall i found,
  List.forallb (fun c => negb (Ascii.eqb c ".")) l = true ->
  lastDot l i found = found.
Proof.
  induction l as [|c l IH]; cbn; intros i found H; [reflexivity|].
  apply andb_true_iff in H. destruct H as [Hc Hl].
  apply negb_true_iff in Hc. now rewrite Hc, IH.
Qed.

Lemma lastDot_app l1 l2 : forall i found,
  lastDot (l1 ++ l2) i found =
  lastDot l2 (i + List.length l1) (lastDot l1 i found).
Proof.
  induction l1 as [|c l1 IH]; cbn; intros i found.
  - now rewrite Nat.add_0_r.
  - rewrite IH. f_equal. lia.
Qed.

Lemma length_chars s : List.length (chars s) = String.length s.
Proof.
  induction s as [|c s IH]; [reflexivity|].
  cbn. f_equal. exact IH.
Qed.

Lemma lastDot_stem s e :
  noDot e -> lastDot (chars (s ++ "." ++ e)) 0 None = Some (String.length s).
Proof.
  unfold noDot. rewrite forallb_chars. intros He.
  rewrite chars_app, lastDot_app.
  change (chars ("." ++ e)) with ("."%char :: chars e).
  cbn [lastDot]. change (Ascii.eqb "." ".") with true. cbv iota.
  rewrite lastDot_plain by exact He.
  now rewrite length_chars.
Qed.

(** The extension of a path whose base name is [s.e]. *)
Lemma extname_stem p s e :
  basename p = s ++ "." ++ e -> s <> "" -> e <> "" -> noDot e ->
  extname p = "." ++ e.
Proof.
  intros Hb Hs He Hd. unfold extname. rewrite Hb, (lastDot_stem _ _ Hd).
  destruct (String.length s) eqn:El; [now apply length_zero in El|].
  rewrite <- El.
  destruct (String.eqb (s ++ "." ++ e) "..") eqn:E2.
  - apply String.eqb_eq in E2. exfalso.
    destruct s as [|a [|b s]]; [easy| |].
    + cbn in E2. injection E2 as _ E2. now destruct e.
    + cbn in E2. injection E2 as _ _ E2. now destruct s.
  - rewrite substring_skip, length_app.
    replace (String.length s + String.length ("." ++ e) - String.length s)
      with (String.length ("." ++ e)) by lia.
    apply substring_all.
Qed.

(** The stem of a path whose base name is [s.e]. *)
Lemma basenameExt_stem p s e :
  basename p = s ++ "." ++ e -> s <> "" -> e <> "" -> noDot e ->
  String.length p <> S (String.length e) ->
  basenameExt p (extname p) = s.
Proof.
  intros Hb Hs He Hd Hl. rewrite (extname_stem _ _ _ Hb Hs He Hd).
  unfold basenameExt. rewrite Hb.
  change (String.eqb ("." ++ e) "") with false. cbv iota.
  destruct (String.eqb ("." ++ e) p) eqn:E.
  - apply String.eqb_eq in E. subst p. now cbn in Hl.
  - rewrite endsWith_app, dropRight_app. cbn [andb].
    replace (Nat.ltb _ _) with true; [reflexivity|].
    symmetry. apply Nat.ltb_lt. rewrite !length_app.
    destruct s; [easy|cbn; lia].
Qed.

Lemma fileIn_basename dir stem ext :
  noSlash stem -> noSlash ext ->
  basename (fileIn dir stem ext) = stem ++ "." ++ ext.
Proof.
  intros Hs He. unfold fileIn. apply basename_child.
  - apply noSlash_app; [exact Hs|]. now apply (noSlash_app ".").
  - now destruct stem.
Qed.

Lemma fileIn_length dir stem ext :
  stem <> "" -> String.length (fileIn dir stem ext) <> S (String.length ext).
Proof.
  intros Hs. unfold fileIn. rewrite !length_app.
  destruct stem; [easy|cbn; lia].
Qed.

Lemma fileIn_extname dir stem ext :
  noSlash stem -> stem <> "" -> noSlash ext -> noDot ext -> ext <> "" ->
  extname (fileIn dir stem ext) = "." ++ ext.
Proof.
  intros Hs Hn He Hd Hx.
  now apply (extname_stem _ stem ext); [apply fileIn_basename| | |].
Qed.

Lemma fileIn_stem dir stem ext :
  noSlash stem -> stem <> "" -> noSlash ext -> noDot ext -> ext <> "" ->
  basenameExt (fileIn dir stem ext) (extname (fileIn dir stem ext)) = stem.
Proof.
  intros Hs Hn He Hd Hx.
  apply (basenameExt_stem _ stem ext); auto using fileIn_basename, fileIn_length.
Qed.

(** [path.parse(path.basename(p)).name] of the file [stem.ext]. *)
Lemma fileIn_parseName dir stem ext :
  noSlash stem -> stem <> "" -> noSlash ext -> noDot ext -> ext <> "" ->
  parseName (basename (fileIn dir stem ext)) = stem.
Proof.
  intros Hs Hn He Hd Hx. rewrite (fileIn_basename _ _ _ Hs He).
  assert (Hb : noSlash (stem ++ "." ++ ext)).
  { apply noSlash_app; [exact Hs|]. now apply (noSlash_app "."). }
  unfold parseName. rewrite (basename_noSlash _ Hb).
  apply (basenameExt_stem _ stem ext); auto using basename_noSlash.
  rewrite length_app. destruct stem; [easy|cbn; lia].
Qed.

End BaseNameFacts.

(* ------------------------------------------------------------------ *)
(** ** From a file of the tree to the file lists of the scans *)

Module ScanFacts.
Import JsString JsStringFacts NodePath PathFacts.
Import FileSystem FileSystemFacts GlobFacts StringFacts BaseNameFacts FileNames.

Lemma glob_In fs patterns ignore f :
  In f (Glob.glob fs patterns ignore) <->
  exists path,
    f = absolutePath path /\ In path (allFiles (tree fs)) /\
    Glob.matchesAny false patterns path = true /\
    Glob.matchesAny true ignore path = false.
Proof.
  unfold Glob.glob. rewrite in_map_iff. split.
  - intros (path & <- & H). apply filter_In in H. destruct H as [Hin Hm].
    apply andb_true_iff in Hm. destruct Hm as [H1 H2].
    apply negb_true_iff in H2. now exists path.
  - intros (path & -> & Hin & H1 & H2). exists path. split; [reflexivity|].
    apply filter_In. split; [exact Hin|]. now rewrite H1, H2.
Qed.

Lemma glob_NoDup fs patterns ignore :
  wellFormed (tree fs) = true -> NoDup (Glob.glob fs patterns ignore).
Proof.
  intros Hwf. destruct (allFiles_wellFormed _ Hwf) as [Hnd Hclean].
  unfold Glob.glob.
  assert (H : forall l, (forall p, In p l -> cleanPath p) -> NoDup l ->
                        NoDup (map absolutePath l)).
  { intros l Hsub Hl. induction Hl as [|p l Hp Hl IH]; cbn [map]; [constructor|].
    constructor.
    - intros Hin. apply in_map_iff in Hin. destruct Hin as (q & E & Hq).
      apply absolutePath_injective in E;
        [congruence|apply Hsub; now right|apply Hsub; now left].
    - apply IH. intros q Hq. apply Hsub. now right. }
  apply H; [|now apply NoDup_filter].
  intros p Hp. apply filter_In in Hp. now apply Hclean.
Qed.

Lemma pathMatch_literal_intro dot rs pat rest :
  Glob.pathMatch dot pat rest = true ->
  Glob.pathMatch dot (map Glob.Lit rs ++ pat)%list (rs ++ rest)%list = true.
Proof.
  intros H. induction rs as [|r t IH]; cbn [map app Glob.pathMatch]; [exact H|].
  now rewrite String.eqb_refl.
Qed.

Lemma wildMatch_star_cons r c s :
  Glob.wildMatch (Glob.TStar :: r) (String c s) =
  Glob.wildMatch r (String c s) || Glob.wildMatch (Glob.TStar :: r) s.
Proof. reflexivity. Qed.

Lemma wildMatch_star_nil r :
  Glob.wildMatch (Glob.TStar :: r) "" = Glob.wildMatch r "".
Proof. cbn [Glob.wildMatch]. apply orb_false_r. Qed.

Lemma wildMatch_chars s t :
  Glob.wildMatch (map Glob.TChar (list_ascii_of_string s)) t = true <-> t = s.
Proof.
  revert t. induction s as [|c s IH]; intros t; cbn [list_ascii_of_string map].
  - destruct t; cbn [Glob.wildMatch]; split; congruence.
  - destruct t as [|d t]; cbn [Glob.wildMatch]; [split; congruence|].
    rewrite andb_true_iff, Ascii.eqb_eq, IH. split.
    + now intros [-> ->].
    + intros [= -> ->]. tauto.
Qed.

(** The pattern portion [*suffix] matches the names that end in [suffix]. *)
Lemma wildMatch_suffix suffix name :
  Glob.wildMatch (Glob.TStar :: map Glob.TChar (list_ascii_of_string suffix)) name = true <->
  exists stem, name = stem ++ suffix.
Proof.
  induction name as [|c name IH].
  - rewrite wildMatch_star_nil, wildMatch_chars. split.
    + intros H. now exists "".
    + intros ([|] & H); [exact H|discriminate H].
  - rewrite wildMatch_star_cons, orb_true_iff, wildMatch_chars, IH. split.
    + intros [H|(stem & ->)]; [now exists ""|now exists (String c stem)].
    + intros ([|d stem] & H); [now left|].
      injection H as -> ->. right. now exists stem.
Qed.

Lemma endsWith_iff s p : endsWith s p = true <-> exists x, s = x ++ p.
Proof.
  split.
  - intros H. eexists. now apply endsWith_split.
  - intros (x & ->). apply endsWith_app.
Qed.

Lemma literal_pjoin root t :
  isAbsolute root = true -> cleanPath (segments root ++ [t]) ->
  Glob.literal (pjoin [root; t]) = map Glob.Lit (segments root ++ [t])%list.
Proof.
  intros Ha Hc. unfold Glob.literal. f_equal.
  assert (Ht : cleanName t = true).
  { apply Forall_app in Hc. destruct Hc as [_ Hc]. now inversion Hc. }
  rewrite pjoin_child; [|now destruct root|exact Ht].
  rewrite Ha. cbn [negb].
  change ("/" ++ join "/" (normalizeSegments false (split root) [] ++ [t]))
    with (absolutePath (segments root ++ [t])).
  now apply segments_absolutePath.
Qed.

(** A file of the tree below [base] whose directories and name are not
    hidden and whose name ends in [suffix] is among the files that [glob]
    returns for [base/**/*suffix], unless an ignore pattern matches it. *)
Lemma glob_finds fs patterns ignore (base dirs : list string) (name suffix : string) :
  let path := (base ++ dirs ++ [name])%list in
  In path (allFiles (tree fs)) ->
  In (map Glob.Lit base ++ [Glob.GlobStar; Glob.starSuffix suffix])%list patterns ->
  visible dirs = true -> Glob.dotName name = false ->
  endsWith name suffix = true ->
  Glob.matchesAny true ignore path = false ->
  In (absolutePath path) (Glob.glob fs patterns ignore).
Proof.
  intros path Hin Hpat Hdirs Hname Hends Hign. apply glob_In. exists path.
  split; [reflexivity|]. split; [exact Hin|]. split; [|exact Hign].
  unfold Glob.matchesAny. apply existsb_exists. eexists. split; [exact Hpat|].
  apply pathMatch_literal_intro. apply pathMatch_globstar_last.
  exists dirs, name. split; [reflexivity|]. split.
  - unfold visible in Hdirs. exact Hdirs.
  - unfold Glob.portionMatch. rewrite Hname. cbn [negb orb andb].
    apply wildMatch_suffix. now apply endsWith_iff.
Qed.

Lemma not_node_modules path :
  ~ In "node_modules" path ->
  Glob.pathMatch true Glob.ignoreNodeModules path = false.
Proof.
  intros H. destruct (Glob.pathMatch true Glob.ignoreNodeModules path) eqn:E;
    [|reflexivity].
  apply NodeModulesFacts.ignoreNodeModules_spec in E.
  destruct E as (pre & post & -> & _). exfalso. apply H.
  apply in_app_iff. right. now left.
Qed.

Lemma not_declaration dirs name :
  endsWith name ".d.ts" = false ->
  Glob.pathMatch true Glob.ignoreDeclarations (dirs ++ [name])%list = false.
Proof.
  intros H. destruct (Glob.pathMatch true Glob.ignoreDeclarations _) eqn:E;
    [|reflexivity].
  apply pathMatch_globstar_last in E.
  destruct E as (dirs' & name' & Hp & _ & Hm).
  apply app_inj_tail in Hp. destruct Hp as [_ <-].
  unfold Glob.portionMatch in Hm. apply andb_true_iff in Hm.
  destruct Hm as [_ Hm]. apply wildMatch_suffix in Hm.
  apply endsWith_iff in Hm. congruence.
Qed.

Lemma stripCommon_spec a : forall b a' b',
  stripCommon a b = (a', b') ->
  exists c, a = (c ++ a')%list /\ b = (c ++ b')%list.
Proof.
  induction a as [|x a IH]; intros b a' b' H.
  - cbn in H. injection H as <- <-. now exists [].
  - destruct b as [|y b]; cbn [stripCommon] in H.
    + injection H as <- <-. now exists [].
    + destruct (String.eqb_spec x y) as [->|Hne].
      * destruct (IH _ _ _ H) as (c & -> & ->). now exists (y :: c).
      * injection H as <- <-. now exists [].
Qed.

Lemma join_nonempty x t : x <> "" -> join "/" (x :: t) <> "".
Proof.
  intros Hx Hj. unfold join in Hj.
  destruct t; cbn [String.concat] in Hj; [congruence|]. now destruct x.
Qed.

(** Below the project, the relative path tells the file. *)
Lemma relative_injective root rest p :
  cleanPath (segments root ++ rest) -> rest <> [] -> cleanPath p ->
  relative root (absolutePath p) = join "/" rest ->
  p = (segments root ++ rest)%list.
Proof.
  intros Hc Hrest Hp E. unfold relative in E.
  rewrite (segments_absolutePath _ Hp) in E.
  destruct (stripCommon (segments root) p) as [f t] eqn:Es.
  destruct (stripCommon_spec _ _ _ _ Es) as (c & Hroot & ->).
  apply Forall_app in Hc. destruct Hc as [_ Hcr].
  apply Forall_app in Hp. destruct Hp as [_ Hpt].
  assert (Hlists : (repeat ".." (List.length f) ++ t)%list = rest).
  { destruct rest as [|r rest]; [congruence|].
    destruct (repeat ".." (List.length f) ++ t)%list as [|y l] eqn:El.
    - cbn in E. symmetry in E. exfalso. revert E. apply join_nonempty.
      inversion Hcr as [|? ? Hr _]; subst. now apply cleanName_spec in Hr.
    - rewrite <- (split_join (y :: l)), <- (split_join (r :: rest));
        try discriminate.
      + now rewrite E.
      + now apply cleanPath_noSlash.
      + rewrite <- El. apply Forall_app. split.
        * apply Forall_forall. intros x Hx. apply repeat_spec in Hx. now subst.
        * now apply cleanPath_noSlash. }
  destruct f as [|x f].
  - cbn [List.length repeat app] in Hlists. subst t.
    now rewrite Hroot, app_nil_r.
  - cbn [List.length repeat app] in Hlists. subst rest.
    inversion Hcr as [|? ? Hr _]; subst. discriminate Hr.
Qed.

Lemma join_snoc l n : l <> [] -> join "/" (l ++ [n]) = join "/" l ++ "/" ++ n.
Proof.
  induction l as [|x l IH]; [congruence|]. intros _.
  destruct l as [|y l]; [reflexivity|].
  change (join "/" ((x :: y :: l) ++ [n])) with (x ++ "/" ++ join "/" ((y :: l) ++ [n])).
  rewrite IH by discriminate.
  change (join "/" (x :: y :: l)) with (x ++ "/" ++ join "/" (y :: l)).
  now rewrite !append_assoc.
Qed.

Lemma absolutePath_snoc base name :
  exists d, absolutePath (base ++ [name]) = d ++ "/" ++ name.
Proof.
  unfold absolutePath. destruct base as [|x base].
  - now exists "".
  - exists ("/" ++ join "/" (x :: base)). rewrite join_snoc by discriminate.
    now rewrite append_assoc.
Qed.

Lemma cleanPath_last base name :
  cleanPath (base ++ [name]) -> noSlash name /\ name <> "".
Proof.
  intros H. apply Forall_app in H. destruct H as [_ H].
  inversion H as [|? ? Hn _]; subst. apply cleanName_spec in Hn. tauto.
Qed.

Lemma basename_absolutePath base name :
  cleanPath (base ++ [name]) -> basename (absolutePath (base ++ [name])) = name.
Proof.
  intros H. destruct (cleanPath_last _ _ H) as [Hs Hn].
  destruct (absolutePath_snoc base name) as (d & ->).
  now apply basename_child.
Qed.

Lemma dropWhile_app_stop {A : Type} (p : A -> bool) l x r :
  List.forallb p l = true -> p x = false ->
  dropWhile p (l ++ x :: r) = x :: r.
Proof.
  intros Hl Hx. induction l as [|y l IH]; cbn [app dropWhile].
  - now rewrite Hx.
  - cbn [List.forallb] in Hl. apply andb_true_iff in Hl. destruct Hl as [Hy Hl].
    rewrite Hy. now apply IH.
Qed.

(** [path.dirname] of a relative path with a last portion. *)
Lemma dirname_child d n :
  d <> "" -> isAbsolute d = false -> noSlash n -> n <> "" ->
  dirname (d ++ "/" ++ n) = d.
Proof.
  intros Hd Ha Hs Hn. destruct d as [|c0 dt]; [congruence|].
  unfold dirname.
  change (chars (String c0 dt ++ "/" ++ n)) with (c0 :: chars (dt ++ "/" ++ n)).
  cbv beta iota. rewrite !chars_app.
  change (chars "/") with [slash].
  rewrite !rev_app_distr. cbn [rev app]. rewrite <- app_assoc. cbn [app].
  assert (Hrev : List.forallb (fun c => negb (isSlash c)) (rev (chars n)) = true)
    by (rewrite forallb_rev; exact Hs).
  rewrite (dropWhile_head isSlash).
  2:{ destruct (rev (chars n)) as [|x r] eqn:E.
      - apply (f_equal (@rev ascii)) in E. rewrite rev_involutive in E.
        cbn in E. now apply chars_nil in E.
      - cbn [app]. cbn [List.forallb] in Hrev.
        apply andb_true_iff in Hrev. destruct Hrev as [Hx _].
        now apply negb_true_iff in Hx. }
  rewrite (dropWhile_app_stop (fun c => negb (isSlash c))); [|exact Hrev|reflexivity].
  cbn [isAbsolute] in Ha. rewrite Ha.
  destruct (rev (chars dt)) as [|x r] eqn:E.
  - apply (f_equal (@rev ascii)) in E. rewrite rev_involutive in E. cbn in E.
    apply chars_nil in E. now subst dt.
  - rewrite <- E, rev_involutive.
    change (text (c0 :: chars dt)) with (String c0 (text (chars dt))).
    now rewrite text_chars.
Qed.

Lemma startsWith_app a b : startsWith (a ++ b) a = true.
Proof.
  unfold startsWith. induction a as [|c a IH]; cbn [append String.prefix].
  - now destruct b.
  - destruct (ascii_dec c c); [exact IH|congruence].
Qed.

(** A name that ends in a contract extension is no declaration file. *)
Lemma last_char_differs a b c d :
  c <> d ->
  endsWith (a ++ String c "") (b ++ String d "") = false.
Proof.
  intros Hne. destruct (endsWith _ _) eqn:E; [|reflexivity].
  apply endsWith_iff in E. destruct E as (x & E).
  rewrite <- append_assoc in E.
  apply (f_equal chars) in E. rewrite !chars_app in E.
  apply app_inj_tail in E. destruct E as [_ E]. congruence.
Qed.

End ScanFacts.


(* ------------------------------------------------------------------ *)
(** ** src/utils/normalizeName.ts: further properties *)

Module NormalizeNameProperties.
Import JsString JsStringFacts NodePath PathFacts NormalizeName NormalizeNameFacts.
Import StringFacts BaseNameFacts FileNames.

Lemma strip_cons a t :
  removeUnderscores (toLowerCase (String a t)) =
  if Ascii.eqb (lowerChar a) "_" then removeUnderscores (toLowerCase t)
  else String (lowerChar a) (removeUnderscores (toLowerCase t)).
Proof. reflexivity. Qed.

Lemma strip_underscore t :
  removeUnderscores (toLowerCase (String "_" t)) =
  removeUnderscores (toLowerCase t).
Proof. reflexivity. Qed.

Lemma strip_insertBoundaries s :
  removeUnderscores (toLowerCase (insertBoundaries s)) =
  removeUnderscores (toLowerCase s).
Proof.
  induction s as [|a t IH]; [reflexivity|].
  destruct t as [|b t]; [reflexivity|].
  rewrite insertBoundaries_step.
  rewrite (strip_cons a (String b t)).
  destruct (boundary a b t).
  - now rewrite (strip_cons a), strip_underscore, IH.
  - now rewrite (strip_cons a), IH.
Qed.

Lemma toLowerCase_idempotent s : toLowerCase (toLowerCase s) = toLowerCase s.
Proof. apply toLowerCase_fixed, toLowerCase_no_upper. Qed.

Lemma strip_normalize s :
  removeUnderscores (toLowerCase (normalizeToSnakeCase s)) =
  removeUnderscores (toLowerCase s).
Proof.
  destruct s as [|a t]; [reflexivity|].
  unfold normalizeToSnakeCase.
  now rewrite replacements_insert_boundaries, toLowerCase_idempotent,
    strip_insertBoundaries.
Qed.

(** The replacements keep every character class that holds the
    underscore and is closed under lowering. *)
Lemma forallb_toLowerCase p s :
  (forall c, p c = true -> p (lowerChar c) = true) ->
  forallb p s = true -> forallb p (toLowerCase s) = true.
Proof.
  intros Hp. induction s as [|a t IH]; cbn; [reflexivity|].
  intros H. apply andb_true_iff in H. destruct H as [Ha Ht].
  now rewrite (Hp _ Ha), IH.
Qed.

Lemma forallb_insertBoundaries p s :
  p "_"%char = true ->
  forallb p s = true -> forallb p (insertBoundaries s) = true.
Proof.
  intros Hu. induction s as [|a t IH]; [reflexivity|].
  destruct t as [|b t]; [now cbn|].
  rewrite insertBoundaries_step. intros H.
  pose proof H as H'. cbn [forallb] in H'.
  apply andb_true_iff in H'. destruct H' as [Ha Ht].
  destruct (boundary a b t); cbn [forallb]; rewrite Ha, ?Hu, (IH Ht);
    reflexivity.
Qed.

Lemma forallb_normalize p s :
  p "_"%char = true ->
  (forall c, p c = true -> p (lowerChar c) = true) ->
  forallb p s = true -> forallb p (normalizeToSnakeCase s) = true.
Proof.
  intros Hu Hp H. destruct s as [|a t]; [reflexivity|].
  unfold normalizeToSnakeCase. rewrite replacements_insert_boundaries.
  now apply forallb_toLowerCase, forallb_insertBoundaries.
Qed.

Lemma lowerChar_class c :
  isUpper c = true -> isLower (lowerChar c) = true.
Proof.
  intros E. unfold lowerChar. rewrite E.
  unfold isUpper, isLower, between, code in *.
  apply andb_true_iff in E. destruct E as [E1 E2].
  apply N.leb_le in E1. apply N.leb_le in E2.
  rewrite N_ascii_embedding by lia.
  apply andb_true_iff. split; apply N.leb_le; lia.
Qed.

Lemma lowerChar_other (x : ascii) c :
  isLower x = false -> Ascii.eqb c x = false -> Ascii.eqb (lowerChar c) x = false.
Proof.
  intros Hx Hc. destruct (isUpper c) eqn:E.
  - apply lowerChar_class in E.
    destruct (Ascii.eqb (lowerChar c) x) eqn:E2; [|reflexivity].
    apply Ascii.eqb_eq in E2. congruence.
  - now rewrite (lowerChar_id _ E).
Qed.

Lemma normalize_noSlash s : noSlash s -> noSlash (normalizeToSnakeCase s).
Proof.
  unfold noSlash. rewrite <- !forallb_chars.
  apply forallb_normalize; [reflexivity|].
  intros c Hc. apply negb_true_iff. apply negb_true_iff in Hc.
  now apply lowerChar_other.
Qed.

Lemma normalize_nonempty s : s <> "" -> normalizeToSnakeCase s <> "".
Proof.
  destruct s as [|a t]; [easy|]. intros _.
  unfold normalizeToSnakeCase. rewrite replacements_insert_boundaries.
  destruct t as [|b t]; [easy|].
  rewrite insertBoundaries_step. now destruct (boundary a b t).
Qed.

(** X1. On a name of ASCII characters, [normalizeToSnakeCase] returns its
    argument unchanged exactly when the argument holds no uppercase letter
    of [A-Z]: every other such name is changed, and no name without an
    uppercase letter is. *)
Theorem normalizeToSnakeCase_unchanged_iff (s : string) :
  asciiText s = true ->
  (normalizeToSnakeCase s = s <-> noUpper s = true).
Proof.
  intros _. split.
  - intros H. unfold noUpper. rewrite <- H. apply normalize_no_upper.
  - apply normalize_fixed.
Qed.

Lemma normalizeToSnakeCase_unchanged_iff_witness :
  asciiText "jetton_wallet" = true /\
  asciiText "JettonWallet" = true /\
  normalizeToSnakeCase "jetton_wallet" = "jetton_wallet" /\
  normalizeToSnakeCase "JettonWallet" <> "JettonWallet".
Proof.
  split; [reflexivity|]. split; [reflexivity|]. split.
  - now apply (normalizeToSnakeCase_unchanged_iff "jetton_wallet" eq_refl).
  - intros H.
    apply (normalizeToSnakeCase_unchanged_iff "JettonWallet" eq_refl) in H.
    discriminate H.
Defined.

(** X2. The result of [normalizeToSnakeCase] holds no uppercase letter, and
    it differs from the lowercased argument by underscores only: with the
    underscores taken out of both, the two are the same text. *)
Theorem normalizeToSnakeCase_only_adds_underscores (s : string) :
  noUpper (normalizeToSnakeCase s) = true /\
  removeUnderscores (normalizeToSnakeCase s) =
  removeUnderscores (toLowerCase s).
Proof.
  split; [apply normalize_no_upper|].
  rewrite <- (toLowerCase_fixed (normalizeToSnakeCase s))
    by apply normalize_no_upper.
  apply strip_normalize.
Qed.

Lemma getNormalizedBaseName_stem p base :
  basenameExt p (extname p) = base ->
  getNormalizedBaseName p =
  normalizeToSnakeCase
    (if endsWith base ".spec" || endsWith base ".test"
     then dropRight 5 base else base).
Proof.
  intros <-. unfold getNormalizedBaseName, stripTestSuffix.
  now destruct (endsWith _ ".spec" || endsWith _ ".test").
Qed.

Lemma fileIn_test_suffix dir stem suffix :
  fileIn dir stem (suffix ++ ".ts") = fileIn dir (stem ++ "." ++ suffix) "ts".
Proof.
  unfold fileIn. now rewrite !append_assoc.
Qed.

(** X3. [getNormalizedBaseName] gives a test file the normalized name of
    the file it tests: for a stem without a slash, [stem.spec.ts] and
    [stem.test.ts] in any directory get [normalizeToSnakeCase stem], and so
    does [stem.ext] in any directory when the stem does not itself end in
    [.spec] or [.test]. *)
Theorem getNormalizedBaseName_test_file (dir dir' stem ext : string) :
  noSlash stem -> stem <> "" ->
  endsWith stem ".spec" = false -> endsWith stem ".test" = false ->
  noSlash ext -> noDot ext -> ext <> "" ->
  getNormalizedBaseName (fileIn dir stem "spec.ts") = normalizeToSnakeCase stem /\
  getNormalizedBaseName (fileIn dir stem "test.ts") = normalizeToSnakeCase stem /\
  getNormalizedBaseName (fileIn dir' stem ext) = normalizeToSnakeCase stem.
Proof.
  intros Hs Hn Hspec Htest He Hd Hx.
  assert (Hsuffix : forall suffix,
    noSlash suffix ->
    basenameExt (fileIn dir stem (suffix ++ ".ts"))
                (extname (fileIn dir stem (suffix ++ ".ts"))) =
    stem ++ "." ++ suffix).
  { intros suffix Hsl. rewrite fileIn_test_suffix.
    apply fileIn_stem; try easy.
    - apply noSlash_app; [exact Hs|]. now apply (noSlash_app ".").
    - now destruct stem. }
  repeat split.
  - change "spec.ts" with ("spec" ++ ".ts").
    rewrite (getNormalizedBaseName_stem _ _ (Hsuffix "spec" eq_refl)).
    change ("." ++ "spec") with ".spec".
    rewrite (endsWith_app stem ".spec"). cbn [orb].
    f_equal. exact (dropRight_app stem ".spec").
  - change "test.ts" with ("test" ++ ".ts").
    rewrite (getNormalizedBaseName_stem _ _ (Hsuffix "test" eq_refl)).
    change ("." ++ "test") with ".test".
    rewrite (endsWith_app stem ".test"), orb_true_r.
    f_equal. exact (dropRight_app stem ".test").
  - rewrite (getNormalizedBaseName_stem _ stem)
      by now apply fileIn_stem.
    now rewrite Hspec, Htest.
Qed.

Lemma getNormalizedBaseName_test_file_witness :
  getNormalizedBaseName "tests/JettonWallet.spec.ts" = "jetton_wallet" /\
  getNormalizedBaseName "contracts/JettonWallet.fc" = "jetton_wallet".
Proof.
  pose proof (getNormalizedBaseName_test_file
                "tests" "contracts" "JettonWallet" "fc"
                eq_refl ltac:(discriminate) eq_refl eq_refl
                eq_refl eq_refl ltac:(discriminate)) as [H1 [_ H3]].
  split; [exact H1|exact H3].
Defined.

End NormalizeNameProperties.

(* ------------------------------------------------------------------ *)
(** ** src/rules/duplicateContractNames.ts: further properties *)

Module DuplicateNamesProperties.
Import JsString JsStringFacts NodePath Types Io IoFacts.
Import DuplicateContractNames DuplicateNamesFacts.
Import StringFacts BaseNameFacts FileNames NormalizeNameProperties.

Lemma removeUnderscores_clean s :
  forallb (fun c => negb (Ascii.eqb c "_")) (removeUnderscores s) = true.
Proof.
  induction s as [|c s IH]; [reflexivity|]. cbn [removeUnderscores].
  destruct (Ascii.eqb c "_") eqn:E; [exact IH|].
  cbn [forallb]. now rewrite E, IH.
Qed.

Lemma removeUnderscores_forallb p s :
  forallb p s = true -> forallb p (removeUnderscores s) = true.
Proof.
  induction s as [|c s IH]; [reflexivity|]. cbn [removeUnderscores forallb].
  intros H. apply andb_true_iff in H. destruct H as [Hc Hs].
  destruct (Ascii.eqb c "_"); [auto|].
  cbn [forallb]. now rewrite Hc, IH.
Qed.

Lemma normalizeContractName_fileIn dir stem ext :
  noSlash stem -> stem <> "" -> noSlash ext -> noDot ext -> ext <> "" ->
  normalizeContractName (fileIn dir stem ext) =
  removeUnderscores (toLowerCase stem).
Proof.
  intros Hs Hn He Hd Hx. unfold normalizeContractName.
  now rewrite fileIn_parseName.
Qed.

(** X4. The key that the duplicate detector gives the file [stem.ext] of
    a directory is the lowercased stem without its underscores: it does
    not depend on the directory nor on the extension, and it holds neither
    an uppercase letter nor an underscore. *)
Theorem normalizeContractName_of_stem (dir stem ext : string) :
  noSlash stem -> stem <> "" -> noSlash ext -> noDot ext -> ext <> "" ->
  let key := normalizeContractName (fileIn dir stem ext) in
  key = removeUnderscores (toLowerCase stem) /\
  noUpper key = true /\
  forallb (fun c => negb (Ascii.eqb c "_")) key = true.
Proof.
  intros Hs Hn He Hd Hx key. unfold key.
  rewrite (normalizeContractName_fileIn _ _ _ Hs Hn He Hd Hx).
  split; [reflexivity|]. split.
  - apply removeUnderscores_forallb, toLowerCase_no_upper.
  - apply removeUnderscores_clean.
Qed.

Lemma normalizeContractName_of_stem_witness :
  normalizeContractName "/proj/contracts/sub/My_Jetton.v2.tact" = "myjetton.v2".
Proof.
  exact (proj1 (normalizeContractName_of_stem
                  "/proj/contracts/sub" "My_Jetton.v2" "tact"
                  eq_refl ltac:(discriminate) eq_refl eq_refl
                  ltac:(discriminate))).
Defined.

(** X5. Renaming a contract file to the snake_case name that the naming
    check expects leaves its duplicate key unchanged: the file
    [normalizeToSnakeCase stem] and the file [stem] have the same key, so
    following the naming diagnostics neither creates nor resolves a
    duplicate. *)
Theorem normalizeContractName_after_rename (dir stem ext : string) :
  noSlash stem -> stem <> "" -> noSlash ext -> noDot ext -> ext <> "" ->
  normalizeContractName
    (fileIn dir (NormalizeName.normalizeToSnakeCase stem) ext) =
  normalizeContractName (fileIn dir stem ext).
Proof.
  intros Hs Hn He Hd Hx.
  rewrite !normalizeContractName_fileIn;
    auto using normalize_noSlash, normalize_nonempty.
  apply strip_normalize.
Qed.

Lemma normalizeContractName_after_rename_witness :
  normalizeContractName "/proj/contracts/nft_collection.fc" =
  normalizeContractName "/proj/contracts/NFTCollection.fc".
Proof.
  exact (normalizeContractName_after_rename
           "/proj/contracts" "NFTCollection" "fc"
           eq_refl ltac:(discriminate) eq_refl eq_refl ltac:(discriminate)).
Defined.

Lemma flat_map_nil {A B : Type} (f : A -> list B) l :
  flat_map f l = [] <-> forall x, In x l -> f x = [].
Proof.
  induction l as [|x l IH]; cbn; [tauto|]. split.
  - intros H. apply app_eq_nil in H. destruct H as [Hx Hl].
    intros y [<-|Hy]; [exact Hx|]. now apply IH.
  - intros H. rewrite (H x) by now left. apply IH. auto.
Qed.

Lemma entryErrors_nil projectRoot group :
  entryErrors projectRoot group = [] <-> List.length group <= 1.
Proof.
  unfold entryErrors. destruct (Nat.ltb 1 (List.length group)) eqn:E.
  - apply Nat.ltb_lt in E. split; [|lia].
    destruct group; [cbn in E; lia|discriminate].
  - apply Nat.ltb_ge in E. tauto.
Qed.

Lemma entryErrors_length projectRoot group :
  List.length (entryErrors projectRoot group) <> 1.
Proof.
  unfold entryErrors. destruct (Nat.ltb 1 (List.length group)) eqn:E.
  - apply Nat.ltb_lt in E. rewrite !length_map. lia.
  - cbn. lia.
Qed.

Lemma entryErrors_In_group projectRoot group e :
  In e (entryErrors projectRoot group) ->
  2 <= List.length group /\
  exists g, In g group /\
    e = mkError NamingConsistency (NodePath.relative projectRoot g)
          (duplicateMessage (map (NodePath.relative projectRoot) group)).
Proof.
  intros He. split; [|now apply entryErrors_In].
  unfold entryErrors in He.
  destruct (Nat.ltb 1 (List.length group)) eqn:E; [|destruct He].
  now apply Nat.ltb_lt in E.
Qed.

Lemma members_length_NoDup files :
  (forall k, List.length (members k files) <= 1) <->
  NoDup (map normalizeContractName files).
Proof.
  induction files as [|f t IH]; cbn [map].
  - split; [constructor|cbn; lia].
  - split.
    + intros H. constructor.
      * intros Hin. apply in_map_iff in Hin. destruct Hin as (g & Hg & Hin).
        specialize (H (normalizeContractName f)).
        rewrite members_cons_same in H by reflexivity.
        assert (Hm : In g (members (normalizeContractName f) t))
          by now apply members_In.
        destruct (members (normalizeContractName f) t); [easy|cbn in H; lia].
      * apply IH. intros k. specialize (H k).
        destruct (String.eqb (normalizeContractName f) k) eqn:E.
        -- apply String.eqb_eq in E.
           rewrite members_cons_same in H by exact E. cbn in H. lia.
        -- apply String.eqb_neq in E.
           now rewrite members_cons_other in H by exact E.
    + intros H k. inversion H as [|? ? Hnin Hnd]; subst.
      destruct (String.eqb (normalizeContractName f) k) eqn:E.
      * apply String.eqb_eq in E. rewrite members_cons_same by exact E.
        destruct (members k t) as [|g r] eqn:Em; [cbn; lia|].
        exfalso. apply Hnin. apply in_map_iff. exists g.
        assert (Hg : In g (members k t)) by (rewrite Em; now left).
        apply members_In in Hg. destruct Hg as [Hg Hk]. split; congruence.
      * apply String.eqb_neq in E. rewrite members_cons_other by exact E.
        now apply IH.
Qed.

Lemma reportByKey_nil projectRoot files :
  reportByKey projectRoot files = [] <->
  NoDup (map normalizeContractName files).
Proof.
  unfold reportByKey. rewrite flat_map_nil, <- members_length_NoDup.
  split.
  - intros H k.
    destruct (members k files) as [|g r] eqn:Em; [cbn; lia|].
    rewrite <- Em. apply (entryErrors_nil projectRoot), H.
    apply distinctKeys_In. split; [|easy].
    assert (Hg : In g (members k files)) by (rewrite Em; now left).
    apply members_In in Hg. now exists g.
  - intros H k _. apply entryErrors_nil, H.
Qed.

(** X6. The duplicate detector returns no diagnostic exactly when the
    keys of the files that [glob] finds under [contracts] are pairwise
    distinct. *)
Theorem lintDuplicateContractNames_clean_iff
  (fs : FileSystem.FS) (projectRoot : string) :
  result fs (lintDuplicateContractNames projectRoot) = inr [] <->
  NoDup (map normalizeContractName
             (Glob.glob fs [absolutePattern projectRoot] [])).
Proof.
  unfold lintDuplicateContractNames.
  rewrite result_bind, result_glob. cbn [result run fst].
  rewrite reportDuplicates_by_key, <- reportByKey_nil.
  split; [now intros [= ->]|now intros ->].
Qed.

Lemma flat_map_length_not_one {A B : Type} (f : A -> list B) l :
  (forall x, List.length (f x) <> 1) -> List.length (flat_map f l) <> 1.
Proof.
  intros H. induction l as [|x l IH]; cbn; [lia|].
  rewrite List.length_app. specialize (H x). lia.
Qed.

Lemma filter_single {A : Type} (p : A -> bool) l x :
  List.length (filter p l) = 1 ->
  (forall y, In y l -> p y = true -> y = x) ->
  filter p l = [x].
Proof.
  intros Hlen Hall. destruct (filter p l) as [|y [|z r]] eqn:E; try discriminate.
  assert (Hy : In y (filter p l)) by (rewrite E; now left).
  apply filter_In in Hy. destruct Hy as [Hy Hp]. now rewrite (Hall y Hy Hp).
Qed.

Lemma filter_none {A : Type} (p : A -> bool) l :
  List.length (filter p l) = 0 -> filter p l = [].
Proof. now destruct (filter p l). Qed.

(** The files that [glob] finds for [contracts/**/*.*]. *)
Lemma scanned_files fs projectRoot f :
  In f (Glob.glob fs [absolutePattern projectRoot] []) <->
  exists dirs name stem ext,
    let path := (NodePath.segments projectRoot ++
                 "contracts" :: dirs ++ [name])%list in
    In path (FileSystem.allFiles (FileSystem.tree fs)) /\
    f = FileSystem.absolutePath path /\
    visible dirs = true /\
    Glob.dotName name = false /\
    name = stem ++ "." ++ ext.
Proof.
  unfold Glob.glob, visible. rewrite in_map_iff. split.
  - intros (path & <- & Hpath). apply filter_In in Hpath.
    destruct Hpath as [Hin Hm]. cbn [Glob.matchesAny existsb] in Hm.
    rewrite !orb_false_r, andb_true_r in Hm.
    apply GlobFacts.contracts_pattern_spec in Hm.
    destruct Hm as (dirs & name & stem & ext & -> & Hd & Hdot & Hname).
    exists dirs, name, stem, ext. cbn zeta. tauto.
  - intros (dirs & name & stem & ext & Hin & -> & Hd & Hdot & Hname).
    eexists. split; [reflexivity|]. apply filter_In. split; [exact Hin|].
    cbn [Glob.matchesAny existsb]. rewrite !orb_false_r, andb_true_r.
    apply GlobFacts.contracts_pattern_spec. now exists dirs, name, stem, ext.
Qed.

(** C2. Let the file system be well formed, the project path absolute and
    free of glob syntax, and the scanned names ASCII.  The detector scans
    the files below [contracts], at any depth, whose name holds a dot and
    is not hidden and whose directories below [contracts] are not hidden.
    The key of a scanned file is lowercase(stem) without underscores.  A
    scanned file whose key is shared by two or more scanned files gets
    exactly one diagnostic, and its message lists the relative paths of all
    the scanned files with that key; a scanned file that is alone with its
    key gets none; and no diagnostic is about anything but a scanned
    file. *)
Theorem lintDuplicateContractNames_by_key
  (fs : FileSystem.FS) (projectRoot : string) :
  let files := Glob.glob fs [absolutePattern projectRoot] [] in
  let rel := NodePath.relative projectRoot in
  let keyOf := fun p : string =>
    removeUnderscores (toLowerCase (NodePath.parseName (NodePath.basename p))) in
  FileSystem.wellFormed (FileSystem.tree fs) = true ->
  NodePath.isAbsolute projectRoot = true ->
  plainText projectRoot = true ->
  List.forallb asciiText files = true ->
  (forall f, In f files <->
     exists dirs name stem ext,
       let path := (NodePath.segments projectRoot ++
                    "contracts" :: dirs ++ [name])%list in
       In path (FileSystem.allFiles (FileSystem.tree fs)) /\
       f = FileSystem.absolutePath path /\
       visible dirs = true /\
       Glob.dotName name = false /\
       name = stem ++ "." ++ ext) /\
  exists errors,
    result fs (lintDuplicateContractNames projectRoot) = inr errors /\
    (forall e, In e errors -> exists f, In f files /\ file e = rel f) /\
    forall f, In f files ->
      exists group paths,
        NoDup group /\
        (forall g, In g group <-> In g files /\ keyOf g = keyOf f) /\
        Permutation paths (map rel group) /\
        (2 <= List.length group ->
           filter (fun e => String.eqb (file e) (rel f)) errors =
           [mkError NamingConsistency (rel f)
              ("Duplicate filename detected in 'contracts' directory: " ++
               join ", " paths ++
               ". Filenames should be unique, ignoring case, underscores, and extensions.")]) /\
        (List.length group = 1 ->
           filter (fun e => String.eqb (file e) (rel f)) errors = []).
Proof.
  intros files rel keyOf Hwf _ _ _.
  split; [intros f; apply scanned_files|].
  destruct (GlobFacts.glob_distinct fs projectRoot
              [[Glob.Lit "contracts"; Glob.GlobStar; Glob.starDotStar]] [] Hwf)
    as [Hnd Hinj].
  change (Glob.glob fs _ []) with files in Hnd, Hinj.
  exists (reportByKey projectRoot files).
  split; [unfold lintDuplicateContractNames; rewrite result_bind, result_glob;
          cbn [result run fst]; now rewrite reportDuplicates_by_key|].
  split.
  - intros e He. apply in_flat_map in He. destruct He as (k & _ & He).
    apply entryErrors_In in He. destruct He as (g & Hg & ->).
    apply members_In in Hg. exists g. split; [tauto|reflexivity].
  - intros f Hf.
    destruct (reportByKey_per_file projectRoot files Hnd Hinj f Hf)
      as (Hfg & Hmany & Hone).
    exists (members (normalizeContractName f) files),
           (map rel (members (normalizeContractName f) files)).
    split; [now apply members_NoDup|]. split; [intros g; apply members_In|].
    split; [apply Permutation_refl|]. split.
    + intros Hlen. destruct (Hmany Hlen) as (Hcount & _ & Honly).
      apply filter_single; [exact Hcount|].
      intros e He Hfile. apply String.eqb_eq in Hfile. now apply Honly.
    + intros Hlen. apply filter_none. exact (Hone Hlen).
Qed.

Lemma lintDuplicateContractNames_by_key_witness :
  FileSystem.wellFormed (FileSystem.tree Samples.twoJettons) = true /\
  NodePath.isAbsolute "/proj" = true /\
  plainText "/proj" = true /\
  List.forallb asciiText
    (Glob.glob Samples.twoJettons [absolutePattern "/proj"] []) = true /\
  exists errors paths,
    result Samples.twoJettons (lintDuplicateContractNames "/proj") = inr errors /\
    Permutation paths ["contracts/MyJetton.fc"; "contracts/my_jetton.tact"] /\
    filter (fun e => String.eqb (file e) "contracts/my_jetton.tact") errors =
    [mkError NamingConsistency "contracts/my_jetton.tact"
       ("Duplicate filename detected in 'contracts' directory: " ++
        join ", " paths ++
        ". Filenames should be unique, ignoring case, underscores, and extensions.")].
Proof.
  split; [reflexivity|]. split; [reflexivity|]. split; [reflexivity|].
  split; [reflexivity|].
  pose proof (lintDuplicateContractNames_by_key Samples.twoJettons "/proj"
                eq_refl eq_refl eq_refl eq_refl) as H.
  cbv zeta in H. destruct H as (_ & errors & Hres & _ & Hper).
  destruct (Hper "/proj/contracts/my_jetton.tact")
    as (group & paths & Hnd & Hmem & Hperm & Hmany & _);
    [vm_compute; tauto|].
  assert (Hgroup : Permutation group
                     ["/proj/contracts/MyJetton.fc"; "/proj/contracts/my_jetton.tact"]).
  { apply NoDup_Permutation; [exact Hnd| |].
    - constructor; [intros [H|[]]; discriminate H|].
      constructor; [intros []|constructor].
    - intros g. rewrite Hmem. split.
      + intros [Hg Hkey]. vm_compute in Hg.
        destruct Hg as [<-|[<-|[<-|[]]]]; [now left|right; now left|].
        vm_compute in Hkey. discriminate Hkey.
      + intros [<-|[<-|[]]]; split; vm_compute; tauto. }
  exists errors, paths. split; [exact Hres|]. split.
  - eapply Permutation_trans; [exact Hperm|].
    exact (Permutation_map (NodePath.relative "/proj") Hgroup).
  - apply Hmany. rewrite (Permutation_length Hgroup). cbn. lia.
Defined.

(** The files of a [contracts] tree that the scan does not reach:
    [contracts/Token] has no dot in its name, [contracts/.cache] is a
    hidden directory, and [.Token.fc] and [.token.tact] are hidden files.
    Three files share the key [token] and two the key [.token], and the
    detector reports none of them. *)
Lemma lintDuplicateContractNames_unscanned_counterexample :
  In ["proj"; "contracts"; "Token"]
     (FileSystem.allFiles (FileSystem.tree MoreSamples.unscannedTwins)) /\
  In ["proj"; "contracts"; "token.fc"]
     (FileSystem.allFiles (FileSystem.tree MoreSamples.unscannedTwins)) /\
  In ["proj"; "contracts"; ".cache"; "TOKEN.tact"]
     (FileSystem.allFiles (FileSystem.tree MoreSamples.unscannedTwins)) /\
  In ["proj"; "contracts"; ".Token.fc"]
     (FileSystem.allFiles (FileSystem.tree MoreSamples.unscannedTwins)) /\
  In ["proj"; "contracts"; ".token.tact"]
     (FileSystem.allFiles (FileSystem.tree MoreSamples.unscannedTwins)) /\
  normalizeContractName "/proj/contracts/Token" = "token" /\
  normalizeContractName "/proj/contracts/token.fc" = "token" /\
  normalizeContractName "/proj/contracts/.cache/TOKEN.tact" = "token" /\
  normalizeContractName "/proj/contracts/.Token.fc" = ".token" /\
  normalizeContractName "/proj/contracts/.token.tact" = ".token" /\
  run MoreSamples.unscannedTwins (lintDuplicateContractNames "/proj") =
  (inr [], [EvGlob [absolutePattern "/proj"] []]).
Proof.
  repeat split; cbn; tauto.
Qed.

(** X7. Let the file system be well formed, the project path absolute and
    free of glob syntax, and the scanned names ASCII.  The duplicate
    detector never returns a single diagnostic: its report is empty or
    holds at least two.  Every diagnostic has type [NamingConsistency], is
    filed under the relative path of a scanned file, and its message lists
    the relative paths of the scanned files that share the key of that
    file, of which there are at least two. *)
Theorem lintDuplicateContractNames_report_shape
  (fs : FileSystem.FS) (projectRoot : string) :
  let files := Glob.glob fs [absolutePattern projectRoot] [] in
  let rel := NodePath.relative projectRoot in
  let keyOf := fun p : string =>
    removeUnderscores (toLowerCase (NodePath.parseName (NodePath.basename p))) in
  FileSystem.wellFormed (FileSystem.tree fs) = true ->
  NodePath.isAbsolute projectRoot = true ->
  plainText projectRoot = true ->
  List.forallb asciiText files = true ->
  exists errors,
    result fs (lintDuplicateContractNames projectRoot) = inr errors /\
    List.length errors <> 1 /\
    forall e, In e errors ->
      type e = NamingConsistency /\
      exists f group paths,
        In f files /\
        file e = rel f /\
        NoDup group /\
        (forall g, In g group <-> In g files /\ keyOf g = keyOf f) /\
        2 <= List.length group /\
        Permutation paths (map rel group) /\
        message e =
        "Duplicate filename detected in 'contracts' directory: " ++
        join ", " paths ++
        ". Filenames should be unique, ignoring case, underscores, and extensions.".
Proof.
  intros files rel keyOf Hwf _ _ _.
  destruct (GlobFacts.glob_distinct fs projectRoot
              [[Glob.Lit "contracts"; Glob.GlobStar; Glob.starDotStar]] [] Hwf)
    as [Hnd _].
  change (Glob.glob fs _ []) with files in Hnd.
  eexists. split.
  - unfold lintDuplicateContractNames.
    rewrite result_bind, result_glob. cbn [result run fst]. reflexivity.
  - split; [apply flat_map_length_not_one; intros; apply entryErrors_length|].
    intros e He. apply in_flat_map in He. destruct He as ([k paths] & Hk & He).
    cbn [snd] in He. rewrite buildMap_by_key in Hk.
    apply in_map_iff in Hk. destruct Hk as (k' & [= <- <-] & _).
    apply entryErrors_In_group in He. destruct He as (Hlen & g & Hg & ->).
    cbn [type file message]. split; [reflexivity|].
    pose proof Hg as Hg'. apply members_In in Hg'. destruct Hg' as [Hgf Hkey].
    exists g, (members k' files), (map rel (members k' files)).
    split; [exact Hgf|]. split; [reflexivity|].
    split; [now apply members_NoDup|]. split.
    + intros h. rewrite members_In. unfold keyOf.
      change (removeUnderscores
                (toLowerCase (NodePath.parseName (NodePath.basename h))))
        with (normalizeContractName h).
      change (removeUnderscores
                (toLowerCase (NodePath.parseName (NodePath.basename g))))
        with (normalizeContractName g).
      rewrite Hkey. tauto.
    + split; [exact Hlen|]. split; [apply Permutation_refl|reflexivity].
Qed.

Lemma lintDuplicateContractNames_report_shape_witness :
  FileSystem.wellFormed (FileSystem.tree Samples.vendored) = true /\
  NodePath.isAbsolute "/proj" = true /\
  plainText "/proj" = true /\
  List.forallb asciiText
    (Glob.glob Samples.vendored [absolutePattern "/proj"] []) = true /\
  exists errors,
    result Samples.vendored (lintDuplicateContractNames "/proj") = inr errors /\
    List.length errors <> 1.
Proof.
  split; [reflexivity|]. split; [reflexivity|]. split; [reflexivity|].
  split; [reflexivity|].
  destruct (lintDuplicateContractNames_report_shape Samples.vendored "/proj"
              eq_refl eq_refl eq_refl eq_refl)
    as (errors & Hres & Hlen & _).
  exists errors. split; assumption.
Defined.

End DuplicateNamesProperties.

(* ------------------------------------------------------------------ *)
(** ** src/checks/namingConsistency.ts: further properties *)

Module NamingConsistencyProperties.
Import JsString JsStringFacts NodePath Types Io IoFacts.
Import NamingConsistencyCheck NamingConsistencyFacts.
Import StringFacts BaseNameFacts FileNames NormalizeNameFacts NormalizeNameProperties.

Lemma contractErrors_nil contract :
  contractErrors contract = [] <-> baseName contract = normalizedBaseName contract.
Proof.
  unfold contractErrors.
  destruct (String.eqb_spec (baseName contract) (normalizedBaseName contract));
    cbn [negb]; split; intros H; try easy.
Qed.

(** A name that ends in a test suffix is never its own normalized name. *)
Lemma normalize_stripped_differs base suffix :
  String.length suffix = 5 ->
  endsWith base suffix = true ->
  base <> NormalizeName.normalizeToSnakeCase (dropRight 5 base).
Proof.
  intros Hlen Hends Heq.
  pose proof (endsWith_split _ _ Hends) as Hsplit. rewrite Hlen in Hsplit.
  set (stem := dropRight 5 base) in *.
  assert (Hup : noUpper stem = true).
  { assert (Hb : noUpper base = true)
      by (rewrite Heq; apply normalize_no_upper).
    unfold noUpper in *. rewrite Hsplit, forallb_app in Hb.
    now apply andb_true_iff in Hb. }
  rewrite (normalize_fixed _ Hup) in Heq.
  apply (f_equal String.length) in Hsplit.
  rewrite length_app, Hlen, Heq in Hsplit. lia.
Qed.

Lemma expected_name_iff base :
  base = NormalizeName.normalizeToSnakeCase
           (if endsWith base ".spec" || endsWith base ".test"
            then dropRight 5 base else base) <->
  noUpper base = true /\
  endsWith base ".spec" = false /\ endsWith base ".test" = false.
Proof.
  destruct (endsWith base ".spec") eqn:Es; cbn [orb].
  - split; [|now intros (_ & ? & _)].
    intros H. now apply (normalize_stripped_differs base ".spec") in H.
  - destruct (endsWith base ".test") eqn:Et.
    + split; [|now intros (_ & _ & ?)].
      intros H. now apply (normalize_stripped_differs base ".test") in H.
    + split.
      * intros H. split; [|easy]. unfold noUpper. rewrite H.
        apply normalize_no_upper.
      * intros (H & _). symmetry. now apply normalize_fixed.
Qed.

(** X9. The naming check never throws and reports contract files only:
    every diagnostic has type [NamingConsistency] and is for the relative
    path of a file that [glob] found, whose extension is [.tact], [.fc] or
    [.func] and which is no [.d.ts] file.  TypeScript files of the scanned
    directories are classified and never reported. *)
Theorem checkNamingConsistency_reports_contracts_only
  (fs : FileSystem.FS) (projectRoot : string) (targetDirs : list string) :
  exists errors,
    result fs (checkNamingConsistency projectRoot targetDirs) = inr errors /\
    forall e, In e errors ->
      type e = NamingConsistency /\
      exists abs,
        In abs (Glob.glob fs (patterns projectRoot targetDirs)
                          [Glob.ignoreNodeModules]) /\
        file e = NodePath.relative projectRoot abs /\
        includes CONTRACT_EXTENSIONS (NodePath.extname abs) = true /\
        endsWith abs ".d.ts" = false.
Proof.
  eexists. split; [apply result_checkNamingConsistency|].
  intros e He. unfold performConsistencyCheck in He.
  apply in_flat_map in He. destruct He as (contract & Hc & He).
  apply filter_In in Hc. destruct Hc as [Hin Hcontract].
  apply uniqueFiles_spec in Hin. apply collect_In in Hin.
  destruct Hin as (abs & Habs & Hclass).
  split.
  - unfold contractErrors in He.
    destruct (negb _); [|destruct He]. now destruct He as [<-|[]].
  - exists abs. split; [exact Habs|].
    rewrite (contractErrors_file _ _ He).
    pose proof (classify_fields _ _ _ _ Hclass) as (Hp & _ & _ & Hi).
    split; [exact Hp|]. split; [congruence|].
    unfold classify in Hclass.
    destruct (startsWith _ ".."); [discriminate|].
    now destruct (endsWith abs ".d.ts").
Qed.

Lemma fold_mapSet_keys files : forall m key,
  In key (map fst (fold_left (fun m f => mapSet (filePath f) f m) files m)) <->
  In key (map fst m) \/ In key (map filePath files).
Proof.
  induction files as [|f t IH]; intros m key; cbn [fold_left map In].
  - tauto.
  - rewrite IH, mapSet_keys.
    destruct (includes (map fst m) (filePath f)) eqn:E.
    + apply includes_In in E. split; [tauto|].
      intros [H|[<-|H]]; tauto.
    + rewrite in_app_iff. cbn [In]. tauto.
Qed.

(** X10. [findFiles] never throws and returns one record for each path:
    the relative paths of its records are pairwise distinct, every record
    is what the loop body builds for a file that [glob] found, and every
    file that [glob] found and the loop body keeps has a record under its
    relative path. *)
Theorem findFiles_one_record_per_path
  (fs : FileSystem.FS) (projectRoot : string) (targetDirs : list string) :
  let globbed := Glob.glob fs (patterns projectRoot targetDirs)
                           [Glob.ignoreNodeModules] in
  exists found,
    result fs (findFiles projectRoot targetDirs) = inr found /\
    NoDup (map filePath found) /\
    (forall f, In f found ->
       exists abs, In abs globbed /\ classify projectRoot targetDirs abs = Some f) /\
    (forall abs f, In abs globbed ->
       classify projectRoot targetDirs abs = Some f ->
       exists g, In g found /\ filePath g = NodePath.relative projectRoot abs).
Proof.
  intros globbed.
  set (files := collect (classify projectRoot targetDirs) globbed).
  exists (uniqueFiles files). split; [reflexivity|].
  destruct (uniqueFiles_spec files) as [Hnd Hsub].
  split; [exact Hnd|]. split.
  - intros f Hf. apply Hsub in Hf. now apply collect_In in Hf.
  - intros abs f Habs Hclass.
    assert (Hf : In f files) by (apply collect_In; now exists abs).
    destruct (fold_mapSet_invariant files [] (NoDup_nil _)) as [_ Hin].
    assert (Hkey : In (filePath f)
              (map fst (fold_left (fun m f => mapSet (filePath f) f m) files [])))
      by (apply fold_mapSet_keys; right; now apply in_map).
    apply in_map_iff in Hkey. destruct Hkey as (e & Hk & He).
    exists (snd e). split; [unfold uniqueFiles; now apply in_map|].
    destruct (Hin e He) as [[]|[_ Hp]].
    rewrite <- Hp, Hk. now apply classify_fields in Hclass.
Qed.

(** *** A contract file of the tree, from the scan to its diagnostic *)

Lemma contract_extension ext :
  In ext CONTRACT_EXTENSIONS ->
  exists e, ext = "." ++ e /\ In e ["tact"; "fc"; "func"].
Proof.
  intros [<-|[<-|[<-|[]]]];
    [exists "tact"|exists "fc"|exists "func"]; cbn; tauto.
Qed.

Lemma contract_extension_facts e :
  In e ["tact"; "fc"; "func"] ->
  e <> "" /\ noDot e /\ includes CONTRACT_EXTENSIONS ("." ++ e) = true /\
  forall a, endsWith (a ++ "." ++ e) ".d.ts" = false.
Proof.
  intros [<-|[<-|[<-|[]]]]; (split; [discriminate|]);
    (split; [reflexivity|]); (split; [reflexivity|]); intros a.
  - change (a ++ "." ++ "tact") with (a ++ ".tac" ++ String "t" "").
    rewrite <- PathFacts.append_assoc.
    now apply (ScanFacts.last_char_differs (a ++ ".tac") ".d.t" "t" "s").
  - change (a ++ "." ++ "fc") with (a ++ ".f" ++ String "c" "").
    rewrite <- PathFacts.append_assoc.
    now apply (ScanFacts.last_char_differs (a ++ ".f") ".d.t" "c" "s").
  - change (a ++ "." ++ "func") with (a ++ ".fun" ++ String "c" "").
    rewrite <- PathFacts.append_assoc.
    now apply (ScanFacts.last_char_differs (a ++ ".fun") ".d.t" "c" "s").
Qed.

Lemma startsWith_dots_app t rest :
  t <> "" -> t <> "." -> startsWith t ".." = false ->
  startsWith (t ++ rest) ".." = false.
Proof.
  intros H0 H1 H. unfold startsWith in *.
  destruct t as [|a [|b t]]; [congruence| |].
  - cbn [append String.prefix]. destruct (ascii_dec "." a) as [<-|]; [congruence|].
    reflexivity.
  - cbn [append String.prefix] in *.
    destruct (ascii_dec "." a); [|reflexivity].
    destruct (ascii_dec "." b); [now destruct t|reflexivity].
Qed.

Section ContractFile.

Variables (fs : FileSystem.FS) (projectRoot : string) (targetDirs : list string).
Variables (targetDir : string) (dirs : list string) (stem e : string).

Let name : string := stem ++ "." ++ e.
Let below : list string := (targetDir :: dirs ++ [name])%list.
Let path : list string := (NodePath.segments projectRoot ++ below)%list.
Let abs : string := FileSystem.absolutePath path.
Let relativePath : string := join "/" below.

Hypothesis wellFormed_fs : FileSystem.wellFormed (FileSystem.tree fs) = true.
Hypothesis absolute_root : NodePath.isAbsolute projectRoot = true.
Hypothesis target : In targetDir targetDirs.
Hypothesis target_inside : startsWith targetDir ".." = false.
Hypothesis file_listed : In path (FileSystem.allFiles (FileSystem.tree fs)).
Hypothesis extension : In e ["tact"; "fc"; "func"].
Hypothesis not_hidden : visible (dirs ++ [name]) = true.
Hypothesis not_vendored : ~ In "node_modules" path.

Lemma contract_path_clean : FileSystem.cleanPath path.
Proof.
  now apply (proj2 (GlobFacts.allFiles_wellFormed _ wellFormed_fs)).
Qed.

Lemma contract_stem_nonempty : stem <> "".
Proof.
  intros E. unfold visible in not_hidden. rewrite List.forallb_app in not_hidden.
  apply andb_true_iff in not_hidden. destruct not_hidden as [_ H].
  unfold name in H. rewrite E in H.
  cbn [append List.forallb Glob.dotName startsWith String.prefix] in H.
  destruct (ascii_dec "." "."); [now destruct e|congruence].
Qed.

Lemma contract_scanned :
  In abs (Glob.glob fs (patterns projectRoot targetDirs) [Glob.ignoreNodeModules]).
Proof.
  pose proof contract_path_clean as Hc.
  unfold visible in not_hidden. rewrite List.forallb_app in not_hidden.
  apply andb_true_iff in not_hidden. destruct not_hidden as [Hd Hn].
  cbn [List.forallb] in Hn. rewrite andb_true_r in Hn.
  apply negb_true_iff in Hn.
  assert (Hpath : path = ((NodePath.segments projectRoot ++ [targetDir]) ++
                          dirs ++ [name])%list).
  { unfold path, below. now rewrite <- app_assoc. }
  unfold abs. rewrite Hpath. apply (ScanFacts.glob_finds _ _ _ _ _ _ ("." ++ e)).
  - rewrite <- Hpath. exact file_listed.
  - unfold patterns. apply in_flat_map. exists targetDir. split; [exact target|].
    unfold allRelevantExtPattern. apply in_map_iff. exists ("." ++ e). split.
    + rewrite ScanFacts.literal_pjoin; [reflexivity|exact absolute_root|].
      unfold path, below in Hc. apply Forall_app in Hc. destruct Hc as [H1 H2].
      apply Forall_app. split; [exact H1|]. inversion H2; subst. now constructor.
    + apply in_app_iff. left.
      destruct extension as [<-|[<-|[<-|[]]]];
        [left|right; left|right; right; left]; reflexivity.
  - exact Hd.
  - exact Hn.
  - apply endsWith_app.
  - rewrite <- Hpath. cbn [Glob.matchesAny existsb]. rewrite orb_false_r.
    now apply ScanFacts.not_node_modules.
Qed.

Lemma contract_relative : NodePath.relative projectRoot abs = relativePath.
Proof. apply GlobFacts.relative_below. exact contract_path_clean. Qed.

Lemma contract_name_clean : noSlash name /\ name <> "".
Proof.
  pose proof contract_path_clean as Hc. unfold path, below in Hc.
  rewrite app_comm_cons, app_assoc in Hc.
  exact (ScanFacts.cleanPath_last _ _ Hc).
Qed.

Lemma contract_relative_split :
  relativePath = join "/" (targetDir :: dirs) ++ "/" ++ name.
Proof.
  unfold relativePath, below. rewrite app_comm_cons.
  now rewrite ScanFacts.join_snoc.
Qed.

Lemma contract_target_clean : FileSystem.cleanName targetDir = true.
Proof.
  pose proof contract_path_clean as Hc. unfold path, below in Hc.
  apply Forall_app in Hc. destruct Hc as [_ Hc]. now inversion Hc.
Qed.

Lemma contract_classified :
  exists record,
    classify projectRoot targetDirs abs = Some record /\
    filePath record = relativePath /\
    baseName record = stem /\
    normalizedBaseName record =
      NormalizeName.normalizeToSnakeCase
        (if endsWith stem ".spec" || endsWith stem ".test"
         then dropRight 5 stem else stem) /\
    isContract record = true.
Proof.
  pose proof contract_path_clean as Hc.
  destruct contract_name_clean as [Hns Hnn].
  destruct (PathFacts.cleanName_spec _ contract_target_clean) as (Ht0 & Ht1 & _ & Hts).
  destruct (contract_extension_facts e extension) as (He & Hdot & Hinc & Hdts).
  pose proof contract_stem_nonempty as Hstem.
  assert (Hbase : NodePath.basename abs = stem ++ "." ++ e).
  { unfold abs, path, below. rewrite app_comm_cons, app_assoc.
    apply ScanFacts.basename_absolutePath.
    now rewrite <- app_assoc, <- app_comm_cons. }
  assert (Habs : exists d, abs = d ++ "/" ++ stem ++ "." ++ e).
  { unfold abs, path, below. rewrite app_comm_cons, app_assoc.
    apply ScanFacts.absolutePath_snoc. }
  destruct Habs as (d & Habs).
  assert (Hext : NodePath.extname abs = "." ++ e)
    by now apply (extname_stem abs stem e).
  assert (Hstem' : NodePath.basenameExt abs (NodePath.extname abs) = stem).
  { apply (basenameExt_stem abs stem e); try assumption.
    rewrite Habs, !length_app. cbn [String.length]. lia. }
  assert (Hclass : exists record, classify projectRoot targetDirs abs = Some record).
  { unfold classify. rewrite contract_relative.
    assert (H1 : startsWith relativePath ".." = false).
    { rewrite contract_relative_split.
      change (join "/" (targetDir :: dirs))
        with (String.concat "/" (targetDir :: dirs)).
      destruct dirs as [|x l]; cbn [String.concat].
      - now apply startsWith_dots_app.
      - rewrite !PathFacts.append_assoc. now apply startsWith_dots_app. }
    rewrite H1.
    assert (H2 : endsWith abs ".d.ts" = false).
    { rewrite Habs. rewrite <- (PathFacts.append_assoc d "/" _).
      rewrite <- (PathFacts.append_assoc (d ++ "/") stem _). apply Hdts. }
    rewrite H2.
    assert (H3 : existsb
                   (fun targetDir0 =>
                      String.eqb (NodePath.dirname relativePath) targetDir0 ||
                      startsWith (NodePath.dirname relativePath)
                                 (targetDir0 ++ NodePath.sep))
                   targetDirs = true).
    { apply existsb_exists. exists targetDir. split; [exact target|].
      rewrite contract_relative_split, ScanFacts.dirname_child; try assumption.
      - destruct dirs as [|x l].
        + cbn. now rewrite String.eqb_refl.
        + change (join "/" (targetDir :: x :: l))
            with (targetDir ++ "/" ++ join "/" (x :: l)).
          rewrite <- PathFacts.append_assoc.
          unfold NodePath.sep. rewrite ScanFacts.startsWith_app. apply orb_true_r.
      - now apply ScanFacts.join_nonempty.
      - rewrite PathFacts.isAbsolute_join by assumption.
        now apply PathFacts.noSlash_not_absolute. }
    rewrite H3. cbn [negb]. now eexists. }
  destruct Hclass as (record & Hclass). exists record.
  split; [exact Hclass|].
  destruct (classify_fields _ _ _ _ Hclass) as (F1 & F2 & F3 & F4).
  split; [now rewrite F1, contract_relative|]. split; [congruence|]. split.
  - rewrite F3. now apply getNormalizedBaseName_stem.
  - now rewrite F4, Hext.
Qed.

Lemma filter_flat_map_contractErrors files : forall record,
  NoDup (map filePath files) -> In record files ->
  filter (fun e => String.eqb (file e) (filePath record))
         (flat_map contractErrors files) = contractErrors record.
Proof.
  assert (Hown : forall g, filter (fun e => String.eqb (file e) (filePath g))
                                  (contractErrors g) = contractErrors g).
  { intros g. unfold contractErrors. destruct (negb _); [|reflexivity].
    cbn [filter file]. now rewrite String.eqb_refl. }
  assert (Hother : forall g p, filePath g <> p ->
            filter (fun e => String.eqb (file e) p) (contractErrors g) = []).
  { intros g p Hne. unfold contractErrors. destruct (negb _); [|reflexivity].
    cbn [filter file]. apply String.eqb_neq in Hne. now rewrite Hne. }
  induction files as [|g t IH]; intros record Hnd Hin; [destruct Hin|].
  cbn [map] in Hnd. inversion Hnd as [|? ? Hg Hnd']; subst.
  cbn [flat_map]. rewrite filter_app. destruct Hin as [->|Hin].
  - rewrite Hown.
    replace (filter _ (flat_map contractErrors t)) with (@nil LinterError);
      [apply app_nil_r|].
    symmetry. clear IH Hnd Hnd'. induction t as [|h t IH]; [reflexivity|].
    cbn [flat_map]. rewrite filter_app, Hother.
    + apply IH. intros H. apply Hg. now right.
    + intros E. apply Hg. left. exact E.
  - rewrite Hother, (IH record Hnd' Hin); [reflexivity|].
    intros E. apply Hg. rewrite E. now apply in_map.
Qed.

(** What the check reports under the path of the file. *)
Lemma contract_report :
  exists record,
    filePath record = relativePath /\
    baseName record = stem /\
    normalizedBaseName record =
      NormalizeName.normalizeToSnakeCase
        (if endsWith stem ".spec" || endsWith stem ".test"
         then dropRight 5 stem else stem) /\
    NodePath.extname relativePath = "." ++ e /\
    exists errors,
      result fs (checkNamingConsistency projectRoot targetDirs) = inr errors /\
      filter (fun d => String.eqb (file d) relativePath) errors =
      contractErrors record.
Proof.
  destruct contract_classified as (record & Hclass & F1 & F2 & F3 & F4).
  exists record. split; [exact F1|]. split; [exact F2|]. split; [exact F3|].
  destruct contract_name_clean as [Hns Hnn].
  destruct (contract_extension_facts e extension) as (He & Hdot & _ & _).
  split.
  { apply (extname_stem relativePath stem e); try assumption;
      [|exact contract_stem_nonempty].
    rewrite contract_relative_split. now apply basename_child. }
  eexists. split; [apply result_checkNamingConsistency|].
  set (globbed := Glob.glob fs (patterns projectRoot targetDirs)
                            [Glob.ignoreNodeModules]).
  set (files := collect (classify projectRoot targetDirs) globbed).
  destruct (uniqueFiles_spec files) as [Hnd Hsub].
  assert (Hrecord : In record files).
  { apply collect_In. exists abs. split; [exact contract_scanned|exact Hclass]. }
  (* the record kept under the path of the file is the record of the file *)
  assert (Hkept : In record (uniqueFiles files)).
  { destruct (fold_mapSet_invariant files [] (NoDup_nil _)) as [_ Hin].
    assert (Hkey : In (filePath record)
              (map fst (fold_left (fun m f => mapSet (filePath f) f m) files [])))
      by (apply fold_mapSet_keys; right; now apply in_map).
    apply in_map_iff in Hkey. destruct Hkey as (entry & Hk & Hentry).
    assert (Hsnd : In (snd entry) (uniqueFiles files))
      by (unfold uniqueFiles; now apply in_map).
    destruct (Hin entry Hentry) as [[]|[Hfiles Hp]].
    apply collect_In in Hfiles. destruct Hfiles as (abs' & Habs' & Hclass').
    assert (E : abs' = abs).
    { apply ScanFacts.glob_In in Habs'.
      destruct Habs' as (p' & -> & Hp' & _).
      unfold abs. f_equal.
      apply ScanFacts.relative_injective.
      - exact contract_path_clean.
      - discriminate.
      - now apply (proj2 (GlobFacts.allFiles_wellFormed _ wellFormed_fs)).
      - apply classify_fields in Hclass'. destruct Hclass' as (G1 & _).
        rewrite <- G1, <- Hp, Hk. exact F1. }
    rewrite E in Hclass'. rewrite Hclass in Hclass'. injection Hclass' as E2.
    rewrite E2. exact Hsnd. }
  assert (Hnd' : NoDup (map filePath (filter isContract (uniqueFiles files)))).
  { clear - Hnd. induction (uniqueFiles files) as [|g t IH]; [constructor|].
    cbn [map] in Hnd. inversion Hnd as [|? ? Hg Ht]; subst.
    cbn [filter]. destruct (isContract g); [|now apply IH].
    cbn [map]. constructor; [|now apply IH].
    intros H. apply Hg. apply in_map_iff in H. destruct H as (h & E & Hh).
    apply filter_In in Hh. rewrite <- E. apply in_map. tauto. }
  unfold performConsistencyCheck. rewrite <- F1.
  apply filter_flat_map_contractErrors; [exact Hnd'|].
  apply filter_In. split; [exact Hkept|exact F4].
Qed.

End ContractFile.

(** C8. Let the file system be well formed and the project path absolute
    and free of glob syntax.  Take a file [stem ++ ext] of the tree, with
    [ext] one of [.tact], [.fc] and [.func] and an ASCII stem, that lies in
    a target directory or below it, with no hidden name on the way from the
    target directory to the file and outside every [node_modules].  The
    contract naming check reports under the relative path of the file
    exactly one diagnostic, of type [NamingConsistency], when the stem
    differs from the snake_case form of the stem without a trailing [.spec]
    or [.test]; the message gives that form plus the extension as the
    expected name and the name of the file as the actual one.  It reports
    nothing under that path when the stem equals that form. *)
Theorem checkNamingConsistency_per_contract
  (fs : FileSystem.FS) (projectRoot : string) (targetDirs : list string)
  (targetDir : string) (dirs : list string) (stem ext : string) :
  let name := stem ++ ext in
  let path := (NodePath.segments projectRoot ++ targetDir :: dirs ++ [name])%list in
  let relativePath := join "/" (targetDir :: dirs ++ [name]) in
  let expected :=
    NormalizeName.normalizeToSnakeCase
      (if endsWith stem ".spec" || endsWith stem ".test"
       then dropRight 5 stem else stem) in
  FileSystem.wellFormed (FileSystem.tree fs) = true ->
  NodePath.isAbsolute projectRoot = true ->
  plainText projectRoot = true ->
  In targetDir targetDirs ->
  plainText targetDir = true ->
  startsWith targetDir ".." = false ->
  In path (FileSystem.allFiles (FileSystem.tree fs)) ->
  In ext CONTRACT_EXTENSIONS ->
  visible (dirs ++ [name]) = true ->
  ~ In "node_modules" path ->
  asciiText stem = true ->
  exists errors,
    result fs (checkNamingConsistency projectRoot targetDirs) = inr errors /\
    (stem <> expected ->
       filter (fun e => String.eqb (file e) relativePath) errors =
       [mkError NamingConsistency relativePath
          ("Contract file should use snake_case. Expected: '" ++
           (expected ++ ext) ++ "', Actual: '" ++ (stem ++ ext) ++ "'.")]) /\
    (stem = expected ->
       filter (fun e => String.eqb (file e) relativePath) errors = []).
Proof.
  intros name path relativePath expected
         Hwf Habs _ Htarget _ Hinside Hfile Hext Hvisible Hvendored _.
  destruct (contract_extension ext Hext) as (e & -> & He).
  destruct (contract_report fs projectRoot targetDirs targetDir dirs stem e
              Hwf Habs Htarget Hinside Hfile He Hvisible Hvendored)
    as (record & F1 & F2 & F3 & F4 & errors & Hres & Hfilter).
  exists errors. split; [exact Hres|].
  fold name relativePath in F1, F4, Hfilter. fold expected in F3.
  rewrite Hfilter. unfold contractErrors. rewrite F1, F2, F3, F4. split.
  - intros Hne. apply String.eqb_neq in Hne. rewrite Hne. reflexivity.
  - intros Heq. apply String.eqb_eq in Heq. rewrite Heq. reflexivity.
Qed.

Lemma checkNamingConsistency_per_contract_witness :
  FileSystem.wellFormed (FileSystem.tree (Samples.oneContract "MyContract.fc")) = true /\
  FileSystem.wellFormed (FileSystem.tree (Samples.oneContract "my_contract.fc")) = true /\
  In ["proj"; "contracts"; "MyContract.fc"]
     (FileSystem.allFiles (FileSystem.tree (Samples.oneContract "MyContract.fc"))) /\
  In ["proj"; "contracts"; "my_contract.fc"]
     (FileSystem.allFiles (FileSystem.tree (Samples.oneContract "my_contract.fc"))) /\
  (exists errors,
     result (Samples.oneContract "MyContract.fc")
            (checkNamingConsistency "/proj" DEFAULT_DIRS) = inr errors /\
     filter (fun e => String.eqb (file e) "contracts/MyContract.fc") errors =
     [mkError NamingConsistency "contracts/MyContract.fc"
        "Contract file should use snake_case. Expected: 'my_contract.fc', Actual: 'MyContract.fc'."]) /\
  (exists errors,
     result (Samples.oneContract "my_contract.fc")
            (checkNamingConsistency "/proj" DEFAULT_DIRS) = inr errors /\
     filter (fun e => String.eqb (file e) "contracts/my_contract.fc") errors = []).
Proof.
  assert (Hin : forall name,
            In ["proj"; "contracts"; name]
               (FileSystem.allFiles (FileSystem.tree (Samples.oneContract name))))
    by (intros name; now left).
  assert (Hout : forall name, name <> "node_modules" ->
            ~ In "node_modules" ["proj"; "contracts"; name]).
  { intros name Hname [H|[H|[H|[]]]];
      [discriminate H|discriminate H|exact (Hname H)]. }
  split; [reflexivity|]. split; [reflexivity|].
  split; [apply Hin|]. split; [apply Hin|]. split.
  - destruct (checkNamingConsistency_per_contract
                (Samples.oneContract "MyContract.fc") "/proj" DEFAULT_DIRS
                "contracts" [] "MyContract" ".fc"
                eq_refl eq_refl eq_refl (or_introl eq_refl) eq_refl eq_refl
                (Hin "MyContract.fc") (or_intror (or_introl eq_refl)) eq_refl
                (Hout "MyContract.fc" ltac:(discriminate)) eq_refl)
      as (errors & Hres & Hmany & _).
    exists errors. split; [exact Hres|]. apply Hmany. discriminate.
  - destruct (checkNamingConsistency_per_contract
                (Samples.oneContract "my_contract.fc") "/proj" DEFAULT_DIRS
                "contracts" [] "my_contract" ".fc"
                eq_refl eq_refl eq_refl (or_introl eq_refl) eq_refl eq_refl
                (Hin "my_contract.fc") (or_intror (or_introl eq_refl)) eq_refl
                (Hout "my_contract.fc" ltac:(discriminate)) eq_refl)
      as (errors & Hres & _ & Hnone).
    exists errors. split; [exact Hres|]. apply Hnone. reflexivity.
Defined.

(** The stem [jetton_wallet.spec] is its own snake_case form, and the
    check still reports [contracts/jetton_wallet.spec.fc]: the name it
    expects has lost the [.spec]. *)
Lemma checkNamingConsistency_test_suffix_counterexample :
  NodePath.parseName "jetton_wallet.spec.fc" = "jetton_wallet.spec" /\
  NormalizeName.normalizeToSnakeCase "jetton_wallet.spec" = "jetton_wallet.spec" /\
  result (Samples.oneContract "jetton_wallet.spec.fc")
         (checkNamingConsistency "/proj" DEFAULT_DIRS) =
  inr [mkError NamingConsistency "contracts/jetton_wallet.spec.fc"
         "Contract file should use snake_case. Expected: 'jetton_wallet.fc', Actual: 'jetton_wallet.spec.fc'."].
Proof. repeat split. Qed.

(** X8. Under the conditions of the naming check on a contract file of
    the tree (well-formed file system, absolute project path free of glob
    syntax, a file with a contract extension and an ASCII stem in a target
    directory or below it, not hidden and outside [node_modules]), the
    check reports nothing under the path of the file exactly when the stem
    holds no uppercase letter of [A-Z] and does not end in [.spec] or
    [.test]; every other stem is reported. *)
Theorem checkNamingConsistency_clean_iff
  (fs : FileSystem.FS) (projectRoot : string) (targetDirs : list string)
  (targetDir : string) (dirs : list string) (stem ext : string) :
  let name := stem ++ ext in
  let path := (NodePath.segments projectRoot ++ targetDir :: dirs ++ [name])%list in
  let relativePath := join "/" (targetDir :: dirs ++ [name]) in
  FileSystem.wellFormed (FileSystem.tree fs) = true ->
  NodePath.isAbsolute projectRoot = true ->
  plainText projectRoot = true ->
  In targetDir targetDirs ->
  plainText targetDir = true ->
  startsWith targetDir ".." = false ->
  In path (FileSystem.allFiles (FileSystem.tree fs)) ->
  In ext CONTRACT_EXTENSIONS ->
  visible (dirs ++ [name]) = true ->
  ~ In "node_modules" path ->
  asciiText stem = true ->
  exists errors,
    result fs (checkNamingConsistency projectRoot targetDirs) = inr errors /\
    (filter (fun e => String.eqb (file e) relativePath) errors = [] <->
     noUpper stem = true /\
     endsWith stem ".spec" = false /\ endsWith stem ".test" = false).
Proof.
  intros name path relativePath
         Hwf Habs _ Htarget _ Hinside Hfile Hext Hvisible Hvendored _.
  destruct (contract_extension ext Hext) as (e & -> & He).
  destruct (contract_report fs projectRoot targetDirs targetDir dirs stem e
              Hwf Habs Htarget Hinside Hfile He Hvisible Hvendored)
    as (record & F1 & F2 & F3 & F4 & errors & Hres & Hfilter).
  exists errors. split; [exact Hres|].
  fold name relativePath in Hfilter. rewrite Hfilter, contractErrors_nil, F2, F3.
  apply expected_name_iff.
Qed.

Lemma checkNamingConsistency_clean_iff_witness :
  FileSystem.wellFormed
    (FileSystem.tree (Samples.oneContract "jetton_wallet.spec.fc")) = true /\
  In ["proj"; "contracts"; "jetton_wallet.spec.fc"]
     (FileSystem.allFiles
        (FileSystem.tree (Samples.oneContract "jetton_wallet.spec.fc"))) /\
  exists errors,
    result (Samples.oneContract "jetton_wallet.spec.fc")
           (checkNamingConsistency "/proj" DEFAULT_DIRS) = inr errors /\
    filter (fun e => String.eqb (file e) "contracts/jetton_wallet.spec.fc")
           errors <> [].
Proof.
  assert (Hin : In ["proj"; "contracts"; "jetton_wallet.spec.fc"]
                   (FileSystem.allFiles
                      (FileSystem.tree (Samples.oneContract "jetton_wallet.spec.fc"))))
    by now left.
  assert (Hout : ~ In "node_modules" ["proj"; "contracts"; "jetton_wallet.spec.fc"])
    by (intros [H|[H|[H|[]]]]; discriminate H).
  split; [reflexivity|]. split; [exact Hin|].
  destruct (checkNamingConsistency_clean_iff
              (Samples.oneContract "jetton_wallet.spec.fc") "/proj" DEFAULT_DIRS
              "contracts" [] "jetton_wallet.spec" ".fc"
              eq_refl eq_refl eq_refl (or_introl eq_refl) eq_refl eq_refl
              Hin (or_intror (or_introl eq_refl)) eq_refl Hout eq_refl)
    as (errors & Hres & Hiff).
  exists errors. split; [exact Hres|].
  intros H. apply Hiff in H. destruct H as (_ & H & _). discriminate H.
Defined.

End NamingConsistencyProperties.

(* ------------------------------------------------------------------ *)
(** ** src/rules/wrapperNamingRule.ts: further properties *)

Module WrapperNamingProperties.
Import JsString JsStringFacts NodePath Types Io IoFacts.
Import WrapperNamingRule WrapperNamingFacts.
Import PathFacts StringFacts BaseNameFacts FileNames.

Lemma stripPrefix_app p s : stripPrefix p (p ++ s) = Some s.
Proof.
  induction p as [|c p IH]; cbn; [now destruct s|].
  now rewrite Ascii.eqb_refl.
Qed.

Lemma stripPrefix_inv p : forall s r, stripPrefix p s = Some r -> s = p ++ r.
Proof.
  induction p as [|c p IH]; intros s r; cbn; [now intros [= ->]|].
  destruct s as [|d s]; [discriminate|].
  destruct (Ascii.eqb_spec c d) as [->|]; [|discriminate].
  intros H. cbn. f_equal. now apply IH.
Qed.

Lemma dropSpaces_app ws s :
  forallb isSpace ws = true -> stopsAt isSpace s = true ->
  dropSpaces (ws ++ s) = s.
Proof.
  intros Hws Hs. induction ws as [|c ws IH]; cbn [append dropSpaces].
  - destruct s as [|d s]; [reflexivity|]. cbn [stopsAt] in Hs.
    apply negb_true_iff in Hs. cbn [dropSpaces]. now rewrite Hs.
  - cbn [forallb] in Hws. apply andb_true_iff in Hws. destruct Hws as [Hc Hws].
    rewrite Hc. now apply IH.
Qed.

Lemma spaces1_app ws s :
  forallb isSpace ws = true -> ws <> "" -> stopsAt isSpace s = true ->
  spaces1 (ws ++ s) = Some s.
Proof.
  destruct ws as [|c ws]; [easy|]. cbn [append spaces1 forallb]. intros Hws _ Hs.
  apply andb_true_iff in Hws. destruct Hws as [Hc Hws].
  rewrite Hc. f_equal. now apply dropSpaces_app.
Qed.

Lemma dropSpaces_inv s :
  exists ws, s = ws ++ dropSpaces s /\ forallb isSpace ws = true /\
             stopsAt isSpace (dropSpaces s) = true.
Proof.
  induction s as [|c s (ws & Hs & Hws & Hstop)]; [now exists ""|].
  cbn [dropSpaces]. destruct (isSpace c) eqn:Hc.
  - exists (String c ws). cbn [append forallb]. rewrite Hc, Hws.
    split; [now f_equal|easy].
  - exists "". cbn [append forallb stopsAt]. now rewrite Hc.
Qed.

Lemma spaces1_inv s r :
  spaces1 s = Some r ->
  exists ws, s = ws ++ r /\ forallb isSpace ws = true /\ ws <> "" /\
             stopsAt isSpace r = true.
Proof.
  destruct s as [|c s]; [discriminate|]. cbn [spaces1].
  destruct (isSpace c) eqn:Hc; [|discriminate]. intros [= <-].
  destruct (dropSpaces_inv s) as (ws & Hs & Hws & Hstop).
  exists (String c ws). cbn [append forallb]. rewrite Hc, Hws.
  split; [now f_equal|easy].
Qed.

Lemma takeWord_app name rest :
  forallb isWord name = true -> stopsAt isWord rest = true ->
  takeWord (name ++ rest) = name.
Proof.
  intros Hn Hr. induction name as [|c name IH]; cbn [append takeWord].
  - destruct rest as [|d rest]; [reflexivity|]. cbn [stopsAt] in Hr.
    apply negb_true_iff in Hr. cbn [takeWord]. now rewrite Hr.
  - cbn [forallb] in Hn. apply andb_true_iff in Hn. destruct Hn as [Hc Hn].
    rewrite Hc. f_equal. now apply IH.
Qed.

Lemma takeWord_inv s :
  forallb isWord (takeWord s) = true /\
  exists post, s = takeWord s ++ post /\ stopsAt isWord post = true.
Proof.
  induction s as [|c s (Hw & post & Hs & Hstop)]; [split; [|exists ""]; easy|].
  cbn [takeWord]. destruct (isWord c) eqn:Hc.
  - cbn [forallb append]. rewrite Hc, Hw. split; [reflexivity|].
    exists post. split; [now f_equal|exact Hstop].
  - split; [reflexivity|]. exists (String c s).
    cbn [append stopsAt]. now rewrite Hc.
Qed.

Lemma word_not_space c : isWord c = true -> isSpace c = false.
Proof.
  destruct c as [[] [] [] [] [] [] [] []]; vm_compute; intros H;
    first [reflexivity|discriminate H].
Qed.

Lemma word_stopsAt_space name rest :
  forallb isWord name = true -> name <> "" ->
  stopsAt isSpace (name ++ rest) = true.
Proof.
  destruct name as [|c name]; [easy|]. cbn [forallb append stopsAt]. intros H _.
  apply andb_true_iff in H. destruct H as [Hc _].
  now rewrite (word_not_space _ Hc).
Qed.

Lemma classClause_app ws name rest :
  forallb isSpace ws = true -> ws <> "" ->
  forallb isWord name = true -> name <> "" ->
  stopsAt isWord rest = true ->
  classClause ("class" ++ ws ++ name ++ rest) = Some name.
Proof.
  intros Hws Hne Hn Hnn Hr. unfold classClause.
  rewrite stripPrefix_app. cbn [andThen].
  rewrite (spaces1_app ws) by auto using word_stopsAt_space. cbn [andThen].
  rewrite (takeWord_app _ _ Hn Hr). now destruct name.
Qed.

Lemma classClause_inv s name :
  classClause s = Some name ->
  name <> "" /\ forallb isWord name = true /\
  exists ws post,
    s = "class" ++ ws ++ name ++ post /\
    forallb isSpace ws = true /\ ws <> "" /\ stopsAt isWord post = true.
Proof.
  unfold classClause.
  destruct (stripPrefix "class" s) as [s1|] eqn:E1; [|discriminate].
  cbn [andThen]. destruct (spaces1 s1) as [s2|] eqn:E2; [|discriminate].
  cbn [andThen]. intros H.
  assert (Hname : name = takeWord s2 /\ name <> "").
  { destruct (takeWord s2); [discriminate|]. now injection H as <-. }
  destruct Hname as [-> Hne]. split; [exact Hne|].
  destruct (takeWord_inv s2) as (Hw & post & Hs2 & Hstop).
  split; [exact Hw|].
  apply stripPrefix_inv in E1.
  apply spaces1_inv in E2. destruct E2 as (ws & Hs1 & Hws & Hwne & _).
  exists ws, post. repeat split; try assumption.
  now rewrite E1, Hs1, Hs2 at 1.
Qed.

Lemma regex_at content name :
  exportedClassAt content = Some name ->
  EXPORTED_CLASS_REGEX content = Some name.
Proof. intros H. destruct content; cbn [EXPORTED_CLASS_REGEX]; now rewrite H. Qed.

(** X11. The class pattern of the wrapper rule recognises an exported
    class declaration at the start of a text, with or without [abstract]
    and whatever the blanks between the keywords: it returns the whole
    identifier that follows [class]. *)
Theorem EXPORTED_CLASS_REGEX_recognises (ws1 ws2 ws3 name rest : string) :
  forallb isSpace ws1 = true -> ws1 <> "" ->
  forallb isSpace ws2 = true -> ws2 <> "" ->
  forallb isSpace ws3 = true -> ws3 <> "" ->
  forallb isWord name = true -> name <> "" ->
  stopsAt isWord rest = true ->
  EXPORTED_CLASS_REGEX
    ("export" ++ ws1 ++ "class" ++ ws2 ++ name ++ rest) = Some name /\
  EXPORTED_CLASS_REGEX
    ("export" ++ ws1 ++ "abstract" ++ ws3 ++ "class" ++ ws2 ++ name ++ rest) =
  Some name.
Proof.
  intros H1 N1 H2 N2 H3 N3 Hn Nn Hr.
  pose proof (classClause_app ws2 name rest H2 N2 Hn Nn Hr) as Hclass.
  split; apply regex_at; unfold exportedClassAt;
    rewrite stripPrefix_app; cbn [andThen];
    rewrite (spaces1_app ws1) by (auto; reflexivity); cbn [andThen].
  - change (stripPrefix "abstract" ("class" ++ ws2 ++ name ++ rest)) with (@None string).
    cbn [andThen]. exact Hclass.
  - rewrite stripPrefix_app. cbn [andThen].
    rewrite (spaces1_app ws3) by (auto; reflexivity). cbn [andThen].
    now rewrite Hclass.
Qed.

Lemma EXPORTED_CLASS_REGEX_recognises_witness :
  EXPORTED_CLASS_REGEX
    ("export" ++ "  " ++ "abstract" ++ " " ++ "class" ++ " " ++ "Jetton_V2" ++
     "<T> extends Base {}") = Some "Jetton_V2".
Proof.
  exact (proj2 (EXPORTED_CLASS_REGEX_recognises
                  "  " " " " " "Jetton_V2" "<T> extends Base {}"
                  eq_refl ltac:(discriminate) eq_refl ltac:(discriminate)
                  eq_refl ltac:(discriminate) eq_refl ltac:(discriminate)
                  eq_refl)).
Defined.

Lemma exportedClassAt_inv s name :
  exportedClassAt s = Some name ->
  name <> "" /\ forallb isWord name = true /\
  exists pre ws post,
    s = pre ++ "class" ++ ws ++ name ++ post /\
    forallb isSpace ws = true /\ ws <> "" /\ stopsAt isWord post = true.
Proof.
  unfold exportedClassAt.
  destruct (stripPrefix "export" s) as [s1|] eqn:E1; [|discriminate].
  cbn [andThen]. destruct (spaces1 s1) as [s2|] eqn:E2; [|discriminate].
  cbn [andThen]. apply stripPrefix_inv in E1.
  apply spaces1_inv in E2. destruct E2 as (ws1 & Hs1 & _).
  destruct (stripPrefix "abstract" s2) as [s3|] eqn:E3; cbn [andThen].
  - apply stripPrefix_inv in E3.
    destruct (spaces1 s3) as [s4|] eqn:E4; cbn [andThen].
    + apply spaces1_inv in E4. destruct E4 as (ws3 & Hs3 & _).
      destruct (classClause s4) as [n|] eqn:E5.
      * intros [= <-]. apply classClause_inv in E5.
        destruct E5 as (Hne & Hw & ws & post & Hs4 & Hws & Hwne & Hstop).
        split; [exact Hne|]. split; [exact Hw|].
        exists ("export" ++ ws1 ++ "abstract" ++ ws3), ws, post.
        repeat split; try assumption.
        rewrite E1, Hs1, E3, Hs3, Hs4. now rewrite !append_assoc.
      * intros H. apply classClause_inv in H.
        destruct H as (Hne & Hw & ws & post & Hs2 & Hws & Hwne & Hstop).
        split; [exact Hne|]. split; [exact Hw|].
        exists ("export" ++ ws1), ws, post. repeat split; try assumption.
        rewrite E1, Hs1, Hs2. now rewrite !append_assoc.
    + intros H. apply classClause_inv in H.
      destruct H as (Hne & Hw & ws & post & Hs2 & Hws & Hwne & Hstop).
      split; [exact Hne|]. split; [exact Hw|].
      exists ("export" ++ ws1), ws, post. repeat split; try assumption.
      rewrite E1, Hs1, Hs2. now rewrite !append_assoc.
  - intros H. apply classClause_inv in H.
    destruct H as (Hne & Hw & ws & post & Hs2 & Hws & Hwne & Hstop).
    split; [exact Hne|]. split; [exact Hw|].
    exists ("export" ++ ws1), ws, post. repeat split; try assumption.
    rewrite E1, Hs1, Hs2. now rewrite !append_assoc.
Qed.

(** X12. A class name that the pattern of the wrapper rule extracts is a
    piece of the text: a non-empty run of the characters [A-Za-z0-9_] that
    stands in the text right behind the keyword [class] and blanks, and
    that is not followed by a further such character.  The test
    [!match[1]] behind the match therefore never fires. *)
Theorem EXPORTED_CLASS_REGEX_sound (content name : string) :
  EXPORTED_CLASS_REGEX content = Some name ->
  name <> "" /\ forallb isWord name = true /\
  exists pre ws post,
    content = pre ++ "class" ++ ws ++ name ++ post /\
    forallb isSpace ws = true /\ ws <> "" /\ stopsAt isWord post = true.
Proof.
  induction content as [|c content IH]; cbn [EXPORTED_CLASS_REGEX].
  - destruct (exportedClassAt "") eqn:E; [|discriminate].
    intros [= <-]. now apply exportedClassAt_inv.
  - destruct (exportedClassAt (String c content)) eqn:E.
    + intros [= <-]. now apply exportedClassAt_inv.
    + intros H. apply IH in H.
      destruct H as (Hne & Hw & pre & ws & post & Hs & Hrest).
      split; [exact Hne|]. split; [exact Hw|].
      exists (String c pre), ws, post. split; [cbn; now f_equal|exact Hrest].
Qed.

Lemma EXPORTED_CLASS_REGEX_sound_witness :
  exists pre ws post,
    "// wrapper" ++ String "010" "export class  Vault{}" =
    pre ++ "class" ++ ws ++ "Vault" ++ post /\
    forallb isSpace ws = true /\ ws <> "" /\ stopsAt isWord post = true.
Proof.
  exact (proj2 (proj2 (EXPORTED_CLASS_REGEX_sound
                         ("// wrapper" ++ String "010" "export class  Vault{}")
                         "Vault" eq_refl))).
Defined.

(** X13. When a wrapper file with a PascalCase stem cannot be read, the
    rule does not throw: it reads the file once and returns a single
    diagnostic of type [StructureValidation] that carries the message of
    the failure, and no naming diagnostic. *)
Theorem checkWrapperFile_unreadable
  (fs : FileSystem.FS) (projectRoot fullPath baseName message : string) :
  splitSuffix (NodePath.basename fullPath) = Some (baseName, false) ->
  PASCAL_CASE_REGEX baseName = true ->
  FileSystem.readFileSync fs fullPath = inl message ->
  run fs (checkWrapperFile projectRoot fullPath) =
  (inr [mkError StructureValidation
                (NodePath.relative projectRoot fullPath)
                (readFailureMessage (NodePath.basename fullPath) message)],
   [EvReadFile fullPath]).
Proof.
  intros Hsplit Hpascal Hread. unfold checkWrapperFile.
  rewrite Hsplit, Hpascal. cbn. now rewrite Hread.
Qed.

Lemma checkWrapperFile_unreadable_witness :
  run MoreSamples.lockedWrapper
      (checkWrapperFile "/proj" "/proj/wrappers/Vault.ts") =
  (inr [mkError StructureValidation "wrappers/Vault.ts"
          "Failed to read wrapper file 'Vault.ts': EACCES: permission denied, open '/proj/wrappers/Vault.ts'"],
   [EvReadFile "/proj/wrappers/Vault.ts"]).
Proof.
  exact (checkWrapperFile_unreadable MoreSamples.lockedWrapper
           "/proj" "/proj/wrappers/Vault.ts" "Vault"
           "EACCES: permission denied, open '/proj/wrappers/Vault.ts'"
           eq_refl eq_refl eq_refl).
Defined.

Lemma checkWrapperFile_at_most_one fs projectRoot fullPath errors :
  result fs (checkWrapperFile projectRoot fullPath) = inr errors ->
  List.length errors <= 1 /\
  forall e, In e errors -> file e = NodePath.relative projectRoot fullPath.
Proof.
  unfold checkWrapperFile.
  destruct (splitSuffix (NodePath.basename fullPath)) as [[baseName isCompileFile]|].
  2:{ intros [= <-]. split; [cbn; lia|intros e []]. }
  destruct (negb (PASCAL_CASE_REGEX baseName)).
  { intros [= <-]. split; [cbn; lia|]. now intros e [<-|[]]. }
  destruct (negb isCompileFile).
  2:{ intros [= <-]. split; [cbn; lia|intros e []]. }
  rewrite result_tryCatch, result_bind, result_readFile.
  destruct (FileSystem.readFileSync fs fullPath) as [m|content].
  { rewrite result_Ret. intros [= <-]. split; [cbn; lia|].
    now intros e [<-|[]]. }
  rewrite result_Ret. intros [= <-].
  split; [apply compareExportedClass_length|].
  unfold compareExportedClass.
  destruct (EXPORTED_CLASS_REGEX content) as [name|]; [|intros e []].
  destruct (negb (String.eqb baseName name)); [|intros e []].
  now intros e [<-|[]].
Qed.

(** X14. The wrapper rule never throws and returns at most one diagnostic
    for each file that [glob] finds below [wrappers]: the report is no
    longer than the list of scanned files, and every diagnostic is for the
    relative path of one of them. *)
Theorem checkWrapperNaming_at_most_one_per_file
  (fs : FileSystem.FS) (projectRoot : string) :
  let files := Glob.glob fs [absolutePattern projectRoot]
                         [Glob.ignoreNodeModules; Glob.ignoreDeclarations] in
  exists errors,
    result fs (checkWrapperNaming projectRoot) = inr errors /\
    List.length errors <= List.length files /\
    forall e, In e errors ->
      exists fullPath, In fullPath files /\
        file e = NodePath.relative projectRoot fullPath.
Proof.
  intros files.
  destruct (checkWrapperNaming_result fs projectRoot) as (perFile & Hall & Hres).
  fold files in Hall.
  exists (List.concat perFile). split; [exact Hres|].
  clear Hres. induction Hall as [|f errors files' perFile' Hf Hall IH].
  - split; [cbn; lia|intros e []].
  - destruct IH as [Hlen Hin].
    apply checkWrapperFile_at_most_one in Hf. destruct Hf as [Hone Hfile].
    cbn [List.concat]. split.
    + rewrite List.length_app. cbn [List.length]. lia.
    + intros e He. apply in_app_iff in He. destruct He as [He|He].
      * exists f. split; [now left|auto].
      * destruct (Hin e He) as (g & Hg & Hfe). exists g. split; [now right|easy].
Qed.

(** *** A wrapper file of the tree, from the scan to its diagnostics *)

(** What the loop body does for the file [fileName] with its stem. *)
Lemma run_checkWrapperFile_cases fs projectRoot fullPath baseName isCompileFile :
  splitSuffix (NodePath.basename fullPath) = Some (baseName, isCompileFile) ->
  let fileName := NodePath.basename fullPath in
  let relativePath := NodePath.relative projectRoot fullPath in
  run fs (checkWrapperFile projectRoot fullPath) =
  if negb (PASCAL_CASE_REGEX baseName) then
    (inr [mkError NamingConsistency relativePath (formatMessage baseName fileName)], [])
  else if negb isCompileFile then
    (inr match FileSystem.readFileSync fs fullPath with
         | inr content => compareExportedClass relativePath fileName baseName content
         | inl readError =>
             [mkError StructureValidation relativePath
                      (readFailureMessage fileName readError)]
         end,
     [EvReadFile fullPath])
  else (inr [], []).
Proof.
  intros Hsplit fileName relativePath. unfold checkWrapperFile.
  rewrite Hsplit. fold relativePath fileName.
  destruct (negb (PASCAL_CASE_REGEX baseName)); [reflexivity|].
  destruct (negb isCompileFile); [|reflexivity].
  cbn. now destruct (FileSystem.readFileSync fs fullPath).
Qed.

Lemma run_checkWrapperFile fs projectRoot fullPath :
  exists errors events,
    run fs (checkWrapperFile projectRoot fullPath) = (inr errors, events) /\
    (forall e, In e errors -> file e = NodePath.relative projectRoot fullPath) /\
    (forall ev, In ev events -> ev = EvReadFile fullPath).
Proof.
  destruct (splitSuffix (NodePath.basename fullPath)) as [[baseName isCompileFile]|] eqn:Hsplit.
  - rewrite (run_checkWrapperFile_cases fs projectRoot fullPath _ _ Hsplit).
    destruct (negb (PASCAL_CASE_REGEX baseName)).
    + eexists _, _. split; [reflexivity|]. split; [|intros ev []].
      intros e [<-|[]]. reflexivity.
    + destruct (negb isCompileFile).
      * eexists _, _. split; [reflexivity|]. split.
        -- intros e He. destruct (FileSystem.readFileSync fs fullPath).
           ++ destruct He as [<-|[]]. reflexivity.
           ++ unfold compareExportedClass in He.
              destruct (EXPORTED_CLASS_REGEX _); [|destruct He].
              destruct (negb _); [|destruct He].
              destruct He as [<-|[]]. reflexivity.
        -- intros ev [<-|[]]. reflexivity.
      * eexists _, _. split; [reflexivity|]. split; [intros e []|intros ev []].
  - unfold checkWrapperFile. rewrite Hsplit.
    eexists _, _. split; [reflexivity|]. split; [intros e []|intros ev []].
Qed.

Lemma run_wrapper_loop fs projectRoot files : forall errors0,
  exists perFile : list (list LinterError * list event),
    Forall2 (fun fullPath p =>
               run fs (checkWrapperFile projectRoot fullPath) = (inr (fst p), snd p))
            files perFile /\
    run fs (forEach files
              (fun errors fullPath =>
                 more <- checkWrapperFile projectRoot fullPath ;;
                 Ret (errors ++ more)%list)
              errors0) =
    (inr (errors0 ++ List.concat (map fst perFile))%list,
     List.concat (map snd perFile)).
Proof.
  induction files as [|f t IH]; intros errors0; cbn [forEach].
  - exists []. split; [constructor|]. cbn. now rewrite app_nil_r.
  - destruct (run_checkWrapperFile fs projectRoot f) as (errors & events & Hrun & _).
    rewrite !run_bind, Hrun. cbn [run].
    destruct (IH (errors0 ++ errors)%list) as (perFile & Hall & Hloop).
    rewrite Hloop. exists ((errors, events) :: perFile).
    split; [now constructor|]. cbn [map fst snd List.concat].
    now rewrite app_nil_r, app_assoc.
Qed.

(** The rule runs the loop body on the scanned files, one after the
    other, after the one request to [glob]. *)
Lemma run_checkWrapperNaming fs projectRoot :
  exists perFile : list (list LinterError * list event),
    Forall2 (fun fullPath p =>
               run fs (checkWrapperFile projectRoot fullPath) = (inr (fst p), snd p))
            (Glob.glob fs [absolutePattern projectRoot]
                       [Glob.ignoreNodeModules; Glob.ignoreDeclarations])
            perFile /\
    run fs (checkWrapperNaming projectRoot) =
    (inr (List.concat (map fst perFile)),
     EvGlob [absolutePattern projectRoot]
            [Glob.ignoreNodeModules; Glob.ignoreDeclarations]
       :: List.concat (map snd perFile)).
Proof.
  unfold checkWrapperNaming. rewrite run_bind.
  change (run fs (glob [absolutePattern projectRoot]
                       [Glob.ignoreNodeModules; Glob.ignoreDeclarations]))
    with (@inr string _ (Glob.glob fs [absolutePattern projectRoot]
                 [Glob.ignoreNodeModules; Glob.ignoreDeclarations]),
          [EvGlob [absolutePattern projectRoot]
                  [Glob.ignoreNodeModules; Glob.ignoreDeclarations]]).
  cbv beta iota.
  destruct (run_wrapper_loop fs projectRoot
              (Glob.glob fs [absolutePattern projectRoot]
                         [Glob.ignoreNodeModules; Glob.ignoreDeclarations]) [])
    as (perFile & Hall & Hloop).
  rewrite Hloop. exists perFile. split; [exact Hall|reflexivity].
Qed.

Lemma filter_all {A : Type} (p : A -> bool) l :
  (forall x, In x l -> p x = true) -> filter p l = l.
Proof.
  induction l as [|x l IH]; intros H; [reflexivity|]. cbn [filter].
  rewrite (H x) by now left. f_equal. apply IH. intros y Hy. apply H. now right.
Qed.

Lemma filter_nothing {A : Type} (p : A -> bool) l :
  (forall x, In x l -> p x = false) -> filter p l = [].
Proof.
  induction l as [|x l IH]; intros H; [reflexivity|]. cbn [filter].
  rewrite (H x) by now left. apply IH. intros y Hy. apply H. now right.
Qed.

(** The part of a report that belongs to one of the scanned files. *)
Lemma report_of_file fs projectRoot fullPath : forall files perFile,
  Forall2 (fun g p =>
             run fs (checkWrapperFile projectRoot g) = (inr (fst p), snd p))
          files perFile ->
  NoDup files -> In fullPath files ->
  (forall g, In g files ->
     NodePath.relative projectRoot g = NodePath.relative projectRoot fullPath ->
     g = fullPath) ->
  exists errors events,
    run fs (checkWrapperFile projectRoot fullPath) = (inr errors, events) /\
    filter (fun e => String.eqb (file e) (NodePath.relative projectRoot fullPath))
           (List.concat (map fst perFile)) = errors /\
    (In (EvReadFile fullPath) (List.concat (map snd perFile)) <->
     In (EvReadFile fullPath) events).
Proof.
  assert (Hother : forall g p,
            run fs (checkWrapperFile projectRoot g) = (inr (fst p), snd p) ->
            g <> fullPath ->
            (NodePath.relative projectRoot g = NodePath.relative projectRoot fullPath ->
             g = fullPath) ->
            filter (fun e => String.eqb (file e) (NodePath.relative projectRoot fullPath))
                   (fst p) = [] /\
            ~ In (EvReadFile fullPath) (snd p)).
  { intros g p Hg Hne Hinj.
    destruct (run_checkWrapperFile fs projectRoot g)
      as (errors & events & Hrun & Hfile & Hev).
    rewrite Hrun in Hg. injection Hg as E1 E2. rewrite <- E1, <- E2. split.
    - apply filter_nothing. intros e He. apply String.eqb_neq.
      rewrite (Hfile e He). intros E. now apply Hne, Hinj.
    - intros H. apply Hev in H. injection H as H. now apply Hne. }
  assert (Hnone : forall files perFile,
            Forall2 (fun g p =>
                       run fs (checkWrapperFile projectRoot g) = (inr (fst p), snd p))
                    files perFile ->
            ~ In fullPath files ->
            (forall g, In g files ->
               NodePath.relative projectRoot g = NodePath.relative projectRoot fullPath ->
               g = fullPath) ->
            filter (fun e => String.eqb (file e) (NodePath.relative projectRoot fullPath))
                   (List.concat (map fst perFile)) = [] /\
            ~ In (EvReadFile fullPath) (List.concat (map snd perFile))).
  { intros files perFile Hall. induction Hall as [|g p files perFile Hg Hall IH];
      intros Hnot Hinj; [split; [reflexivity|intros []]|].
    destruct IH as [IH1 IH2];
      [intros H; apply Hnot; now right|intros h Hh; apply Hinj; now right|].
    destruct (Hother g p Hg) as [H1 H2];
      [intros E; apply Hnot; now left|apply Hinj; now left|].
    cbn [map List.concat]. rewrite filter_app, H1, IH1. split; [reflexivity|].
    rewrite in_app_iff. intros [H|H]; [now apply H2|now apply IH2]. }
  intros files perFile Hall. induction Hall as [|g p files perFile Hg Hall IH];
    intros Hnd Hin Hinj; [destruct Hin|].
  inversion Hnd as [|? ? Hgnot Hnd']; subst.
  destruct (String.eqb_spec g fullPath) as [->|Hne].
  - destruct (Hnone files perFile Hall Hgnot) as [N1 N2];
      [intros h Hh; apply Hinj; now right|].
    destruct (run_checkWrapperFile fs projectRoot fullPath)
      as (errors & events & Hrun & Hfile & Hev).
    exists errors, events. split; [exact Hrun|].
    rewrite Hrun in Hg. injection Hg as E1 E2.
    cbn [map List.concat]. rewrite filter_app, N1, app_nil_r, <- E1, <- E2. split.
    + apply filter_all. intros e He. apply String.eqb_eq. now apply Hfile.
    + rewrite in_app_iff. split; [intros [H|H]; [exact H|now apply N2 in H]|now left].
  - destruct Hin as [Hin|Hin]; [congruence|].
    destruct (IH Hnd' Hin) as (errors & events & Hrun & Hf & Hev);
      [intros h Hh; apply Hinj; now right|].
    exists errors, events. split; [exact Hrun|].
    destruct (Hother g p Hg Hne) as [H1 H2]; [apply Hinj; now left|].
    cbn [map List.concat]. rewrite filter_app, H1. split; [exact Hf|].
    rewrite in_app_iff, <- Hev. split; [intros [H|H]; [now apply H2 in H|exact H]|now right].
Qed.

Section WrapperFile.

Variables (fs : FileSystem.FS) (projectRoot : string).
Variables (dirs : list string) (fileName : string).

Let below : list string := ("wrappers" :: dirs ++ [fileName])%list.
Let path : list string := (NodePath.segments projectRoot ++ below)%list.
Let fullPath : string := FileSystem.absolutePath path.
Let relativePath : string := join "/" below.

Hypothesis wellFormed_fs : FileSystem.wellFormed (FileSystem.tree fs) = true.
Hypothesis absolute_root : NodePath.isAbsolute projectRoot = true.
Hypothesis file_listed : In path (FileSystem.allFiles (FileSystem.tree fs)).
Hypothesis typescript : endsWith fileName ".ts" = true.
Hypothesis no_declaration : endsWith fileName ".d.ts" = false.
Hypothesis not_hidden : visible (dirs ++ [fileName]) = true.
Hypothesis not_vendored : ~ In "node_modules" path.

Lemma wrapper_path_clean : FileSystem.cleanPath path.
Proof.
  now apply (proj2 (GlobFacts.allFiles_wellFormed _ wellFormed_fs)).
Qed.

Lemma wrapper_scanned :
  In fullPath (Glob.glob fs [absolutePattern projectRoot]
                         [Glob.ignoreNodeModules; Glob.ignoreDeclarations]).
Proof.
  pose proof wrapper_path_clean as Hc.
  unfold visible in not_hidden. rewrite List.forallb_app in not_hidden.
  apply andb_true_iff in not_hidden. destruct not_hidden as [Hd Hn].
  cbn [List.forallb] in Hn. rewrite andb_true_r in Hn.
  apply negb_true_iff in Hn.
  assert (Hpath : path = ((NodePath.segments projectRoot ++ ["wrappers"]) ++
                          dirs ++ [fileName])%list).
  { unfold path, below. now rewrite <- app_assoc. }
  unfold fullPath. rewrite Hpath.
  apply (ScanFacts.glob_finds _ _ _ _ _ _ ".ts").
  - rewrite <- Hpath. exact file_listed.
  - left. unfold absolutePattern.
    rewrite ScanFacts.literal_pjoin; [reflexivity|exact absolute_root|].
    unfold path, below in Hc. apply Forall_app in Hc. destruct Hc as [H1 H2].
    apply Forall_app. split; [exact H1|]. inversion H2; subst. now constructor.
  - exact Hd.
  - exact Hn.
  - exact typescript.
  - rewrite <- Hpath. cbn [Glob.matchesAny existsb].
    rewrite (ScanFacts.not_node_modules _ not_vendored).
    unfold path, below. rewrite app_comm_cons, app_assoc.
    now rewrite (ScanFacts.not_declaration _ _ no_declaration).
Qed.

Lemma wrapper_relative : NodePath.relative projectRoot fullPath = relativePath.
Proof. apply GlobFacts.relative_below. exact wrapper_path_clean. Qed.

Lemma wrapper_basename : NodePath.basename fullPath = fileName.
Proof.
  pose proof wrapper_path_clean as Hc.
  unfold fullPath. unfold path, below in Hc |- *.
  rewrite app_comm_cons, app_assoc in Hc |- *.
  exact (ScanFacts.basename_absolutePath _ _ Hc).
Qed.

(** The part of the report of the rule that is filed under the path of
    the file is what the loop body returns for the file, and the rule
    reads the file exactly when the loop body does. *)
Lemma wrapper_report :
  exists errors events reported reads,
    run fs (checkWrapperNaming projectRoot) = (inr errors, events) /\
    run fs (checkWrapperFile projectRoot fullPath) = (inr reported, reads) /\
    filter (fun e => String.eqb (file e) relativePath) errors = reported /\
    (In (EvReadFile fullPath) events <-> In (EvReadFile fullPath) reads).
Proof.
  destruct (run_checkWrapperNaming fs projectRoot) as (perFile & Hall & Hrun).
  destruct (report_of_file fs projectRoot fullPath _ _ Hall)
    as (reported & reads & Hfile & Hfilter & Hreads).
  - now apply ScanFacts.glob_NoDup.
  - exact wrapper_scanned.
  - intros g Hg E. apply ScanFacts.glob_In in Hg.
    destruct Hg as (p & -> & Hp & _). unfold fullPath. f_equal.
    apply ScanFacts.relative_injective.
    + exact wrapper_path_clean.
    + discriminate.
    + now apply (proj2 (GlobFacts.allFiles_wellFormed _ wellFormed_fs)).
    + rewrite E. exact wrapper_relative.
  - eexists _, _, reported, reads. split; [exact Hrun|]. split; [exact Hfile|].
    rewrite wrapper_relative in Hfilter. split; [exact Hfilter|].
    rewrite <- Hreads. cbn [In].
    split; [intros [H|H]; [discriminate H|exact H]|now right].
Qed.

End WrapperFile.

(** C6. Let the file system be well formed and the project path absolute
    and free of glob syntax.  Take a file [fileName] of the tree that lies
    in [wrappers] or below it, with no hidden name on the way, outside
    every [node_modules], whose name ends in [.ts] and not in [.d.ts].  Its
    stem is the name without [.compile.ts] when it ends so, and without
    [.ts] otherwise.  Under the path of the file the wrapper rule reports
    at most one [NamingConsistency] diagnostic.  When the stem fails the
    PascalCase test the rule reports the format diagnostic alone and does
    not read the file.  A [.compile.ts] file with a PascalCase stem is not
    read either and gets nothing.  Any other file with a PascalCase stem is
    read, and when its ASCII text declares no exported class nothing is
    reported; when it declares one, the mismatch diagnostic is reported
    exactly when the stem differs from the class name. *)
Theorem checkWrapperNaming_per_file
  (fs : FileSystem.FS) (projectRoot : string)
  (dirs : list string) (fileName : string) :
  let path := (NodePath.segments projectRoot ++
               "wrappers" :: dirs ++ [fileName])%list in
  let fullPath := FileSystem.absolutePath path in
  let relativePath := join "/" ("wrappers" :: dirs ++ [fileName]) in
  let isCompileFile := endsWith fileName ".compile.ts" in
  let suffix := if isCompileFile then ".compile.ts" else ".ts" in
  let stem := dropRight (String.length suffix) fileName in
  FileSystem.wellFormed (FileSystem.tree fs) = true ->
  NodePath.isAbsolute projectRoot = true ->
  plainText projectRoot = true ->
  In path (FileSystem.allFiles (FileSystem.tree fs)) ->
  endsWith fileName ".ts" = true ->
  endsWith fileName ".d.ts" = false ->
  visible (dirs ++ [fileName]) = true ->
  ~ In "node_modules" path ->
  fileName = stem ++ suffix /\
  exists errors events,
    run fs (checkWrapperNaming projectRoot) = (inr errors, events) /\
    let reported := filter (fun e => String.eqb (file e) relativePath) errors in
    List.length (filter isNaming reported) <= 1 /\
    (PASCAL_CASE_REGEX stem = false ->
       reported =
       [mkError NamingConsistency relativePath
          ("Wrapper file name part '" ++ stem ++ "' in '" ++ fileName ++
           "' should be in PascalCase.")] /\
       ~ In (EvReadFile fullPath) events) /\
    (PASCAL_CASE_REGEX stem = true -> isCompileFile = true ->
       reported = [] /\ ~ In (EvReadFile fullPath) events) /\
    (PASCAL_CASE_REGEX stem = true -> isCompileFile = false ->
       In (EvReadFile fullPath) events /\
       forall content,
         FileSystem.readFileSync fs fullPath = inr content ->
         asciiText content = true ->
         (EXPORTED_CLASS_REGEX content = None -> reported = []) /\
         (forall name,
            EXPORTED_CLASS_REGEX content = Some name ->
            reported =
            if String.eqb stem name then []
            else [mkError NamingConsistency relativePath
                    ("Wrapper filename '" ++ fileName ++ "' (base '" ++ stem ++
                     "') does not match the exported class name '" ++ name ++
                     "'.")])).
Proof.
  intros path fullPath relativePath isCompileFile suffix stem
         Hwf Habs _ Hfile Hts Hdts Hvisible Hvendored.
  assert (Hsplit : splitSuffix fileName = Some (stem, isCompileFile)).
  { rewrite (splitSuffix_ts _ Hts). unfold stem, suffix, isCompileFile.
    now destruct (endsWith fileName ".compile.ts"). }
  split.
  { unfold stem, suffix, isCompileFile.
    destruct (endsWith fileName ".compile.ts") eqn:E;
      [exact (endsWith_split _ _ E)|exact (endsWith_split _ _ Hts)]. }
  destruct (wrapper_report fs projectRoot dirs fileName
              Hwf Habs Hfile Hts Hdts Hvisible Hvendored)
    as (errors & events & reported & reads & Hrun & Hbody & Hfilter & Hreads).
  fold path fullPath in Hbody, Hreads. fold relativePath in Hfilter.
  pose proof (wrapper_basename fs projectRoot dirs fileName Hwf Hfile) as Hname.
  pose proof (wrapper_relative fs projectRoot dirs fileName Hwf Hfile) as Hrel.
  fold path fullPath in Hname, Hrel. fold relativePath in Hrel.
  rewrite <- Hname in Hsplit.
  rewrite (run_checkWrapperFile_cases fs projectRoot fullPath _ _ Hsplit) in Hbody.
  rewrite Hname, Hrel in Hbody.
  exists errors, events. split; [exact Hrun|]. cbv zeta. rewrite Hfilter, Hreads.
  clear Hfilter Hreads Hrun Hsplit.
  destruct (PASCAL_CASE_REGEX stem) eqn:Hpascal; cbn [negb] in Hbody.
  - destruct isCompileFile eqn:Hcompile; cbn [negb] in Hbody.
    + injection Hbody as <- <-.
      split; [cbn; lia|]. split; [discriminate|]. split; [|discriminate].
      intros _ _. split; [reflexivity|intros []].
    + injection Hbody as <- <-.
      split.
      { destruct (FileSystem.readFileSync fs fullPath); [cbn; lia|].
        eapply Nat.le_trans; [apply filter_length_le|].
        apply compareExportedClass_length. }
      split; [discriminate|]. split; [discriminate|].
      intros _ _. split; [now left|].
      intros content Hread _. rewrite Hread. unfold compareExportedClass. split.
      * now intros ->.
      * intros name ->. now destruct (String.eqb stem name).
  - injection Hbody as <- <-.
    split; [cbn; lia|]. split; [|split; discriminate].
    intros _. split; [reflexivity|intros []].
Qed.

Lemma checkWrapperNaming_per_file_witness :
  FileSystem.wellFormed (FileSystem.tree Samples.workspace) = true /\
  In ["work"; "jetton"; "wrappers"; "Renamed.ts"]
     (FileSystem.allFiles (FileSystem.tree Samples.workspace)) /\
  In ["work"; "jetton"; "wrappers"; "my_contract.ts"]
     (FileSystem.allFiles (FileSystem.tree Samples.workspace)) /\
  (exists errors events,
     run Samples.workspace (checkWrapperNaming "/work/jetton") = (inr errors, events) /\
     filter (fun e => String.eqb (file e) "wrappers/Renamed.ts") errors =
     [mkError NamingConsistency "wrappers/Renamed.ts"
        "Wrapper filename 'Renamed.ts' (base 'Renamed') does not match the exported class name 'Original'."] /\
     In (EvReadFile "/work/jetton/wrappers/Renamed.ts") events) /\
  (exists errors events,
     run Samples.workspace (checkWrapperNaming "/work/jetton") = (inr errors, events) /\
     filter (fun e => String.eqb (file e) "wrappers/my_contract.ts") errors =
     [mkError NamingConsistency "wrappers/my_contract.ts"
        "Wrapper file name part 'my_contract' in 'my_contract.ts' should be in PascalCase."] /\
     ~ In (EvReadFile "/work/jetton/wrappers/my_contract.ts") events).
Proof.
  assert (Hin : forall name,
            In name ["MyContract.ts"; "MyContract.compile.ts"; "Helper.ts";
                     "Renamed.ts"; "my_contract.ts"] ->
            In ["work"; "jetton"; "wrappers"; name]
               (FileSystem.allFiles (FileSystem.tree Samples.workspace))).
  { intros name H. cbn in H.
    destruct H as [<-|[<-|[<-|[<-|[<-|[]]]]]]; cbn; tauto. }
  assert (Hout : forall name, name <> "node_modules" ->
            ~ In "node_modules" ["work"; "jetton"; "wrappers"; name]).
  { intros name Hname [H|[H|[H|[H|[]]]]];
      [discriminate H|discriminate H|discriminate H|exact (Hname H)]. }
  assert (H1 : In ["work"; "jetton"; "wrappers"; "Renamed.ts"]
                  (FileSystem.allFiles (FileSystem.tree Samples.workspace)))
    by (apply Hin; cbn; tauto).
  assert (H2 : In ["work"; "jetton"; "wrappers"; "my_contract.ts"]
                  (FileSystem.allFiles (FileSystem.tree Samples.workspace)))
    by (apply Hin; cbn; tauto).
  split; [reflexivity|]. split; [exact H1|]. split; [exact H2|]. split.
  - destruct (checkWrapperNaming_per_file Samples.workspace "/work/jetton"
                [] "Renamed.ts" eq_refl eq_refl eq_refl H1 eq_refl eq_refl eq_refl
                (Hout "Renamed.ts" ltac:(discriminate)))
      as (_ & errors & events & Hrun & _ & _ & _ & Hclass).
    destruct (Hclass eq_refl eq_refl) as (Hread & Hcontent).
    destruct (Hcontent "export abstract class Original {}" eq_refl eq_refl)
      as (_ & Hsome).
    exists errors, events. split; [exact Hrun|]. split; [|exact Hread].
    exact (Hsome "Original" eq_refl).
  - destruct (checkWrapperNaming_per_file Samples.workspace "/work/jetton"
                [] "my_contract.ts" eq_refl eq_refl eq_refl H2 eq_refl eq_refl eq_refl
                (Hout "my_contract.ts" ltac:(discriminate)))
      as (_ & errors & events & Hrun & _ & Hformat & _).
    destruct (Hformat eq_refl) as (Hreported & Hunread).
    exists errors, events. split; [exact Hrun|]. split; assumption.
Defined.

(** The [.ts] files of a [wrappers] tree that the rule does not scan: a
    declaration file, a hidden file and a file below [node_modules].  None
    of the three stems is PascalCase, and the rule reports nothing and
    reads nothing. *)
Lemma checkWrapperNaming_unscanned_counterexample :
  In ["proj"; "wrappers"; "my_types.d.ts"]
     (FileSystem.allFiles (FileSystem.tree MoreSamples.unscannedWrappers)) /\
  In ["proj"; "wrappers"; ".draft.ts"]
     (FileSystem.allFiles (FileSystem.tree MoreSamples.unscannedWrappers)) /\
  In ["proj"; "wrappers"; "node_modules"; "lib"; "bad_name.ts"]
     (FileSystem.allFiles (FileSystem.tree MoreSamples.unscannedWrappers)) /\
  splitSuffix "my_types.d.ts" = Some ("my_types.d", false) /\
  splitSuffix ".draft.ts" = Some (".draft", false) /\
  splitSuffix "bad_name.ts" = Some ("bad_name", false) /\
  PASCAL_CASE_REGEX "my_types.d" = false /\
  PASCAL_CASE_REGEX ".draft" = false /\
  PASCAL_CASE_REGEX "bad_name" = false /\
  run MoreSamples.unscannedWrappers (checkWrapperNaming "/proj") =
  (inr [], [EvGlob [absolutePattern "/proj"]
                   [Glob.ignoreNodeModules; Glob.ignoreDeclarations]]).
Proof.
  repeat split; cbn; tauto.
Qed.

End WrapperNamingProperties.

(* ------------------------------------------------------------------ *)
(** ** src/rules/scriptNamingRule.ts, and the two naming conventions *)

Module ScriptNamingProperties.
Import JsString JsStringFacts NodePath Types Io IoFacts.
Import WrapperNamingRule ScriptNamingRule.
Import PathFacts StringFacts BaseNameFacts FileNames.

Lemma parseName_fileIn dir stem ext :
  noSlash stem -> stem <> "" -> noSlash ext -> noDot ext -> ext <> "" ->
  parseName (fileIn dir stem ext) = stem.
Proof.
  intros Hs Hn He Hd Hx. unfold parseName.
  rewrite (fileIn_basename _ _ _ Hs He), (fileIn_extname _ _ _ Hs Hn He Hd Hx).
  assert (Hb : noSlash (stem ++ "." ++ ext)).
  { apply noSlash_app; [exact Hs|]. now apply (noSlash_app "."). }
  pose proof (basename_noSlash _ Hb) as Hbase.
  pose proof (extname_stem _ stem ext Hbase Hn Hx Hd) as Hext.
  assert (Hlen : String.length (stem ++ "." ++ ext) <> S (String.length ext)).
  { rewrite length_app. destruct stem; [easy|cbn; lia]. }
  pose proof (basenameExt_stem _ stem ext Hbase Hn Hx Hd Hlen) as Hstem.
  now rewrite Hext in Hstem.
Qed.

Lemma alnum_plain c :
  isAlnum c = true ->
  negb (isSlash c) = true /\ negb (Ascii.eqb c ".") = true.
Proof.
  destruct c as [[] [] [] [] [] [] [] []]; vm_compute; intros H;
    first [now split|discriminate H].
Qed.

Lemma alnum_noSlash s : forallb isAlnum s = true -> noSlash s.
Proof.
  unfold noSlash. rewrite <- forallb_chars.
  induction s as [|c s IH]; cbn [forallb]; [reflexivity|].
  intros H. apply andb_true_iff in H. destruct H as [Hc Hs].
  now rewrite (proj1 (alnum_plain _ Hc)), IH.
Qed.

Lemma alnum_noDot s : forallb isAlnum s = true -> noDot s.
Proof.
  unfold noDot.
  induction s as [|c s IH]; cbn [forallb]; [reflexivity|].
  intros H. apply andb_true_iff in H. destruct H as [Hc Hs].
  now rewrite (proj2 (alnum_plain _ Hc)), IH.
Qed.

Lemma upper_alnum c : isUpper c = true -> isAlnum c = true.
Proof. unfold isAlnum. intros ->. now rewrite orb_true_r. Qed.

Lemma lower_alnum c : isLower c = true -> isAlnum c = true.
Proof. unfold isAlnum. now intros ->. Qed.

Lemma pascal_alnum s :
  PASCAL_CASE_REGEX s = true -> forallb isAlnum s = true /\ s <> "".
Proof.
  destruct s as [|c s]; [discriminate|]. cbn [PASCAL_CASE_REGEX forallb].
  intros H. apply andb_true_iff in H. destruct H as [Hc Hs].
  now rewrite (upper_alnum _ Hc), Hs.
Qed.

Lemma lowerCamel_alnum s :
  LOWER_CAMEL_CASE_REGEX s = true -> forallb isAlnum s = true /\ s <> "".
Proof.
  destruct s as [|c s]; [discriminate|]. cbn [LOWER_CAMEL_CASE_REGEX forallb].
  intros H. apply andb_true_iff in H. destruct H as [Hc Hs].
  now rewrite (lower_alnum _ Hc), Hs.
Qed.

Lemma conventions_exclusive s :
  PASCAL_CASE_REGEX s = true -> LOWER_CAMEL_CASE_REGEX s = false.
Proof.
  destruct s as [|c s]; [discriminate|].
  cbn [PASCAL_CASE_REGEX LOWER_CAMEL_CASE_REGEX].
  intros H. apply andb_true_iff in H. destruct H as [Hc _].
  now rewrite (upper_not_lower _ Hc).
Qed.

(** X15. The script rule judges the file [stem.ts] of a directory by its
    stem, that is by everything before the last dot: the file is reported,
    once and with its file name in the message, exactly when the stem is
    not a lowercase letter followed by letters and digits. *)
Theorem checkScriptFile_by_stem (projectRoot dir stem : string) :
  noSlash stem -> stem <> "" ->
  checkScriptFile projectRoot (fileIn dir stem "ts") =
  if LOWER_CAMEL_CASE_REGEX stem then []
  else [mkError NamingConsistency
                (relative projectRoot (fileIn dir stem "ts"))
                (scriptMessage (stem ++ ".ts"))].
Proof.
  intros Hs Hn. unfold checkScriptFile.
  rewrite parseName_fileIn by easy.
  rewrite (fileIn_basename dir stem "ts" Hs eq_refl).
  now destruct (LOWER_CAMEL_CASE_REGEX stem).
Qed.

Lemma checkScriptFile_by_stem_witness :
  checkScriptFile "/proj" "/proj/scripts/deploy.counter.ts" =
  [mkError NamingConsistency "scripts/deploy.counter.ts"
     "Script file name 'deploy.counter.ts' should be in lowerCamelCase."] /\
  checkScriptFile "/proj" "/proj/scripts/deployCounter.ts" = [].
Proof.
  split.
  - exact (checkScriptFile_by_stem "/proj" "/proj/scripts" "deploy.counter"
             eq_refl ltac:(discriminate)).
  - exact (checkScriptFile_by_stem "/proj" "/proj/scripts" "deployCounter"
             eq_refl ltac:(discriminate)).
Defined.

Lemma append_inv_r a b c : a ++ c = b ++ c -> a = b.
Proof.
  intros H. apply (f_equal chars) in H. rewrite !chars_app in H.
  apply app_inv_tail in H.
  rewrite <- (text_chars a), <- (text_chars b). now f_equal.
Qed.

Lemma alnum_not_compile stem :
  forallb isAlnum stem = true ->
  endsWith (stem ++ ".ts") ".compile.ts" = false.
Proof.
  intros Ha. destruct (endsWith (stem ++ ".ts") ".compile.ts") eqn:E;
    [|reflexivity].
  apply endsWith_split in E.
  set (a := dropRight (String.length ".compile.ts") (stem ++ ".ts")) in E.
  change ".compile.ts" with (".compile" ++ ".ts") in E.
  rewrite <- append_assoc in E. apply append_inv_r in E.
  rewrite E, forallb_app in Ha. apply andb_true_iff in Ha.
  now destruct Ha as [_ Ha].
Qed.

Lemma splitSuffix_alnum stem :
  forallb isAlnum stem = true ->
  splitSuffix (stem ++ ".ts") = Some (stem, false).
Proof.
  intros Ha. unfold splitSuffix, COMPILE_TS_SUFFIX, TS_SUFFIX.
  rewrite (alnum_not_compile _ Ha), (endsWith_app stem ".ts").
  now rewrite (dropRight_app stem ".ts").
Qed.

(** X16. The conventions of the wrapper rule and of the script rule
    exclude each other.  A PascalCase stem is reported by the script rule
    when the file [stem.ts] lies in [scripts], and a lowerCamelCase stem is
    reported by the wrapper rule, with the format diagnostic and without a
    look into the file, when the file lies in [wrappers]. *)
Theorem naming_conventions_exclusive
  (fs : FileSystem.FS) (projectRoot dir stem : string) :
  (PASCAL_CASE_REGEX stem = true ->
   LOWER_CAMEL_CASE_REGEX stem = false /\
   checkScriptFile projectRoot (fileIn dir stem "ts") =
   [mkError NamingConsistency
            (relative projectRoot (fileIn dir stem "ts"))
            (scriptMessage (stem ++ ".ts"))]) /\
  (LOWER_CAMEL_CASE_REGEX stem = true ->
   PASCAL_CASE_REGEX stem = false /\
   run fs (checkWrapperFile projectRoot (fileIn dir stem "ts")) =
   (inr [mkError NamingConsistency
                 (relative projectRoot (fileIn dir stem "ts"))
                 (formatMessage stem (stem ++ ".ts"))],
    [])).
Proof.
  split.
  - intros Hp. pose proof (conventions_exclusive _ Hp) as Hl.
    destruct (pascal_alnum _ Hp) as [Ha Hn].
    split; [exact Hl|].
    pose proof (alnum_noSlash _ Ha) as Hs. unfold checkScriptFile.
    rewrite parseName_fileIn by easy.
    rewrite (fileIn_basename dir stem "ts" Hs eq_refl).
    now rewrite Hl.
  - intros Hl. destruct (lowerCamel_alnum _ Hl) as [Ha Hn].
    assert (Hp : PASCAL_CASE_REGEX stem = false).
    { destruct (PASCAL_CASE_REGEX stem) eqn:E; [|reflexivity].
      apply conventions_exclusive in E. congruence. }
    split; [exact Hp|]. unfold checkWrapperFile.
    rewrite (fileIn_basename dir stem "ts" (alnum_noSlash _ Ha) eq_refl).
    change (stem ++ "." ++ "ts") with (stem ++ ".ts").
    rewrite (splitSuffix_alnum _ Ha), Hp. reflexivity.
Qed.

Lemma naming_conventions_exclusive_witness :
  checkScriptFile "/proj" "/proj/scripts/DeployCounter.ts" =
  [mkError NamingConsistency "scripts/DeployCounter.ts"
     "Script file name 'DeployCounter.ts' should be in lowerCamelCase."] /\
  run MoreSamples.lockedWrapper
      (checkWrapperFile "/proj" "/proj/wrappers/deployCounter.ts") =
  (inr [mkError NamingConsistency "wrappers/deployCounter.ts"
          "Wrapper file name part 'deployCounter' in 'deployCounter.ts' should be in PascalCase."],
   []).
Proof.
  split.
  - exact (proj2 (proj1 (naming_conventions_exclusive MoreSamples.lockedWrapper
                           "/proj" "/proj/scripts" "DeployCounter") eq_refl)).
  - exact (proj2 (proj2 (naming_conventions_exclusive MoreSamples.lockedWrapper
                           "/proj" "/proj/wrappers" "deployCounter") eq_refl)).
Defined.

End ScriptNamingProperties.

(* ------------------------------------------------------------------ *)
(** ** src/checks/initializationCheck.ts: further properties *)

Module InitializationProperties.
Import JsString JsStringFacts Types Io IoFacts Json.
Import InitializationCheck InitializationFacts.

Lemma getOwn_setProperty key k v props :
  getOwn key (setProperty k v props) =
  if String.eqb k key then Some v else getOwn key props.
Proof.
  induction props as [|[k' w] t IH]; cbn [setProperty getOwn]; [reflexivity|].
  destruct (String.eqb k' k) eqn:E1; cbn [getOwn].
  - apply String.eqb_eq in E1. subst k'. now destruct (String.eqb k key).
  - rewrite IH. destruct (String.eqb k' key) eqn:E2; [|reflexivity].
    apply String.eqb_eq in E2. subst key.
    now rewrite (String.eqb_sym k k'), E1.
Qed.

Lemma getOwn_absent key props :
  ~ In key (map fst props) -> getOwn key props = None.
Proof.
  induction props as [|[k v] t IH]; cbn [getOwn map fst In]; [reflexivity|].
  intros H. destruct (String.eqb_spec k key); [tauto|]. apply IH. tauto.
Qed.

(** [Object.assign]: an entry of the source wins over the target. *)
Lemma getOwn_assign key source : forall target,
  NoDup (map fst source) ->
  getOwn key (assign target source) =
  match getOwn key source with
  | Some v => Some v
  | None => getOwn key target
  end.
Proof.
  unfold assign.
  induction source as [|[k v] t IH]; intros target Hnd;
    cbn [fold_left getOwn fst snd]; [reflexivity|].
  cbn [map fst] in Hnd. inversion Hnd as [|? ? Hnin Hnd']; subst.
  rewrite (IH _ Hnd'), getOwn_setProperty.
  destruct (String.eqb_spec k key) as [->|Hk]; [|reflexivity].
  now rewrite (getOwn_absent _ _ Hnin).
Qed.

Lemma getOwn_spread2 key a b :
  NoDup (map fst a) -> NoDup (map fst b) ->
  getOwn key (spread2 (JObject a) (JObject b)) =
  match getOwn key b with
  | Some v => Some v
  | None => getOwn key a
  end.
Proof.
  intros Ha Hb. unfold spread2. cbn [ownProperties].
  rewrite (getOwn_assign _ _ _ Hb), (getOwn_assign _ _ _ Ha).
  now destruct (getOwn key a).
Qed.

(** X17. When both [dependencies] and [devDependencies] of the manifest
    are objects, the dependency test looks at one entry only: that of
    [devDependencies] when it has one, and that of [dependencies]
    otherwise.  The package counts as declared exactly when this entry is
    truthy; a falsy entry under [devDependencies] hides a proper one under
    [dependencies]. *)
Theorem dependencyCheck_merged_entry
  (JSON_parse : string -> string + json) (fs : FileSystem.FS)
  (packageJsonPath content : string) (errors : list LinterError)
  (props dependencies devDependencies : Props) :
  FileSystem.readFileSync fs packageJsonPath = inr content ->
  JSON_parse content = inr (JObject props) ->
  getOwn "dependencies" props = Some (JObject dependencies) ->
  getOwn "devDependencies" props = Some (JObject devDependencies) ->
  NoDup (map fst dependencies) -> NoDup (map fst devDependencies) ->
  let entry := match getOwn REQUIRED_DEP devDependencies with
               | Some v => Some v
               | None => getOwn REQUIRED_DEP dependencies
               end in
  result fs (dependencyCheck JSON_parse packageJsonPath errors) =
  inr (if truthy entry then errors
       else (errors ++ [missingDependency packageJsonPath])%list).
Proof.
  intros Hread Hparse Hdeps Hdev Hnd Hnd' entry.
  unfold dependencyCheck.
  rewrite result_tryCatch, result_bind, result_readFile, Hread.
  rewrite result_bind, result_orThrow, Hparse.
  cbn [getProperty orThrow]. rewrite Hdeps, Hdev.
  cbn [bind orEmptyObject truthy].
  rewrite (getOwn_spread2 _ _ _ Hnd Hnd'). fold entry.
  now destruct (truthy entry).
Qed.

Lemma dependencyCheck_merged_entry_witness :
  result MoreSamples.shadowedProject
         (dependencyCheck MoreSamples.parseManifest "/proj/package.json" []) =
  inr [missingDependency "/proj/package.json"].
Proof.
  exact (dependencyCheck_merged_entry
           MoreSamples.parseManifest MoreSamples.shadowedProject
           "/proj/package.json" MoreSamples.shadowedManifest []
           _ MoreSamples.shadowedDependencies MoreSamples.shadowedDevDependencies
           eq_refl eq_refl eq_refl eq_refl
           ltac:(repeat constructor; cbn; tauto)
           ltac:(repeat constructor; cbn; tauto)).
Defined.




Lemma dependencyCheck_clean JSON_parse fs packageJsonPath :
  result fs (dependencyCheck JSON_parse packageJsonPath []) = inr [] <->
  exists content manifest dependencies devDependencies,
    FileSystem.readFileSync fs packageJsonPath = inr content /\
    JSON_parse content = inr manifest /\
    getProperty manifest "dependencies" = inr dependencies /\
    getProperty manifest "devDependencies" = inr devDependencies /\
    truthy (getOwn REQUIRED_DEP
              (spread2 (orEmptyObject dependencies)
                       (orEmptyObject devDependencies))) = true.
Proof.
  unfold dependencyCheck.
  rewrite result_tryCatch, result_bind, result_readFile.
  destruct (FileSystem.readFileSync fs packageJsonPath) as [e|content] eqn:Er.
  { split; [discriminate|]. intros (c & m & d & v & H1 & _). discriminate H1. }
  rewrite result_bind, result_orThrow.
  destruct (JSON_parse content) as [e|manifest] eqn:Ep.
  { split; [discriminate|].
    intros (c & m & d & v & H1 & H2 & _). injection H1 as <-. congruence. }
  rewrite result_bind, result_orThrow.
  destruct (getProperty manifest "dependencies") as [e|dependencies] eqn:Ed.
  { split; [discriminate|].
    intros (c & m & d & v & H1 & H2 & H3 & _). injection H1 as <-.
    congruence. }
  rewrite result_bind, result_orThrow.
  destruct (getProperty manifest "devDependencies") as [e|devDependencies] eqn:Ev.
  { split; [discriminate|].
    intros (c & m & d & v & H1 & H2 & H3 & H4 & _). injection H1 as <-.
    congruence. }
  destruct (truthy (getOwn REQUIRED_DEP _)) eqn:Et; cbn [negb].
  - split; [|reflexivity]. intros _.
    now exists content, manifest, dependencies, devDependencies.
  - split; [discriminate|].
    intros (c & m & d & v & H1 & H2 & H3 & H4 & H5). injection H1 as <-.
    assert (m = manifest) by congruence. subst m.
    assert (d = dependencies) by congruence.
    assert (v = devDependencies) by congruence. subst d v. congruence.
Qed.

(** X19. [validateProjectStructure] returns no diagnostic, so that the
    directory counts as a valid project, exactly when the manifest exists,
    can be read and parsed, the merged entry of the required package is
    truthy, and the configuration file and the local module both exist. *)
Theorem validateProjectStructure_valid_iff
  (JSON_parse : string -> string + json) (fs : FileSystem.FS)
  (projectRoot : string) :
  let packageJsonPath := NodePath.pjoin [projectRoot; "package.json"] in
  result fs (validateProjectStructure JSON_parse projectRoot) = inr [] <->
  FileSystem.existsSync fs packageJsonPath = true /\
  (exists content manifest dependencies devDependencies,
     FileSystem.readFileSync fs packageJsonPath = inr content /\
     JSON_parse content = inr manifest /\
     getProperty manifest "dependencies" = inr dependencies /\
     getProperty manifest "devDependencies" = inr devDependencies /\
     truthy (getOwn REQUIRED_DEP
               (spread2 (orEmptyObject dependencies)
                        (orEmptyObject devDependencies))) = true) /\
  FileSystem.existsSync fs (NodePath.pjoin [projectRoot; REQUIRED_CONFIG]) = true /\
  FileSystem.existsSync fs
    (NodePath.pjoin [projectRoot; REQUIRED_NODE_MODULES_DIR]) = true.
Proof.
  intros packageJsonPath.
  rewrite <- dependencyCheck_clean.
  destruct (FileSystem.existsSync fs packageJsonPath) eqn:Hex.
  - destruct (validateProjectStructure_checks_independent
                JSON_parse fs projectRoot Hex) as (part & Hpart & _ & Hres).
    fold packageJsonPath in Hpart. rewrite Hres, Hpart.
    destruct (FileSystem.existsSync fs
                (NodePath.pjoin [projectRoot; REQUIRED_CONFIG]));
      destruct (FileSystem.existsSync fs
                  (NodePath.pjoin [projectRoot; REQUIRED_NODE_MODULES_DIR]));
      destruct part; cbn [app]; split;
      try (intros (_ & H1 & H2 & H3); discriminate);
      try (intros H; discriminate H); try tauto;
      intros H; injection H as H; try discriminate.
    all: destruct part; discriminate.
  - unfold validateProjectStructure. fold packageJsonPath.
    rewrite result_bind, result_existsSync, Hex. cbn [negb].
    rewrite result_Ret.
    split; [discriminate|]. now intros (H & _).
Qed.

End InitializationProperties.

(* ------------------------------------------------------------------ *)
(** ** The root-folder check: further properties of both variants *)

Module RootFolderProperties.
Import JsString Types Io IoFacts FileSystemFacts RootFolderCheck RootFolderFacts.

Ltac empty_report :=
  repeat split; auto; try (cbn; lia); try (now intros ? []);
  try match goal with H : In _ [] |- _ => destruct H end.

Lemma run_some_none fs (f : string -> string) xs :
  (forall x, In x xs -> FileSystem.existsSync fs (f x) = false) ->
  run fs (some (fun x => existsSync (f x)) xs) =
  (inr false, map (fun x => EvExists (f x)) xs).
Proof.
  induction xs as [|x t IH]; intros H; [reflexivity|].
  cbn [some]. unfold existsSync at 1. cbn [bind run].
  rewrite (H x) by now left.
  rewrite IH by (intros y Hy; apply H; now right). reflexivity.
Qed.

(** X20. When the parent of the scan path holds none of the eight marker
    items, both variants of [checkRootFolder] return no diagnostic, and
    the eight existence tests of the markers, in the order of
    [MARKER_ITEMS], are their only requests to the file system: no
    forbidden directory is looked for and no directory is listed. *)
Theorem checkRootFolder_without_marker
  (localeCompare : string -> string -> Z) (fs : FileSystem.FS)
  (startPath : string) :
  let parentDir := NodePath.dirname startPath in
  parentDir <> startPath ->
  (forall item, In item MARKER_ITEMS ->
     FileSystem.existsSync fs (NodePath.pjoin [parentDir; item]) = false) ->
  let asked := map (fun item => EvExists (NodePath.pjoin [parentDir; item]))
                   MARKER_ITEMS in
  List.length asked = 8 /\
  run fs (RootFolderCheck.checkRootFolder localeCompare startPath) =
  (inr [], asked) /\
  run fs (RootFolderCheckPlain.checkRootFolder startPath) = (inr [], asked).
Proof.
  intros parentDir Hroot Hnone asked. split; [reflexivity|].
  apply String.eqb_neq in Hroot.
  pose proof (run_some_none fs (fun item => NodePath.pjoin [parentDir; item])
                MARKER_ITEMS Hnone) as Hsome.
  unfold RootFolderCheck.checkRootFolder, RootFolderCheckPlain.checkRootFolder.
  fold parentDir. rewrite Hroot. rewrite !run_bind.
  unfold RootFolderCheckPlain.MARKER_ITEMS. rewrite Hsome.
  cbn [negb run]. now rewrite app_nil_r.
Qed.

Lemma checkRootFolder_without_marker_witness :
  run MoreSamples.unmarked
      (RootFolderCheckPlain.checkRootFolder "/code/jetton") =
  (inr [],
   [EvExists "/code/.cursor"; EvExists "/code/.knowledge";
    EvExists "/code/.vscode"; EvExists "/code/package.json";
    EvExists "/code/.windsurf"; EvExists "/code/.cursorrules";
    EvExists "/code/.windsurfrules"; EvExists "/code/tsconfig.json"]).
Proof.
  refine (proj2 (proj2 (checkRootFolder_without_marker
                          Samples.byCodeUnits MoreSamples.unmarked "/code/jetton"
                          _ _))).
  - discriminate.
  - intros item H. cbn in H.
    repeat (destruct H as [<-|H]; [reflexivity|]). destruct H.
Defined.

(** X21. The two variants of [checkRootFolder] report in the same
    situations.  On a well-formed file system neither throws; the variant
    of [src/checks/rootFolderCheck.ts] returns one diagnostic for each
    forbidden directory of the parent, in the order of [FORBIDDEN_DIRS],
    the variant with the snapshot returns at most one diagnostic, and
    either returns none exactly when the scan path is its own parent, or
    the parent holds no marker item, or it holds no forbidden directory.
    Every diagnostic has type [StructureValidation] and names the scan
    path. *)
Theorem checkRootFolder_variants_agree
  (localeCompare : string -> string -> Z) (fs : FileSystem.FS)
  (startPath : string) :
  (forall a b, (localeCompare a b <= 0)%Z \/ (localeCompare b a <= 0)%Z) ->
  (forall a b c, (localeCompare a b <= 0)%Z -> (localeCompare b c <= 0)%Z ->
                 (localeCompare a c <= 0)%Z) ->
  FileSystem.wellFormed (FileSystem.tree fs) = true ->
  let parentDir := NodePath.dirname startPath in
  let marked :=
    existsb (fun item => FileSystem.existsSync fs (NodePath.pjoin [parentDir; item]))
            MARKER_ITEMS in
  let found :=
    filter (fun folder =>
              FileSystem.isDirectoryAt fs (NodePath.pjoin [parentDir; folder]))
           FORBIDDEN_DIRS in
  let guarded := negb (String.eqb parentDir startPath) && marked in
  exists snapshot plain,
    result fs (RootFolderCheck.checkRootFolder localeCompare startPath) =
      inr snapshot /\
    result fs (RootFolderCheckPlain.checkRootFolder startPath) = inr plain /\
    plain = (if guarded
             then map (fun folder =>
                         mkError StructureValidation startPath
                           (RootFolderCheckPlain.forbiddenMessage folder parentDir))
                      found
             else []) /\
    List.length snapshot <= 1 /\
    (snapshot = [] <-> plain = []) /\
    (snapshot = [] <-> guarded = false \/ found = []) /\
    (forall e, In e snapshot ->
       type e = StructureValidation /\ file e = startPath).
Proof.
  intros Htotal Htrans Hwf parentDir marked found guarded.
  unfold RootFolderCheck.checkRootFolder, RootFolderCheckPlain.checkRootFolder.
  fold parentDir. subst guarded.
  destruct (String.eqb parentDir startPath) eqn:Hroot; cbn [negb andb].
  { exists [], []. rewrite !result_Ret.
    empty_report. }
  rewrite !result_bind.
  unfold RootFolderCheckPlain.MARKER_ITEMS.
  rewrite (result_some_exists fs (fun item => NodePath.pjoin [parentDir; item])).
  fold marked. destruct marked eqn:Hmarked; cbn [negb].
  2:{ exists [], []. rewrite !result_Ret.
      empty_report. }
  unfold RootFolderCheckPlain.FORBIDDEN_DIRS.
  rewrite (result_plain_scan fs startPath parentDir FORBIDDEN_DIRS []).
  rewrite result_bind, result_forbidden_scan. cbn [app]. fold found.
  destruct found as [|x t] eqn:Hfound.
  - exists [], []. cbn [List.length Nat.ltb Nat.leb map]. rewrite result_Ret.
    empty_report.
  - destruct (generateDirTree_total localeCompare Htotal Htrans fs Hwf
                2 parentDir "") as (fsMap & Htree).
    cbn [List.length Nat.ltb Nat.leb].
    rewrite result_bind, Htree, result_Ret.
    eexists. eexists. split; [reflexivity|]. split; [reflexivity|].
    split; [reflexivity|]. split; [cbn; lia|].
    split; [split; discriminate|]. split.
    + split; [discriminate|]. intros [H|H]; discriminate H.
    + intros e [<-|[]]. now split.
Qed.

Lemma checkRootFolder_variants_agree_witness :
  exists snapshot plain,
    result Samples.workspace
           (RootFolderCheck.checkRootFolder Samples.byCodeUnits "/work/jetton") =
      inr snapshot /\
    result Samples.workspace
           (RootFolderCheckPlain.checkRootFolder "/work/jetton") = inr plain /\
    List.length snapshot <= 1 /\ (snapshot = [] <-> plain = []).
Proof.
  destruct (checkRootFolder_variants_agree
              Samples.byCodeUnits Samples.workspace "/work/jetton"
              byCodeUnits_total byCodeUnits_trans eq_refl)
    as (snapshot & plain & H1 & H2 & _ & H3 & H4 & _).
  exists snapshot, plain. repeat split; try assumption; apply H4.
Defined.

(** *** The snapshot read from the file system is the snapshot of the tree *)

Lemma wellFormed_distinct es :
  FileSystem.wellFormed (FileSystem.Dir es) = true ->
  FileSystem.distinct (map fst es) = true.
Proof.
  cbn [FileSystem.wellFormed]. intros H.
  apply andb_true_iff in H. destruct H as [H _].
  apply andb_true_iff in H. tauto.
Qed.

Lemma lookupEntry_distinct es :
  FileSystem.distinct (map fst es) = true ->
  forall name child, In (name, child) es ->
    FileSystem.lookupEntry name es = Some child.
Proof.
  induction es as [|[n c] t IH]; intros Hd name child Hin; [destruct Hin|].
  cbn [map fst FileSystem.distinct] in Hd.
  apply andb_true_iff in Hd. destruct Hd as [Hn Hd].
  cbn [FileSystem.lookupEntry]. destruct Hin as [H|H].
  - injection H as -> ->. now rewrite String.eqb_refl.
  - destruct (String.eqb_spec n name) as [->|Hne]; [|now apply IH].
    apply negb_true_iff in Hn. exfalso.
    assert (Hx : includes (map fst t) name = true).
    { apply JsStringFacts.includes_In. apply in_map_iff. now exists (name, child). }
    congruence.
Qed.

Lemma resolve_child fs dir es name child :
  FileSystem.wellFormed (FileSystem.tree fs) = true ->
  FileSystem.resolve fs dir = Some (FileSystem.Dir es) ->
  In (name, child) es ->
  FileSystem.resolve fs (NodePath.pjoin [dir; name]) = Some child.
Proof.
  intros Hwf Hdir Hin.
  pose proof (resolve_wellFormed _ _ _ Hwf Hdir) as Hes.
  apply (PathFacts.resolve_pjoin_child fs dir es name child Hdir).
  - destruct (wellFormed_Dir _ Hes) as [Hclean _].
    rewrite Forall_forall in Hclean. apply Hclean.
    apply in_map_iff. now exists (name, child).
  - apply lookupEntry_distinct; [now apply wellFormed_distinct|exact Hin].
Qed.

Lemma insertSorted_map {A B : Type} (g : A -> B) (compare : B -> B -> Z) x l :
  insertSorted compare (g x) (map g l) =
  map g (insertSorted (fun a b => compare (g a) (g b)) x l).
Proof.
  induction l as [|y t IH]; cbn [map insertSorted]; [reflexivity|].
  destruct (compare (g x) (g y) <=? 0)%Z; cbn [map]; [reflexivity|].
  now rewrite IH.
Qed.

Lemma sortBy_map {A B : Type} (g : A -> B) (compare : B -> B -> Z) l :
  sortBy compare (map g l) =
  map g (sortBy (fun a b => compare (g a) (g b)) l).
Proof.
  unfold sortBy. induction l as [|x t IH]; cbn [map fold_right]; [reflexivity|].
  now rewrite IH, insertSorted_map.
Qed.

Lemma result_mapM_map {A B C : Type} fs (f : B -> io C) (g : A -> B) (h : A -> C) l :
  (forall a, In a l -> result fs (f (g a)) = inr (h a)) ->
  result fs (mapM f (map g l)) = inr (map h l).
Proof.
  induction l as [|a t IH]; intros H; cbn [map mapM]; [reflexivity|].
  rewrite result_bind, (H a) by now left.
  rewrite result_bind, IH by (intros b Hb; apply H; now right).
  reflexivity.
Qed.

Lemma filter_map_fst {A B : Type} (p : A -> bool) (l : list (A * B)) :
  filter p (map fst l) = map fst (filter (fun e => p (fst e)) l).
Proof.
  induction l as [|x t IH]; cbn [map filter]; [reflexivity|].
  destruct (p (fst x)); cbn [map]; now rewrite IH.
Qed.

Lemma combine_map_fst {A B C : Type} (g : A -> B) (l : list A) (l' : list C) :
  combine (map g l) l' = map (fun p => (g (fst p), snd p)) (combine l l').
Proof.
  revert l'. induction l as [|x t IH]; intros [|y l']; cbn [map combine];
    try reflexivity.
  now rewrite IH.
Qed.

Section Snapshot.

Variable localeCompare : string -> string -> Z.
Variable fs : FileSystem.FS.
Hypothesis wellFormed_fs : FileSystem.wellFormed (FileSystem.tree fs) = true.

Lemma level_listed es e :
  In e (RootFolderSnapshot.level localeCompare es) -> In e es.
Proof.
  intros H. unfold RootFolderSnapshot.level in H.
  eapply Permutation_in in H; [|symmetry; apply SortFacts.sortBy_perm].
  now apply filter_In in H.
Qed.

(** The listing of a level. *)
Lemma result_listEntries dir es :
  FileSystem.resolve fs dir = Some (FileSystem.Dir es) ->
  result fs (listEntries localeCompare dir (map fst es)) =
  inr (map fst (RootFolderSnapshot.level localeCompare es)).
Proof.
  intros Hdir. unfold listEntries. rewrite result_bind.
  unfold keepEntry. rewrite (filter_map_fst (fun e => negb (includes IGNORED_ITEMS e))).
  rewrite (result_mapM_map fs _ fst
             (fun e => (fst e, RootFolderSnapshot.isDirectory (snd e)))).
  - rewrite result_Ret, sortBy_map, map_map. reflexivity.
  - intros [name child] Hin. apply filter_In in Hin. destruct Hin as [Hin _].
    rewrite result_bind, result_lstat. unfold FileSystem.lstatIsDirectory.
    cbn [fst snd].
    rewrite (resolve_child fs dir es name child wellFormed_fs Hdir Hin).
    now destruct child.
Qed.

(** The lines of a level, given what the recursive call returns. *)
Lemma result_renderEntries subtree below dir prefix es :
  FileSystem.resolve fs dir = Some (FileSystem.Dir es) ->
  match subtree, below with
  | Some generate, Some render =>
      forall d p, result fs (generate d p) =
                  inr match FileSystem.resolve fs d with
                      | Some (FileSystem.Dir sub) => render p sub
                      | _ => ""
                      end
  | None, None => True
  | _, _ => False
  end ->
  result fs (renderEntries subtree dir prefix
               (map fst (RootFolderSnapshot.level localeCompare es))) =
  inr (flat_map
         (RootFolderSnapshot.entryLines below prefix
            (List.length (RootFolderSnapshot.level localeCompare es)))
         (combine (RootFolderSnapshot.level localeCompare es)
                  (seq 0 (List.length (RootFolderSnapshot.level localeCompare es))))).
Proof.
  intros Hdir Hsub. unfold renderEntries.
  rewrite length_map, combine_map_fst.
  set (shown := RootFolderSnapshot.level localeCompare es).
  assert (Hlisted : forall item, In item (combine shown (seq 0 (List.length shown))) ->
                                 In (fst item) es).
  { intros [e i] Hin. apply in_combine_l in Hin. now apply level_listed in Hin. }
  revert Hlisted. generalize (combine shown (seq 0 (List.length shown))).
  generalize (List.length shown) as count. intros count items.
  change (@nil string) with ([] : list string) at 1.
  assert (Hgen : forall lines0,
            (forall item, In item items -> In (fst item) es) ->
            result fs
              (forEach (map (fun p : (string * FileSystem.node) * nat =>
                               (fst (fst p), snd p)) items)
                 (fun lines item =>
                    let (entry, index) := item in
                    isDirectory <- lstatIsDirectory (NodePath.pjoin [dir; entry]) ;;
                    if isDirectory then
                      match subtree with
                      | Some generate =>
                          tree <- generate (NodePath.pjoin [dir; entry])
                                    (prefix ++ indentOf (Nat.eqb index (count - 1))) ;;
                          Ret (push (push lines
                                       (prefix ++ connectorOf (Nat.eqb index (count - 1))
                                          ++ entry ++ "/")) tree)
                      | None =>
                          Ret (push lines
                                 (prefix ++ connectorOf (Nat.eqb index (count - 1))
                                    ++ entry ++ "/"))
                      end
                    else Ret (push lines
                                (prefix ++ connectorOf (Nat.eqb index (count - 1))
                                   ++ entry)))
                 lines0) =
            inr (lines0 ++
                 flat_map (RootFolderSnapshot.entryLines below prefix count) items)%list).
  { induction items as [|[[name child] index] items IH]; intros lines0 Hlisted;
      cbn [map forEach flat_map fst snd].
    - now rewrite app_nil_r.
    - assert (Hin : In (name, child) es) by (apply (Hlisted (name, child, index)); now left).
      pose proof (resolve_child fs dir es name child wellFormed_fs Hdir Hin) as Hchild.
      rewrite result_bind, result_bind, result_lstat.
      unfold FileSystem.lstatIsDirectory. rewrite Hchild.
      unfold RootFolderSnapshot.entryLines at 1. cbn [fst snd].
      destruct child as [content|sub].
      + rewrite result_Ret, IH by (intros it Hit; apply Hlisted; now right).
        unfold push. now rewrite <- app_assoc.
      + destruct subtree as [generate|], below as [render|]; try contradiction.
        * rewrite result_bind, Hsub, Hchild, result_Ret,
            IH by (intros it Hit; apply Hlisted; now right).
          unfold push. now rewrite <- !app_assoc.
        * rewrite result_Ret, IH by (intros it Hit; apply Hlisted; now right).
          unfold push. now rewrite <- app_assoc. }
  intros Hlisted. exact (Hgen [] Hlisted).
Qed.

Lemma result_generate_level subtree below dir prefix :
  match subtree, below with
  | Some generate, Some render =>
      forall d p, result fs (generate d p) =
                  inr match FileSystem.resolve fs d with
                      | Some (FileSystem.Dir sub) => render p sub
                      | _ => ""
                      end
  | None, None => True
  | _, _ => False
  end ->
  result fs
    (listing <- tryCatch (entries <- readdirSync dir ;; Ret (Some entries))
                         (fun _ => Ret None) ;;
     match listing with
     | None => Ret ""
     | Some entries =>
         entries <- listEntries localeCompare dir entries ;;
         lines <- renderEntries subtree dir prefix entries ;;
         Ret (join (String "010" "") lines)
     end) =
  inr match FileSystem.resolve fs dir with
      | Some (FileSystem.Dir es) =>
          RootFolderSnapshot.renderLevel localeCompare below prefix es
      | _ => ""
      end.
Proof.
  intros Hsub.
  rewrite result_bind, result_tryCatch, result_bind, result_readdir.
  unfold FileSystem.readdirSync.
  destruct (FileSystem.resolve fs dir) as [[content|es]|] eqn:Hdir;
    try reflexivity.
  rewrite result_Ret, result_bind, (result_listEntries dir es Hdir).
  rewrite result_bind, (result_renderEntries subtree below dir prefix es Hdir Hsub).
  reflexivity.
Qed.

(** [generateDirTree] returns the snapshot of the tree below [dir]. *)
Lemma generateDirTree_snapshot : forall depth dir prefix,
  result fs (generateDirTree localeCompare depth dir prefix) =
  inr (RootFolderSnapshot.snapshotAt localeCompare fs depth dir prefix).
Proof.
  induction depth as [|depth IH]; intros dir prefix;
    cbn [generateDirTree]; unfold RootFolderSnapshot.snapshotAt.
  - now rewrite (result_generate_level None None).
  - rewrite (result_generate_level (Some (generateDirTree localeCompare depth))
               (Some (RootFolderSnapshot.snapshot localeCompare depth))).
    + reflexivity.
    + intros d p. apply IH.
Qed.

End Snapshot.

Lemma StronglySorted_weaken {A : Type} (R S : A -> A -> Prop) l :
  (forall a b, R a b -> S a b) -> StronglySorted R l -> StronglySorted S l.
Proof.
  intros H Hs. induction Hs as [|a l Hl IH Hall]; constructor; [exact IH|].
  eapply Forall_impl; [|exact Hall]. intros b. apply H.
Qed.

(** C4. Let the file system be well formed, let the scan path differ from
    its parent, and let the parent hold a marker item and a forbidden
    directory; let [localeCompare] be a total and transitive comparator
    that, on names of letters, digits, dots and hyphens, follows the
    dictionary order of the lowercased names.
    Then the check with the snapshot returns exactly one diagnostic: its
    message names every forbidden directory of the parent and ends with
    the snapshot of the parent, two levels below the first: one line for
    each entry of a level and, below a directory, the snapshot of its own
    entries.  The check without the
    snapshot returns one diagnostic for each forbidden directory of the
    parent, naming that directory and the parent.  Every level of a
    snapshot lists the entries of its directory without the noise names,
    directories before files, each group in the order of [localeCompare],
    which for names of letters, digits, dots and hyphens is the
    alphabetical order without regard to case. *)
Theorem checkRootFolder_single_diagnostic
  (localeCompare : string -> string -> Z)
  (fs : FileSystem.FS) (startPath : string) :
  let parentDir := NodePath.dirname startPath in
  let found :=
    filter (fun folder =>
              FileSystem.isDirectoryAt fs (NodePath.pjoin [parentDir; folder]))
           FORBIDDEN_DIRS in
  let fsMap := RootFolderSnapshot.snapshotAt localeCompare fs 2 parentDir "" in
  let order := fun a b : string * FileSystem.node =>
    (RootFolderSnapshot.isDirectory (snd a) = true /\
     RootFolderSnapshot.isDirectory (snd b) = false) \/
    (RootFolderSnapshot.isDirectory (snd a) = RootFolderSnapshot.isDirectory (snd b) /\
     (localeCompare (fst a) (fst b) <= 0)%Z /\
     (FileNames.simpleName (fst a) = true -> FileNames.simpleName (fst b) = true ->
      String.leb (toLowerCase (fst a)) (toLowerCase (fst b)) = true)) in
  (forall a b, (localeCompare a b <= 0)%Z \/ (localeCompare b a <= 0)%Z) ->
  (forall a b c, (localeCompare a b <= 0)%Z -> (localeCompare b c <= 0)%Z ->
                 (localeCompare a c <= 0)%Z) ->
  (forall a b, FileNames.simpleName a = true -> FileNames.simpleName b = true ->
               (localeCompare a b <= 0)%Z ->
               String.leb (toLowerCase a) (toLowerCase b) = true) ->
  FileSystem.wellFormed (FileSystem.tree fs) = true ->
  parentDir <> startPath ->
  (exists item, In item MARKER_ITEMS /\
     FileSystem.existsSync fs (NodePath.pjoin [parentDir; item]) = true) ->
  (exists folder, In folder FORBIDDEN_DIRS /\
     FileSystem.isDirectoryAt fs (NodePath.pjoin [parentDir; folder]) = true) ->
  found <> [] /\
  result fs (RootFolderCheck.checkRootFolder localeCompare startPath) =
  inr [mkError StructureValidation startPath
         (join (String "010" "")
            ["Detected forbidden " ++
               (if Nat.eqb (List.length found) 1 then "directory" else "directories") ++
               " " ++ join ", " (map (fun folder => "'" ++ folder ++ "'") found) ++
               " in root '" ++ parentDir ++ "'.";
             "This is a ROOT DIRECTORY ISSUE: '" ++ parentDir ++
               "' appears to be a project root directory that contains TON Blueprint project folders directly.";
             "This structure is not recommended. Instead, create individual blueprint projects and place contract folders inside those projects.";
             "";
             "Snapshot of the ROOT directory '" ++ NodePath.basename parentDir ++
               "' structure:";
             fsMap])] /\
  result fs (RootFolderCheckPlain.checkRootFolder startPath) =
  inr (map (fun folder =>
              mkError StructureValidation startPath
                ("Forbidden directory '" ++ folder ++ "' found in root '" ++ parentDir ++
                 "'. This prevents confusion and ensures contracts are created in the correct location. Create individual blueprint projects instead and place '" ++
                 folder ++ "' folders inside them."))
           found) /\
  (forall entries,
     FileSystem.resolve fs parentDir = Some (FileSystem.Dir entries) ->
     let shown := RootFolderSnapshot.level localeCompare entries in
     fsMap =
     join (String "010" "")
          (flat_map
             (RootFolderSnapshot.entryLines
                (Some (RootFolderSnapshot.snapshot localeCompare 1)) ""
                (List.length shown))
             (combine shown (seq 0 (List.length shown))))) /\
  forall entries,
    Permutation (RootFolderSnapshot.level localeCompare entries)
                (filter (fun e => negb (includes IGNORED_ITEMS (fst e))) entries) /\
    StronglySorted order (RootFolderSnapshot.level localeCompare entries).
Proof.
  intros parentDir found fsMap order Htotal Htrans Halpha Hwf Hroot
         (item & Hitem & Hex) (folder & Hfolder & Hdir).
  assert (Hfound : found <> []).
  { intros E. assert (H : In folder found) by (apply filter_In; tauto).
    rewrite E in H. destruct H. }
  split; [exact Hfound|]. split; [|split; [|split]].
  - unfold RootFolderCheck.checkRootFolder. fold parentDir.
    apply String.eqb_neq in Hroot. rewrite Hroot.
    rewrite result_bind,
      (result_some_exists fs (fun item => NodePath.pjoin [parentDir; item])).
    assert (Hsome : existsb (fun x => FileSystem.existsSync fs
                                         (NodePath.pjoin [parentDir; x]))
                            MARKER_ITEMS = true)
      by (apply existsb_exists; now exists item).
    rewrite Hsome. cbn [negb].
    rewrite result_bind, result_forbidden_scan. cbn [app]. fold found.
    destruct found as [|x t] eqn:E; [congruence|]. cbn [List.length Nat.ltb Nat.leb].
    rewrite result_bind, (generateDirTree_snapshot localeCompare fs Hwf), result_Ret.
    reflexivity.
  - rewrite (plain_checkRootFolder_one_per_folder fs startPath).
    + reflexivity.
    + exact Hroot.
    + now exists item.
  - intros entries Hparent shown. unfold fsMap, RootFolderSnapshot.snapshotAt.
    now rewrite Hparent.
  - intros entries. split.
    + symmetry. apply SortFacts.sortBy_perm.
    + unfold RootFolderSnapshot.level.
      eapply StronglySorted_weaken;
        [|apply (SortFacts.sortBy_sorted
                   (fun a b : string * FileSystem.node =>
                      compareEntries localeCompare
                        (fst a, RootFolderSnapshot.isDirectory (snd a))
                        (fst b, RootFolderSnapshot.isDirectory (snd b))))].
      * intros a b H. cbv beta in H. apply compareEntries_le in H.
        unfold entryOrder in H. cbn [fst snd] in H. unfold order.
        destruct H as [H|[H1 H2]]; [now left|right].
        split; [exact H1|]. split; [exact H2|].
        intros Ha Hb. now apply Halpha.
      * intros a b. apply (compareEntries_total localeCompare Htotal).
      * intros a b c. apply (compareEntries_trans localeCompare Htrans).
Qed.

(** *** The comparator of the samples *)

Lemma compare_refl s : String.compare s s = Eq.
Proof. now apply String_as_OT.cmp_eq. Qed.

Lemma compare_flip a b : String.compare b a = CompOpp (String.compare a b).
Proof. exact (String_as_OT.cmp_antisym b a). Qed.

Lemma compare_trans a b c :
  String.compare a b = Lt -> String.compare b c = Lt -> String.compare a c = Lt.
Proof.
  intros H1 H2. apply String_as_OT.cmp_lt. apply String_as_OT.cmp_lt in H1, H2.
  now apply (String_as_OT.lt_trans a b c).
Qed.

Lemma caseless_le a b :
  (MoreSamples.caseless a b <= 0)%Z <->
  String.compare (toLowerCase a) (toLowerCase b) = Lt \/
  (toLowerCase a = toLowerCase b /\ String.compare b a <> Gt).
Proof.
  unfold MoreSamples.caseless, Samples.byCodeUnits.
  destruct (String.compare (toLowerCase a) (toLowerCase b)) eqn:E.
  - apply String_as_OT.cmp_eq in E. split.
    + intros H. right. split; [exact E|]. destruct (String.compare b a); [easy|easy|lia].
    + intros [H|[_ H]]; [discriminate H|]. destruct (String.compare b a); [lia|lia|easy].
  - split; [now left|lia].
  - split; [lia|]. intros [H|[H _]]; [discriminate H|].
    rewrite H, compare_refl in E. discriminate E.
Qed.

Lemma caseless_total a b :
  (MoreSamples.caseless a b <= 0)%Z \/ (MoreSamples.caseless b a <= 0)%Z.
Proof.
  rewrite !caseless_le.
  rewrite (compare_flip (toLowerCase a) (toLowerCase b)).
  rewrite (compare_flip a b).
  destruct (String.compare (toLowerCase a) (toLowerCase b)) eqn:E; cbn [CompOpp].
  - apply String_as_OT.cmp_eq in E.
    destruct (String.compare a b); cbn [CompOpp].
    + left. right. split; [exact E|discriminate].
    + right. right. split; [now symmetry|discriminate].
    + left. right. split; [exact E|discriminate].
  - left. now left.
  - right. now left.
Qed.

Lemma caseless_trans a b c :
  (MoreSamples.caseless a b <= 0)%Z -> (MoreSamples.caseless b c <= 0)%Z ->
  (MoreSamples.caseless a c <= 0)%Z.
Proof.
  rewrite !caseless_le. intros [H1|[E1 H1]] [H2|[E2 H2]].
  - left. now apply (compare_trans _ (toLowerCase b)).
  - left. now rewrite <- E2.
  - left. now rewrite E1.
  - right. split; [congruence|].
    (* [c <= b] and [b <= a] in the order of the code units *)
    intros H. rewrite compare_flip in H.
    destruct (String.compare a c) eqn:Eac; try discriminate H.
    destruct (String.compare b a) eqn:Eba; [|clear H1|congruence].
    + apply String_as_OT.cmp_eq in Eba. subst b.
      rewrite compare_flip, Eac in H2. now apply H2.
    + destruct (String.compare c b) eqn:Ecb; [| |congruence].
      * apply String_as_OT.cmp_eq in Ecb. subst c.
        rewrite compare_flip, Eba in Eac. discriminate Eac.
      * pose proof (compare_trans _ _ _ Ecb Eba) as Hca.
        rewrite compare_flip, Eac in Hca. discriminate Hca.
Qed.

Lemma caseless_alphabetical a b :
  (MoreSamples.caseless a b <= 0)%Z ->
  String.leb (toLowerCase a) (toLowerCase b) = true.
Proof.
  rewrite caseless_le. unfold String.leb. intros [H|[H _]].
  - now rewrite H.
  - now rewrite H, compare_refl.
Qed.

Lemma checkRootFolder_single_diagnostic_witness :
  FileSystem.wellFormed (FileSystem.tree MoreSamples.monorepo) = true /\
  NodePath.dirname "/repo/app" <> "/repo/app" /\
  FileSystem.existsSync MoreSamples.monorepo "/repo/package.json" = true /\
  FileSystem.isDirectoryAt MoreSamples.monorepo "/repo/contracts" = true /\
  FileSystem.isDirectoryAt MoreSamples.monorepo "/repo/tests" = true /\
  result MoreSamples.monorepo
         (RootFolderCheck.checkRootFolder MoreSamples.caseless "/repo/app") =
  inr [mkError StructureValidation "/repo/app"
         (join (String "010" "")
            ["Detected forbidden directories 'contracts', 'tests' in root '/repo'.";
             "This is a ROOT DIRECTORY ISSUE: '/repo' appears to be a project root directory that contains TON Blueprint project folders directly.";
             "This structure is not recommended. Instead, create individual blueprint projects and place contract folders inside those projects.";
             "";
             "Snapshot of the ROOT directory 'repo' structure:";
             "├── app/";
             "│   ├── contracts/";
             "│   │   └── a.fc";
             "│   └── package.json";
             "├── contracts/";
             "│   └── vault.fc";
             "├── tests/";
             "";
             "├── notes";
             "├── package.json";
             "└── README.md"])] /\
  result MoreSamples.monorepo (RootFolderCheckPlain.checkRootFolder "/repo/app") =
  inr [mkError StructureValidation "/repo/app"
         "Forbidden directory 'contracts' found in root '/repo'. This prevents confusion and ensures contracts are created in the correct location. Create individual blueprint projects instead and place 'contracts' folders inside them.";
       mkError StructureValidation "/repo/app"
         "Forbidden directory 'tests' found in root '/repo'. This prevents confusion and ensures contracts are created in the correct location. Create individual blueprint projects instead and place 'tests' folders inside them."].
Proof.
  assert (H0 : FileSystem.wellFormed (FileSystem.tree MoreSamples.monorepo) = true)
    by reflexivity.
  assert (H1 : NodePath.dirname "/repo/app" <> "/repo/app") by discriminate.
  assert (H2 : exists item, In item MARKER_ITEMS /\
            FileSystem.existsSync MoreSamples.monorepo
              (NodePath.pjoin [NodePath.dirname "/repo/app"; item]) = true).
  { exists "package.json". split; [cbn; tauto|reflexivity]. }
  assert (H3 : exists folder, In folder FORBIDDEN_DIRS /\
            FileSystem.isDirectoryAt MoreSamples.monorepo
              (NodePath.pjoin [NodePath.dirname "/repo/app"; folder]) = true).
  { exists "contracts". split; [cbn; tauto|reflexivity]. }
  split; [exact H0|]. split; [exact H1|]. split; [reflexivity|].
  split; [reflexivity|]. split; [reflexivity|].
  destruct (checkRootFolder_single_diagnostic
              MoreSamples.caseless MoreSamples.monorepo "/repo/app"
              caseless_total caseless_trans
              (fun a b _ _ => caseless_alphabetical a b)
              H0 H1 H2 H3)
    as (_ & Hcheck & Hplain & _ & _).
  split; [exact Hcheck|exact Hplain].
Defined.

(** The statement fails at the root of the file system, and it fails for
    the check without the snapshot.  ["/"] is its own parent; that parent
    holds [package.json] and a [contracts] directory, and neither check
    returns a diagnostic.  Below a parent with two forbidden directories
    the check without the snapshot returns two diagnostics. *)
Lemma checkRootFolder_counterexample :
  ((exists item, In item MARKER_ITEMS /\
      FileSystem.existsSync Samples.projectAtRoot
        (NodePath.pjoin [NodePath.dirname "/"; item]) = true) /\
   (exists folder, In folder FORBIDDEN_DIRS /\
      FileSystem.isDirectoryAt Samples.projectAtRoot
        (NodePath.pjoin [NodePath.dirname "/"; folder]) = true) /\
   result Samples.projectAtRoot
          (RootFolderCheck.checkRootFolder MoreSamples.caseless "/") = inr [] /\
   result Samples.projectAtRoot (RootFolderCheckPlain.checkRootFolder "/") = inr []) /\
  ((exists item, In item MARKER_ITEMS /\
      FileSystem.existsSync MoreSamples.monorepo
        (NodePath.pjoin [NodePath.dirname "/repo/app"; item]) = true) /\
   (exists folder, In folder FORBIDDEN_DIRS /\
      FileSystem.isDirectoryAt MoreSamples.monorepo
        (NodePath.pjoin [NodePath.dirname "/repo/app"; folder]) = true) /\
   exists first second,
     result MoreSamples.monorepo (RootFolderCheckPlain.checkRootFolder "/repo/app") =
     inr [first; second]).
Proof.
  split.
  - split; [exists "package.json"; split; [cbn; tauto|reflexivity]|].
    split; [exists "contracts"; split; [cbn; tauto|reflexivity]|].
    split; reflexivity.
  - split; [exists "package.json"; split; [cbn; tauto|reflexivity]|].
    split; [exists "contracts"; split; [cbn; tauto|reflexivity]|].
    eexists _, _. reflexivity.
Qed.

End RootFolderProperties.

(* ------------------------------------------------------------------ *)
(** ** src/checks/contractFilesCheck.ts: the targets of a compile file *)

Module ContractFilesProperties.
Import JsString JsStringFacts NodePath PathFacts Types Io IoFacts.
Import StringFacts FileNames WrapperNamingProperties ContractFilesCheck.

Lemma removeQuotes_clean s :
  forallb (fun c => negb (isQuote c)) (removeQuotes s) = true.
Proof.
  induction s as [|c s IH]; [reflexivity|]. cbn [removeQuotes].
  destruct (isQuote c) eqn:E; [exact IH|].
  cbn [forallb]. now rewrite E, IH.
Qed.

Lemma removeQuotes_fixed s :
  forallb (fun c => negb (isQuote c)) s = true -> removeQuotes s = s.
Proof.
  induction s as [|c s IH]; [reflexivity|]. cbn [forallb removeQuotes].
  intros H. apply andb_true_iff in H. destruct H as [Hc Hs].
  apply negb_true_iff in Hc. now rewrite Hc, IH.
Qed.

Lemma unquotedRun_clean s :
  forallb (fun c => negb (isQuote c)) (unquotedRun s) = true.
Proof.
  induction s as [|c s IH]; [reflexivity|]. cbn [unquotedRun].
  destruct (isQuote c) eqn:E; [reflexivity|].
  cbn [forallb]. now rewrite E, IH.
Qed.

Lemma truthyString_length s :
  Nat.ltb 0 (String.length s) = truthyString s.
Proof. now destruct s. Qed.

Lemma targetsOfArray_clean targetsString target :
  In target (targetsOfArray targetsString) ->
  truthyString target = true /\
  forallb (fun c => negb (isQuote c)) target = true.
Proof.
  unfold targetsOfArray. rewrite filter_In, truthyString_length.
  intros [Hin Ht]. split; [exact Ht|].
  apply in_map_iff in Hin. destruct Hin as (x & <- & _).
  apply removeQuotes_clean.
Qed.

Lemma targetAt_clean s target :
  targetAt s = Some target ->
  truthyString target = true /\
  forallb (fun c => negb (isQuote c)) target = true.
Proof.
  unfold targetAt. destruct (stripPrefix "target:" s) as [s1|]; [|discriminate].
  cbn [WrapperNamingRule.andThen].
  destruct (WrapperNamingRule.dropSpaces s1) as [|q s2]; [discriminate|].
  destruct (isQuote q); [|discriminate].
  pose proof (unquotedRun_clean s2) as Hrun.
  destruct (unquotedRun s2) as [|c run]; [discriminate|].
  destruct (afterRun s2); [discriminate|].
  intros [= <-]. now split.
Qed.

Lemma targetMatch_clean content target :
  targetMatch content = Some target ->
  truthyString target = true /\
  forallb (fun c => negb (isQuote c)) target = true.
Proof.
  induction content as [|c content IH]; cbn [targetMatch].
  - destruct (targetAt "") eqn:E; [|discriminate].
    intros [= <-]. now apply targetAt_clean in E.
  - destruct (targetAt (String c content)) eqn:E.
    + intros [= <-]. now apply targetAt_clean in E.
    + exact IH.
Qed.

Lemma targetPaths_In_clean content target :
  In target (targetPaths content) ->
  truthyString target = true /\
  forallb (fun c => negb (isQuote c)) target = true.
Proof.
  unfold targetPaths. destruct (targetsMatch content) as [targetsString|].
  - apply targetsOfArray_clean.
  - destruct (targetMatch content) as [t|] eqn:E; [|intros []].
    intros [<-|[]]. now apply targetMatch_clean in E.
Qed.

(** X22. Every target path that is extracted from the text of a compile
    file, from the [targets] array or from the [target] field, is a
    non-empty text without any quote character; so the test
    [if (targetPath)] in the loop over the target paths never fails. *)
Theorem targetPaths_clean (compileContent targetPath : string) :
  In targetPath (targetPaths compileContent) ->
  truthyString targetPath = true /\
  forallb (fun c => negb (isQuote c)) targetPath = true.
Proof.
  unfold targetPaths. destruct (targetsMatch compileContent) as [targetsString|].
  - unfold targetsOfArray. rewrite filter_In, truthyString_length.
    intros [Hin Ht]. split; [exact Ht|].
    apply in_map_iff in Hin. destruct Hin as (x & <- & _).
    apply removeQuotes_clean.
  - destruct (targetMatch compileContent) as [t|] eqn:E; [|intros []].
    intros [<-|[]]. now apply targetMatch_clean in E.
Qed.

Lemma targetPaths_clean_witness :
  truthyString "contracts/lost.fc" = true /\
  forallb (fun c => negb (isQuote c)) "contracts/lost.fc" = true.
Proof.
  apply (targetPaths_clean MoreSamples.funcCompile "contracts/lost.fc").
  cbn. tauto.
Defined.

Lemma beforeBracket_inv s : forall body,
  beforeBracket s = Some body ->
  forallb (fun c => negb (Ascii.eqb c "]")) body = true /\
  exists post, s = body ++ "]" ++ post.
Proof.
  induction s as [|c s IH]; intros body; cbn [beforeBracket]; [discriminate|].
  destruct (Ascii.eqb_spec c "]") as [->|Hc].
  - intros [= <-]. split; [reflexivity|]. now exists s.
  - destruct (beforeBracket s) as [b|]; [|discriminate].
    cbn [option_map]. intros [= <-].
    destruct (IH b eq_refl) as (Hb & post & Hs).
    split.
    + cbn [forallb]. rewrite Hb.
      apply Ascii.eqb_neq in Hc. now rewrite Hc.
    + exists post. cbn. now f_equal.
Qed.

Lemma beforeBracket_app body post :
  forallb (fun c => negb (Ascii.eqb c "]")) body = true ->
  beforeBracket (body ++ String "]" post) = Some body.
Proof.
  induction body as [|c body IH]; cbn [forallb append beforeBracket].
  - intros _. reflexivity.
  - intros H. apply andb_true_iff in H. destruct H as [Hc Hb].
    apply negb_true_iff in Hc. now rewrite Hc, (IH Hb).
Qed.

Lemma targetsAt_inv s body :
  targetsAt s = Some body ->
  forallb (fun c => negb (Ascii.eqb c "]")) body = true /\
  exists ws post,
    s = "targets:" ++ ws ++ "[" ++ body ++ "]" ++ post /\
    forallb isSpace ws = true.
Proof.
  unfold targetsAt.
  destruct (stripPrefix "targets:" s) as [s1|] eqn:E1; [|discriminate].
  cbn [WrapperNamingRule.andThen].
  destruct (stripPrefix "[" (WrapperNamingRule.dropSpaces s1)) as [s2|] eqn:E2;
    [|discriminate].
  cbn [WrapperNamingRule.andThen]. intros H.
  apply beforeBracket_inv in H. destruct H as (Hb & post & Hs2).
  split; [exact Hb|].
  apply stripPrefix_inv in E1. apply stripPrefix_inv in E2.
  destruct (dropSpaces_inv s1) as (ws & Hs1 & Hws & _).
  exists ws, post. split; [|exact Hws].
  now rewrite E1, Hs1, E2, Hs2.
Qed.

(** X23. The pattern of the [targets] array captures the text between the
    first opening bracket behind [targets:] and the first closing bracket
    behind it.  What [targetsMatch] returns stands in the text between
    [targets:], blanks, an opening bracket and a closing bracket, and holds
    no closing bracket itself; and a text that starts in this way yields
    exactly that piece, whatever follows the closing bracket. *)
Theorem targetsMatch_captures_first_bracket :
  (forall content body,
     targetsMatch content = Some body ->
     forallb (fun c => negb (Ascii.eqb c "]")) body = true /\
     exists pre ws post,
       content = pre ++ "targets:" ++ ws ++ "[" ++ body ++ "]" ++ post /\
       forallb isSpace ws = true) /\
  (forall ws body post,
     forallb isSpace ws = true ->
     forallb (fun c => negb (Ascii.eqb c "]")) body = true ->
     targetsMatch ("targets:" ++ ws ++ "[" ++ body ++ "]" ++ post) = Some body).
Proof.
  split.
  - induction content as [|c content IH]; intros body; cbn [targetsMatch].
    + destruct (targetsAt "") eqn:E; [|discriminate].
      intros [= <-]. apply targetsAt_inv in E.
      destruct E as (Hb & ws & post & Hs & Hws).
      split; [exact Hb|]. now exists "", ws, post.
    + destruct (targetsAt (String c content)) eqn:E.
      * intros [= <-]. apply targetsAt_inv in E.
        destruct E as (Hb & ws & post & Hs & Hws).
        split; [exact Hb|]. now exists "", ws, post.
      * intros H. apply IH in H.
        destruct H as (Hb & pre & ws & post & Hs & Hws).
        split; [exact Hb|]. exists (String c pre), ws, post.
        split; [cbn; now f_equal|exact Hws].
  - intros ws body post Hws Hb.
    assert (Hat : targetsAt ("targets:" ++ ws ++ "[" ++ body ++ "]" ++ post) =
                  Some body).
    { unfold targetsAt. rewrite stripPrefix_app.
      cbn [WrapperNamingRule.andThen].
      rewrite (dropSpaces_app ws) by (auto; reflexivity).
      rewrite stripPrefix_app. cbn [WrapperNamingRule.andThen].
      now apply beforeBracket_app. }
    cbn [append targetsMatch]. cbn [append] in Hat. now rewrite Hat.
Qed.

Lemma targetsMatch_captures_first_bracket_witness :
  targetsMatch ("targets:" ++ "  " ++ "[" ++ "'a.fc', 'b.fc'" ++ "]" ++ " ]") =
  Some "'a.fc', 'b.fc'".
Proof.
  exact (proj2 targetsMatch_captures_first_bracket
               "  " "'a.fc', 'b.fc'" " ]" eq_refl eq_refl).
Defined.

Lemma splitOn_plain sep a :
  forallb (fun c => negb (Ascii.eqb c sep)) a = true -> splitOn sep a = [a].
Proof.
  induction a as [|c a IH]; cbn [forallb splitOn]; [reflexivity|].
  intros H. apply andb_true_iff in H. destruct H as [Hc Ha].
  apply negb_true_iff in Hc. now rewrite Hc, (IH Ha).
Qed.

Lemma splitOn_app sep a b :
  forallb (fun c => negb (Ascii.eqb c sep)) a = true ->
  splitOn sep (a ++ String sep b) = a :: splitOn sep b.
Proof.
  induction a as [|c a IH]; cbn [forallb append splitOn].
  - intros _. now rewrite Ascii.eqb_refl.
  - intros H. apply andb_true_iff in H. destruct H as [Hc Ha].
    apply negb_true_iff in Hc. now rewrite Hc, (IH Ha).
Qed.

Lemma splitOn_join pad q qs :
  forallb (fun c => negb (Ascii.eqb c ",")) pad = true ->
  Forall (fun q => forallb (fun c => negb (Ascii.eqb c ",")) q = true) (q :: qs) ->
  splitOn "," (pad ++ join ", " (q :: qs)) =
  (pad ++ q) :: map (fun q => " " ++ q) qs.
Proof.
  revert pad q. induction qs as [|q' qs IH]; intros pad q Hpad Hall.
  - cbn [join String.concat map]. apply splitOn_plain.
    rewrite forallb_app, Hpad. now inversion Hall.
  - inversion Hall as [|? ? Hq Hall']; subst.
    change (join ", " (q :: q' :: qs))
      with (q ++ String "," (" " ++ join ", " (q' :: qs))).
    rewrite <- append_assoc, splitOn_app by now rewrite forallb_app, Hpad.
    rewrite (IH " " q' eq_refl Hall'). reflexivity.
Qed.

Lemma trimEnd_fixed s c :
  isSpace c = false -> trimEnd (s ++ String c "") = s ++ String c "".
Proof.
  intros Hc. unfold trimEnd. rewrite chars_app, rev_app_distr.
  change (rev (chars (String c ""))) with [c]. cbn [app NodePath.dropWhile].
  rewrite Hc. change (c :: rev (chars s)) with (rev [c] ++ rev (chars s))%list.
  rewrite <- rev_app_distr, rev_involutive.
  change [c] with (chars (String c "")). now rewrite <- chars_app, text_chars.
Qed.

Lemma trim_quoted pad p :
  forallb isSpace pad = true ->
  trim (pad ++ "'" ++ p ++ "'") = "'" ++ p ++ "'".
Proof.
  intros Hpad. unfold trim.
  rewrite (dropSpaces_app pad) by (auto; reflexivity).
  change ("'" ++ p ++ "'") with (("'" ++ p) ++ String "'" "").
  now apply trimEnd_fixed.
Qed.

Lemma removeQuotes_app a b :
  removeQuotes (a ++ b) = removeQuotes a ++ removeQuotes b.
Proof.
  induction a as [|c a IH]; cbn [append removeQuotes]; [reflexivity|].
  destruct (isQuote c); [exact IH|]. cbn [append]. now f_equal.
Qed.

Lemma removeQuotes_quoted p :
  forallb (fun c => negb (isQuote c)) p = true ->
  removeQuotes ("'" ++ p ++ "'") = p.
Proof.
  intros Hp. change ("'" ++ p ++ "'") with (String "'" (p ++ "'")).
  cbn [removeQuotes]. change (isQuote "'") with true. cbv iota.
  rewrite removeQuotes_app, (removeQuotes_fixed _ Hp).
  apply append_nil_r.
Qed.

Lemma forallb_weaken (p q : ascii -> bool) s :
  (forall c, p c = true -> q c = true) ->
  forallb p s = true -> forallb q s = true.
Proof.
  intros Hpq. induction s as [|c s IH]; cbn [forallb]; [reflexivity|].
  intros H. apply andb_true_iff in H. destruct H as [Hc Hs].
  now rewrite (Hpq _ Hc), IH.
Qed.

(** X24. Written in the usual way, the [targets] array is read back as
    it was written: when the text between the brackets is a list of
    paths in single quotes, separated by a comma and a blank, and no path
    is empty or holds a quote or a comma, the extracted target paths are
    these paths, in their order. *)
Theorem targetPaths_of_quoted_list
  (compileContent : string) (paths : list string) :
  targetsMatch compileContent =
    Some (join ", " (map (fun p => "'" ++ p ++ "'") paths)) ->
  Forall (fun p => p <> "" /\
                   forallb (fun c => negb (isQuote c) && negb (Ascii.eqb c ",")) p
                   = true) paths ->
  targetPaths compileContent = paths.
Proof.
  intros Hmatch Hclean. unfold targetPaths. rewrite Hmatch.
  unfold targetsOfArray. destruct paths as [|p ps]; [reflexivity|].
  cbn [map].
  assert (Hcommas :
    Forall (fun q => forallb (fun c => negb (Ascii.eqb c ",")) q = true)
           (("'" ++ p ++ "'") :: map (fun p => "'" ++ p ++ "'") ps)).
  { change (Forall (fun q => forallb (fun c => negb (Ascii.eqb c ",")) q = true)
                (map (fun p => "'" ++ p ++ "'") (p :: ps))).
    apply Forall_map. eapply Forall_impl; [|exact Hclean].
    intros q [_ Hq]. cbn beta.
    change ("'" ++ q ++ "'") with (String "'" (q ++ "'")).
    cbn [forallb]. rewrite forallb_app.
    change (forallb (fun c => negb (Ascii.eqb c ",")) "'") with true.
    rewrite andb_true_r.
    change (negb (Ascii.eqb "'" ",")) with true. cbn [andb].
    eapply forallb_weaken; [|exact Hq].
    intros c Hc. now apply andb_true_iff in Hc. }
  pose proof (splitOn_join "" _ _ eq_refl Hcommas) as Hsplit.
  change ("" ++ join ", " (("'" ++ p ++ "'") :: map (fun p => "'" ++ p ++ "'") ps))
    with (join ", " (("'" ++ p ++ "'") :: map (fun p => "'" ++ p ++ "'") ps))
    in Hsplit.
  rewrite Hsplit. clear Hsplit Hcommas.
  assert (Hone : forall pad q,
            forallb isSpace pad = true ->
            q <> "" /\
            forallb (fun c => negb (isQuote c) && negb (Ascii.eqb c ",")) q = true ->
            removeQuotes (trim (pad ++ "'" ++ q ++ "'")) = q /\
            Nat.ltb 0 (String.length q) = true).
  { intros pad q Hpad [Hne Hq]. rewrite (trim_quoted _ _ Hpad). split.
    - apply removeQuotes_quoted. eapply forallb_weaken; [|exact Hq].
      intros c Hc. now apply andb_true_iff in Hc.
    - now destruct q. }
  inversion Hclean as [|? ? Hp Hps]; subst.
  cbn [map]. destruct (Hone "" p eq_refl Hp) as [-> Hlen].
  cbn [filter]. rewrite Hlen. f_equal.
  clear Hmatch Hclean Hp Hlen.
  induction Hps as [|q qs Hq Hqs IH]; [reflexivity|].
  cbn [map]. destruct (Hone " " q eq_refl Hq) as [-> Hlen].
  cbn [filter]. rewrite Hlen. now f_equal.
Qed.

Lemma targetPaths_of_quoted_list_witness :
  targetPaths MoreSamples.funcCompile =
  ["contracts/counter.fc"; "contracts/lost.fc"].
Proof.
  apply (targetPaths_of_quoted_list MoreSamples.funcCompile
           ["contracts/counter.fc"; "contracts/lost.fc"] eq_refl).
  repeat constructor; discriminate.
Defined.

Lemma result_target_scan fs cwd projectRoot compileFile kind :
  forall targets errors,
  Forall (fun t => truthyString t = true) targets ->
  result fs
    (forEach targets
       (fun errors targetPath =>
          if truthyString targetPath then
            found <- existsSync (NodeResolve.resolve cwd [projectRoot; targetPath]) ;;
            if negb found then
              Ret (push errors
                     (mkError MissingContract compileFile
                        (missingTargetMessage targetPath compileFile kind)))
            else Ret errors
          else Ret errors)
       errors) =
  inr (errors ++
       map (fun targetPath =>
              mkError MissingContract compileFile
                (missingTargetMessage targetPath compileFile kind))
           (filter (fun targetPath =>
                      negb (FileSystem.existsSync fs
                              (NodeResolve.resolve cwd [projectRoot; targetPath])))
                   targets))%list.
Proof.
  induction targets as [|t ts IH]; intros errors Hall; cbn [forEach filter map].
  - now rewrite app_nil_r.
  - inversion Hall as [|? ? Ht Hts]; subst.
    rewrite result_bind, Ht, result_bind, result_existsSync.
    destruct (FileSystem.existsSync fs _); cbn [negb].
    + rewrite result_Ret. now apply IH.
    + rewrite result_Ret, (IH _ Hts). unfold push. cbn [map].
      now rewrite <- app_assoc.
Qed.

Lemma result_checkCompileFile fs cwd projectRoot compileFile :
  result fs (checkCompileFile cwd projectRoot compileFile) =
  inr (match FileSystem.readFileSync fs (NodePath.pjoin [projectRoot; compileFile]) with
       | inl message =>
           [mkError StructureValidation compileFile
              (unreadableCompileMessage compileFile (messageOrError message))]
       | inr compileContent =>
           map (fun targetPath =>
                  mkError MissingContract compileFile
                    (missingTargetMessage targetPath compileFile
                       (targetKind compileContent)))
               (filter (fun targetPath =>
                          negb (FileSystem.existsSync fs
                                  (NodeResolve.resolve cwd [projectRoot; targetPath])))
                       (targetPaths compileContent))
       end).
Proof.
  unfold checkCompileFile.
  rewrite result_tryCatch, result_bind, result_readFile.
  destruct (FileSystem.readFileSync fs _) as [message|content]; [reflexivity|].
  rewrite result_target_scan; [reflexivity|].
  apply Forall_forall. intros t Ht. now apply targetPaths_In_clean in Ht.
Qed.

(** X25. The check of one compile file never throws.  A file that cannot
    be read gives one diagnostic of type [StructureValidation] with the
    message of the failure and nothing else; a file that can be read gives
    one diagnostic of type [MissingContract] for each extracted target
    path that does not exist relative to the project root, in the order of
    the paths, and none for a path that exists.  The loop over the compile
    files returns the diagnostics of the files one after the other. *)
Theorem checkCompileFiles_result
  (fs : FileSystem.FS) (cwd projectRoot : string) (compileFiles : list string) :
  let diagnostics compileFile :=
    match FileSystem.readFileSync fs (NodePath.pjoin [projectRoot; compileFile]) with
    | inl message =>
        [mkError StructureValidation compileFile
           (unreadableCompileMessage compileFile (messageOrError message))]
    | inr compileContent =>
        map (fun targetPath =>
               mkError MissingContract compileFile
                 (missingTargetMessage targetPath compileFile
                    (targetKind compileContent)))
            (filter (fun targetPath =>
                       negb (FileSystem.existsSync fs
                               (NodeResolve.resolve cwd [projectRoot; targetPath])))
                    (targetPaths compileContent))
    end in
  (forall compileFile,
     result fs (checkCompileFile cwd projectRoot compileFile) =
     inr (diagnostics compileFile)) /\
  result fs (checkCompileFiles cwd projectRoot compileFiles) =
  inr (flat_map diagnostics compileFiles).
Proof.
  intros diagnostics. split; [intros; apply result_checkCompileFile|].
  unfold checkCompileFiles.
  assert (H : forall errors,
            result fs
              (forEach compileFiles
                 (fun errors compileFile =>
                    more <- checkCompileFile cwd projectRoot compileFile ;;
                    Ret (errors ++ more)%list)
                 errors) =
            inr (errors ++ flat_map diagnostics compileFiles)%list).
  { induction compileFiles as [|f fs' IH]; intros errors;
      cbn [forEach flat_map].
    - now rewrite app_nil_r.
    - rewrite result_bind, result_bind, result_checkCompileFile, result_Ret.
      fold (diagnostics f). rewrite IH. now rewrite <- app_assoc. }
  exact (H []).
Qed.

Example compile_files_sample :
  result MoreSamples.compileProject
         (checkCompileFiles "/" "/proj"
            ["wrappers/Counter.compile.ts"; "wrappers/Vault.compile.ts";
             "wrappers/Locked.compile.ts"]) =
  inr [mkError MissingContract "wrappers/Counter.compile.ts"
         "Contract file 'contracts/lost.fc' specified in wrappers/Counter.compile.ts targets array does not exist";
       mkError StructureValidation "wrappers/Locked.compile.ts"
         "Error reading or parsing wrappers/Locked.compile.ts: EACCES: permission denied, open '/proj/wrappers/Locked.compile.ts'"].
Proof. reflexivity. Qed.

End ContractFilesProperties.

(* ------------------------------------------------------------------ *)
(** ** src/index.ts: properties of the action *)

Module IndexProperties.
Import JsString JsStringFacts NodePath PathFacts Types Io IoFacts.
Import StringFacts WrapperNamingProperties ContractFilesCheck ContractFilesProperties.
Import RootFolderFacts Index.

Lemma result_some_pure {A : Type} fs (p : A -> io bool) (f : A -> bool) xs :
  (forall x, result fs (p x) = inr (f x)) ->
  result fs (some p xs) = inr (existsb f xs).
Proof.
  intros Hp. induction xs as [|x t IH]; cbn [some existsb]; [reflexivity|].
  rewrite result_bind, Hp. destruct (f x); [reflexivity|exact IH].
Qed.

Lemma result_filterM_pure {A : Type} fs (p : A -> io bool) (f : A -> bool) xs :
  (forall x, result fs (p x) = inr (f x)) ->
  result fs (filterM p xs) = inr (filter f xs).
Proof.
  intros Hp. induction xs as [|x t IH]; cbn [filterM filter]; [reflexivity|].
  rewrite result_bind, Hp, result_bind, IH, result_Ret. reflexivity.
Qed.

Lemma forEach_invariant {A S : Type} fs (P : S -> Prop)
      (body : S -> A -> io S) (xs : list A) :
  (forall s x s', In x xs -> P s -> result fs (body s x) = inr s' -> P s') ->
  forall s s', P s -> result fs (forEach xs body s) = inr s' -> P s'.
Proof.
  induction xs as [|x t IH]; intros Hstep s s' Hs; cbn [forEach].
  - rewrite result_Ret. now intros [= <-].
  - rewrite result_bind.
    destruct (result fs (body s x)) as [e|s1] eqn:E; [discriminate|].
    apply IH; [|now apply (Hstep s x s1); [left| |]].
    intros s0 y s0' Hy. apply Hstep. now right.
Qed.

Lemma flagged_initial : flagged initialScan.
Proof. unfold flagged. cbn. tauto. Qed.

Lemma flagged_push errors st : errors <> [] -> flagged (pushErrors errors st).
Proof.
  intros Hne. unfold flagged. cbn. split; [discriminate|].
  intros H. apply app_eq_nil in H. tauto.
Qed.

Lemma flagged_addChecked dir st : flagged st -> flagged (addChecked dir st).
Proof. exact (fun H => H). Qed.

Lemma flagged_addValid dir st : flagged st -> flagged (addValid dir st).
Proof. exact (fun H => H). Qed.

Lemma length_positive {A : Type} (l : list A) :
  Nat.ltb 0 (List.length l) = true <-> l <> [].
Proof. destruct l; cbn; split; intros H; try easy. Qed.

Lemma flagged_absorb relativeProjectRoot errors st :
  flagged st -> flagged (absorb relativeProjectRoot errors st).
Proof.
  intros Hst. unfold absorb.
  destruct errors as [|e errors]; [exact Hst|].
  cbn [List.length Nat.ltb Nat.leb]. apply flagged_push.
  cbn [map]. discriminate.
Qed.

Lemma flagged_failed st :
  flagged st -> overallSuccess st = false -> allErrors st <> [].
Proof.
  unfold flagged. intros [_ H] Hf Hnil. rewrite (H Hnil) in Hf. discriminate.
Qed.

Section Action.

Variable JSON_parse : string -> string + Json.json.
Variable cwd : string.
Variable checkRootFolder : string -> io (list LinterError).
Variable checkContractFilesExist : string -> io (list LinterError).
Variable errorText : string -> string.
Variable scanPath : string.
Variable namingCheckDirs : list string.
Variable fs : FileSystem.FS.

Local Set Default Proof Using "Type".

Lemma result_isCharacteristicFolder dir folder :
  result fs (isCharacteristicFolder dir folder) =
  inr (FileSystem.isDirectoryAt fs (NodePath.pjoin [dir; folder])).
Proof. apply result_isExistingDirectory. Qed.

Lemma result_brokenProject header relativeDir dir st :
  result fs (brokenProject header relativeDir dir st) =
  inr (pushErrors
         [mkError BrokenProject relativeDir
            (brokenMessage header dir
               (filter (fun folder =>
                          FileSystem.isDirectoryAt fs (NodePath.pjoin [dir; folder]))
                       CHARACTERISTIC_FOLDERS))]
         st).
Proof.
  unfold brokenProject.
  rewrite result_bind,
    (result_filterM_pure fs _ _ _ (result_isCharacteristicFolder dir)).
  apply result_Ret.
Qed.

(** What one round of the validation loop does to the variables. *)
Lemma validateDir_cases st dir st' :
  result fs (Index.validateDir JSON_parse cwd scanPath st dir) = inr st' ->
  st' = st \/
  st' = addChecked dir st \/
  (exists errors, errors <> [] /\ st' = pushErrors errors (addChecked dir st)) \/
  (st' = addValid dir (addChecked dir st) /\
   includes (checkedDirs st) dir = false /\
   FileSystem.existsSync fs (NodePath.pjoin [dir; "package.json"]) = true /\
   result fs (InitializationCheck.validateProjectStructure JSON_parse dir) = inr []).
Proof.
  unfold Index.validateDir.
  destruct (includes (checkedDirs st) dir) eqn:Hseen.
  { rewrite result_Ret. intros [= <-]. now left. }
  rewrite result_bind, result_existsSync, result_bind.
  rewrite (result_some_pure fs _ _ _ (result_isCharacteristicFolder dir)).
  set (pkg := FileSystem.existsSync fs (NodePath.pjoin [dir; "package.json"])).
  set (direct := existsb _ CHARACTERISTIC_FOLDERS).
  assert (Hrest :
    result fs
      (if pkg then
         validationErrors <- InitializationCheck.validateProjectStructure JSON_parse dir ;;
         if Nat.ltb 0 (List.length validationErrors) then
           Ret (pushErrors (map (mapFile (relativeOrDot scanPath)) validationErrors)
                           (addChecked dir st))
         else Ret (addValid dir (addChecked dir st))
       else if direct then
         brokenProject ("Error in directory '" ++ relativeOrDot scanPath dir ++ "'")
                       (relativeOrDot scanPath dir) dir (addChecked dir st)
       else Ret (addChecked dir st)) = inr st' ->
    st' = st \/
    st' = addChecked dir st \/
    (exists errors, errors <> [] /\ st' = pushErrors errors (addChecked dir st)) \/
    (st' = addValid dir (addChecked dir st) /\ false = false /\ pkg = true /\
     result fs (InitializationCheck.validateProjectStructure JSON_parse dir) = inr [])).
  { destruct pkg eqn:Hpkg.
    - rewrite result_bind.
      destruct (result fs (InitializationCheck.validateProjectStructure JSON_parse dir))
        as [e|errors] eqn:Hval; [discriminate|].
      destruct errors as [|e errors]; cbn [List.length Nat.ltb Nat.leb].
      + rewrite result_Ret. intros [= <-]. right. right. right.
        repeat split; reflexivity.
      + rewrite result_Ret. intros [= <-]. right. right. left.
        eexists. split; [|reflexivity]. discriminate.
    - destruct direct.
      + rewrite result_brokenProject. intros [= <-]. right. right. left.
        eexists. split; [|reflexivity]. discriminate.
      + rewrite result_Ret. intros [= <-]. right. now left. }
  destruct (String.eqb (NodeResolve.resolve cwd [dir]) scanPath); [|exact Hrest].
  destruct (negb pkg && direct) eqn:H1.
  { rewrite result_brokenProject. intros [= <-]. right. right. left.
    eexists. split; [|reflexivity]. discriminate. }
  destruct (negb pkg && negb direct) eqn:H2; [|exact Hrest].
  rewrite result_Ret. intros [= <-]. right. now left.
Qed.

Lemma validateDir_flagged st dir st' :
  flagged st ->
  result fs (Index.validateDir JSON_parse cwd scanPath st dir) = inr st' ->
  flagged st'.
Proof.
  intros Hst H. apply validateDir_cases in H.
  destruct H as [->|[->|[(errors & Hne & ->)|(-> & _)]]]; auto.
  now apply flagged_push.
Qed.

(** One check inside the [try] block: its diagnostics or its exception. *)
Lemma result_attempt (check : io (list LinterError)) :
  result fs (tryCatch (errors <- check ;; Ret (inr errors))
                      (fun message => Ret (inl message))) =
  inr (result fs check).
Proof.
  rewrite result_tryCatch, result_bind.
  now destruct (result fs check).
Qed.

Lemma result_runChecks relativeProjectRoot check rest st :
  result fs (runChecks relativeProjectRoot (check :: rest) st) =
  match result fs check with
  | inl message => inr (st, Some message)
  | inr errors =>
      result fs (runChecks relativeProjectRoot rest
                           (absorb relativeProjectRoot errors st))
  end.
Proof.
  cbn [runChecks]. rewrite result_bind, result_attempt.
  now destruct (result fs check).
Qed.

Lemma runChecks_total relativeProjectRoot checks : forall st,
  exists st' thrown,
    result fs (runChecks relativeProjectRoot checks st) = inr (st', thrown) /\
    (flagged st -> flagged st').
Proof.
  induction checks as [|check rest IH]; intros st.
  - exists st, None. split; [reflexivity|auto].
  - rewrite result_runChecks.
    destruct (result fs check) as [message|errors].
    + exists st, (Some message). split; [reflexivity|auto].
    + destruct (IH (absorb relativeProjectRoot errors st))
        as (st' & thrown & Hres & Hflag).
      exists st', thrown. split; [exact Hres|].
      intros Hst. now apply Hflag, flagged_absorb.
Qed.

Lemma checkProject_total st projectRoot :
  exists st',
    result fs (Index.checkProject checkContractFilesExist errorText scanPath
                 namingCheckDirs st projectRoot) = inr st' /\
    (flagged st -> flagged st').
Proof.
  unfold Index.checkProject. rewrite result_bind.
  destruct (runChecks_total (relativeOrDot scanPath projectRoot)
              (projectChecks checkContractFilesExist namingCheckDirs projectRoot) st)
    as (st1 & thrown & Hres & Hflag).
  rewrite Hres. destruct thrown as [message|].
  - eexists. split; [apply result_Ret|]. intros _. now apply flagged_push.
  - exists st1. split; [apply result_Ret|exact Hflag].
Qed.

Lemma checkProject_flagged st projectRoot st' :
  flagged st ->
  result fs (Index.checkProject checkContractFilesExist errorText scanPath
               namingCheckDirs st projectRoot) = inr st' ->
  flagged st'.
Proof.
  intros Hst Hres.
  destruct (checkProject_total st projectRoot) as (st1 & Hres1 & Hflag).
  rewrite Hres1 in Hres. injection Hres as <-. auto.
Qed.

Lemma action_outcome potentialProjectDirs code reported :
  result fs (Index.action JSON_parse cwd checkRootFolder checkContractFilesExist
               errorText scanPath namingCheckDirs potentialProjectDirs) =
  inr (Exit code reported) ->
  (code = 0 /\ reported = []) \/ (code = 1 /\ reported <> []).
Proof.
  unfold Index.action. rewrite result_bind.
  destruct (result fs (checkRootFolder scanPath)) as [e|rootCheckErrors];
    [discriminate|].
  set (st0 := if Nat.ltb 0 (List.length rootCheckErrors)
              then pushErrors rootCheckErrors initialScan else initialScan).
  assert (H0 : flagged st0).
  { unfold st0. destruct rootCheckErrors; cbn [List.length Nat.ltb Nat.leb].
    - apply flagged_initial.
    - apply flagged_push. discriminate. }
  rewrite result_bind.
  destruct (result fs (forEach potentialProjectDirs
                         (Index.validateDir JSON_parse cwd scanPath) st0))
    as [e|st1] eqn:E1; [discriminate|].
  assert (H1 : flagged st1).
  { eapply (forEach_invariant fs flagged); [|exact H0|exact E1].
    intros s x s' _. apply validateDir_flagged. }
  destruct (Nat.eqb (List.length (validProjectRoots st1)) 0); cbn [andb].
  - destruct (overallSuccess st1) eqn:Hs; cbn [negb].
    + rewrite result_Ret. intros [= <- <-]. now left.
    + rewrite result_Ret. intros [= <- <-]. right.
      split; [reflexivity|now apply flagged_failed].
  - rewrite result_bind.
    destruct (result fs (forEach (validProjectRoots st1)
                (Index.checkProject checkContractFilesExist errorText scanPath
                   namingCheckDirs) st1)) as [e|st2] eqn:E2; [discriminate|].
    assert (H2 : flagged st2).
    { eapply (forEach_invariant fs flagged); [|exact H1|exact E2].
      intros s x s' _. apply checkProject_flagged. }
    destruct (overallSuccess st2) eqn:Hs; cbn [negb].
    + rewrite result_Ret. intros [= <- <-]. now left.
    + rewrite result_Ret. intros [= <- <-]. right.
      split; [reflexivity|now apply flagged_failed].
Qed.

(** X26. The command always ends with exit code 0, 1 or 2, and the code
    tells whether diagnostics were handed to the printer: with code 0
    nothing is reported, with code 1 at least one diagnostic is, and code
    2 with its single basic error is returned exactly when an exception
    leaves the action. *)
Theorem main_exit_code (potentialProjectDirs : list string) :
  exists code reported,
    result fs (Index.main JSON_parse cwd checkRootFolder checkContractFilesExist
                 errorText scanPath namingCheckDirs potentialProjectDirs) =
    inr (Exit code reported) /\
    (code = 0 \/ code = 1 \/ code = 2) /\
    (code = 0 <-> reported = []) /\
    (code = 2 <->
     exists message,
       result fs (Index.action JSON_parse cwd checkRootFolder
                    checkContractFilesExist errorText scanPath namingCheckDirs
                    potentialProjectDirs) = inl message).
Proof.
  unfold Index.main. rewrite result_tryCatch.
  destruct (result fs (Index.action JSON_parse cwd checkRootFolder
                         checkContractFilesExist errorText scanPath
                         namingCheckDirs potentialProjectDirs))
    as [message|[code reported]] eqn:E.
  - eexists 2, _. split; [apply result_Ret|].
    split; [tauto|]. split; [split; discriminate|].
    split; [now exists message|reflexivity].
  - exists code, reported. split; [reflexivity|].
    apply action_outcome in E.
    destruct E as [[-> ->]|[-> Hne]].
    + split; [tauto|]. split; [tauto|].
      split; [discriminate|]. now intros (m & Hm).
    + split; [tauto|]. split; [split; [discriminate|tauto]|].
      split; [discriminate|]. now intros (m & Hm).
Qed.

(** X27. Only validated projects reach the naming checks, and each of
    them once.  When the validation loop starts with no valid project and
    no checked directory, the project roots it collects are pairwise
    distinct, are among the directories it was given, have a manifest, and
    are directories for which [validateProjectStructure] returns no
    diagnostic. *)
Theorem validProjectRoots_validated
  (potentialProjectDirs : list string) (st0 st : Scan) :
  validProjectRoots st0 = [] -> checkedDirs st0 = [] ->
  result fs (forEach potentialProjectDirs
               (Index.validateDir JSON_parse cwd scanPath) st0) = inr st ->
  NoDup (validProjectRoots st) /\
  forall projectRoot, In projectRoot (validProjectRoots st) ->
    In projectRoot potentialProjectDirs /\
    FileSystem.existsSync fs (NodePath.pjoin [projectRoot; "package.json"]) = true /\
    result fs (InitializationCheck.validateProjectStructure JSON_parse projectRoot) =
    inr [].
Proof.
  intros Hroots Hchecked Hres.
  pose (J := fun st : Scan =>
    NoDup (validProjectRoots st) /\
    (forall d, In d (checkedDirs st) -> In d potentialProjectDirs) /\
    forall p, In p (validProjectRoots st) ->
      In p (checkedDirs st) /\
      FileSystem.existsSync fs (NodePath.pjoin [p; "package.json"]) = true /\
      result fs (InitializationCheck.validateProjectStructure JSON_parse p) = inr []).
  assert (HJ : J st).
  { eapply (forEach_invariant fs J); [| |exact Hres].
    - intros s dir s' Hdir (Hnd & Hsub & Hvalid) Hstep.
      apply validateDir_cases in Hstep.
      assert (Hsub' : forall d, In d (push (checkedDirs s) dir) ->
                                In d potentialProjectDirs).
      { intros d Hd. apply in_app_iff in Hd.
        destruct Hd as [Hd|[<-|[]]]; auto. }
      assert (Hvalid' : forall p, In p (validProjectRoots s) ->
                In p (push (checkedDirs s) dir) /\
                FileSystem.existsSync fs (NodePath.pjoin [p; "package.json"]) = true /\
                result fs (InitializationCheck.validateProjectStructure JSON_parse p)
                = inr []).
      { intros p Hp. destruct (Hvalid p Hp) as (H1 & H2 & H3).
        split; [apply in_app_iff; now left|now split]. }
      destruct Hstep as [->|[->|[(errors & _ & ->)|(-> & Hnew & Hpkg & Hval)]]].
      + unfold J. auto.
      + unfold J. cbn [validProjectRoots checkedDirs addChecked]. auto.
      + unfold J. cbn [validProjectRoots checkedDirs addChecked pushErrors]. auto.
      + unfold J. cbn [validProjectRoots checkedDirs addValid addChecked].
        split; [|split; [exact Hsub'|]].
        * apply NoDup_snoc; [exact Hnd|]. intros Hin.
          apply Hvalid in Hin. destruct Hin as [Hin _].
          apply includes_false in Hnew. contradiction.
        * intros p Hp. apply in_app_iff in Hp. destruct Hp as [Hp|[<-|[]]].
          -- now apply Hvalid'.
          -- split; [apply in_app_iff; right; now left|now split].
    - unfold J. rewrite Hroots, Hchecked.
      split; [constructor|]. split; intros ? []. }
  destruct HJ as (Hnd & Hsub & Hvalid).
  split; [exact Hnd|]. intros p Hp.
  destruct (Hvalid p Hp) as (H1 & H2 & H3). auto.
Qed.


(** X30. A directory that has not been looked at yet, has no manifest and
    holds a characteristic folder is reported as a broken project: the
    validation pushes one diagnostic of type [BrokenProject] whose message
    lists exactly the characteristic folders present, lowers the success
    flag, and does not add the directory to the valid project roots. *)
Theorem validateDir_broken_project (st : Scan) (dir : string) :
  let present folder :=
    FileSystem.isDirectoryAt fs (NodePath.pjoin [dir; folder]) in
  let relativeDir := relativeOrDot scanPath dir in
  let header :=
    if String.eqb (NodeResolve.resolve cwd [dir]) scanPath
    then "Error in top-level directory '.'"
    else "Error in directory '" ++ relativeDir ++ "'" in
  includes (checkedDirs st) dir = false ->
  FileSystem.existsSync fs (NodePath.pjoin [dir; "package.json"]) = false ->
  existsb present CHARACTERISTIC_FOLDERS = true ->
  exists st',
    result fs (Index.validateDir JSON_parse cwd scanPath st dir) = inr st' /\
    allErrors st' =
      (allErrors st ++
       [mkError BrokenProject relativeDir
          (brokenMessage header dir (filter present CHARACTERISTIC_FOLDERS))])%list /\
    overallSuccess st' = false /\
    validProjectRoots st' = validProjectRoots st.
Proof.
  intros present relativeDir header Hnew Hpkg Hdirect.
  unfold Index.validateDir. rewrite Hnew.
  rewrite result_bind, result_existsSync, Hpkg, result_bind.
  rewrite (result_some_pure fs _ _ _ (result_isCharacteristicFolder dir)).
  fold present. rewrite Hdirect. cbn [negb andb]. fold relativeDir.
  unfold header.
  destruct (String.eqb (NodeResolve.resolve cwd [dir]) scanPath);
    rewrite result_brokenProject; eexists; (split; [reflexivity|]);
    now repeat split.
Qed.

End Action.

Lemma validProjectRoots_validated_witness :
  result MoreSamples.completeProject
         (InitializationCheck.validateProjectStructure
            MoreSamples.parseComplete "/proj") = inr [].
Proof.
  refine (proj2 (proj2 (proj2 (validProjectRoots_validated
            MoreSamples.parseComplete "/" "/" MoreSamples.completeProject
            ["/proj"] initialScan
            (addValid "/proj" (addChecked "/proj" initialScan))
            eq_refl eq_refl eq_refl) "/proj" _))).
  now left.
Defined.

Lemma validateDir_broken_project_witness :
  exists st',
    result MoreSamples.unmarked
           (Index.validateDir Samples.parseSample "/" "/code" initialScan "/code") =
      inr st' /\
    allErrors st' =
      [mkError BrokenProject "."
         ("Error in top-level directory '.': Do not use 'npx blueprint create' to scaffold the entire project. Use 'npm create ton@latest' instead." ++
          newline ++
          "  Detected characteristic folders without 'package.json'. Consider removing them:" ++
          newline ++ "    - /code/contracts")] /\
    overallSuccess st' = false /\
    validProjectRoots st' = [].
Proof.
  exact (validateDir_broken_project Samples.parseSample "/" "/code"
           MoreSamples.unmarked initialScan "/code" eq_refl eq_refl eq_refl).
Defined.

Lemma dropSpaces_pad pad s :
  forallb isSpace pad = true ->
  WrapperNamingRule.dropSpaces (pad ++ s) = WrapperNamingRule.dropSpaces s.
Proof.
  induction pad as [|c pad IH]; cbn [forallb append]; [reflexivity|].
  intros H. apply andb_true_iff in H. destruct H as [Hc Hpad].
  cbn [WrapperNamingRule.dropSpaces]. now rewrite Hc, IH.
Qed.

Lemma trim_pad pad s : forallb isSpace pad = true -> trim (pad ++ s) = trim s.
Proof. intros H. unfold trim. now rewrite dropSpaces_pad. Qed.

Lemma splitOn_join_pad pad pre q qs :
  forallb (fun c => negb (Ascii.eqb c ",")) pad = true ->
  forallb (fun c => negb (Ascii.eqb c ",")) pre = true ->
  Forall (fun q => forallb (fun c => negb (Ascii.eqb c ",")) q = true) (q :: qs) ->
  splitOn "," (pre ++ join ("," ++ pad) (q :: qs)) =
  (pre ++ q) :: map (fun q => pad ++ q) qs.
Proof.
  intros Hpad. revert pre q.
  induction qs as [|q' qs IH]; intros pre q Hpre Hall.
  - cbn [join String.concat map]. apply splitOn_plain.
    rewrite forallb_app, Hpre. now inversion Hall.
  - inversion Hall as [|? ? Hq Hall']; subst.
    change (join ("," ++ pad) (q :: q' :: qs))
      with (q ++ String "," (pad ++ join ("," ++ pad) (q' :: qs))).
    rewrite <- append_assoc, splitOn_app by now rewrite forallb_app, Hpre.
    rewrite (IH pad q' Hpad Hall'). reflexivity.
Qed.

Lemma space_not_comma pad :
  forallb isSpace pad = true ->
  forallb (fun c => negb (Ascii.eqb c ",")) pad = true.
Proof.
  apply forallb_weaken. intros c.
  destruct c as [[] [] [] [] [] [] [] []]; vm_compute; intros H;
    first [reflexivity|discriminate H].
Qed.

(** X29. The parser of the option [--dirs] gives back a list that was
    written with commas, whatever blanks follow each comma: when no
    directory name holds a comma or starts or ends with a blank, the
    non-empty list [dirs], joined by a comma and blanks, is parsed to
    [dirs]. *)
Theorem parseDirs_round_trip (pad : string) (dirs : list string) :
  forallb isSpace pad = true ->
  dirs <> [] ->
  Forall (fun d => trim d = d /\
                   forallb (fun c => negb (Ascii.eqb c ",")) d = true) dirs ->
  parseDirs (join ("," ++ pad) dirs) = dirs.
Proof.
  intros Hpad Hne Hall. destruct dirs as [|d ds]; [easy|].
  unfold parseDirs.
  pose proof (splitOn_join_pad pad "" d ds (space_not_comma _ Hpad) eq_refl) as Hsplit.
  change ("" ++ join ("," ++ pad) (d :: ds)) with (join ("," ++ pad) (d :: ds))
    in Hsplit.
  rewrite Hsplit by (eapply Forall_impl; [|exact Hall]; now intros ? [_ ?]).
  inversion Hall as [|? ? [Hd _] Hds]; subst.
  cbn [map append]. rewrite Hd. f_equal.
  clear Hsplit Hall Hne Hd.
  induction Hds as [|q qs [Hq _] Hqs IH]; [reflexivity|].
  cbn [map]. now rewrite (trim_pad _ _ Hpad), Hq, IH.
Qed.

Lemma parseDirs_round_trip_witness :
  parseDirs "contracts, wrappers, tests" = ["contracts"; "wrappers"; "tests"].
Proof.
  apply (parseDirs_round_trip " " ["contracts"; "wrappers"; "tests"] eq_refl).
  - discriminate.
  - repeat constructor.
Defined.

End IndexProperties.
